(* ===== verification/_CoqProject ===== *)
-Q . S2P
Prelude.v
GoStd.v
Url.v
Log.v
Float.v
Sampler.v
Lb.v
Conf.v
Buffer.v
Net.v
RelayConn.v
UdpListener.v
UdpCopy.v
Cmgr.v
Transporter.v
WsUrl.v
RelaySpec.v
RateLimit.v
Accounting.v
CopyPar.v
WsStream.v
Config.v
Tls.v
Metrics.v
Watch.v
Relay.v
Serve.v
Lifecycle.v
ConnTracker.v
UserPool.v
UserSync.v
Xray.v
XrayBilling.v
Auth.v
SharedConfig.v
MetricsStore.v
MetricsOpen.v
MetricsQuery.v
CmgrLoop.v
Updater.v
GitHub.v
UpdateRace.v
Limiter.v
Web.v
Routes.v
WsRoutes.v
System.v
Entry.v
Process.v
Tunnel.v
