(* ===== verification/Prelude.v ===== *)
(** * ehco: a verification library for the relay, its dashboard and its xray user plane

    ehco is a network relay: it accepts TCP, UDP and WebSocket connections, chooses a remote
    by round robin, hands the bytes over, counts them, and reports to a control plane; an
    embedded xray serves proxy users whose accounts come from a panel; a dashboard shows and
    steers the whole, and an updater replaces the binary.  This library models that Go code
    as functions and step relations and proves what each part promises.

    ** Conventions

    A Go function [T.M] is the definition [T_M] (or [M] where that is unambiguous); struct
    fields become record fields with the same names, a package's own constants keep
    theirs.  [int] and [int64] are integers of [Z] with [wrap64] where the code computes
    (64-bit platforms).  A call that can fail or panic returns an [outcome]: [Ret], [Err]
    with the error value, or [Panic] with the run-time panic.  What the program cannot
    decide is an argument: the clock (nanoseconds), the order in which a map is iterated,
    random bytes, the results of sockets, files and HTTP requests, and the behaviour of
    third-party packages.  Where several goroutines touch the same state, the operations
    are split into atomic steps and the claims are about every interleaving.

    ** The files, bottom up

    - [Prelude]: errors, outcomes, sums over lists, reachability, shared tactics and hints.
      [GoStd]: the fragment of the Go run time and standard library that is used (integers,
      durations, [strings], [strconv]).  [Url]: the query part of net/url (escaping, [Values]).
    - [Log] (pkg/log, pkg/xray/log_bridge.go, internal/web/handlers_ws.go): the loggers of the
      process and the fan-out of their records to the dashboards.
    - [Float]: binary64 arithmetic with the rounding of [math.Round] and the lemmas on bounds;
      [Sampler] (internal/cmgr/sampler, pkg/xray/bandwidth_recorder.go, pkg/bytes): node and
      bandwidth sampling, and the pretty printers, on it.
    - [Lb] (internal/lb/round_robin.go): the balancer with its int64 cursor.
    - [Conf] (internal/relay/conf/cfg.go): one relay's configuration: adjust, validate,
      clone, compare.
    - [Buffer] (pkg/buffer/buffer.go): the bounded pool; slices are known by identity, so a
      slice with two holders can be expressed.
    - [Net] (internal/conn/ws_conn.go, limit_reader.go; peekedConn of sniff.go): the stacked
      connection wrappers over one world [netw] of descriptors and pools.  [WsStream]: the
      WebSocket wrapper on the bytes of a socket, over the interface [WsLib] of gobwas/ws,
      with the frame format of RFC 6455 as an instance.  [RateLimit]: the rate-limited reader
      over the interface [TokenBucket].
    - [RelayConn] (internal/conn/relay_conn.go): the two copy loops of a relayed connection,
      idle timeouts, counters, closing; [Stats] as shared memory.  [CopyPar]: the same two
      loops as goroutines that interleave.  [Tunnel]: two relays in a row, the writes of one
      loop being the frames the other one reads.
    - [UdpListener] (internal/conn/udp_listener.go): listener, accept loop and clients of a
      UDP port as an interleaving with lock, bounded channels and closing.  [UdpCopy]: one of
      its clients in the copy loop.
    - [Cmgr] (internal/cmgr/cmgr.go, syncer.go, config.go): active and closed connections,
      paging, the push to the control plane, the ticker, the read-write lock.  [CmgrLoop]: the
      loop of [Start] with its samples, the metrics store and the request it posts.
    - [Transporter] (internal/transporter): what happens to one accepted connection (limit,
      sniffing, rate limit, handshake, relay, gauges) for the raw and WebSocket servers.
      [WsUrl]: the query a WebSocket client sends and what the server makes of it.
      [RelaySpec]: one accepted connection as an abstract relay, and the refinement.
    - [Accounting]: the transport, the manager and the push together: what a connection's
      sockets moved against what is reported for its relay.
    - [Config] (internal/config/config.go): the program's configuration and its loading.
    - [Tls] (internal/tls/tls.go, internal/transporter/wss.go): the process-wide certificate
      and its users.  [Metrics] (internal/metrics): registration and the ping group.
    - [Relay] (internal/relay/server.go, server_reloader.go, relay.go): the running relays
      and the hot reload; goroutines that were started but have not run are [pending].
      [Serve] (internal/transporter): the dialers and listeners, and a WebSocket server beside its
      [Close]; [WsRoutes]: the paths that server answers.
      [Watch]: the ticker, signal and watcher goroutines of server.go with their channels.
      [Lifecycle]: server and reloader as threads that interleave, with listening sockets,
      [errCH] and panics.
    - [ConnTracker], [UserPool], [Xray] (pkg/xray): the registry of proxied connections with
      its per-user index, the users and their synchronisation with panel and inbound (the
      inbound is the class [InboundManager] with its laws), and metered dispatch, the xray
      configuration, (re)start and the admin handlers.  [UserSync] (user.go, pkg/http/http.go):
      the pool's cycle: requests, bandwidth, report, [Start] and [Stop].  [XrayBilling]: a
      restart of xray and the traffic not yet reported.
    - [Auth] (internal/web/auth.go): sessions, gate, login and logout.  [SharedConfig]: the one
      configuration object that the relay server, the authenticator and xray read, and what a
      reload of the relays does to the other two.
    - [MetricsStore] (internal/cmgr/ms): the metrics table behind the class [NodeTable], the
      row-count cache, and latency recorders under concurrency; [MetricsOpen]: opening and
      closing the file; [MetricsQuery]: the queries and the snapshots of the recorders.
    - [Updater] (internal/updater/updater.go): the choice of a release and its installation;
      [GitHub]: its HTTP requests and their status; [UpdateRace]: installations as steps on
      inodes, several at a time.
    - [Limiter] (pkg/limiter/limiter.go): per-address limiters and their collection.
    - [Web] (internal/web): the API handlers; [Routes]: the route table, and the gate before it;
      [System] (internal/cli/config.go): how the
      parts are put together; [Entry] (internal/cli, cmd/ehco, handler_update.go): flags,
      commands, exit status, and the update endpoints; [Process]: the running program, main,
      the relay server, the dashboard and the threads of [Lifecycle] as goroutines that
      interleave with signals until the process ends.

    ** What is proved

    - Refinement: an accepted connection is relayed as an abstract relay would do it, with the
      limit, the blocked protocols, the handshake and every byte in order
      ([RelaySpec.relay_refines]); a hot reload makes the server run exactly what the new configuration asks
      for and restarts nothing else ([Relay.Reload_refines]); a user synchronisation makes
      pool and inbound agree with the panel ([UserPool.syncUserConfigs_refines]); the session
      store accepts exactly the sessions an abstract history allows
      ([Auth.session_refines]); while nobody reloads, the main goroutine does what the sequential
      start does ([Process.main_refines]).
    - Interleavings: however the two copy loops of a connection interleave, they end as they
      would one after the other ([CopyPar.copyConn_interleavings]); one reload at a time, with the goroutines of the relays beside it, always
      ends, never ends the server or the process, and leaves exactly the new relays bound
      ([Lifecycle.serial_reload_safe]); an installation that runs alone never exposes a torn
      binary ([UpdateRace.install_always_whole]); a log record reaches every subscriber that
      can be written to ([Log.log_fanout]); no request for a reload is lost, and none makes the
      goroutines run for ever ([Watch.reload_requests_served]); a signal ends a running process with
      status 0 however it is scheduled ([Process.orderly_shutdown]), every end has one of a few
      causes ([Process.process_end_explained]).
    - End to end: every byte a connection moved is reported exactly once, under its relay,
      whatever the order of accepts, ends and pushes ([Accounting.bytes_reported]); what one
      end of a WebSocket hop writes the other delivers, if the frames fit its buffers
      ([WsStream.ws_hop_delivers]), so two relays in a row deliver what one does
      ([Tunnel.tunnel_delivers]) and report the same traffic ([Tunnel.relays_report_alike]), but
      only if their buffers agree ([Tunnel.tunnel_needs_buffers]); both ends of a hop agree on
      the remote ([WsUrl.ws_remote_agrees]); every tick of the manager's loop leaves a row in
      the store ([CmgrLoop.loop_stores_every_tick]); a reload changes the credentials of the
      dashboard ([SharedConfig.reload_rotates_credentials]).
    - Invariants: connections, UDP datagrams, registry entries, traffic counters, buffers and
      rows are accounted for in every reachable state ([Cmgr.connections_accounted],
      [UdpListener.udp_isolation], [ConnTracker.tracker_queries],
      [UserPool.traffic_conserved], [UserSync.syncOnce_accounts], [MetricsStore.row_count_cache]); a buffer
      has one holder at a time ([Buffer.pool_exclusive]).
    - Safety across components: no protected handler runs without credentials
      ([Auth.access_needs_credentials]), however its path is escaped
      ([Routes.routes_protected]); what replaces the binary is what GitHub served
      ([GitHub.Apply_over_http]); after one relayed connection the gauge and the
      active set are what they were and the dialed socket is closed
      ([Transporter.RelayTCPConn_balanced]); the binary is never
      half replaced ([Updater.Apply_atomic]); a dashboard always has its store
      ([System.dashboard_has_store]).
    - Functional behaviour: copying delivers all bytes in order, and a prefix under any
      failure; validation, loading, start-up, reports, bucketed queries and constructors on every
      branch; sampled rates are never negative or NaN ([Sampler.Sample_rates]); a rate limit
      holds over any sequence of reads ([RateLimit.limit_is_kept]); a restart keeps the rows of
      the last 30 days ([MetricsOpen.reopen_keeps_recent]); a token bucket
      survives at least a collection interval ([Limiter.bucket_survives_a_minute]).
    - Termination and fuel: after a signal the process ends within [Process.proc_weight] of its own
      steps ([Process.shutdown_terminates]); a UDP session ends when its client has been silent for the idle
      timeout, after a round for every read until then ([UdpCopy.udp_session_spins]); [CopyBuffer] has a round per chunk, and with one more round than
      chunks it ends ([RelayConn.CopyBuffer_delivers]); concurrent recording ends after at
      most 2n² + 6n steps ([MetricsStore.opStats_concurrent]); the other recursions are
      structural.
    - Defects, as theorems about the code as it is: a failed or rejected load poisons the next
      reload, a WebSocket buffer is returned twice, a refused connection is left open, a
      failed removal is never retried, a second inbound is never fed, a closed UDP client
      can crash the process or deadlock the listener, racing counters lose bytes, a failed
      xray reload is final, and without a control plane closed connections are never freed
      and the metrics are never sampled; two reloads at once, or two relays that swap addresses,
      can end the server; two updates at once publish an empty binary; an error page of the
      panel empties the user pool; a failed reading turns into a spike; a failed certificate
      makes a later start dereference nil; the alive gauge can stay at "init"; the reload ticker
      loads at every second tick only; Up and Down of a connection are the same sum; a reload
      of the relays hides a change from xray; a timeout inside a WebSocket frame loses its
      start and the rest is read as a header; control frames are relayed as data; a reload
      forgets options and unreported traffic; the raw transport ignores the dial timeout; the pushed rates are always zero; a half-close
      reaches only bare TCP connections; main does not wait for the relays to be closed, and
      SIGTERM during the start can crash the process ([Process.shutdown_depends_on_schedule]).

    ** What is not modelled

    Left out because the code only calls it: third-party protocols (the WebSocket upgrade, mptcp,
    xray-core and the building of its configuration, SQLite, token buckets, echo's choice of
    a route, semver, crypto/x509) are arguments or interfaces with laws; log encoding and
    histogram buckets are zap's and Prometheus's, parsing of arguments and environment is
    urfave/cli's, and a JSON document is its decoded value.  Left out because nothing
    depends on it: the rendering of pages, of connections ([GetTime], [GetFlow],
    [Stats.String]) and of the version, and the access log.  A ticker or a
    signal is an event; cancelling a context reaches the goroutines that look at it, and
    its effect inside library calls is among their results.  The path part of URLs is
    a parameter ([url.JoinPath]).  [ToLower] and [EqualFold] are exact on ASCII strings only.  A [null]
    entry in a JSON list of relays, a nil pointer in Go, has no counterpart.  [Process] has the
    gauge of [Entry.alive_step] and the loops of xray and of the manager left out: they
    are in [Entry], [SharedConfig], [UserSync] and [CmgrLoop], and nothing waits for them. *)

From stdpp Require Export base gmap strings list list_numbers sorting fin_maps.
From Stdlib Require Export ZArith Lia.

#[global] Open Scope Z_scope.
#[global] Set Default Goal Selector "!".

Declare Scope go_scope.
Delimit Scope go_scope with go.

(** ** Errors

    A Go [error] value.  [Errorf] is an error made by [fmt.Errorf] or by a library and
    known by its text, [Wrapf] is [fmt.Errorf("...%w", err)], [Joined] is [errors.Join] of two non-nil errors, [Sentinel]
    is a package-level error variable, compared by identity (here: by its name), and
    [NetError] is a [net.Error], with its [Timeout()] flag. *)
Inductive error : Type :=
  | Errorf (msg : string)
  | Wrapf (msg : string) (inner : error)
  | Joined (e1 e2 : error)
  | Sentinel (name : string)
  | NetError (timeout : bool) (msg : string).

#[global] Instance error_eq_dec : EqDecision error.
Proof. solve_decision. Defined.

(** [err.Error()].  [errors.Join] separates with a newline. *)
Fixpoint error_text (e : error) : string :=
  match e with
  | Errorf msg | Sentinel msg | NetError _ msg => msg
  | Wrapf msg inner => String.append msg (error_text inner)
  | Joined e1 e2 => String.append (error_text e1) (String (Ascii.ascii_of_nat 10) (error_text e2))
  end.

(** [errors.Is(err, target)] for a target compared by identity. *)
Fixpoint errors_Is (e target : error) : bool :=
  bool_decide (e = target) ||
  match e with
  | Wrapf _ inner => errors_Is inner target
  | Joined e1 e2 => errors_Is e1 target || errors_Is e2 target
  | _ => false
  end.

(** [errors.Join(err1, err2)]: nil arguments are dropped. *)
Definition errors_Join (e1 e2 : option error) : option error :=
  match e1, e2 with
  | Some a, Some b => Some (Joined a b)
  | Some a, None => Some a
  | None, e => e
  end.

(** [io.EOF] *)
Definition io_EOF : error := Sentinel "EOF".

(** ** Outcomes

    What a Go call ends with: a value, a non-nil error, or a run-time panic. *)
Inductive panic : Type :=
  | NilDereference
  | DivideByZero
  | IndexOutOfRange
  | SliceOutOfRange
  | CloseOfClosedChannel
  | SendOnClosedChannel
  | ExplicitPanic (msg : string).

#[global] Instance panic_eq_dec : EqDecision panic.
Proof. solve_decision. Defined.

Inductive outcome (A : Type) : Type :=
  | Ret (a : A)
  | Err (e : error)
  | Panic (p : panic).
Arguments Ret {A} a.
Arguments Err {A} e.
Arguments Panic {A} p.

#[global] Instance outcome_eq_dec `{EqDecision A} : EqDecision (outcome A).
Proof. solve_decision. Defined.

#[global] Instance outcome_ret : MRet outcome := λ A a, Ret a.
#[global] Instance outcome_bind : MBind outcome := λ A B f m,
  match m with Ret a => f a | Err e => Err e | Panic p => Panic p end.
#[global] Instance outcome_fmap : FMap outcome := λ A B f m,
  match m with Ret a => Ret (f a) | Err e => Err e | Panic p => Panic p end.

Definition is_Panic {A} (m : outcome A) : Prop := ∃ p, m = Panic p.

(** [if err != nil { return ..., err }] *)
Definition check_err (e : option error) : outcome unit :=
  match e with Some err => Err err | None => Ret tt end.

Lemma outcome_bind_Ret {A B} (m : outcome A) (f : A → outcome B) b :
  m ≫= f = Ret b ↔ ∃ a, m = Ret a ∧ f a = Ret b.
Proof. split; [destruct m; naive_solver|]. by intros (a & -> & ?). Qed.

Lemma outcome_bind_Err {A B} (m : outcome A) (f : A → outcome B) e :
  m ≫= f = Err e ↔ m = Err e ∨ ∃ a, m = Ret a ∧ f a = Err e.
Proof. split; [destruct m; naive_solver|]. by intros [->|(a & -> & ?)]. Qed.

Lemma outcome_bind_Panic {A B} (m : outcome A) (f : A → outcome B) p :
  m ≫= f = Panic p ↔ m = Panic p ∨ ∃ a, m = Ret a ∧ f a = Panic p.
Proof. split; [destruct m; naive_solver|]. by intros [->|(a & -> & ?)]. Qed.

(** ** Sums over lists *)

Fixpoint sum_Z (l : list Z) : Z :=
  match l with [] => 0 | x :: l => x + sum_Z l end.

Lemma sum_Z_app l1 l2 : sum_Z (l1 ++ l2) = sum_Z l1 + sum_Z l2.
Proof. induction l1 as [|x l1 IH]; simpl; [done|]. rewrite IH. lia. Qed.

#[global] Instance sum_Z_Permutation : Proper ((≡ₚ) ==> (=)) sum_Z.
Proof. intros l1 l2 Hp. induction Hp; simpl; lia. Qed.

Lemma sum_Z_concat (ls : list (list Z)) : sum_Z (concat ls) = sum_Z (sum_Z <$> ls).
Proof. induction ls as [|l ls IH]; csimpl; [done|]. by rewrite sum_Z_app, IH. Qed.

Lemma foldl_add_sum_Z {A} (f : A → Z) l (z : Z) :
  foldl (λ acc x, acc + f x) z l = z + sum_Z (f <$> l).
Proof. revert z. induction l as [|x l IH]; intros z; csimpl; [lia|]. rewrite IH. lia. Qed.

(** ** Relations *)

(** The states a step relation reaches from its initial states. *)
Inductive reachable {S : Type} (init : S → Prop) (step : S → S → Prop) : S → Prop :=
  | reach_init s : init s → reachable init step s
  | reach_step s s' : reachable init step s → step s s' → reachable init step s'.

Lemma reachable_invariant {S} (init : S → Prop) (step : S → S → Prop) (I : S → Prop) :
  (∀ s, init s → I s) →
  (∀ s s', I s → step s s' → I s') →
  ∀ s, reachable init step s → I s.
Proof. intros Hi Hs s Hr. induction Hr; eauto. Qed.

Lemma reachable_rtc {S} (init : S → Prop) (step : S → S → Prop) s s' :
  reachable init step s → rtc step s s' → reachable init step s'.
Proof. intros Hs Hr. induction Hr as [|? ? ? Hstep _ IH]; [done|]. apply IH. by eapply reach_step. Qed.

(** ** Automation *)

Create HintDb ehco.
Create Rewrite HintDb ehco.
#[export] Hint Resolve reach_init reach_step : ehco.
#[export] Hint Rewrite @length_app @length_fmap @length_replicate @length_insert : ehco.

(** Case analysis on every [match] and [if decide] of the goal and the hypotheses. *)
Ltac go_cases :=
  repeat (case_match || case_bool_decide || case_decide || simplify_eq/=).

(** Invert an outcome equation through its binds. *)
Ltac inv_outcome :=
  repeat match goal with
  | H : _ ≫= _ = Ret _ |- _ => apply outcome_bind_Ret in H as (? & ? & ?)
  | H : _ ≫= _ = Err _ |- _ => apply outcome_bind_Err in H as [?|(? & ? & ?)]
  | H : check_err ?e = Ret _ |- _ => destruct e eqn:?; simplify_eq/=
  | _ => progress simplify_eq/=
  end.
