(* ===== verification/GoStd.v ===== *)
(** * The fragment of Go's run time and standard library the program uses

    Machine integers ([int] and [int64] are 64-bit two's complement, as on the amd64 and
    arm64 releases the project ships), [time.Duration] constants, [strings], [strconv] and
    the [fmt] verbs that occur in the modelled functions.  Strings are byte strings. *)

From S2P Require Import Prelude.
From Stdlib Require Export Ascii.
From Stdlib Require Import Decimal DecimalString DecimalNat DecimalN DecimalZ.

(** ** int64 *)

Definition min_int64 : Z := - 2 ^ 63.
Definition max_int64 : Z := 2 ^ 63 - 1.

(** Two's complement wrap-around of a mathematical integer. *)
Definition wrap64 (z : Z) : Z := (z + 2 ^ 63) mod 2 ^ 64 - 2 ^ 63.

(** Conversion to, and wrap-around at, uint64. *)
Definition wrapu64 (z : Z) : Z := z mod 2 ^ 64.

Definition in_int64 (z : Z) : Prop := min_int64 ≤ z ≤ max_int64.

Lemma wrap64_id z : in_int64 z → wrap64 z = z.
Proof.
  unfold in_int64, wrap64, min_int64, max_int64. intros ?.
  rewrite Z.mod_small; lia.
Qed.

Lemma in_int64_0 : in_int64 0.
Proof. unfold in_int64, min_int64, max_int64. lia. Qed.

Lemma wrap64_range z : in_int64 (wrap64 z).
Proof.
  unfold in_int64, wrap64, min_int64, max_int64.
  pose proof (Z.mod_pos_bound (z + 2 ^ 63) (2 ^ 64) ltac:(lia)). lia.
Qed.

Lemma wrap64_add z k : wrap64 (z + k * 2 ^ 64) = wrap64 z.
Proof.
  unfold wrap64. replace (z + k * 2 ^ 64 + 2 ^ 63) with (z + 2 ^ 63 + k * 2 ^ 64) by lia.
  by rewrite Z_mod_plus_full.
Qed.

Lemma wrap64_wrap64_add a b : wrap64 (wrap64 a + b) = wrap64 (a + b).
Proof.
  unfold wrap64. f_equal.
  replace ((a + 2 ^ 63) mod 2 ^ 64 - 2 ^ 63 + b + 2 ^ 63)
    with ((a + 2 ^ 63) mod 2 ^ 64 + b) by lia.
  rewrite Zplus_mod_idemp_l. f_equal. lia.
Qed.

Lemma wrap64_succ_pred z : in_int64 z → wrap64 (wrap64 (z + 1) - 1) = z.
Proof.
  intros Hz. rewrite <- Z.add_opp_r, wrap64_wrap64_add.
  replace (z + 1 + - (1)) with z by lia. by apply wrap64_id.
Qed.

(** Go's [/] and [%] truncate towards zero; the machine result is wrapped (only
    [min_int64 / -1] is affected). *)
Definition go_div (a b : Z) : Z := wrap64 (Z.quot a b).
Definition go_rem (a b : Z) : Z := Z.rem a b.

(** ** time.Duration (int64 nanoseconds) *)

Definition Nanosecond : Z := 1.
Definition Millisecond : Z := 1000000.
Definition Second : Z := 1000000000.
Definition Minute : Z := 60 * Second.
Definition Hour : Z := 60 * Minute.

(** [d.Milliseconds()]: truncated division. *)
Definition Duration_Milliseconds (d : Z) : Z := Z.quot d Millisecond.

(** [int(d.Seconds())]: the float conversion followed by truncation. *)
Definition Duration_Seconds_int (d : Z) : Z := Z.quot d Second.

(** [t.Sub(u)] for two instants in nanoseconds: saturates at the int64 bounds. *)
Definition time_Sub (t u : Z) : Z := Z.max min_int64 (Z.min max_int64 (t - u)).

(** ** strings *)

Definition HasPrefix (s p : string) : bool := String.prefix p s.

Definition Contains (s sub : string) : bool :=
  match String.index 0 sub s with Some _ => true | None => false end.

Definition TrimPrefix (s p : string) : string :=
  if HasPrefix s p then String.substring (String.length p) (String.length s - String.length p) s
  else s.

(** ASCII lower-casing of a byte; the other bytes are left alone. *)
Definition ascii_lower (c : Ascii.ascii) : Ascii.ascii :=
  let n := Ascii.N_of_ascii c in
  if decide (65 ≤ n ∧ n ≤ 90)%N then Ascii.ascii_of_N (n + 32) else c.

(** [strings.ToLower], on ASCII strings. *)
Fixpoint ToLower (s : string) : string :=
  match s with
  | EmptyString => EmptyString
  | String c s => String (ascii_lower c) (ToLower s)
  end.

(** [strings.EqualFold], on ASCII strings. *)
Definition EqualFold (s t : string) : bool := bool_decide (ToLower s = ToLower t).

(** The elements of [l], separated by single spaces. *)
Fixpoint join_sp (l : list string) : string :=
  match l with
  | [] => ""
  | [s] => s
  | s :: l => s +:+ " " +:+ join_sp l
  end.

(** [fmt.Sprintf("%s", l)] of a [[]string]. *)
Definition fmt_strings (l : list string) : string := "[" +:+ join_sp l +:+ "]".

Lemma HasPrefix_app p s : HasPrefix (p +:+ s) p = true.
Proof.
  unfold HasPrefix. induction p as [|c p IH]; simpl; [by destruct s|].
  destruct (Ascii.ascii_dec c c); [exact IH|congruence].
Qed.

Lemma substring_full s : String.substring 0 (String.length s) s = s.
Proof. induction s as [|c s IH]; simpl; [done|]. by rewrite IH. Qed.

Lemma substring_skip p s n : String.substring (String.length p) n (p +:+ s) = String.substring 0 n s.
Proof. induction p as [|c p IH]; simpl; [by destruct s|done]. Qed.

Lemma string_length_app s t :
  String.length (s +:+ t) = (String.length s + String.length t)%nat.
Proof. induction s as [|c s IH]; simpl; [done|]. by rewrite IH. Qed.

Lemma TrimPrefix_app p s : TrimPrefix (p +:+ s) p = s.
Proof.
  unfold TrimPrefix. rewrite HasPrefix_app, substring_skip, string_length_app.
  replace (String.length p + String.length s - String.length p)%nat
    with (String.length s) by lia.
  apply substring_full.
Qed.

Lemma HasPrefix_true s p : HasPrefix s p = true → s = p +:+ TrimPrefix s p.
Proof.
  intros H. assert (∃ t, s = p +:+ t) as [t ->].
  { unfold HasPrefix in H. revert s H. induction p as [|c p IH]; intros s H; [by exists s|].
    destruct s as [|d s]; simpl in H; [done|]. destruct (Ascii.ascii_dec c d) as [->|]; [|done].
    destruct (IH s H) as [t ->]. by exists t. }
  by rewrite TrimPrefix_app.
Qed.

(** ** strconv *)

(** [fmt.Sprintf("%d", z)] and [strconv.Itoa] *)
Definition fmt_d (z : Z) : string :=
  let digits := NilZero.string_of_uint (N.to_uint (Z.to_N (Z.abs z))) in
  if decide (z < 0) then String "-"%char digits else digits.

(** The unsigned decimal digits [strconv] accepts in base 10: non-empty, digits only. *)
Definition parse_digits (s : string) : option Z :=
  (λ d, Z.of_N (N.of_uint d)) <$> NilZero.uint_of_string s.

(** [strconv.ParseInt(s, 10, 64)] and, on a 64-bit platform, [strconv.Atoi]: an optional
    sign, then digits, with the range of int64.  [None] is the non-nil error. *)
Definition ParseInt64 (s : string) : option Z :=
  z ← match s with
      | String "+"%char s' => parse_digits s'
      | String "-"%char s' => Z.opp <$> parse_digits s'
      | _ => parse_digits s
      end;
  if decide (min_int64 ≤ z ≤ max_int64) then Some z else None.

Definition Atoi (s : string) : option Z := ParseInt64 s.

(** [strconv.ParseUint(s, 10, 64)]: no sign. *)
Definition ParseUint64 (s : string) : option Z :=
  z ← parse_digits s; if decide (z < 2 ^ 64) then Some z else None.

(** [strconv.ParseBool] *)
Definition ParseBool (s : string) : option bool :=
  if decide (s ∈ ["1"; "t"; "T"; "TRUE"; "true"; "True"]) then Some true
  else if decide (s ∈ ["0"; "f"; "F"; "FALSE"; "false"; "False"]) then Some false
  else None.

Lemma N_to_uint_nonnil n : N.to_uint n ≠ Decimal.Nil.
Proof.
  intros H. pose proof (DecimalN.Unsigned.to_uint_inj n 0) as Hi.
  destruct n as [|p]; [done|]. pose proof (DecimalN.Unsigned.of_to (N.pos p)) as Ht.
  rewrite H in Ht. done.
Qed.

Lemma parse_digits_fmt (n : N) :
  parse_digits (NilZero.string_of_uint (N.to_uint n)) = Some (Z.of_N n).
Proof.
  unfold parse_digits. rewrite NilZero.usu by apply N_to_uint_nonnil.
  simpl. by rewrite DecimalN.Unsigned.of_to.
Qed.

(** A number printed by [%d] starts with a digit or, when negative, with a minus sign. *)
Lemma string_of_uint_head d :
  d ≠ Decimal.Nil → ∃ c s, NilZero.string_of_uint d = String c s ∧ c ≠ "+"%char ∧ c ≠ "-"%char.
Proof. destruct d; simpl; intros; [done|..]; eauto. Qed.

(** [strconv.Atoi] inverts [%d] on int64. *)
Lemma Atoi_fmt_d z : in_int64 z → Atoi (fmt_d z) = Some z.
Proof.
  intros Hz. unfold Atoi, ParseInt64, fmt_d. unfold in_int64 in Hz.
  destruct (string_of_uint_head (N.to_uint (Z.to_N (Z.abs z)))) as (c & s & Hs & Hp & Hm);
    [apply N_to_uint_nonnil|].
  pose proof (parse_digits_fmt (Z.to_N (Z.abs z))) as Hd. rewrite Hs in *.
  rewrite Z2N.id in Hd by lia.
  case_decide.
  - rewrite Hd. simpl. rewrite decide_True by lia. f_equal. lia.
  - assert (Atoi_plain : ∀ k, (match String c s with
      | String "+"%char s' => parse_digits s'
      | String "-"%char s' => Z.opp <$> parse_digits s'
      | _ => parse_digits (String c s) end) = k → k = parse_digits (String c s)).
    { intros k <-. destruct c as [[] [] [] [] [] [] [] []]; done. }
    erewrite (Atoi_plain _ eq_refl), Hd. simpl. rewrite decide_True by lia. f_equal. lia.
Qed.

#[export] Hint Rewrite Atoi_fmt_d using done : ehco.
#[export] Hint Resolve wrap64_range in_int64_0 : ehco.
