(* ===== verification/Url.v ===== *)
(** * The query half of Go's [net/url]

    The fragment of the standard library the WebSocket client and server use to hand over a
    remote address: [QueryEscape], [QueryUnescape], [ParseQuery], [Values] and the splitting
    of an address into the part before [?], the raw query and the fragment.  A [Values] is a
    finite map from keys to their values in order.  The lemmas: escaping is undone by
    unescaping, and a printed query parses to the values it was printed from. *)

From S2P Require Import Prelude GoStd.
From stdpp Require Import sorting.

(** ** Characters *)

Definition in_range (lo hi : N) (c : ascii) : bool :=
  let n := Ascii.N_of_ascii c in (lo <=? n)%N && (n <=? hi)%N.

(** The characters [QueryEscape] leaves alone: letters, digits and [-_.~]. *)
Definition unreserved (c : ascii) : bool :=
  in_range 48 57 c || in_range 65 90 c || in_range 97 122 c
  || bool_decide (c ∈ ["-"; "_"; "."; "~"]%char).

Definition upperhex (n : N) : ascii := Ascii.ascii_of_N (if (n <? 10)%N then 48 + n else 55 + n).

Definition unhex (c : ascii) : option N :=
  let n := Ascii.N_of_ascii c in
  if in_range 48 57 c then Some (n - 48)%N
  else if in_range 97 102 c then Some (n - 87)%N
  else if in_range 65 70 c then Some (n - 55)%N
  else None.

(** Every character of [s] satisfies [P]. *)
Fixpoint all_chars (P : ascii → bool) (s : string) : bool :=
  match s with EmptyString => true | String c s => P c && all_chars P s end.

(** ** Escaping *)

Definition escape_char (c : ascii) (rest : string) : string :=
  if unreserved c then String c rest
  else if bool_decide (c = " "%char) then String "+" rest
  else let n := Ascii.N_of_ascii c in
       String "%" (String (upperhex (n / 16)) (String (upperhex (n mod 16)) rest)).

(** [url.QueryEscape] *)
Fixpoint QueryEscape (s : string) : string :=
  match s with EmptyString => EmptyString | String c s => escape_char c (QueryEscape s) end.

(** [url.QueryUnescape]; [None]: an [EscapeError]. *)
Fixpoint QueryUnescape (s : string) : option string :=
  match s with
  | EmptyString => Some EmptyString
  | String c rest =>
      if (c =? "%")%char then
        match rest with
        | String a (String b s) =>
            x ← unhex a; y ← unhex b; String (Ascii.ascii_of_N (16 * x + y)) <$> QueryUnescape s
        | _ => None
        end
      else String (if (c =? "+")%char then " "%char else c) <$> QueryUnescape rest
  end.

(** ** Cutting *)

(** [strings.Cut(s, sep)] for a separator of one byte: before, and after where it was found. *)
Fixpoint Cut (sep : ascii) (s : string) : string * option string :=
  match s with
  | EmptyString => (EmptyString, None)
  | String c s => if decide (c = sep) then (EmptyString, Some s)
                  else let (b, a) := Cut sep s in (String c b, a)
  end.

(** The pieces between the separators: what repeated cutting yields. *)
Fixpoint Split (sep : ascii) (s : string) : list string :=
  match s with
  | EmptyString => [EmptyString]
  | String c s =>
      if decide (c = sep) then EmptyString :: Split sep s
      else match Split sep s with p :: ps => String c p :: ps | [] => [String c EmptyString] end
  end.

(** ** Values *)

Notation Values := (gmap string (list string)).

(** [v.Get(key)] *)
Definition Values_Get (v : Values) (key : string) : string :=
  default "" (v !! key ≫= head).

(** [v.Set(key, value)] *)
Definition Values_Set (v : Values) (key value : string) : Values := <[key := [value]]> v.

(** [m[key] = append(m[key], value)] *)
Definition Values_Add (v : Values) (kv : string * string) : Values :=
  <[kv.1 := default [] (v !! kv.1) ++ [kv.2]]> v.

(** One piece of the query: a pair with a semicolon or a bad escape is dropped. *)
Definition parse_pair (piece : string) : option (string * string) :=
  if negb (all_chars (λ c, negb (bool_decide (c = ";"%char))) piece) then None
  else if decide (piece = "") then None
  else let (k, v) := Cut "=" piece in
       k ← QueryUnescape k; v ← QueryUnescape (default "" v); Some (k, v).

(** [u.Query()]: [ParseQuery] with its error ignored. *)
Definition ParseQuery (query : string) : Values :=
  foldl Values_Add ∅ (omap parse_pair (Split "&" query)).

(** The pairs of [v] in the order [Encode] prints them: by sorted key. *)
Definition Values_pairs (v : Values) : list (string * string) :=
  k ← merge_sort String.le (map_to_list v).*1; pair k <$> default [] (v !! k).

Definition print_pair (kv : string * string) : string :=
  QueryEscape kv.1 +:+ "=" +:+ QueryEscape kv.2.

(** [v.Encode()] *)
Definition Values_Encode (v : Values) : string :=
  String.concat "&" (print_pair <$> Values_pairs v).

(** ** Addresses *)

(** [ParseRequestURI(addr).RawQuery], on the client that dials [addr] and on the server that
    reads it from the request line: what follows the first [?]. *)
Definition RawQuery (addr : string) : string := default "" (Cut "?" addr).2.

(** [u, err := Parse(addr); u.RawQuery = f(u.Query()); u.String()].  [print_base] is what
    [String] makes of the scheme, host and path ([None]: they do not parse),
    [print_fragment] of the fragment. *)
Definition map_query (print_base : string → option string) (print_fragment : string → string)
    (f : Values → Values) (addr : string) : option string :=
  let (rest, fragment) := Cut "#" addr in
  let (base, query) := Cut "?" rest in
  base ← print_base base;
  let encoded := Values_Encode (f (ParseQuery (default "" query))) in
  Some (base +:+ (if decide (encoded = "") then "" else "?" +:+ encoded)
          +:+ match fragment with
              | Some fr => if decide (fr = "") then "" else "#" +:+ print_fragment fr
              | None => ""
              end).

(** ** Lemmas: characters and escaping *)

Lemma all_chars_app P s t : all_chars P (s +:+ t) = all_chars P s && all_chars P t.
Proof. induction s as [|c s IH]; simpl; [done|]. by rewrite IH, andb_assoc. Qed.

Lemma all_chars_impl (P Q : ascii → bool) s :
  (∀ c, P c = true → Q c = true) → all_chars P s = true → all_chars Q s = true.
Proof.
  intros HPQ. induction s as [|c s IH]; simpl; [done|].
  intros [Hc Hs]%andb_true_iff. apply andb_true_iff. auto.
Qed.

(** The characters of an escaped string. *)
Definition query_char (c : ascii) : bool := unreserved c || bool_decide (c ∈ ["+"; "%"]%char).

(** The two hexadecimal digits of a byte, decoded. *)
Definition unhex_byte (c : ascii) : option ascii :=
  let n := Ascii.N_of_ascii c in
  x ← unhex (upperhex (n / 16)); y ← unhex (upperhex (n mod 16)); Some (Ascii.ascii_of_N (16 * x + y)).

(** All 256 bytes. *)
Lemma byte_facts c :
  implb (unreserved c) (negb (c =? "%")%char && negb (c =? "+")%char && query_char c) = true
  ∧ unhex_byte c = Some c
  ∧ query_char (upperhex (Ascii.N_of_ascii c / 16)) && query_char (upperhex (Ascii.N_of_ascii c mod 16)) = true.
Proof. destruct c as [[] [] [] [] [] [] [] []]; vm_compute; split_and!; reflexivity. Qed.

Lemma escape_char_spec c rest :
  QueryUnescape (escape_char c rest) = String c <$> QueryUnescape rest
  ∧ all_chars query_char (escape_char c rest) = all_chars query_char rest.
Proof.
  destruct (byte_facts c) as (Hu & Hx & Hq). unfold escape_char.
  destruct (unreserved c) eqn:Eu; [|case_bool_decide; subst; [done|]].
  - simpl in Hu. apply andb_true_iff in Hu as [[H1 H2]%andb_true_iff H3].
    apply negb_true_iff in H1, H2. cbn [QueryUnescape all_chars]. by rewrite H1, H2, H3.
  - apply andb_true_iff in Hq as [Hq1 Hq2]. split.
    + unfold unhex_byte in Hx. cbn [QueryUnescape]. cbn [mbind option_bind] in Hx |- *.
      change (("%" =? "%")%char) with true. cbv iota.
      destruct (unhex (upperhex (_ / 16))) as [x|]; [|done].
      destruct (unhex (upperhex (_ mod 16))) as [y|]; [|done].
      by simplify_option_eq.
    + cbn [all_chars]. by rewrite Hq1, Hq2.
Qed.

Lemma QueryUnescape_Escape s : QueryUnescape (QueryEscape s) = Some s.
Proof.
  induction s as [|c s IH]; [done|]. cbn [QueryEscape].
  rewrite (proj1 (escape_char_spec c _)), IH. done.
Qed.

Lemma QueryEscape_chars s : all_chars query_char (QueryEscape s) = true.
Proof.
  induction s as [|c s IH]; [done|]. cbn [QueryEscape]. by rewrite (proj2 (escape_char_spec c _)).
Qed.

#[global] Instance QueryEscape_inj : Inj (=) (=) QueryEscape.
Proof.
  intros s t H. apply (f_equal QueryUnescape) in H. rewrite !QueryUnescape_Escape in H. by simplify_eq.
Qed.

(** Where no character is special, unescaping does nothing. *)
Definition plain (c : ascii) : bool := negb (bool_decide (c ∈ ["%"; "+"]%char)).

Lemma unescape_plain_char c s : plain c = true → QueryUnescape (String c s) = String c <$> QueryUnescape s.
Proof.
  unfold plain. intros Hc%negb_true_iff%bool_decide_eq_false. cbn [QueryUnescape].
  destruct (Ascii.eqb_spec c "%"); [subst; set_solver|].
  destruct (Ascii.eqb_spec c "+"); [subst; set_solver|]. done.
Qed.

Lemma QueryUnescape_plain s : all_chars plain s = true → QueryUnescape s = Some s.
Proof.
  induction s as [|c s IH]; [done|]. cbn [all_chars]. intros [Hc Hs]%andb_true_iff.
  rewrite unescape_plain_char, IH; done.
Qed.

(** ** Lemmas: cutting *)

(** [c] does not occur in [s]. *)
Notation free_of c s := (all_chars (λ x, negb (bool_decide (x = c%char))) s = true).

Lemma Cut_app sep s t : free_of sep s → Cut sep (s +:+ String sep t) = (s, Some t).
Proof.
  induction s as [|c s IH]; simpl; [by destruct (decide (sep = sep))|].
  intros [Hc%negb_true_iff%bool_decide_eq_false Hs]%andb_true_iff.
  rewrite decide_False by done. by rewrite IH.
Qed.

Lemma Cut_free sep s : free_of sep s → Cut sep s = (s, None).
Proof.
  induction s as [|c s IH]; simpl; [done|].
  intros [Hc%negb_true_iff%bool_decide_eq_false Hs]%andb_true_iff.
  rewrite decide_False by done. by rewrite IH.
Qed.

Lemma Split_free sep s : free_of sep s → Split sep s = [s].
Proof.
  induction s as [|c s IH]; simpl; [done|].
  intros [Hc%negb_true_iff%bool_decide_eq_false Hs]%andb_true_iff.
  rewrite decide_False by done. by rewrite IH.
Qed.

Lemma Split_app sep s t : free_of sep s → Split sep (s +:+ String sep t) = s :: Split sep t.
Proof.
  induction s as [|c s IH]; simpl; [by rewrite decide_True|].
  intros [Hc%negb_true_iff%bool_decide_eq_false Hs]%andb_true_iff.
  rewrite decide_False by done. by rewrite IH.
Qed.

Lemma Split_concat sep (l : list string) :
  l ≠ [] → Forall (λ s, free_of sep s) l → Split sep (String.concat (String sep "") l) = l.
Proof.
  induction l as [|s l IH]; [done|]. intros _ [Hs Hl]%Forall_cons. destruct l as [|s' l].
  - by apply Split_free.
  - change (String.concat (String sep "") (s :: s' :: l))
      with (s +:+ String sep (String.concat (String sep "") (s' :: l))).
    rewrite Split_app, IH; done.
Qed.

(** ** Lemmas: pairs *)

Lemma query_char_free c s :
  query_char c = false → all_chars query_char s = true → free_of c s.
Proof.
  intros Hc. apply all_chars_impl. intros x Hx. case_bool_decide; [congruence|done].
Qed.

Lemma query_char_specials :
  (query_char "&" = false ∧ query_char ";" = false ∧ query_char "=" = false
   ∧ query_char "#" = false ∧ query_char "?" = false)%char.
Proof. vm_compute. split_and!; reflexivity. Qed.

Lemma print_pair_free c kv : query_char c = false → c ≠ "="%char → free_of c (print_pair kv).
Proof.
  intros Hc Hne. unfold print_pair. rewrite !all_chars_app. cbn [all_chars].
  rewrite !(query_char_free c) by (done || apply QueryEscape_chars).
  by rewrite bool_decide_eq_false_2.
Qed.

Lemma parse_print_pair kv : parse_pair (print_pair kv) = Some kv.
Proof.
  pose proof query_char_specials as (_ & Hsc & Heq & _).
  unfold parse_pair. rewrite print_pair_free by (done || vm_compute; done). cbn [negb].
  rewrite decide_False by (unfold print_pair; destruct (QueryEscape kv.1); discriminate).
  unfold print_pair. change ("=" +:+ QueryEscape kv.2) with (String "=" (QueryEscape kv.2)).
  rewrite Cut_app by (apply query_char_free; [done|apply QueryEscape_chars]).
  cbn [default from_option id]. rewrite !QueryUnescape_Escape. by destruct kv.
Qed.

Lemma parse_print_pairs (l : list (string * string)) :
  ParseQuery (String.concat "&" (print_pair <$> l)) = foldl Values_Add ∅ l.
Proof.
  unfold ParseQuery. destruct l as [|kv l]; [done|].
  rewrite Split_concat; [|done|].
  - f_equal. generalize (kv :: l). clear. intros l. induction l as [|kv l IH]; [done|].
    cbn [fmap list_fmap omap list_omap]. by rewrite parse_print_pair, IH.
  - apply Forall_fmap, Forall_true. intros x. apply print_pair_free; by vm_compute.
Qed.

(** ** Lemmas: values *)

Lemma Values_Add_lookup v kv k :
  Values_Add v kv !! k = if decide (k = kv.1) then Some (default [] (v !! k) ++ [kv.2]) else v !! k.
Proof. unfold Values_Add. case_decide; subst; by simplify_map_eq. Qed.

(** The values of key [k] among the pairs [l]. *)
Definition values_of (k : string) (l : list (string * string)) : list string :=
  (filter (λ kv, kv.1 = k) l).*2.

Lemma values_of_cons k kv l :
  values_of k (kv :: l) = if decide (kv.1 = k) then kv.2 :: values_of k l else values_of k l.
Proof. unfold values_of. rewrite filter_cons. by case_decide. Qed.

Lemma foldl_Add_lookup l v k :
  foldl Values_Add v l !! k =
    if decide (values_of k l = []) then v !! k else Some (default [] (v !! k) ++ values_of k l).
Proof.
  revert v. induction l as [|kv l IH]; intros v; [done|]. cbn [foldl].
  rewrite IH, Values_Add_lookup, values_of_cons.
  destruct (decide (kv.1 = k)) as [->|Hne].
  - rewrite (decide_True _ _ eq_refl), (decide_False (P := _ :: _ = [])) by done.
    cbn [default from_option id]. case_decide as H; [by rewrite H|]. by rewrite <- (assoc_L (++)).
  - by rewrite (decide_False (P := k = kv.1)) by congruence.
Qed.

Lemma values_of_app k l1 l2 : values_of k (l1 ++ l2) = values_of k l1 ++ values_of k l2.
Proof. unfold values_of. by rewrite filter_app, fmap_app. Qed.

Lemma values_of_key k k' vs : values_of k (pair k' <$> vs) = if decide (k' = k) then vs else [].
Proof.
  induction vs as [|x vs IH]; cbn [fmap list_fmap]; [by case_decide|].
  rewrite values_of_cons, IH. cbn [fst snd]. by case_decide.
Qed.

Lemma values_of_pairs (f : string → list string) k ks :
  NoDup ks →
  values_of k (k' ← ks; pair k' <$> f k') = if decide (k ∈ ks) then f k else [].
Proof.
  induction ks as [|k' ks IH]; [done|]. intros [Hn Hnd]%NoDup_cons.
  rewrite bind_cons, values_of_app, values_of_key, IH by done.
  destruct (decide (k' = k)) as [->|Hne].
  - rewrite (decide_False (P := k ∈ ks)), (decide_True (P := k ∈ k :: ks)) by (done || set_solver).
    by rewrite app_nil_r.
  - simpl. destruct (decide (k ∈ ks)), (decide (k ∈ k' :: ks)); set_solver.
Qed.

(** [Values] that hold a value for every key they list; parsing yields no others. *)
Definition proper_values (v : Values) : Prop := ∀ k vs, v !! k = Some vs → vs ≠ [].

Lemma Values_pairs_lookup v k : values_of k (Values_pairs v) = default [] (v !! k).
Proof.
  unfold Values_pairs. rewrite values_of_pairs.
  - case_decide as Hk; [done|]. destruct (v !! k) as [vs|] eqn:Hv; [|done]. destruct Hk.
    rewrite merge_sort_Permutation. apply list_elem_of_fmap. exists (k, vs).
    split; [done|]. by apply elem_of_map_to_list.
  - rewrite merge_sort_Permutation. apply NoDup_fst_map_to_list.
Qed.

(** A printed query parses to what it was printed from. *)
Lemma ParseQuery_Encode v : proper_values v → ParseQuery (Values_Encode v) = v.
Proof.
  intros Hv. unfold Values_Encode. rewrite parse_print_pairs. apply map_eq. intros k.
  rewrite foldl_Add_lookup, Values_pairs_lookup, lookup_empty. cbn [default from_option id].
  destruct (v !! k) as [vs|] eqn:E; cbn [default from_option id]; [|done].
  rewrite decide_False by eauto. done.
Qed.

Lemma ParseQuery_proper q : proper_values (ParseQuery q).
Proof.
  intros k vs. unfold ParseQuery. rewrite foldl_Add_lookup, lookup_empty. cbn [default from_option id].
  case_decide; [done|]. intros [= <-]. done.
Qed.

Lemma Set_proper v k x : proper_values v → proper_values (Values_Set v k x).
Proof. unfold Values_Set. intros Hv k' vs [[_ <-]|[_ ?]]%lookup_insert_Some; [done|eauto]. Qed.

Lemma Get_Set v k k' x : Values_Get (Values_Set v k x) k' = if decide (k' = k) then x else Values_Get v k'.
Proof. unfold Values_Get, Values_Set. case_decide; subst; by simplify_map_eq. Qed.

(** ** Lemmas: addresses *)

Lemma RawQuery_app base q : free_of "?" base → RawQuery (base +:+ "?" +:+ q) = q.
Proof. intros H. unfold RawQuery. change ("?" +:+ q) with (String "?" q). by rewrite Cut_app. Qed.

Lemma RawQuery_free base : free_of "?" base → RawQuery base = "".
Proof. intros H. unfold RawQuery. by rewrite Cut_free. Qed.

Lemma string_app_nil s : s +:+ "" = s.
Proof. induction s as [|c s IH]; [done|]. change (String c s +:+ "") with (String c (s +:+ "")). by rewrite IH. Qed.

(** The query of a rewritten address is the rewritten query. *)
Lemma map_query_RawQuery print_base print_fragment f addr addr' :
  free_of "#" addr →
  (∀ b b', print_base b = Some b' → free_of "?" b') →
  proper_values (f (ParseQuery (RawQuery addr))) →
  map_query print_base print_fragment f addr = Some addr' →
  ParseQuery (RawQuery addr') = f (ParseQuery (RawQuery addr)).
Proof.
  intros Hfree Hbase Hproper. unfold map_query, RawQuery in *. rewrite Cut_free by done.
  destruct (Cut "?" addr) as [base q] eqn:Eq. cbn [snd] in *.
  destruct (print_base base) as [b'|] eqn:Eb; [|done]. cbn [mbind option_bind]. intros [= <-].
  set (v := f _) in *. pose proof (ParseQuery_Encode v Hproper) as HE.
  case_decide as He.
  - rewrite He in HE. rewrite <- HE. change ("" +:+ "") with "".
    rewrite string_app_nil, Cut_free by eauto. done.
  - rewrite string_app_nil. change ("?" +:+ Values_Encode v) with (String "?" (Values_Encode v)).
    rewrite Cut_app by eauto. done.
Qed.
