(* ===== verification/Log.v ===== *)
(** * pkg/log: loggers, and the fan-out of log records to dashboards

    [log.go], [leveld.go], [ws.go]; [pkg/xray/log_bridge.go]; the handler
    [handleWebSocketLogs] of internal/web.  A [zap.Logger] is known by the syncer behind
    its WebSocket core; what zap and the encoders print is not modelled, nor which levels
    [UnmarshalText] accepts (an argument).  A subscriber is a connection number; writing a
    frame to it succeeds, fails, or does not return. *)

From S2P Require Import Prelude GoStd.

(** ** ws.go: one syncer *)

Inductive write_result := Sent | WriteFails | Stalls.

#[global] Instance write_result_eq_dec : EqDecision write_result.
Proof. solve_decision. Defined.

(** [mu_held]: a [Write] that does not return holds the mutex for good. *)
Record WebSocketLogSyncher := mkSyncher { ws_conns : gset nat; mu_held : bool }.

Definition NewWebSocketLogSyncher : WebSocketLogSyncher := {| ws_conns := ∅; mu_held := false |}.

(** The loop over the subscribers: who got the frame and who failed; [None] when a write
    does not return. *)
Fixpoint write_loop (res : nat → write_result) (order : list nat) : option (list nat * list nat) :=
  match order with
  | [] => Some ([], [])
  | c :: order =>
      match res c with
      | Stalls => None
      | Sent => '(sent, dead) ← write_loop res order; Some (c :: sent, dead)
      | WriteFails => '(sent, dead) ← write_loop res order; Some (sent, c :: dead)
      end
  end.

(** What a call does: it returns, with the connections that got the frame and the ones it
    closed, or it blocks. *)
Inductive call_result := Returned (sent closed : list nat) | Blocks.

(** [Write]; [valid]: whether the record is JSON; [order]: how the map is iterated. *)
Definition WebSocketLogSyncher_Write (valid : bool) (res : nat → write_result) (order : list nat)
    (s : WebSocketLogSyncher) : call_result * WebSocketLogSyncher :=
  if mu_held s then (Blocks, s)
  else if decide (ws_conns s = ∅) then (Returned [] [], s)
  else if negb valid then (Returned [] [], s)
  else match write_loop res order with
       | None => (Blocks, {| ws_conns := ws_conns s; mu_held := true |})
       | Some (sent, dead) =>
           (Returned sent dead, {| ws_conns := ws_conns s ∖ list_to_set dead; mu_held := false |})
       end.

Definition WebSocketLogSyncher_AddConn (c : nat) (s : WebSocketLogSyncher) : call_result * WebSocketLogSyncher :=
  if mu_held s then (Blocks, s)
  else (Returned [] [], {| ws_conns := {[c]} ∪ ws_conns s; mu_held := false |}).

Definition WebSocketLogSyncher_RemoveConn (c : nat) (s : WebSocketLogSyncher) : call_result * WebSocketLogSyncher :=
  if mu_held s then (Blocks, s)
  else (Returned [] [], {| ws_conns := ws_conns s ∖ {[c]}; mu_held := false |}).

(** ** log.go: the loggers of the process *)

(** [synchers]: every syncer ever made; [global]: [globalWebSocketSyncher]; [zap_global]:
    the syncer of the logger behind [zap.L()], none while it is zap's no-op logger. *)
Record log_state := mkLog {
  synchers : list WebSocketLogSyncher; global : option nat; zap_global : option nat;
  doOnce : bool; globalInitd : bool }.

Definition log_start : log_state :=
  {| synchers := []; global := None; zap_global := None; doOnce := false; globalInitd := false |}.

(** The result is the new logger's syncer. *)
Definition initLogger (level : option error) (replaceGlobal : bool) (st : log_state) : outcome nat * log_state :=
  match level with
  | Some err => (Err err, st)
  | None =>
      let n := length (synchers st) in
      (Ret n, {| synchers := synchers st ++ [NewWebSocketLogSyncher]; global := Some n;
                 zap_global := if replaceGlobal then Some n else zap_global st;
                 doOnce := doOnce st; globalInitd := globalInitd st |})
  end.

Definition InitGlobalLogger (level : option error) (st : log_state) : option error * log_state :=
  if doOnce st then (None, st)
  else let (res, st) := initLogger level true st in
       (match res with Err e => Some e | _ => None end,
        {| synchers := synchers st; global := global st; zap_global := zap_global st;
           doOnce := true; globalInitd := true |}).

Definition MustNewLogger (level : option error) (st : log_state) : outcome nat * log_state :=
  match initLogger level false st with
  | (Err e, st) => (Panic (ExplicitPanic (error_text e)), st)
  | r => r
  end.

(** leveld.go; "info" is a level zap accepts.  The result is the logger's syncer. *)
Definition NewZapLeveledLogger (st : log_state) : option nat * log_state :=
  if globalInitd st then (zap_global st, st)
  else match initLogger None false st with
       | (Ret n, st) => (Some n, st)
       | (_, st) => (None, st)
       end.

Definition with_global (f : WebSocketLogSyncher → call_result * WebSocketLogSyncher) (st : log_state) :
    call_result * log_state :=
  match global st with
  | None => (Returned [] [], st)
  | Some n =>
      match synchers st !! n with
      | None => (Returned [] [], st)
      | Some s => let (r, s) := f s in
          (r, {| synchers := <[n := s]> (synchers st); global := global st; zap_global := zap_global st;
                 doOnce := doOnce st; globalInitd := globalInitd st |})
      end
  end.

Definition AddWebSocketConn (c : nat) : log_state → call_result * log_state := with_global (WebSocketLogSyncher_AddConn c).
Definition RemoveWebSocketConn (c : nat) : log_state → call_result * log_state := with_global (WebSocketLogSyncher_RemoveConn c).

(** A record logged by the logger with syncer [n]. *)
Definition log_record (n : option nat) (valid : bool) (res : nat → write_result) (order : list nat) (st : log_state) :
    call_result * log_state :=
  match n with
  | None => (Returned [] [], st)
  | Some n =>
      match synchers st !! n with
      | None => (Returned [] [], st)
      | Some s => let (r, s) := WebSocketLogSyncher_Write valid res order s in
          (r, {| synchers := <[n := s]> (synchers st); global := global st; zap_global := zap_global st;
                 doOnce := doOnce st; globalInitd := globalInitd st |})
      end
  end.

(** ** handlers_ws.go *)

(** The handler of one dashboard, up to its return, in a process where nothing else happens
    meanwhile; [reads]: what [ws.ReadFrame] returns, an error ends the loop.  The result
    says whether the connection was closed; a handler whose reads never fail goes on. *)
Fixpoint read_frames (reads : list (option error)) : bool :=
  match reads with [] => false | None :: reads => read_frames reads | Some _ :: _ => true end.

Definition handleWebSocketLogs (upgrade : option error) (c : nat) (reads : list (option error)) (st : log_state) :
    outcome bool * log_state :=
  match upgrade with
  | Some err => (Err err, st)
  | None =>
      let (_, st) := AddWebSocketConn c st in
      if read_frames reads then let (_, st) := RemoveWebSocketConn c st in (Ret true, st)
      else (Ret false, st)
  end.

(** ** log_bridge.go: xray's records *)

Inductive Severity := Severity_Unknown | Severity_Error | Severity_Warning | Severity_Info | Severity_Debug.
Inductive xlog_Message :=
  | GeneralMessage (s : Severity) (line : string)
  | AccessMessage (line : string)
  | DNSLog (line : string)
  | OtherMessage (line : string).
Inductive zap_level := DebugLevel | InfoLevel | WarnLevel | ErrorLevel.

(** Level, line, and the value of the field [kind]. *)
Definition logBySeverity (s : Severity) (line : string) : zap_level * string * option string :=
  match s with
  | Severity_Error => (ErrorLevel, line, None)
  | Severity_Warning => (WarnLevel, line, None)
  | Severity_Debug => (DebugLevel, line, None)
  | _ => (InfoLevel, line, None)
  end.

Definition zapBridgeHandler_Handle (msg : xlog_Message) : zap_level * string * option string :=
  match msg with
  | GeneralMessage s line => logBySeverity s line
  | AccessMessage line => (InfoLevel, line, Some "access")
  | DNSLog line => (DebugLevel, line, Some "dns")
  | OtherMessage line => (InfoLevel, line, None)
  end.

(** ** Lemmas *)

Lemma write_loop_spec res order :
  match write_loop res order with
  | Some (sent, dead) =>
      sent = filter (λ c, res c = Sent) order ∧ dead = filter (λ c, res c = WriteFails) order ∧
      Forall (λ c, res c ≠ Stalls) order
  | None => Exists (λ c, res c = Stalls) order
  end.
Proof.
  induction order as [|c order IH]; [done|]. cbn [write_loop].
  destruct (res c) eqn:Hc; [| |by left]; (destruct (write_loop res order) as [[sent dead]|]; [|by right]);
    destruct IH as (-> & -> & Hf); cbn [mbind option_bind].
  - rewrite filter_cons_True, filter_cons_False by congruence. split_and!; [done..|].
    constructor; [congruence|done].
  - rewrite filter_cons_False, filter_cons_True by congruence. split_and!; [done..|].
    constructor; [congruence|done].
Qed.

(** ** Theorems *)

(** [C22] What one log record does to the subscribers.  When no subscriber's write stalls,
    the call returns, every subscriber whose write succeeds gets the frame, exactly those
    whose write fails are removed and closed, and the others stay; a record that is not
    JSON touches nobody.  But the mutex is held while the frames are written: if one
    subscriber's write does not return, neither does the call, and from then on no record
    is delivered and no dashboard can attach or detach, so one stalled connection does stall
    the others, and everything that logs. *)
Theorem log_fanout (valid : bool) (res : nat → write_result) (order : list nat) (s : WebSocketLogSyncher)
    (Hfree : mu_held s = false) (Horder : order ≡ₚ elements (ws_conns s)) :
  let (r, s') := WebSocketLogSyncher_Write valid res order s in
  if decide (valid = true ∧ ∃ c, c ∈ ws_conns s ∧ res c = Stalls) then
    r = Blocks ∧ mu_held s' = true ∧
    (∀ valid' res' order', WebSocketLogSyncher_Write valid' res' order' s' = (Blocks, s')) ∧
    (∀ c, WebSocketLogSyncher_AddConn c s' = (Blocks, s') ∧ WebSocketLogSyncher_RemoveConn c s' = (Blocks, s'))
  else
    ∃ sent closed, r = Returned sent closed ∧ mu_held s' = false ∧ NoDup (sent ++ closed) ∧
      (∀ c, c ∈ sent ↔ valid = true ∧ c ∈ ws_conns s ∧ res c = Sent) ∧
      (∀ c, c ∈ closed ↔ valid = true ∧ c ∈ ws_conns s ∧ res c = WriteFails) ∧
      ws_conns s' = ws_conns s ∖ list_to_set closed.
Proof.
  unfold WebSocketLogSyncher_Write. rewrite Hfree.
  assert (Hin : ∀ c, c ∈ order ↔ c ∈ ws_conns s) by (intros c; by rewrite Horder, elem_of_elements).
  destruct (decide (ws_conns s = ∅)) as [He|Hne].
  { rewrite decide_False by (rewrite He; set_solver). exists [], []. rewrite He.
    split_and!; [done|done|constructor|set_solver..]. }
  destruct valid; cbn [negb].
  2: { rewrite decide_False by naive_solver. exists [], []. split_and!; [done|done|constructor|set_solver..]. }
  pose proof (write_loop_spec res order) as Hw. destruct (write_loop res order) as [[sent dead]|].
  - destruct Hw as (-> & -> & Hf). rewrite Forall_forall in Hf. rewrite decide_False by naive_solver.
    do 2 eexists. split; [reflexivity|]. split; [done|]. split_and!.
    + apply NoDup_app. assert (NoDup order) by (rewrite Horder; apply NoDup_elements).
      split_and!; [by apply NoDup_filter| |by apply NoDup_filter].
      intros c [Hs _]%list_elem_of_filter [Hd _]%list_elem_of_filter. congruence.
    + intros c. rewrite list_elem_of_filter, Hin. naive_solver.
    + intros c. rewrite list_elem_of_filter, Hin. naive_solver.
    + done.
  - apply Exists_exists in Hw as (c & Hc & Hr). rewrite decide_True by naive_solver. done.
Qed.

Lemma log_fanout_witness :
  let s := {| ws_conns := {[1; 2; 3]}%nat; mu_held := false |} in
  fst (WebSocketLogSyncher_Write true (λ c, if decide (c = 2%nat) then Stalls else Sent) (elements (ws_conns s)) s) = Blocks ∧
  ∃ sent closed, fst (WebSocketLogSyncher_Write true (λ c, if decide (c = 2%nat) then WriteFails else Sent)
    (elements (ws_conns s)) s) = Returned sent closed ∧ 2%nat ∈ closed.
Proof.
  set (s := {| ws_conns := {[1; 2; 3]}%nat; mu_held := false |}). cbn zeta.
  pose proof (log_fanout true (λ c, if decide (c = 2%nat) then Stalls else Sent) (elements (ws_conns s)) s eq_refl
    (reflexivity _)) as H1.
  pose proof (log_fanout true (λ c, if decide (c = 2%nat) then WriteFails else Sent) (elements (ws_conns s)) s eq_refl
    (reflexivity _)) as H2.
  split.
  - destruct (WebSocketLogSyncher_Write _ _ _ _) as [r s'] in H1 |- *. rewrite decide_True in H1; [by destruct H1|].
    split; [done|]. exists 2%nat. split; [set_solver|done].
  - destruct (WebSocketLogSyncher_Write true (λ c, if decide (c = 2%nat) then WriteFails else Sent) _ _) as [r s'].
    rewrite decide_False in H2; [|intros (_ & c & _ & Hc); by case_decide].
    destruct H2 as (sent & closed & -> & _ & _ & _ & Hc & _). exists sent, closed. split; [done|].
    apply Hc. split; [done|]. split; [set_solver|done].
Defined.

(** What the program does with loggers once it runs. *)
Inductive log_op :=
  | OpLeveled
  | OpAdd (c : nat)
  | OpRemove (c : nat)
  | OpRecord (n : option nat) (valid : bool) (res : nat → write_result) (order : list nat).

Definition log_op_run (op : log_op) (st : log_state) : log_state :=
  match op with
  | OpLeveled => snd (NewZapLeveledLogger st)
  | OpAdd c => snd (AddWebSocketConn c st)
  | OpRemove c => snd (RemoveWebSocketConn c st)
  | OpRecord n valid res order => snd (log_record n valid res order st)
  end.

(** Loggers made before the global one: at package initialisation ([MustNewLogger], which
    makes [cliLogger]) and for the requests that load the configuration. *)
Inductive early_op := EarlyMust | EarlyLeveled.

Definition early_op_run (op : early_op) (st : log_state) : log_state :=
  match op with EarlyMust => snd (MustNewLogger None st) | EarlyLeveled => snd (NewZapLeveledLogger st) end.

(** Records are logged by the global syncer [n]; nobody listens to another one. *)
Record log_inv (n : nat) (st : log_state) : Prop := {
  lg_global : global st = Some n;
  lg_zap : zap_global st = Some n;
  lg_initd : globalInitd st = true ∧ doOnce st = true;
  lg_bound : (n < length (synchers st))%nat;
  lg_others : ∀ k s, synchers st !! k = Some s → k ≠ n → ws_conns s = ∅ ∧ mu_held s = false }.

Lemma log_inv_update n k s st :
  log_inv n st → (k ≠ n → ws_conns s = ∅ ∧ mu_held s = false) →
  log_inv n {| synchers := <[k := s]> (synchers st); global := global st; zap_global := zap_global st;
               doOnce := doOnce st; globalInitd := globalInitd st |}.
Proof.
  intros [Hg Hz Hi Hb Ho] Hk. split; cbn; [done..|by rewrite length_insert|].
  intros j s' Hj Hne. destruct (decide (j = k)) as [->|].
  - destruct (decide (k < length (synchers st))%nat).
    + rewrite list_lookup_insert_eq in Hj by done. injection Hj as <-. by apply Hk.
    + rewrite list_insert_ge in Hj by lia. by eapply Ho.
  - rewrite list_lookup_insert_ne in Hj by done. by eapply Ho.
Qed.

Lemma log_op_inv n op st : log_inv n st → log_inv n (log_op_run op st).
Proof.
  intros HI. pose proof HI as [Hg Hz [Hi _] Hb Ho]. destruct op as [|c|c|k valid res order]; cbn [log_op_run].
  - unfold NewZapLeveledLogger. by rewrite Hi.
  - unfold AddWebSocketConn, with_global. rewrite Hg. destruct (synchers st !! n) as [s|] eqn:Hs; [|done].
    unfold WebSocketLogSyncher_AddConn. destruct (mu_held s); rewrite <- Hg; by apply log_inv_update.
  - unfold RemoveWebSocketConn, with_global. rewrite Hg. destruct (synchers st !! n) as [s|] eqn:Hs; [|done].
    unfold WebSocketLogSyncher_RemoveConn. destruct (mu_held s); rewrite <- Hg; by apply log_inv_update.
  - unfold log_record. destruct k as [k|]; [|done]. destruct (synchers st !! k) as [s|] eqn:Hs; [|done].
    destruct (WebSocketLogSyncher_Write valid res order s) as [r s'] eqn:Hw. cbn. apply log_inv_update; [done|].
    intros Hne. destruct (Ho k s Hs Hne) as [He Hm]. unfold WebSocketLogSyncher_Write in Hw.
    rewrite Hm, decide_True in Hw by done. by injection Hw as _ <-.
Qed.

Lemma early_ops_empty ops :
  let st := foldl (λ st op, early_op_run op st) log_start ops in
  doOnce st = false ∧ globalInitd st = false ∧ Forall (λ s, s = NewWebSocketLogSyncher) (synchers st).
Proof.
  induction ops as [|op ops IH] using rev_ind; [done|]. rewrite foldl_app. cbn zeta in *. cbn [foldl].
  destruct IH as (Ho & Hi & Hs). set (st := foldl _ log_start ops) in *.
  destruct op; cbn [early_op_run]; unfold MustNewLogger, NewZapLeveledLogger; rewrite ?Hi; cbn;
    (split_and!; [done..|]); apply Forall_app; (split; [done|by constructor]).
Qed.

(** Which records a dashboard sees.  However many loggers were made before
    [InitGlobalLogger], and whatever requests, dashboards and records come after it: the
    syncer behind [zap.L()] is the one dashboards attach to, and loggers made for requests
    share it, so the program's own log reaches every attached dashboard; a logger made
    before, [cliLogger] among them, writes to a syncer that nobody ever attaches to; and a
    second [InitGlobalLogger] changes nothing, whatever its level. *)
Theorem dashboards_see_global_log (early : list early_op) (ops : list log_op) :
  let st0 := foldl (λ st op, early_op_run op st) log_start early in
  let '(err, st1) := InitGlobalLogger None st0 in
  let st := foldl (λ st op, log_op_run op st) st1 ops in
  err = None ∧
  ∃ n, n = length (synchers st0) ∧ zap_global st = Some n ∧ global st = Some n ∧
    NewZapLeveledLogger st = (Some n, st) ∧ is_Some (synchers st !! n) ∧
    (∀ k s, (k < n)%nat → synchers st !! k = Some s → ws_conns s = ∅) ∧
    ∀ level, InitGlobalLogger level st = (None, st).
Proof.
  cbn zeta. destruct (early_ops_empty early) as (Ho & Hi & Hs). set (st0 := foldl _ log_start early) in *.
  unfold InitGlobalLogger at 1. rewrite Ho. cbn [initLogger]. split; [done|].
  set (n := length (synchers st0)). set (st1 := mkLog _ _ _ _ _).
  assert (H1 : log_inv n st1).
  { split; cbn; [done|done|done|rewrite length_app; cbn; lia|].
    intros k s Hk Hne. apply lookup_app_Some in Hk as [Hk|[Hge Hk]].
    - rewrite Forall_lookup in Hs. by rewrite (Hs k s Hk).
    - apply list_lookup_singleton_Some in Hk as [Hk _]. unfold n in Hne. lia. }
  assert (H : log_inv n (foldl (λ st op, log_op_run op st) st1 ops)).
  { clear -H1. revert H1. generalize st1. induction ops as [|op ops IH]; intros st Hst; [done|].
    cbn. by apply IH, log_op_inv. }
  set (st := foldl _ st1 ops) in *. destruct H as [Hg Hz [Hin Hon] Hb Hoth]. exists n.
  split_and!; try done.
  - unfold NewZapLeveledLogger. by rewrite Hin, Hz.
  - by apply lookup_lt_is_Some_2.
  - intros k s Hk Hks. apply (Hoth k s Hks). lia.
  - intros level. unfold InitGlobalLogger. by rewrite Hon.
Qed.

(** Another [MustNewLogger] would cut the dashboards off: they attach to its syncer. *)
Example must_new_logger_detaches :
  let st := snd (MustNewLogger None (snd (InitGlobalLogger None log_start))) in
  zap_global st = Some 0%nat ∧ global st = Some 1%nat.
Proof. split; reflexivity. Qed.
