(* ===== verification/Float.v ===== *)
(** * float64: the part of Go's floating-point arithmetic the program uses

    A [float64] is a [spec_float] of the Standard Library at the parameters of binary64
    (53 bits, exponent of the infinities 1024): the operations round to nearest even, as
    IEEE 754 and Go require.  On top of them, [math.Max], [math.Round], [math.Abs],
    [time.Duration.Seconds], the [%.nf] verbs of [fmt], and the conversions from and to
    int64.  The lemmas bound magnitudes and track signs, which is what the callers need:
    a rate that is computed from counters is a number, finite, and not negative. *)

From S2P Require Import Prelude GoStd.
From Stdlib Require Export SpecFloat.

Notation float64 := spec_float.

(** ** Arithmetic *)

Definition f_add : float64 → float64 → float64 := SFadd 53 1024.
Definition f_sub : float64 → float64 → float64 := SFsub 53 1024.
Definition f_mul : float64 → float64 → float64 := SFmul 53 1024.
Definition f_div : float64 → float64 → float64 := SFdiv 53 1024.

(** [x < y]; false when an operand is NaN. *)
Definition f_lt (x y : float64) : bool := SFltb x y.

(** [float64(z)] of an integer, and an integer literal. *)
Definition f_of_Z (z : Z) : float64 := binary_normalize 53 1024 z 0 false.

(** The literal [n/d], correctly rounded: [0.1] is [f_lit 1 10]. *)
Definition f_lit (n d : Z) : float64 := f_div (f_of_Z n) (f_of_Z d).

Definition f_signbit (x : float64) : bool :=
  match x with S754_nan => false | S754_zero s | S754_infinity s | S754_finite s _ _ => s end.

(** [math.Abs] *)
Definition math_Abs (x : float64) : float64 := SFabs x.

(** [math.Max], with its special cases in the order of the library. *)
Definition math_Max (x y : float64) : float64 :=
  match x, y with
  | S754_infinity false, _ | _, S754_infinity false => S754_infinity false
  | S754_nan, _ | _, S754_nan => S754_nan
  | S754_zero s, S754_zero _ => if s then y else x
  | _, _ => if SFltb y x then x else y
  end.

(** [math.Round]: to the nearest integer, halves away from zero; the sign is kept. *)
Definition math_Round (x : float64) : float64 :=
  match x with
  | S754_finite s m e =>
      if decide (0 ≤ e) then x
      else match (2 * Z.pos m + 2 ^ (- e)) / (2 * 2 ^ (- e)) with
           | Zpos n => binary_round 53 1024 s n 0
           | _ => S754_zero s
           end
  | _ => x
  end.

(** [int64(f)]: truncation; outside the range (and for NaN) the result is up to the
    implementation, here amd64's, which is the smallest int64. *)
Definition int64_of_float (x : float64) : Z :=
  match x with
  | S754_zero _ => 0
  | S754_finite s m e =>
      let a := if decide (0 ≤ e) then Z.pos m * 2 ^ e else Z.pos m / 2 ^ (- e) in
      let z := if s then - a else a in
      if decide (min_int64 ≤ z ≤ max_int64) then z else min_int64
  | _ => min_int64
  end.

(** [d.Seconds()]: whole seconds plus the rest divided by 1e9. *)
Definition Duration_Seconds (d : Z) : float64 :=
  f_add (f_of_Z (Z.quot d Second)) (f_div (f_of_Z (Z.rem d Second)) (f_of_Z Second)).

(** ** Printing *)

(** Left padding of decimal digits with zeros to at least [n] characters. *)
Fixpoint pad_zeros (n : nat) (s : string) : string :=
  match n with
  | O => s
  | S n => if decide (n < String.length s)%nat then s else String "0"%char (pad_zeros n s)
  end.

(** The nearest integer to [m·2^e·10^p], halves to even. *)
Definition scaled_round (m : positive) (e : Z) (p : nat) : Z :=
  let k := Z.pos m * 10 ^ Z.of_nat p in
  if decide (0 ≤ e) then k * 2 ^ e
  else let d := 2 ^ (- e) in
       let q := k / d in
       match 2 * (k mod d) ?= d with
       | Lt => q
       | Eq => if Z.even q then q else q + 1
       | Gt => q + 1
       end.

(** [%.pf] for [p] at least 1 ([%3.1f] never needs to pad). *)
Definition fmt_f (p : nat) (x : float64) : string :=
  let sign (s : bool) := if s then "-" else "" in
  let body (n : Z) :=
    let digits := pad_zeros (S p) (fmt_d n) in
    let k := (String.length digits - p)%nat in
    String.substring 0 k digits +:+ "." +:+ String.substring k p digits in
  match x with
  | S754_nan => "NaN"
  | S754_infinity s => if s then "-Inf" else "+Inf"
  | S754_zero s => sign s +:+ body 0
  | S754_finite s m e => sign s +:+ body (scaled_round m e p)
  end.

Example fmt_f_0 : fmt_f 2 (f_of_Z 0) = "0.00". Proof. vm_compute. reflexivity. Qed.
Example fmt_f_1 : fmt_f 1 (f_lit 1 4) = "0.2". Proof. vm_compute. reflexivity. Qed.
Example fmt_f_2 : fmt_f 2 (f_sub (f_of_Z 0) (f_lit 314159 1000)) = "-314.16". Proof. vm_compute. reflexivity. Qed.
Example f_lit_1 : f_lit 1 10 = S754_finite false 7205759403792794 (-56). Proof. vm_compute. reflexivity. Qed.
Example round_1 : math_Round (f_lit 5 2) = f_of_Z 3. Proof. vm_compute. reflexivity. Qed.
Example round_2 : math_Round (f_lit (-5) 2) = f_of_Z (-3). Proof. vm_compute. reflexivity. Qed.
Example seconds_1 : Duration_Seconds 1500000000 = f_lit 3 2. Proof. vm_compute. reflexivity. Qed.

(** ** Digits and shifts *)

Lemma digits2_bound (m : positive) :
  2 ^ (Zpos (digits2_pos m) - 1) ≤ Zpos m < 2 ^ Zpos (digits2_pos m).
Proof.
  assert (pow_pred : ∀ d : positive, 2 ^ Zpos d = 2 * 2 ^ (Zpos d - 1)).
  { intros d. rewrite <- Z.pow_succ_r by lia. f_equal. lia. }
  induction m as [m IH|m IH|]; cbn [digits2_pos]; [..|done];
    rewrite Pos2Z.inj_succ, Z.sub_1_r, Z.pred_succ, Z.pow_succ_r by lia;
    rewrite !pow_pred in *; lia.
Qed.

Lemma Zdigits2_nonneg z : 0 ≤ Zdigits2 z.
Proof. by destruct z. Qed.

(** [Zdigits2 z ≤ k] says that [z] is below [2^k]. *)
Lemma Zdigits2_le z k : 0 ≤ z → 0 ≤ k → Zdigits2 z ≤ k ↔ z < 2 ^ k.
Proof.
  intros Hz Hk. destruct z as [|p|p]; cbn [Zdigits2]; [| |lia].
  - pose proof (Z.pow_pos_nonneg 2 k). lia.
  - pose proof (digits2_bound p) as [Hl Hu]. split.
    + intros Hd. pose proof (Z.pow_le_mono_r 2 (Zpos (digits2_pos p)) k). lia.
    + intros Hlt. destruct (Z.le_gt_cases (Zpos (digits2_pos p)) k); [done|].
      pose proof (Z.pow_le_mono_r 2 k (Zpos (digits2_pos p) - 1)). lia.
Qed.

Lemma Zdigits2_div z n : 0 ≤ z → 0 ≤ n → Zdigits2 (z / 2 ^ n) ≤ Z.max 0 (Zdigits2 z - n).
Proof.
  intros Hz Hn. pose proof (Z.pow_pos_nonneg 2 n). pose proof (Zdigits2_nonneg z).
  apply Zdigits2_le; [apply Z.div_pos; lia|lia|].
  apply Z.div_lt_upper_bound; [lia|]. rewrite <- Z.pow_add_r by lia.
  apply Z.lt_le_trans with (2 ^ Zdigits2 z).
  - apply Zdigits2_le; lia.
  - apply Z.pow_le_mono_r; lia.
Qed.

Lemma shr_1_m mrs : 0 ≤ shr_m mrs → shr_m (shr_1 mrs) = shr_m mrs / 2.
Proof.
  destruct mrs as [[|[p|p|]|p] r s]; cbn; intros; try done.
  - apply Z.div_unique with 1; lia.
  - apply Z.div_unique with 0; lia.
Qed.

Lemma shr_iter_m p mrs :
  0 ≤ shr_m mrs → shr_m (iter_pos shr_1 p mrs) = shr_m mrs / 2 ^ Zpos p.
Proof.
  revert mrs. induction p as [p IH|p IH|]; intros mrs Hm; cbn [iter_pos].
  - pose proof (shr_1_m mrs Hm) as H1.
    assert (0 ≤ shr_m mrs / 2) by (apply Z.div_pos; lia).
    assert (0 ≤ shr_m mrs / 2 / 2 ^ Zpos p) by (apply Z.div_pos; [done|apply Z.pow_pos_nonneg; lia]).
    assert (H2 : shr_m (iter_pos shr_1 p (shr_1 mrs)) = shr_m mrs / 2 / 2 ^ Zpos p)
      by (rewrite IH; rewrite H1; [done|lia]).
    rewrite IH; rewrite H2; [|done].
    rewrite !Z.div_div by lia. f_equal. replace (Zpos p~1) with (Zpos p + Zpos p + 1) by lia.
    rewrite !Z.pow_add_r by lia. ring.
  - assert (0 ≤ shr_m mrs / 2 ^ Zpos p) by (apply Z.div_pos; [done|apply Z.pow_pos_nonneg; lia]).
    rewrite IH; rewrite IH by done; [|done].
    rewrite Z.div_div by lia. f_equal. replace (Zpos p~0) with (Zpos p + Zpos p) by lia.
    by rewrite Z.pow_add_r by lia.
  - by rewrite shr_1_m.
Qed.

Lemma shr_record_m m l : shr_m (shr_record_of_loc m l) = m.
Proof. by destruct l as [|[]]. Qed.

(** A shift to the target exponent keeps the magnitude [digits + exponent]. *)
Lemma shr_fexp_spec m e l mrs e' :
  0 ≤ m → shr_fexp 53 1024 m e l = (mrs, e') →
  0 ≤ shr_m mrs ∧ e' = Z.max e (fexp 53 1024 (Zdigits2 m + e)) ∧
  Zdigits2 (shr_m mrs) + e' ≤ Z.max (Zdigits2 m + e) e'.
Proof.
  intros Hm. unfold shr_fexp, shr.
  destruct (fexp 53 1024 (Zdigits2 m + e) - e) as [|p|p] eqn:En; intros [= <- <-].
  1,3: rewrite shr_record_m; repeat split; lia.
  rewrite shr_iter_m, shr_record_m by (by rewrite shr_record_m).
  pose proof (Zdigits2_div m (Zpos p) Hm ltac:(lia)).
  split; [apply Z.div_pos; lia|lia].
Qed.

(** ** Magnitudes

    [f_mag_le k x]: [x] is zero or finite with an absolute value below [2^k]. *)
Definition f_mag_le (k : Z) (x : float64) : Prop :=
  match x with
  | S754_zero _ => True
  | S754_finite _ m e => Zpos (digits2_pos m) + e ≤ k
  | _ => False
  end.

Definition f_finite (x : float64) : bool :=
  match x with S754_zero _ | S754_finite _ _ _ => true | _ => false end.

Lemma mag_finite k x : f_mag_le k x → f_finite x = true.
Proof. by destruct x. Qed.

Lemma mag_mono k k' x : f_mag_le k x → k ≤ k' → f_mag_le k' x.
Proof. destruct x; simpl; lia. Qed.

Lemma round_even_m m l : 0 ≤ m → m ≤ round_nearest_even m l ≤ m + 1.
Proof. intros. destruct l as [|[]]; simpl; go_cases; lia. Qed.

Lemma Zdigits2_succ m z : 0 ≤ m → m ≤ z ≤ m + 1 → Zdigits2 z ≤ Zdigits2 m + 1.
Proof.
  intros. pose proof (Zdigits2_nonneg m). apply Zdigits2_le; [lia..|].
  rewrite Z.pow_add_r by lia. assert (m < 2 ^ Zdigits2 m) by (apply Zdigits2_le; lia). lia.
Qed.

(** Rounding keeps the sign, and never leaves the finite numbers as long as the magnitude
    stays under the largest exponent. *)
Lemma round_aux_mag s m e l k :
  0 ≤ m → Zdigits2 m + e ≤ k → e ≤ k → -1000 ≤ k ≤ 950 →
  f_mag_le (k + 1) (binary_round_aux 53 1024 s m e l) ∧
  f_signbit (binary_round_aux 53 1024 s m e l) = s.
Proof.
  intros Hm Hd He Hk. unfold binary_round_aux.
  destruct (shr_fexp 53 1024 m e l) as [mrs e'] eqn:E1.
  apply shr_fexp_spec in E1 as (Hm1 & He1 & Hd1); [|done].
  set (r := round_nearest_even _ _).
  destruct (round_even_m (shr_m mrs) (loc_of_shr_record mrs) Hm1) as [Hr1 Hr2]. fold r in Hr1, Hr2.
  pose proof (Zdigits2_succ _ r Hm1 ltac:(lia)) as Hdr.
  destruct (shr_fexp 53 1024 r e' loc_Exact) as [mrs2 e2] eqn:E2.
  apply shr_fexp_spec in E2 as (Hm2 & He2 & Hd2); [|lia].
  unfold fexp, emin in *.
  destruct (shr_m mrs2) as [|p|p]; [done| |lia]. cbn [Zdigits2] in Hd2.
  destruct (Z.leb_spec e2 (1024 - 53)); [|lia]. cbn. split; [lia|done].
Qed.

Lemma digits2_shift m d : digits2_pos (Pos.iter xO m d) = (digits2_pos m + d)%positive.
Proof.
  induction d as [|d IH] using Pos.peano_ind; [cbn; lia|].
  rewrite Pos.iter_succ. cbn [digits2_pos]. rewrite IH. lia.
Qed.

Lemma round_mag s m e k :
  Zpos (digits2_pos m) + e ≤ k → -1000 ≤ k ≤ 950 →
  f_mag_le (k + 1) (binary_round 53 1024 s m e) ∧ f_signbit (binary_round 53 1024 s m e) = s.
Proof.
  intros Hd Hk. unfold binary_round, shl_align.
  destruct (fexp 53 1024 _ - e) as [|d|d] eqn:Ed; apply round_aux_mag; cbn [Zdigits2];
    rewrite ?digits2_shift, ?Pos2Z.inj_add; lia.
Qed.

Lemma of_Z_mag z : Z.abs z < 2 ^ 64 → f_mag_le 65 (f_of_Z z) ∧ f_signbit (f_of_Z z) = bool_decide (z < 0).
Proof.
  intros Hz. assert (dig : ∀ p, Z.abs (Zpos p) < 2 ^ 64 → Zpos (digits2_pos p) + 0 ≤ 64).
  { intros p Hp. pose proof (proj2 (Zdigits2_le (Zpos p) 64 ltac:(lia) ltac:(lia))). simpl in *. lia. }
  unfold f_of_Z, binary_normalize. destruct z as [|p|p]; [done|..]; by apply (round_mag _ p 0 64); [apply dig|].
Qed.

(** The sign of a number: zero, or finite with that sign. *)
Definition f_nonneg (x : float64) : Prop := f_finite x = true ∧ f_signbit x = false.

(** Dividing by a number that is not tiny ([2^(k2-1)] or more). *)
Lemma div_mag x s2 m2 e2 k1 k2 :
  f_mag_le k1 x → k2 ≤ Zpos (digits2_pos m2) + e2 → k1 - k2 ≤ 900 → -900 ≤ k1 - k2 →
  f_mag_le (k1 - k2 + 2) (f_div x (S754_finite s2 m2 e2)) ∧
  f_signbit (f_div x (S754_finite s2 m2 e2)) = xorb (f_signbit x) s2.
Proof.
  intros Hx Hk2 Hu Hl. destruct x as [s| | |s m e]; try done. cbn [f_div SFdiv f_mag_le f_signbit] in *.
  unfold SFdiv, SFdiv_core_binary. cbn [Zdigits2].
  set (D := Zpos (digits2_pos m) + e - (Zpos (digits2_pos m2) + e2)).
  set (e' := Z.min (fexp 53 1024 D) (e - e2)).
  set (m' := match e - e2 - e' with Zpos _ => _ | _ => _ end).
  assert (Hm' : m' = Zpos m * 2 ^ (e - e2 - e')).
  { unfold m'. destruct (e - e2 - e') as [|p|p] eqn:Es; [lia|by rewrite Z.shiftl_mul_pow2|lia]. }
  rewrite (surjective_pairing (Z.div_eucl m' (Zpos m2))).
  change (fst (Z.div_eucl m' (Zpos m2))) with (m' / Zpos m2).
  assert (0 ≤ e - e2 - e') by lia.
  assert (Hpos : 0 ≤ m') by (rewrite Hm'; pose proof (Z.pow_pos_nonneg 2 (e - e2 - e')); nia).
  replace (k1 - k2 + 2) with (k1 - k2 + 1 + 1) by lia.
  apply round_aux_mag; [by apply Z.div_pos| | |lia].
  - enough (Zdigits2 (m' / Zpos m2) ≤ Z.max 0 (D + 1 - e')) by (unfold fexp, emin in *; lia).
    apply Zdigits2_le; [by apply Z.div_pos|lia|]. apply Z.div_lt_upper_bound; [lia|].
    rewrite Hm'. pose proof (digits2_bound m) as [_ Hmu]. pose proof (digits2_bound m2) as [Hml _].
    apply Z.lt_le_trans with (2 ^ Zpos (digits2_pos m) * 2 ^ (e - e2 - e')).
    { apply Z.mul_lt_mono_pos_r; [apply Z.pow_pos_nonneg; lia|done]. }
    transitivity (2 ^ (Zpos (digits2_pos m2) - 1) * 2 ^ Z.max 0 (D + 1 - e')).
    { rewrite <- !Z.pow_add_r by lia. apply Z.pow_le_mono_r; lia. }
    apply Z.mul_le_mono_nonneg_r; [apply Z.pow_nonneg; lia|done].
  - unfold fexp, emin in *. lia.
Qed.

Lemma math_Round_mag x k :
  f_mag_le k x → k ≤ 900 →
  f_mag_le (Z.max k 1 + 2) (math_Round x) ∧ f_signbit (math_Round x) = f_signbit x.
Proof.
  intros Hx Hk. destruct x as [s| | |s m e]; try done. unfold math_Round. cbn [f_mag_le] in Hx.
  case_decide; [cbn; split; [lia|done]|].
  destruct ((2 * Zpos m + 2 ^ (- e)) / (2 * 2 ^ (- e))) as [|n|n] eqn:En; [done| |done].
  replace (Z.max k 1 + 2) with (Z.max k 1 + 1 + 1) by lia. apply round_mag; [|lia].
  enough (Zdigits2 (Zpos n) ≤ Z.max k 1 + 1) by (cbn [Zdigits2] in *; lia).
  apply Zdigits2_le; [lia..|]. rewrite <- En.
  pose proof (Z.pow_pos_nonneg 2 (- e)). apply Z.div_lt_upper_bound; [lia|].
  assert (Zpos m < 2 ^ (- e) * 2 ^ Z.max k 1).
  { rewrite <- Z.pow_add_r by lia. pose proof (digits2_bound m).
    pose proof (Z.pow_le_mono_r 2 (Zpos (digits2_pos m)) (- e + Z.max k 1)). lia. }
  assert (2 ≤ 2 ^ Z.max k 1) by (apply (Z.pow_le_mono_r 2 1); lia).
  rewrite Z.pow_add_r by lia. nia.
Qed.

Lemma math_Max_nonneg x k :
  f_mag_le k x → f_mag_le k (math_Max (S754_zero false) x) ∧ f_nonneg (math_Max (S754_zero false) x).
Proof. by destruct x as [s| | |[] m e]. Qed.

(** ** Exact integers

    Integers below [2^53] are represented exactly, and so are their differences. *)

Lemma iter_xO_Z m d : Zpos (Pos.iter xO m d) = Zpos m * 2 ^ Zpos d.
Proof.
  induction d as [|d IH] using Pos.peano_ind; [cbn; lia|].
  rewrite Pos.iter_succ, Pos2Z.inj_xO, IH, Pos2Z.inj_succ, Z.pow_succ_r by lia. lia.
Qed.

Lemma iter_pos_iter {A} (f : A → A) n x : iter_pos f n x = Pos.iter f x n.
Proof.
  revert x. induction n as [n IH|n IH|]; intros x; cbn; rewrite ?IH; [|done..].
  by rewrite !Pos.iter_swap.
Qed.

(** Shifting zeros out loses nothing. *)
Lemma shr_exact p n :
  iter_pos shr_1 n (Build_shr_record (Zpos (Pos.iter xO p n)) false false) = Build_shr_record (Zpos p) false false.
Proof.
  rewrite iter_pos_iter. induction n as [|n IH] using Pos.peano_ind; [done|].
  rewrite !Pos.iter_succ, <- Pos.iter_swap. exact IH.
Qed.

(** The canonical form of the integer [±p]. *)
Definition f_int (s : bool) (p : positive) : float64 :=
  S754_finite s (Z.to_pos (Zpos p * 2 ^ (53 - Zpos (digits2_pos p)))) (Zpos (digits2_pos p) - 53).

Lemma round_aux_exact s p m :
  Zpos (digits2_pos p) ≤ 53 → Zpos m = Zpos p * 2 ^ (53 - Zpos (digits2_pos p)) →
  Zpos (digits2_pos m) = 53 →
  binary_round_aux 53 1024 s (Zpos m) (Zpos (digits2_pos p) - 53) loc_Exact = f_int s p.
Proof.
  intros Hp Hm Hd. unfold binary_round_aux, shr_fexp. cbn [Zdigits2]. rewrite Hd.
  assert (Hf : fexp 53 1024 (53 + (Zpos (digits2_pos p) - 53)) - (Zpos (digits2_pos p) - 53) = 0)
    by (unfold fexp, emin; lia).
  rewrite Hf. cbn. rewrite Hd, Hf. cbn.
  destruct (Z.leb_spec (Zpos (digits2_pos p) - 53) (1024 - 53)); [|lia]. unfold f_int. by rewrite <- Hm.
Qed.

Lemma round_exact s p m j :
  Zpos (digits2_pos p) ≤ 53 → 0 ≤ j → Zpos m = Zpos p * 2 ^ j →
  binary_round 53 1024 s m (- j) = f_int s p.
Proof.
  intros Hp Hj Hm. assert (Hd : Zpos (digits2_pos m) = Zpos (digits2_pos p) + j).
  { destruct j as [|j|j]; [rewrite Z.mul_1_r in Hm; injection Hm as ->; lia| |lia].
    rewrite <- iter_xO_Z in Hm. injection Hm as ->. rewrite digits2_shift. lia. }
  unfold binary_round, shl_align. rewrite Hd.
  assert (Hf : fexp 53 1024 (Zpos (digits2_pos p) + j + - j) = Zpos (digits2_pos p) - 53)
    by (unfold fexp, emin; lia).
  rewrite Hf. destruct (Zpos (digits2_pos p) - 53 - - j) as [|n|n] eqn:En.
  - replace (- j) with (Zpos (digits2_pos p) - 53) by lia.
    apply round_aux_exact; [done| |lia]. rewrite Hm. do 2 f_equal. lia.
  - assert (Hn : m = Pos.iter xO (Z.to_pos (Zpos p * 2 ^ (53 - Zpos (digits2_pos p)))) n).
    { apply Pos2Z.inj. rewrite iter_xO_Z, Z2Pos.id by (pose proof (Z.pow_pos_nonneg 2 (53 - Zpos (digits2_pos p))); nia).
      rewrite Hm, <- Z.mul_assoc, <- Z.pow_add_r by lia. do 2 f_equal. lia. }
    set (q := Z.to_pos _) in Hn. assert (Hq : Zpos (digits2_pos q) = 53).
    { rewrite Hn, digits2_shift in Hd. lia. }
    unfold binary_round_aux, shr_fexp. cbn [Zdigits2]. rewrite Hd, Hf, En. cbn [shr_record_of_loc shr].
    rewrite Hn, shr_exact. cbn. rewrite Hq.
    replace (- j + Zpos n) with (Zpos (digits2_pos p) - 53) by lia.
    assert (Hz : fexp 53 1024 (53 + (Zpos (digits2_pos p) - 53)) - (Zpos (digits2_pos p) - 53) = 0)
      by (unfold fexp, emin; lia).
    rewrite Hz. cbn. destruct (Z.leb_spec (Zpos (digits2_pos p) - 53) (1024 - 53)); [done|lia].
  - apply round_aux_exact; [done| |rewrite digits2_shift; lia].
    rewrite iter_xO_Z, Hm, <- Z.mul_assoc, <- Z.pow_add_r by lia. do 2 f_equal. lia.
Qed.

(** ** Differences of integers *)

Lemma digits_53 p : Zpos p < 2 ^ 53 → Zpos (digits2_pos p) ≤ 53.
Proof. intros Hp. by apply (Zdigits2_le (Zpos p) 53 ltac:(lia) ltac:(lia)). Qed.

Lemma of_Z_int z :
  Z.abs z < 2 ^ 53 →
  f_of_Z z = match z with Z0 => S754_zero false | Zpos p => f_int false p | Zneg p => f_int true p end.
Proof.
  intros Hz. destruct z as [|p|p]; [done|..]; apply (round_exact _ p p 0); try apply digits_53; simpl in *; lia.
Qed.

Lemma normalize_exact z j :
  Z.abs z < 2 ^ 53 → 0 ≤ j → binary_normalize 53 1024 (z * 2 ^ j) (- j) false = f_of_Z z.
Proof.
  intros Hz Hj. rewrite of_Z_int by done. pose proof (Z.pow_pos_nonneg 2 j ltac:(lia) Hj).
  destruct z as [|p|p]; [done|..]; unfold binary_normalize.
  - destruct (Zpos p * 2 ^ j) as [|m|m] eqn:Em; [lia| |lia]. by apply round_exact; [apply digits_53|..].
  - destruct (Zneg p * 2 ^ j) as [|m|m] eqn:Em; [lia|lia|]. apply round_exact; [apply digits_53|..]; simpl in *; lia.
Qed.

Lemma align_int s p j :
  Zpos (digits2_pos p) ≤ 53 → - j ≤ Zpos (digits2_pos p) - 53 →
  match f_int s p with S754_finite _ m e => Zpos (fst (shl_align m e (- j))) | _ => 0 end = Zpos p * 2 ^ j.
Proof.
  intros Hp Hj. pose proof (Z.pow_pos_nonneg 2 (53 - Zpos (digits2_pos p))). cbn [f_int]. unfold shl_align.
  destruct (- j - (Zpos (digits2_pos p) - 53)) as [|n|n] eqn:En; [| lia|]; cbn [fst].
  - rewrite Z2Pos.id by nia. do 2 f_equal. lia.
  - rewrite iter_xO_Z, Z2Pos.id by nia. rewrite <- Z.mul_assoc, <- Z.pow_add_r by lia. do 2 f_equal. lia.
Qed.

Lemma sub_exact a b :
  0 ≤ a < 2 ^ 53 → 0 ≤ b < 2 ^ 53 → f_sub (f_of_Z a) (f_of_Z b) = f_of_Z (a - b).
Proof.
  intros Ha Hb. rewrite (of_Z_int a), (of_Z_int b) by lia.
  destruct a as [|a|a], b as [|b|b]; try lia; [done|..].
  - rewrite (of_Z_int (0 - Zpos b)) by lia. done.
  - rewrite (of_Z_int (Zpos a - 0)) by lia. done.
  - pose proof (digits_53 a ltac:(lia)). pose proof (digits_53 b ltac:(lia)).
    unfold f_sub, SFsub, f_int.
    set (ez := Z.min _ _). replace ez with (- - ez) by lia.
    pose proof (align_int false a (- ez) ltac:(done) ltac:(lia)) as Ha'.
    pose proof (align_int false b (- ez) ltac:(done) ltac:(lia)) as Hb'.
    cbn [f_int cond_Zopp] in *. rewrite Ha', Hb', <- Z.mul_sub_distr_r. apply normalize_exact; lia.
Qed.
