(* ===== verification/Sampler.v ===== *)
(** * Rates: the node sampler, the bandwidth recorder and the printing of sizes

    [internal/cmgr/sampler/node.go] and [types.go] (what one tick of the connection
    manager's loop records about the host), [pkg/xray/bandwidth_recorder.go] (host bandwidth
    for the panel's traffic report), [pkg/bytes/utils.go], and the rate of
    [internal/conn/limit_reader.go].  What gopsutil reads from the host, and the clock, are
    arguments; the arithmetic is the float64 arithmetic of [Float]. *)

From S2P Require Import Prelude GoStd Float.

(** ** NodeSampler *)

Record NodeMetrics := mkNodeMetrics {
  CpuCoreCount : Z; CpuLoadInfo : string; CpuUsagePercent : float64;
  MemoryTotalBytes : Z; MemoryUsageBytes : Z; MemoryUsagePercent : float64;
  DiskTotalBytes : Z; DiskUsageBytes : Z; DiskUsagePercent : float64;
  NetworkReceiveBytesTotal : Z; NetworkTransmitBytesTotal : Z;
  NetworkReceiveBytesRate : float64; NetworkTransmitBytesRate : float64;
  SyncTime : Z }.

(** The field [last]; [None] is the nil pointer of a fresh sampler. *)
Record NodeSampler := mkNodeSampler { last : option NodeMetrics }.

Definition NewNodeSampler : NodeSampler := {| last := None |}.

(** What gopsutil returns for the total over all interfaces: the counters are uint64. *)
Record IOCountersStat := mkIOCountersStat { BytesSent : Z; BytesRecv : Z }.
(** [Total], [Used] (uint64) and [UsedPercent] of memory or of the root file system. *)
Record usage_stat := mkUsage { us_Total : Z; us_Used : Z; us_UsedPercent : float64 }.

(** The readings of one call, with the time of its start. *)
Record readings := mkReadings {
  rd_now : Z; rd_NumCPU : Z;
  rd_cpu : list float64 + error;
  rd_load : (float64 * float64 * float64) + error;
  rd_mem : usage_stat + error;
  rd_disk : usage_stat + error;
  rd_io : list IOCountersStat + error }.

Definition f_zero : float64 := S754_zero false.

Definition round2 (f : float64) : float64 := f_div (math_Round (f_mul f (f_of_Z 100))) (f_of_Z 100).

(** The two lines that compute one rate. *)
Definition network_rate (cur prev : Z) (dur : float64) : float64 :=
  math_Round (math_Max f_zero (f_div (f_of_Z (wrap64 (cur - prev))) dur)).

Definition NodeSampler_Sample (rd : readings) (s : NodeSampler) : NodeMetrics * NodeSampler :=
  let cpu := match rd_cpu rd with inl (pct :: _) => round2 pct | _ => f_zero end in
  let load := match rd_load rd with
              | inl (l1, l5, l15) => fmt_f 2 l1 +:+ "|" +:+ fmt_f 2 l5 +:+ "|" +:+ fmt_f 2 l15
              | inr _ => "" end in
  let usage (r : usage_stat + error) := match r with
              | inl u => (wrap64 (us_Total u), wrap64 (us_Used u), round2 (us_UsedPercent u))
              | inr _ => (0, 0, f_zero) end in
  let '(mt, mu, mp) := usage (rd_mem rd) in
  let '(dt, du, dp) := usage (rd_disk rd) in
  let '(recv, sent) := match rd_io rd with
              | inl (io :: _) => (wrap64 (BytesRecv io), wrap64 (BytesSent io))
              | _ => (0, 0) end in
  let '(rrate, trate) :=
    match last s with
    | Some l =>
        let dur := Duration_Seconds (time_Sub (rd_now rd) (SyncTime l)) in
        if f_lt (f_lit 1 10) dur
        then (network_rate recv (NetworkReceiveBytesTotal l) dur,
              network_rate sent (NetworkTransmitBytesTotal l) dur)
        else (f_zero, f_zero)
    | None => (f_zero, f_zero)
    end in
  let nm := {| CpuCoreCount := rd_NumCPU rd; CpuLoadInfo := load; CpuUsagePercent := cpu;
               MemoryTotalBytes := mt; MemoryUsageBytes := mu; MemoryUsagePercent := mp;
               DiskTotalBytes := dt; DiskUsageBytes := du; DiskUsagePercent := dp;
               NetworkReceiveBytesTotal := recv; NetworkTransmitBytesTotal := sent;
               NetworkReceiveBytesRate := rrate; NetworkTransmitBytesRate := trate;
               SyncTime := rd_now rd |} in
  (nm, {| last := Some nm |}).

(** Successive ticks. *)
Fixpoint Sample_run (rds : list readings) (s : NodeSampler) : list NodeMetrics * NodeSampler :=
  match rds with
  | [] => ([], s)
  | rd :: rds =>
      let '(nm, s) := NodeSampler_Sample rd s in
      let '(nms, s) := Sample_run rds s in (nm :: nms, s)
  end.

(** ** bandwidthRecorder *)

(** [None] is the zero [time.Time]. *)
Record bandwidthRecorder := mkRecorder {
  currentSendBytes : float64; currentRecvBytes : float64;
  uploadBandwidthBytes : float64; downloadBandwidthBytes : float64;
  lastRecordTime : option Z }.

Definition newBandwidthRecorder : bandwidthRecorder := mkRecorder f_zero f_zero f_zero f_zero None.

(** [io]: the counters as gopsutil returns them; [now]: the clock after that. *)
Definition bandwidthRecorder_RecordOnce (io : list IOCountersStat + error) (now : Z) (b : bandwidthRecorder) :
    outcome (float64 * float64) * bandwidthRecorder :=
  match io with
  | inr err => (Err err, b)
  | inl io =>
      let '(send, recv) := match io with
        | c :: _ => (f_of_Z (BytesSent c), f_of_Z (BytesRecv c))
        | [] => (f_zero, f_zero) end in
      match lastRecordTime b with
      | Some t =>
          let elapsed := Duration_Seconds (time_Sub now t) in
          let uploadIncr := f_sub send (currentSendBytes b) in
          let downloadIncr := f_sub recv (currentRecvBytes b) in
          (Ret (uploadIncr, downloadIncr),
           if f_lt f_zero elapsed
           then mkRecorder send recv (f_div uploadIncr elapsed) (f_div downloadIncr elapsed) (Some now)
           else mkRecorder send recv (uploadBandwidthBytes b) (downloadBandwidthBytes b) (Some now))
      | None =>
          (Ret (f_zero, f_zero), mkRecorder send recv (uploadBandwidthBytes b) (downloadBandwidthBytes b) (Some now))
      end
  end.

Definition bandwidthRecorder_GetDownloadBandwidth (b : bandwidthRecorder) : float64 := downloadBandwidthBytes b.
Definition bandwidthRecorder_GetUploadBandwidth (b : bandwidthRecorder) : float64 := uploadBandwidthBytes b.

Notation recording := (Z * (list IOCountersStat + error))%type.

Fixpoint RecordOnce_run (evs : list recording) (b : bandwidthRecorder) :
    list (outcome (float64 * float64)) * bandwidthRecorder :=
  match evs with
  | [] => ([], b)
  | (now, io) :: evs =>
      let '(r, b) := bandwidthRecorder_RecordOnce io now b in
      let '(rs, b) := RecordOnce_run evs b in (r :: rs, b)
  end.

(** ** Sizes and the read rate limit *)

Fixpoint pretty_loop (base : float64) (units : list string) (render : string → string → string)
    (tail : string → string) (bf : float64) : string :=
  match units with
  | [] => tail (fmt_f 1 bf)
  | unit :: units =>
      if f_lt (math_Abs bf) base then render (fmt_f 1 bf) unit
      else pretty_loop base units render tail (f_div bf base)
  end.

Definition PrettyByteSize (bf : float64) : string :=
  pretty_loop (f_of_Z 1024) [""; "Ki"; "Mi"; "Gi"; "Ti"; "Pi"; "Ei"; "Zi"]
    (λ n unit, " " +:+ n +:+ unit +:+ "B ") (λ n, " " +:+ n +:+ "YiB ") bf.

Definition PrettyBitRate (bps : float64) : string :=
  pretty_loop (f_of_Z 1000) ["bps"; "Kbps"; "Mbps"; "Gbps"; "Tbps"; "Pbps"; "Ebps"; "Zbps"]
    (λ n unit, " " +:+ n +:+ " " +:+ unit +:+ " ") (λ n, " " +:+ n +:+ " Ybps ") bps.

(** The arguments [NewRateLimitedConn] gives to [ratelimit.NewBucketWithRate]: the rate in
    bytes per second and the capacity of the bucket. *)
Definition NewRateLimitedConn_bucket (kbps : Z) : float64 * Z :=
  let bps := f_mul (f_of_Z kbps) (f_of_Z 1000) in
  let rateBytesPerSec := f_div bps (f_of_Z 8) in
  (rateBytesPerSec, int64_of_float rateBytesPerSec).

Example pretty_1 : PrettyByteSize (f_of_Z 0) = " 0.0B ". Proof. vm_compute. reflexivity. Qed.
Example pretty_2 : PrettyByteSize (f_of_Z 1536) = " 1.5KiB ". Proof. vm_compute. reflexivity. Qed.
Example pretty_3 : PrettyByteSize (f_of_Z 1048575) = " 1024.0KiB ". Proof. vm_compute. reflexivity. Qed.
Example pretty_4 : PrettyBitRate (f_of_Z 12345678) = " 12.3 Mbps ". Proof. vm_compute. reflexivity. Qed.
Example bucket_1 : NewRateLimitedConn_bucket 100 = (f_of_Z 12500, 12500). Proof. vm_compute. reflexivity. Qed.

(** ** Lemmas *)

(** A denominator above 0.1 is positive, and not tiny. *)
Lemma lt_tenth dur :
  f_lt (f_lit 1 10) dur = true →
  dur = S754_infinity false ∨ ∃ m e, dur = S754_finite false m e ∧ -56 ≤ e.
Proof.
  rewrite f_lit_1. unfold f_lt, SFltb. destruct dur as [s|[]| |[] m e]; cbn [SFcompare]; intros H; try done;
    [by left|].
  right. exists m, e. split; [done|]. destruct (Z.compare_spec (-56) e); [lia|lia|done].
Qed.

Lemma int64_abs z : Z.abs (wrap64 z) < 2 ^ 64.
Proof. pose proof (wrap64_range z) as Hr. unfold in_int64, min_int64, max_int64 in Hr. lia. Qed.

(** Neither a counter that went back nor one that wrapped makes a rate negative,
    infinite or not a number. *)
Lemma network_rate_nonneg cur prev dur :
  f_lt (f_lit 1 10) dur = true → f_nonneg (network_rate cur prev dur).
Proof.
  intros Hd. unfold network_rate, f_zero.
  destruct (of_Z_mag (wrap64 (cur - prev)) (int64_abs _)) as [Hm _].
  assert (Hq : ∃ k, f_mag_le k (f_div (f_of_Z (wrap64 (cur - prev))) dur) ∧ k ≤ 900).
  { destruct (lt_tenth _ Hd) as [->|(m & e & -> & He)].
    - exists 0. split; [|lia]. by destruct (f_of_Z _).
    - exists (65 - -55 + 2). split; [|lia]. apply div_mag; try done; lia. }
  destruct Hq as (k & Hk & Hk9). destruct (math_Max_nonneg _ _ Hk) as [Hk' [_ Hs]].
  destruct (math_Round_mag _ _ Hk' Hk9) as [Hr Hrs].
  split; [by eapply mag_finite|]. by rewrite Hrs.
Qed.

Lemma f_zero_nonneg : f_nonneg f_zero.
Proof. done. Qed.

#[export] Hint Resolve network_rate_nonneg f_zero_nonneg : ehco.

(** ** The node sampler *)

Lemma Sample_last rd s :
  let '(nm, s') := NodeSampler_Sample rd s in last s' = Some nm ∧ SyncTime nm = rd_now rd.
Proof.
  unfold NodeSampler_Sample.
  destruct (match rd_mem rd with inl _ => _ | inr _ => _ end) as [[mt mu] mp].
  destruct (match rd_disk rd with inl _ => _ | inr _ => _ end) as [[dt du] dp].
  destruct (match rd_io rd with inl _ => _ | inr _ => _ end) as [recv sent].
  destruct (last s) as [l|]; [|done]. by destruct (f_lt _ _).
Qed.

Lemma Sample_zero rd s l :
  last s = Some l → f_lt (f_lit 1 10) (Duration_Seconds (time_Sub (rd_now rd) (SyncTime l))) = false →
  let nm := (NodeSampler_Sample rd s).1 in
  NetworkReceiveBytesRate nm = f_zero ∧ NetworkTransmitBytesRate nm = f_zero.
Proof.
  intros Hl Hd. unfold NodeSampler_Sample. rewrite Hl, Hd.
  destruct (match rd_mem rd with inl _ => _ | inr _ => _ end) as [[mt mu] mp].
  destruct (match rd_disk rd with inl _ => _ | inr _ => _ end) as [[dt du] dp].
  by destruct (match rd_io rd with inl _ => _ | inr _ => _ end) as [recv sent].
Qed.

Lemma Sample_nonneg rd s :
  let nm := (NodeSampler_Sample rd s).1 in
  f_nonneg (NetworkReceiveBytesRate nm) ∧ f_nonneg (NetworkTransmitBytesRate nm).
Proof.
  unfold NodeSampler_Sample.
  destruct (match rd_mem rd with inl _ => _ | inr _ => _ end) as [[mt mu] mp].
  destruct (match rd_disk rd with inl _ => _ | inr _ => _ end) as [[dt du] dp].
  destruct (match rd_io rd with inl _ => _ | inr _ => _ end) as [recv sent].
  destruct (last s) as [l|]; [|auto with ehco]. destruct (f_lt _ _) eqn:El; auto with ehco.
  split; by apply network_rate_nonneg.
Qed.

(** [C24] Whatever the host and the clock report (counters that reset or wrap, readings
    that fail, a clock that stands still or goes back), every sample the node sampler
    stores has finite, non-negative network rates; they are zero for the first sample and
    for one that comes within a tenth of a second of its predecessor; and the sampler
    remembers exactly the sample it returned. *)
Theorem Sample_rates (rd : readings) (s : NodeSampler) :
  let '(nm, s') := NodeSampler_Sample rd s in
  f_nonneg (NetworkReceiveBytesRate nm) ∧ f_nonneg (NetworkTransmitBytesRate nm) ∧
  (∀ l, last s = Some l →
    f_lt (f_lit 1 10) (Duration_Seconds (time_Sub (rd_now rd) (SyncTime l))) = false →
    NetworkReceiveBytesRate nm = f_zero ∧ NetworkTransmitBytesRate nm = f_zero) ∧
  (last s = None → NetworkReceiveBytesRate nm = f_zero ∧ NetworkTransmitBytesRate nm = f_zero) ∧
  last s' = Some nm ∧ SyncTime nm = rd_now rd.
Proof.
  unfold NodeSampler_Sample.
  destruct (match rd_mem rd with inl _ => _ | inr _ => _ end) as [[mt mu] mp].
  destruct (match rd_disk rd with inl _ => _ | inr _ => _ end) as [[dt du] dp].
  destruct (match rd_io rd with inl _ => _ | inr _ => _ end) as [recv sent].
  destruct (last s) as [l|]; [|repeat split; auto with ehco].
  destruct (f_lt _ _) eqn:El; cbn.
  - do 2 (split; [by apply network_rate_nonneg|]). split; [intros ? [= <-]; by rewrite El|done].
  - repeat split; done.
Qed.

(** One failed reading of the interface counters shows up twice: the sample itself
    records totals of zero, and because it becomes the reference, the next sample reports
    the whole counter of the host, however old, as the traffic of one interval. *)
Theorem failed_reading_spikes (rd1 rd2 : readings) (s : NodeSampler) (e : error)
    (c : IOCountersStat) (cs : list IOCountersStat)
    (Hfail : rd_io rd1 = inr e) (Hok : rd_io rd2 = inl (c :: cs))
    (Hdur : f_lt (f_lit 1 10) (Duration_Seconds (time_Sub (rd_now rd2) (rd_now rd1))) = true) :
  let '(nm1, s1) := NodeSampler_Sample rd1 s in
  let '(nm2, _) := NodeSampler_Sample rd2 s1 in
  NetworkReceiveBytesTotal nm1 = 0 ∧ NetworkTransmitBytesTotal nm1 = 0 ∧
  NetworkReceiveBytesRate nm2 =
    network_rate (wrap64 (BytesRecv c)) 0 (Duration_Seconds (time_Sub (rd_now rd2) (rd_now rd1))) ∧
  NetworkTransmitBytesRate nm2 =
    network_rate (wrap64 (BytesSent c)) 0 (Duration_Seconds (time_Sub (rd_now rd2) (rd_now rd1))).
Proof.
  unfold NodeSampler_Sample. rewrite Hfail, Hok.
  destruct (match rd_mem rd1 with inl _ => _ | inr _ => _ end) as [[mt mu] mp].
  destruct (match rd_disk rd1 with inl _ => _ | inr _ => _ end) as [[dt du] dp].
  destruct (match rd_mem rd2 with inl _ => _ | inr _ => _ end) as [[mt2 mu2] mp2].
  destruct (match rd_disk rd2 with inl _ => _ | inr _ => _ end) as [[dt2 du2] dp2].
  destruct (match last s with Some _ => _ | None => _ end) as [rr tr].
  cbn [last SyncTime NetworkReceiveBytesTotal NetworkTransmitBytesTotal]. rewrite Hdur. done.
Qed.

Definition sample_readings (now : Z) (io : list IOCountersStat + error) : readings :=
  {| rd_now := now; rd_NumCPU := 4; rd_cpu := inl [f_lit 1234567 100000];
     rd_load := inl (f_lit 1 2, f_lit 1 4, f_lit 1 8); rd_mem := inl (mkUsage 100 40 (f_of_Z 40));
     rd_disk := inr (Errorf "no such file"); rd_io := io |}.

(** An idle host with 10^12 bytes on the counter: 2·10^11 bytes per second are reported. *)
Lemma failed_reading_spikes_witness :
  let c := mkIOCountersStat 1000000000000 1000000000000 in
  let '(_, s1) := NodeSampler_Sample (sample_readings 0 (inr (Errorf "io"))) NewNodeSampler in
  let '(nm2, _) := NodeSampler_Sample (sample_readings (5 * Second) (inl [c])) s1 in
  NetworkReceiveBytesRate nm2 = f_of_Z 200000000000.
Proof.
  pose proof (failed_reading_spikes (sample_readings 0 (inr (Errorf "io")))
    (sample_readings (5 * Second) (inl [mkIOCountersStat 1000000000000 1000000000000])) NewNodeSampler
    (Errorf "io") (mkIOCountersStat 1000000000000 1000000000000) [] eq_refl eq_refl
    ltac:(vm_compute; reflexivity)) as H.
  cbn zeta. destruct (NodeSampler_Sample _ NewNodeSampler) as [nm1 s1].
  destruct (NodeSampler_Sample _ s1) as [nm2 s2]. destruct H as (_ & _ & -> & _). vm_compute. reflexivity.
Defined.

(** ** The bandwidth recorder *)

(** The counters of the successful readings; an empty list counts as zeros. *)
Definition counters_of (evs : list recording) : list (Z * Z) :=
  omap (λ ev, match ev.2 with
              | inl (c :: _) => Some (BytesSent c, BytesRecv c)
              | inl [] => Some (0, 0)
              | inr _ => None end) evs.

Definition failures_of (evs : list recording) : list error :=
  omap (λ ev, match ev.2 with inr e => Some e | inl _ => None end) evs.

(** Consecutive differences. *)
Fixpoint diffs (prev : Z * Z) (l : list (Z * Z)) : list (Z * Z) :=
  match l with [] => [] | c :: l => (c.1 - prev.1, c.2 - prev.2) :: diffs c l end.

Definition ret_of {A} (m : outcome A) : option A := match m with Ret a => Some a | _ => None end.
Definition err_of {A} (m : outcome A) : option error := match m with Err e => Some e | _ => None end.

Definition exact_counter (c : Z * Z) : Prop := 0 ≤ c.1 < 2 ^ 53 ∧ 0 ≤ c.2 < 2 ^ 53.

Lemma diffs_sum prev l :
  sum_Z (diffs prev l).*1 = (List.last l prev).1 - prev.1 ∧
  sum_Z (diffs prev l).*2 = (List.last l prev).2 - prev.2.
Proof.
  revert prev. induction l as [|c l IH]; intros prev; [cbn; lia|].
  destruct (IH c) as [H1 H2]. csimpl. rewrite H1, H2. cbn.
  destruct l as [|c' l]; cbn; [lia|].
  assert (Hl : ∀ d d', List.last (c' :: l) d = List.last (c' :: l) d').
  { clear. revert c'. induction l as [|x l IH]; intros c' d d'; [done|]. exact (IH x d d'). }
  pose proof (Hl c prev) as Hl'. cbn in Hl'. rewrite Hl'. lia.
Qed.

Lemma RecordOnce_run_after evs b t prev :
  lastRecordTime b = Some t → exact_counter prev → Forall exact_counter (counters_of evs) →
  currentSendBytes b = f_of_Z prev.1 → currentRecvBytes b = f_of_Z prev.2 →
  omap ret_of (RecordOnce_run evs b).1 = prod_map f_of_Z f_of_Z <$> diffs prev (counters_of evs).
Proof.
  revert b t prev. induction evs as [|[now io] evs IH]; intros b t prev Ht Hp Hf Hs Hr; [done|].
  cbn [RecordOnce_run]. unfold bandwidthRecorder_RecordOnce. rewrite Ht. destruct io as [io|err].
  - set (c := match io with c :: _ => (BytesSent c, BytesRecv c) | [] => (0, 0) end).
    assert (Hcs : counters_of ((now, inl io) :: evs) = c :: counters_of evs) by (by destruct io).
    rewrite Hcs in *. inversion Hf as [|? ? Hc Hf']; subst.
    replace (match io with c :: _ => _ | [] => _ end) with (f_of_Z c.1, f_of_Z c.2) by (by destruct io).
    rewrite Hs, Hr. destruct Hc as [Hc1 Hc2], Hp as [Hp1 Hp2]. rewrite !sub_exact by done.
    destruct (f_lt _ _); match goal with |- context [RecordOnce_run evs ?b'] =>
      specialize (IH b' now c eq_refl (conj Hc1 Hc2) Hf' eq_refl eq_refl) end;
      destruct (RecordOnce_run evs _) as [rs b']; csimpl; by rewrite <- IH.
  - specialize (IH b t prev Ht Hp Hf Hs Hr). destruct (RecordOnce_run evs b) as [rs b']. exact IH.
Qed.

Lemma RecordOnce_run_errors evs b : omap err_of (RecordOnce_run evs b).1 = failures_of evs.
Proof.
  revert b. induction evs as [|[now io] evs IH]; intros b; [done|]. cbn [RecordOnce_run].
  destruct io as [io|err]; unfold bandwidthRecorder_RecordOnce.
  - destruct (match io with c :: _ => _ | [] => _ end) as [send recv]. destruct (lastRecordTime b);
      [destruct (f_lt _ _)|]; match goal with |- context [RecordOnce_run evs ?b'] =>
      specialize (IH b'); destruct (RecordOnce_run evs b') end; exact IH.
  - specialize (IH b). destruct (RecordOnce_run evs b). csimpl. by rewrite <- IH.
Qed.

(** The increments that the bandwidth recorder reports are exact and complete: over any
    series of recordings, failed ones included, with counters below [2^53], the first success
    reports zero, each later success reports exactly the bytes since the previous success,
    so that they add up to the last counter minus the first; a failed reading is returned
    as its error and loses nothing, because the next success covers its interval too. *)
Theorem RecordOnce_telescopes (evs : list recording) (c : Z * Z) (cs : list (Z * Z))
    (Hcs : counters_of evs = c :: cs) (Hexact : Forall exact_counter (c :: cs)) :
  let '(rs, _) := RecordOnce_run evs newBandwidthRecorder in
  omap ret_of rs = (f_of_Z 0, f_of_Z 0) :: (prod_map f_of_Z f_of_Z <$> diffs c cs) ∧
  sum_Z (diffs c cs).*1 = (List.last cs c).1 - c.1 ∧
  sum_Z (diffs c cs).*2 = (List.last cs c).2 - c.2 ∧
  omap err_of rs = failures_of evs.
Proof.
  pose proof (RecordOnce_run_errors evs newBandwidthRecorder) as He.
  destruct (RecordOnce_run evs newBandwidthRecorder) as [rs b] eqn:Er. cbn in He.
  split; [|destruct (diffs_sum c cs); auto]. clear He.
  revert rs b Er. induction evs as [|[now io] evs IH]; intros rs b; [done|]. cbn [RecordOnce_run].
  destruct io as [io|err].
  - assert (Hc : (match io with c :: _ => (BytesSent c, BytesRecv c) | [] => (0, 0) end) = c ∧ counters_of evs = cs).
    { destruct io; cbn in Hcs; by injection Hcs as <- <-. }
    destruct Hc as [Hc Hcs']. inversion Hexact as [|? ? Hec Hecs]; subst.
    unfold bandwidthRecorder_RecordOnce. cbn [newBandwidthRecorder lastRecordTime].
    set (c := match io with c :: _ => _ | [] => _ end) in *.
    replace (match io with c :: _ => _ | [] => _ end) with (f_of_Z c.1, f_of_Z c.2) by (unfold c; by destruct io).
    match goal with |- context [RecordOnce_run evs ?b'] =>
      pose proof (RecordOnce_run_after evs b' now c eq_refl Hec Hecs eq_refl eq_refl) as H;
      destruct (RecordOnce_run evs b') end.
    intros [= <- <-]. csimpl. f_equal. exact H.
  - cbn in Hcs. specialize (IH Hcs). cbn [bandwidthRecorder_RecordOnce].
    destruct (RecordOnce_run evs newBandwidthRecorder) as [rs' b']. intros [= <- <-]. exact (IH rs' b' eq_refl).
Qed.

Definition sample_recordings : list recording :=
  [(0, inl [mkIOCountersStat 100 50]); (Second, inr (Errorf "io")); (2 * Second, inl [mkIOCountersStat 700 80]);
   (3 * Second, inl [mkIOCountersStat 900 90])].

Lemma RecordOnce_telescopes_witness :
  let '(rs, b) := RecordOnce_run sample_recordings newBandwidthRecorder in
  omap ret_of rs = [(f_of_Z 0, f_of_Z 0); (f_of_Z 600, f_of_Z 30); (f_of_Z 200, f_of_Z 10)] ∧
  omap err_of rs = [Errorf "io"].
Proof.
  pose proof (RecordOnce_telescopes sample_recordings (100, 50) [(700, 80); (900, 90)] eq_refl
    ltac:(repeat constructor; cbn; lia)) as H.
  destruct (RecordOnce_run sample_recordings newBandwidthRecorder) as [rs b].
  destruct H as (-> & _ & _ & ->). split; vm_compute; reflexivity.
Defined.

(** Nothing clamps the bandwidth: after a counter reset it is negative, and so is what the
    traffic report sends. *)
Example bandwidth_negative :
  let '(_, b) := RecordOnce_run [(0, inl [mkIOCountersStat 1000 0]); (Second, inl [mkIOCountersStat 0 0])]
    newBandwidthRecorder in
  int64_of_float (bandwidthRecorder_GetUploadBandwidth b) = -1000.
Proof. vm_compute. reflexivity. Qed.
