(* ===== verification/Lb.v ===== *)
(** * internal/lb/round_robin.go: the round-robin balancer

    The balancer hands out pointers to shared [Node]s; a pointer is modelled by its
    position in [nodeList], so that two users of the same node see one another's writes to
    [HandShakeDuration].  The cursor is an [atomic.Int64]: it wraps.  Not modelled:
    [extractHost] and [GetAddrHost] ([net/url] parsing). *)

From S2P Require Import Prelude GoStd.

Record Node := mkNode { Address : string; HandShakeDuration : Z }.

#[global] Instance Node_eq_dec : EqDecision Node.
Proof. solve_decision. Defined.

Definition Node_Clone (n : Node) : Node :=
  {| Address := Address n; HandShakeDuration := HandShakeDuration n |}.

Record roundrobin := mkRoundrobin { nodeList : list Node; next : Z; len : Z }.

Definition NewRoundRobin (nodeList : list Node) : roundrobin :=
  {| nodeList := nodeList; next := 0; len := Z.of_nat (length nodeList) |}.

(** [nodeList[i]] for a Go [int] index: the pointer it loads, or the run-time panic. *)
Definition index_node (nodes : list Node) (i : Z) : outcome nat :=
  if decide (0 ≤ i < Z.of_nat (length nodes)) then Ret (Z.to_nat i) else Panic IndexOutOfRange.

(** [r.nodeList[(int(n)-1) % r.len]] after the atomic increment of [r.next]. *)
Definition roundrobin_Next (r : roundrobin) : outcome nat * roundrobin :=
  let n := wrap64 (next r + 1) in
  let r' := {| nodeList := nodeList r; next := n; len := len r |} in
  (if decide (len r = 0) then Panic DivideByZero
   else index_node (nodeList r) (go_rem (wrap64 (n - 1)) (len r)), r').

Definition roundrobin_GetAll (r : roundrobin) : list Node := nodeList r.

(** [k] consecutive calls of [Next], each a returned pointer. *)
Fixpoint Next_calls (k : nat) (r : roundrobin) : outcome (list nat) * roundrobin :=
  match k with
  | O => (Ret [], r)
  | S k =>
      let (p, r1) := roundrobin_Next r in
      let (ps, r2) := Next_calls k r1 in
      (p ≫= λ i, ps ≫= λ js, Ret (i :: js), r2)
  end.

(** The balancer as [NewRoundRobin] builds it, with a cursor that has not wrapped. *)
Definition roundrobin_wf (r : roundrobin) : Prop :=
  len r = Z.of_nat (length (nodeList r)) ∧ 0 < len r < 2 ^ 63 ∧ 0 ≤ next r ≤ max_int64.

(** ** Lemmas *)

Lemma Next_wf r :
  roundrobin_wf r →
  roundrobin_Next r =
    (Ret (Z.to_nat (next r mod len r)),
     {| nodeList := nodeList r; next := wrap64 (next r + 1); len := len r |}).
Proof.
  intros (Hlen & Hpos & Hn). unfold roundrobin_Next, max_int64 in *.
  rewrite decide_False by lia. f_equal.
  rewrite wrap64_succ_pred by (unfold in_int64, min_int64, max_int64; lia).
  unfold go_rem, index_node. rewrite Z.rem_mod_nonneg by lia.
  pose proof (Z.mod_pos_bound (next r) (len r)). rewrite decide_True by lia. done.
Qed.

Lemma Next_calls_wf k r :
  roundrobin_wf r → next r + Z.of_nat k ≤ max_int64 →
  Next_calls k r =
    (Ret ((λ i, Z.to_nat ((next r + Z.of_nat i) mod len r)) <$> seq 0 k),
     {| nodeList := nodeList r; next := next r + Z.of_nat k; len := len r |}).
Proof.
  revert r. induction k as [|k IH]; intros r Hwf Hk.
  - destruct r; simpl. f_equal. f_equal. simpl. lia.
  - cbn [Next_calls]. rewrite Next_wf by done. destruct Hwf as (Hlen & Hpos & Hn).
    rewrite wrap64_id by (unfold in_int64, min_int64, max_int64 in *; lia).
    rewrite IH; simpl; [|unfold roundrobin_wf; simpl; unfold max_int64 in *; lia|lia].
    f_equal; [|f_equal; lia]. do 2 f_equal; [do 2 f_equal; lia|].
    rewrite <- seq_shift, <- list_fmap_compose. apply list_fmap_ext.
    intros i x _. unfold compose. do 2 f_equal. lia.
Qed.

(** [n] consecutive residues modulo [n] are a permutation of all of them. *)
Lemma residues_Permutation (n : nat) (z : Z) :
  (0 < n)%nat → 0 ≤ z →
  ((λ i, Z.to_nat ((z + Z.of_nat i) mod Z.of_nat n)) <$> seq 0 n) ≡ₚ seq 0 n.
Proof.
  intros Hn Hz. symmetry. apply submseteq_length_Permutation; [|by rewrite length_fmap].
  apply NoDup_submseteq; [apply NoDup_seq|].
  intros j [_ Hj]%elem_of_seq. apply list_elem_of_fmap.
  exists (Z.to_nat ((Z.of_nat j - z) mod Z.of_nat n)).
  pose proof (Z.mod_pos_bound (Z.of_nat j - z) (Z.of_nat n) ltac:(lia)).
  split; [|apply elem_of_seq; lia].
  rewrite Z2Nat.id by lia. rewrite Zplus_mod_idemp_r.
  replace (z + (Z.of_nat j - z)) with (Z.of_nat j) by lia.
  rewrite Z.mod_small by lia. lia.
Qed.

(** ** Theorems *)

(** From a fresh balancer over a non-empty list of remotes, the [k]-th call (counting
    from 0, for every [k] an int64 cursor can reach) returns the remote at position
    [k mod len]: the calls walk the list in order and start over at its end. *)
Theorem Next_in_order (nodes : list Node) (k : nat) (Hne : nodes ≠ [])
    (Hlen : Z.of_nat (length nodes) < 2 ^ 63) (Hk : Z.of_nat (S k) ≤ max_int64) :
  ∃ js r, Next_calls (S k) (NewRoundRobin nodes) = (Ret js, r) ∧
    js !! k = Some (k mod length nodes)%nat.
Proof.
  assert (0 < length nodes)%nat by (destruct nodes; [done|simpl; lia]).
  rewrite Next_calls_wf; cbn [next len nodeList NewRoundRobin];
    [|unfold roundrobin_wf, max_int64; simpl; lia|lia].
  eexists _, _. split; [done|].
  rewrite list_lookup_fmap, lookup_seq_lt by lia.
  apply (f_equal Some). rewrite !Nat.add_0_l, Z.add_0_l, <- Nat2Z.inj_mod. lia.
Qed.

Lemma Next_in_order_witness :
  ∃ js r, Next_calls 5 (NewRoundRobin [mkNode "a" 0; mkNode "b" 0; mkNode "c" 0]) = (Ret js, r) ∧
    js !! 4%nat = Some 1%nat.
Proof. apply (Next_in_order [mkNode "a" 0; mkNode "b" 0; mkNode "c" 0] 4);
  [done|simpl; lia|unfold max_int64; lia]. Defined.

(** Fairness: in any window of [len] consecutive calls, whatever the cursor, every
    remote is handed out exactly once. *)
Theorem Next_fair (r : roundrobin) (Hwf : roundrobin_wf r)
    (Hroom : next r + len r ≤ max_int64) :
  ∃ js r', Next_calls (length (nodeList r)) r = (Ret js, r') ∧
    js ≡ₚ seq 0 (length (nodeList r)).
Proof.
  destruct (Hwf) as (Hlen & Hpos & Hn).
  rewrite Next_calls_wf by (done || lia). eexists _, _. split; [done|].
  rewrite Hlen. apply residues_Permutation; lia.
Qed.

Lemma Next_fair_witness :
  ∃ js r', Next_calls 2 (mkRoundrobin [mkNode "a" 0; mkNode "b" 0] 41 2) = (Ret js, r') ∧
    js ≡ₚ seq 0 2.
Proof.
  apply (Next_fair (mkRoundrobin [mkNode "a" 0; mkNode "b" 0] 41 2));
    unfold roundrobin_wf, max_int64; simpl; lia.
Defined.

(** The exact panic conditions of [Next]: it panics when there is no remote, and,
    once the int64 cursor has wrapped to a negative value, whenever that value is not a
    multiple of the number of remotes; before the wrap it never panics. *)
Theorem Next_panics_iff (r : roundrobin) (Hlen : len r = Z.of_nat (length (nodeList r)))
    (Hbound : len r < 2 ^ 63) (Hn : in_int64 (next r)) :
  is_Panic (fst (roundrobin_Next r)) ↔
    nodeList r = [] ∨ (next r < 0 ∧ next r mod len r ≠ 0).
Proof.
  unfold roundrobin_Next, is_Panic. simpl.
  rewrite wrap64_succ_pred by done.
  case_decide as Hz.
  - split; [|eauto]. intros _. left. apply nil_length_inv. lia.
  - unfold index_node, go_rem.
    assert (nodeList r ≠ []) by (intros Heq; rewrite Heq in Hlen; simpl in Hlen; lia).
    pose proof (Z.rem_bound_abs (next r) (len r) Hz).
    destruct (decide (0 ≤ next r)) as [Hge|Hlt].
    { pose proof (Z.rem_nonneg (next r) (len r) Hz Hge). rewrite decide_True by lia. naive_solver lia. }
    pose proof (Z.rem_nonpos (next r) (len r) Hz ltac:(lia)).
    assert (next r mod len r = 0 ↔ Z.rem (next r) (len r) = 0) as Hiff.
    { rewrite Z.mod_divide, Z.rem_divide by done. done. }
    case_decide; naive_solver lia.
Qed.

Lemma Next_panics_iff_witness :
  is_Panic (fst (roundrobin_Next (NewRoundRobin []))).
Proof. apply Next_panics_iff; [done|done| |by left]. unfold in_int64, min_int64, max_int64. simpl. lia. Defined.
