(* ===== verification/Conf.v ===== *)
(** * internal/relay/conf/cfg.go and internal/constant/constant.go: one relay's configuration

    A [*Options] or [*WSConfig] that may be nil is an [option].  A method that mutates its
    receiver ([Adjust], [Validate]) returns the new receiver beside its error.
    [GetWSRemoteAddr] is in [Transporter]. *)

From S2P Require Import Prelude GoStd Lb.

(** ** constant.go *)

Definition RelayTypeRaw : string := "raw".
Definition RelayTypeWS : string := "ws".
Definition RelayTypeWSS : string := "wss".

Definition DefaultDialTimeOut : Z := 3 * Second.
Definition DefaultReadTimeOut : Z := 5 * Second.
Definition DefaultIdleTimeOut : Z := 30 * Second.
Definition DefaultSniffTimeOut : Z := 300 * Millisecond.

Definition BUFFER_POOL_SIZE : nat := 1024.
Definition BUFFER_SIZE : Z := 40 * 1024.
Definition UDPBufSize : Z := 1500.

(** ** cfg.go *)

Definition ProtocolHTTP : string := "http".
Definition ProtocolTLS : string := "tls".
Definition WS_HANDSHAKE_PATH : string := "handshake".
Definition WS_QUERY_REMOTE_ADDR : string := "remote_addr".

Record WSConfig := mkWSConfig { Path : string; RemoteAddr : string }.

#[global] Instance WSConfig_eq_dec : EqDecision WSConfig.
Proof. solve_decision. Defined.

Definition WSConfig_Clone (w : WSConfig) : WSConfig :=
  {| Path := Path w; RemoteAddr := RemoteAddr w |}.

Record Options := mkOptions {
  EnableUDP : bool; EnableMultipathTCP : bool;
  MaxConnection : Z; BlockedProtocols : list string; MaxReadRateKbps : Z;
  Options_WSConfig : option WSConfig;
  DialTimeoutSec : Z; IdleTimeoutSec : Z; ReadTimeoutSec : Z; SniffTimeoutSec : Z;
  DialTimeout : Z; IdleTimeout : Z; ReadTimeout : Z; SniffTimeout : Z }.

#[global] Instance Options_eq_dec : EqDecision Options.
Proof. solve_decision. Defined.

(** The fields [Options.Clone] does not name keep their zero value. *)
Definition Options_Clone (o : Options) : Options :=
  {| EnableUDP := EnableUDP o; EnableMultipathTCP := EnableMultipathTCP o;
     MaxConnection := MaxConnection o; BlockedProtocols := BlockedProtocols o;
     MaxReadRateKbps := MaxReadRateKbps o;
     Options_WSConfig := WSConfig_Clone <$> Options_WSConfig o;
     DialTimeoutSec := 0; IdleTimeoutSec := 0; ReadTimeoutSec := 0; SniffTimeoutSec := 0;
     DialTimeout := 0; IdleTimeout := 0; ReadTimeout := 0; SniffTimeout := 0 |}.

Record Config := mkConfig {
  Label : string; Listen : string; ListenType : string; TransportType : string;
  Remotes : list string; Config_Options : option Options }.

#[global] Instance Config_eq_dec : EqDecision Config.
Proof. solve_decision. Defined.

Definition Config_GetWSHandShakePath (r : Config) : string :=
  match Config_Options r with
  | Some o =>
      match Options_WSConfig o with
      | Some w => if decide (Path w ≠ "") then Path w else WS_HANDSHAKE_PATH
      | None => WS_HANDSHAKE_PATH
      end
  | None => WS_HANDSHAKE_PATH
  end.

Definition Config_DefaultLabel (r : Config) : string :=
  "<At=" +:+ Listen r +:+ " To=" +:+ fmt_strings (Remotes r) +:+ " By=" +:+ TransportType r +:+ ">".

Definition Config_GetLoggerName (r : Config) : string :=
  Label r +:+ "(" +:+ ListenType r +:+ "<->" +:+ TransportType r +:+ ")".

(** [time.Duration(seconds) * time.Second]: the product wraps. *)
Definition getDuration (seconds defaultDuration : Z) : Z :=
  if decide (0 < seconds) then wrap64 (seconds * Second) else defaultDuration.

Definition newDefaultOptions : Options :=
  {| EnableUDP := false; EnableMultipathTCP := true;
     MaxConnection := 0; BlockedProtocols := []; MaxReadRateKbps := 0;
     Options_WSConfig := None;
     DialTimeout := DefaultDialTimeOut;
     DialTimeoutSec := Duration_Seconds_int DefaultDialTimeOut;
     IdleTimeout := DefaultIdleTimeOut;
     IdleTimeoutSec := Duration_Seconds_int DefaultIdleTimeOut;
     ReadTimeout := DefaultReadTimeOut;
     ReadTimeoutSec := Duration_Seconds_int DefaultReadTimeOut;
     SniffTimeout := DefaultSniffTimeOut;
     SniffTimeoutSec := Duration_Seconds_int DefaultSniffTimeOut |}.

(** The four assignments of [Adjust]'s else branch. *)
Definition adjust_durations (o : Options) : Options :=
  {| EnableUDP := EnableUDP o; EnableMultipathTCP := EnableMultipathTCP o;
     MaxConnection := MaxConnection o; BlockedProtocols := BlockedProtocols o;
     MaxReadRateKbps := MaxReadRateKbps o; Options_WSConfig := Options_WSConfig o;
     DialTimeoutSec := DialTimeoutSec o; IdleTimeoutSec := IdleTimeoutSec o;
     ReadTimeoutSec := ReadTimeoutSec o; SniffTimeoutSec := SniffTimeoutSec o;
     DialTimeout := getDuration (DialTimeoutSec o) DefaultDialTimeOut;
     IdleTimeout := getDuration (IdleTimeoutSec o) DefaultIdleTimeOut;
     ReadTimeout := getDuration (ReadTimeoutSec o) DefaultReadTimeOut;
     SniffTimeout := getDuration (SniffTimeoutSec o) DefaultSniffTimeOut |}.

(** [Adjust] always returns a nil error. *)
Definition Config_Adjust (r : Config) : Config * option error :=
  ({| Label := if decide (Label r = "") then Config_DefaultLabel r else Label r;
      Listen := Listen r; ListenType := ListenType r; TransportType := TransportType r;
      Remotes := Remotes r;
      Config_Options := Some (match Config_Options r with
                              | None => newDefaultOptions
                              | Some o => adjust_durations o
                              end) |}, None).

Definition Config_validateType (r : Config) : option error :=
  if decide (ListenType r ≠ RelayTypeRaw ∧ ListenType r ≠ RelayTypeWS ∧ ListenType r ≠ RelayTypeWSS)
  then Some (Errorf ("invalid listen type:" +:+ ListenType r))
  else if decide (TransportType r ≠ RelayTypeRaw ∧ TransportType r ≠ RelayTypeWS ∧
                  TransportType r ≠ RelayTypeWSS)
  then Some (Errorf ("invalid transport type:" +:+ TransportType r))
  else None.

(** The loop over [r.Remotes]. *)
Fixpoint validate_remotes (remotes : list string) : option error :=
  match remotes with
  | [] => None
  | addr :: rest =>
      if decide (addr = "") then Some (Errorf ("invalid remote addr: " +:+ addr))
      else validate_remotes rest
  end.

(** The loop over [r.Options.BlockedProtocols]. *)
Fixpoint validate_protocols (protocols : list string) : option error :=
  match protocols with
  | [] => None
  | protocol :: rest =>
      if decide (protocol ≠ ProtocolHTTP ∧ protocol ≠ ProtocolTLS)
      then Some (Errorf ("invalid blocked protocol: " +:+ protocol))
      else validate_protocols rest
  end.

(** [r.Options] is dereferenced after [Adjust] has set it. *)
Definition Config_Validate (r : Config) : Config * outcome unit :=
  let (r, err) := Config_Adjust r in
  (r, match err with
      | Some e => Err (Wrapf "adjust config failed: " e)
      | None =>
          _ ← check_err (Config_validateType r);
          _ ← check_err (if decide (Listen r = "") then Some (Errorf ("invalid listen: " +:+ Listen r)) else None);
          _ ← check_err (validate_remotes (Remotes r));
          match Config_Options r with
          | None => Panic NilDereference
          | Some o => check_err (validate_protocols (BlockedProtocols o))
          end
      end).

(** [r.Options.Clone()] dereferences a nil [Options]. *)
Definition Config_Clone (r : Config) : outcome Config :=
  match Config_Options r with
  | None => Panic NilDereference
  | Some o =>
      Ret {| Label := Label r; Listen := Listen r; ListenType := ListenType r;
             TransportType := TransportType r; Remotes := Remotes r;
             Config_Options := Some (Options_Clone o) |}
  end.

(** The loop that compares [r.Remotes] with [new.Remotes] position by position; the lists
    have the same length when it runs. *)
Fixpoint remotes_differ (l new : list string) : bool :=
  match l, new with
  | addr :: l, addr' :: new => bool_decide (addr ≠ addr') || remotes_differ l new
  | _, _ => false
  end.

Definition Config_Different (r new : Config) : bool :=
  if decide (Listen r ≠ Listen new ∨ ListenType r ≠ ListenType new ∨
             TransportType r ≠ TransportType new ∨ Label r ≠ Label new) then true
  else if decide (length (Remotes r) ≠ length (Remotes new)) then true
  else remotes_differ (Remotes r) (Remotes new).

Definition Config_ToRemotesLB (r : Config) : roundrobin :=
  NewRoundRobin ((λ addr, {| Address := addr; HandShakeDuration := 0 |}) <$> Remotes r).

Definition Config_GetAllRemotes (r : Config) : list Node :=
  roundrobin_GetAll (Config_ToRemotesLB r).

(** ** Specification vocabulary *)

Definition is_relay_type (t : string) : Prop := t = RelayTypeRaw ∨ t = RelayTypeWS ∨ t = RelayTypeWSS.

#[global] Instance is_relay_type_dec t : Decision (is_relay_type t).
Proof. unfold is_relay_type. apply _. Defined.

(** A relay configuration the server can run. *)
Record Config_ok (r : Config) : Prop := {
  ok_label : Label r ≠ "";
  ok_listen_type : is_relay_type (ListenType r);
  ok_transport_type : is_relay_type (TransportType r);
  ok_listen : Listen r ≠ "";
  ok_remotes : Forall (λ a, a ≠ "") (Remotes r);
  ok_options : ∃ o, Config_Options r = Some o ∧
    Forall (λ p, p = ProtocolHTTP ∨ p = ProtocolTLS) (BlockedProtocols o) ∧
    DialTimeout o = getDuration (DialTimeoutSec o) DefaultDialTimeOut ∧
    IdleTimeout o = getDuration (IdleTimeoutSec o) DefaultIdleTimeOut ∧
    ReadTimeout o = getDuration (ReadTimeoutSec o) DefaultReadTimeOut ∧
    SniffTimeout o = getDuration (SniffTimeoutSec o) DefaultSniffTimeOut }.

(** What identifies a running relay for the reloader. *)
Definition identity (r : Config) : string * string * string * string * list string :=
  (Label r, Listen r, ListenType r, TransportType r, Remotes r).

(** ** Lemmas *)

Lemma validate_remotes_None l : validate_remotes l = None ↔ Forall (λ a, a ≠ "") l.
Proof.
  induction l as [|a l IH]; simpl; [done|]. rewrite Forall_cons, <- IH. case_decide; naive_solver.
Qed.

Lemma validate_protocols_None l :
  validate_protocols l = None ↔ Forall (λ p, p = ProtocolHTTP ∨ p = ProtocolTLS) l.
Proof.
  induction l as [|p l IH]; simpl; [done|]. rewrite Forall_cons, <- IH.
  destruct (decide (p = ProtocolHTTP)), (decide (p = ProtocolTLS)); case_decide; naive_solver.
Qed.

Lemma not_relay_type t :
  (t ≠ RelayTypeRaw ∧ t ≠ RelayTypeWS ∧ t ≠ RelayTypeWSS) ↔ ¬ is_relay_type t.
Proof. unfold is_relay_type. tauto. Qed.

Lemma validateType_None r :
  Config_validateType r = None ↔ is_relay_type (ListenType r) ∧ is_relay_type (TransportType r).
Proof.
  unfold Config_validateType.
  destruct (decide (is_relay_type (ListenType r))); [rewrite decide_False by (rewrite not_relay_type; tauto)
    |rewrite decide_True by (rewrite not_relay_type; tauto); naive_solver].
  destruct (decide (is_relay_type (TransportType r))); [rewrite decide_False by (rewrite not_relay_type; tauto)
    |rewrite decide_True by (rewrite not_relay_type; tauto)]; naive_solver.
Qed.

Lemma check_err_Ret e : check_err e = Ret tt ↔ e = None.
Proof. by destruct e. Qed.

Lemma DefaultLabel_nonempty r : Config_DefaultLabel r ≠ "".
Proof. done. Qed.

Lemma remotes_differ_false l l' :
  length l = length l' → remotes_differ l l' = false ↔ l = l'.
Proof.
  revert l'. induction l as [|a l IH]; intros [|a' l'] Hlen; simplify_eq/=; [done|].
  rewrite orb_false_iff, bool_decide_eq_false, IH by done. destruct (decide (a = a')); naive_solver.
Qed.

Lemma Different_false r r' : Config_Different r r' = false ↔ identity r = identity r'.
Proof.
  unfold Config_Different, identity. case_decide as H1; [split; intros; simplify_eq; tauto|].
  assert (Listen r = Listen r' ∧ ListenType r = ListenType r' ∧
          TransportType r = TransportType r' ∧ Label r = Label r') as (-> & -> & -> & ->)
    by (repeat split; apply dec_stable; tauto).
  case_decide as H2; [split; congruence|].
  rewrite remotes_differ_false by done. split; congruence.
Qed.

Lemma getDuration_exact s d :
  0 < s ≤ 9223372036 → getDuration s d = s * Second.
Proof.
  intros Hs. unfold getDuration. rewrite decide_True by lia.
  apply wrap64_id. unfold in_int64, min_int64, max_int64, Second. lia.
Qed.

Lemma Clone_identity r r' : Config_Clone r = Ret r' → identity r' = identity r.
Proof. unfold Config_Clone. intros H. destruct (Config_Options r); by simplify_eq/=. Qed.

Lemma Different_true oc c : Config_Different oc c = true → identity oc ≠ identity c.
Proof. intros Hd Hid. apply Different_false in Hid. congruence. Qed.

(** The verdict of [Validate], check by check; the adjustment does not influence it. *)
Lemma Validate_verdict r :
  ¬ is_Panic (snd (Config_Validate r)) ∧
  (snd (Config_Validate r) = Ret tt ↔
     Config_validateType r = None ∧ Listen r ≠ "" ∧ validate_remotes (Remotes r) = None ∧
     validate_protocols (default [] (BlockedProtocols <$> Config_Options r)) = None).
Proof.
  assert (Hnp : ∀ e, ¬ is_Panic (check_err e)) by (intros [e|] [p Hp]; done).
  unfold Config_Validate, Config_Adjust. cbn [snd Listen Remotes Config_Options].
  set (o := match Config_Options r with None => _ | Some _ => _ end).
  assert (BlockedProtocols o = default [] (BlockedProtocols <$> Config_Options r)) as Hbp
    by (subst o; by destruct (Config_Options r)).
  assert (∀ l, Config_validateType {| Label := l; Listen := Listen r; ListenType := ListenType r;
    TransportType := TransportType r; Remotes := Remotes r; Config_Options := Some o |}
    = Config_validateType r) as -> by done.
  rewrite <- Hbp.
  destruct (Config_validateType r); [cbn; split; [by intros [? ?]|naive_solver]|].
  case_decide as Hl; [cbn; split; [by intros [? ?]|naive_solver]|].
  destruct (validate_remotes (Remotes r)) eqn:Hr; [cbn; split; [by intros [? ?]|naive_solver]|].
  cbn. split; [apply Hnp|]. rewrite check_err_Ret. naive_solver.
Qed.

Lemma Validate_accepts r r' : Config_Validate r = (r', Ret tt) → Config_ok r'.
Proof.
  intros Hv. destruct (Validate_verdict r) as [_ Hr]. rewrite Hv in Hr.
  destruct (proj1 Hr eq_refl) as (Ht & Hl & Hrem & Hp). clear Hr.
  unfold Config_Validate, Config_Adjust in Hv. injection Hv as <- _.
  apply validateType_None in Ht as [??]. apply validate_remotes_None in Hrem.
  apply validate_protocols_None in Hp.
  split; cbn; [case_decide; [apply DefaultLabel_nonempty|done]|done..|].
  eexists. split_and!; [done|..]; by destruct (Config_Options r).
Qed.

#[export] Hint Resolve DefaultLabel_nonempty : ehco.

(** ** Theorems *)

(** [Validate] accepts exactly the configurations with known listen and transport
    types, a listen address, no empty remote and only known blocked protocols; it never
    panics, and what it accepts has been adjusted into a runnable configuration. *)
Theorem Validate_spec (r : Config) :
  let (r', res) := Config_Validate r in
  ¬ is_Panic res ∧
  (res = Ret tt ↔
     is_relay_type (ListenType r) ∧ is_relay_type (TransportType r) ∧ Listen r ≠ "" ∧
     Forall (λ a, a ≠ "") (Remotes r) ∧
     Forall (λ p, p = ProtocolHTTP ∨ p = ProtocolTLS)
       (default [] (BlockedProtocols <$> Config_Options r))) ∧
  (res = Ret tt → Config_ok r').
Proof.
  pose proof (Validate_verdict r) as [Hnp Hv]. pose proof (Validate_accepts r) as Hok.
  destruct (Config_Validate r) as [r' res]. cbn [snd] in Hnp, Hv.
  rewrite validateType_None, validate_remotes_None, validate_protocols_None in Hv.
  split; [done|]. split; [rewrite Hv; tauto|]. intros ->. by apply Hok.
Qed.

(** [Validate] is idempotent: validating a validated configuration changes neither
    the configuration nor the verdict, so a configuration shared by two reloads keeps its
    timeouts (the seconds [newDefaultOptions] stores lead back to the same durations). *)
Theorem Validate_idempotent (r : Config) :
  Config_Validate (fst (Config_Validate r)) = Config_Validate r.
Proof.
  unfold Config_Validate, Config_Adjust. cbn [fst Label Listen ListenType TransportType Remotes Config_Options].
  set (o := match Config_Options r with None => _ | Some _ => _ end).
  assert (adjust_durations o = o) as -> by (subst o; by destruct (Config_Options r) as [[]|]).
  by repeat case_decide.
Qed.

(** [Different] is the negation of equality on label, listen address, both transport
    kinds and the remote list: in particular a clone never differs from its original, and
    no option ([max_connection], timeouts, ...) makes two configurations differ. *)
Theorem Different_iff (r new : Config) :
  (Config_Different r new = true ↔ identity r ≠ identity new) ∧
  (∀ c, Config_Clone r = Ret c → Config_Different c r = false) ∧
  (∀ o, Config_Different r
     {| Label := Label r; Listen := Listen r; ListenType := ListenType r;
        TransportType := TransportType r; Remotes := Remotes r; Config_Options := o |} = false).
Proof.
  split_and!.
  - rewrite <- Different_false. by destruct (Config_Different r new).
  - intros c Hc. apply Different_false. by apply Clone_identity.
  - intros o. by apply Different_false.
Qed.

(** A validated configuration has positive timeouts as long as the configured seconds
    fit a [time.Duration] (at most 9223372036 s); one more second and the product wraps to
    a negative dial timeout. *)
Theorem Validate_timeouts (r r' : Config) (o : Options)
    (Hv : Config_Validate r = (r', Ret tt)) (Ho : Config_Options r' = Some o) :
  (DialTimeoutSec o ≤ 9223372036 → 0 < DialTimeout o) ∧
  (IdleTimeoutSec o ≤ 9223372036 → 0 < IdleTimeout o) ∧
  (ReadTimeoutSec o ≤ 9223372036 → 0 < ReadTimeout o) ∧
  (SniffTimeoutSec o ≤ 9223372036 → 0 < SniffTimeout o) ∧
  (DialTimeoutSec o = 9223372037 → DialTimeout o < 0).
Proof.
  destruct (ok_options _ (Validate_accepts _ _ Hv)) as (o' & Ho' & _ & Hd & Hi & Hr & Hsn).
  rewrite Ho in Ho'. simplify_eq. rewrite Hd, Hi, Hr, Hsn.
  assert (∀ s d, 0 < d → s ≤ 9223372036 → 0 < getDuration s d) as Hpos.
  { intros s d Hdef Hle. destruct (decide (0 < s)).
    - rewrite getDuration_exact by lia. unfold Second. lia.
    - unfold getDuration. by rewrite decide_False. }
  split_and!; try (apply Hpos; vm_compute; done). by intros ->.
Qed.

Definition sample_config : Config := mkConfig "" "0.0.0.0:1234" "raw" "wss" ["wss://a.example:443"] None.

Lemma Validate_timeouts_witness :
  0 < DialTimeout newDefaultOptions.
Proof.
  apply (Validate_timeouts sample_config (fst (Config_Validate sample_config)) newDefaultOptions
    ltac:(vm_compute; reflexivity) ltac:(vm_compute; reflexivity)).
  vm_compute. discriminate.
Defined.
