(* ===== verification/Buffer.v ===== *)
(** * pkg/buffer/buffer.go: the leaky pool of byte slices

    A [[]byte] is a reference: two holders of the same slice read and overwrite the same
    memory, so a slice is modelled by its identity (and its capacity), not by its contents.
    The pool's channel is the list of slices it holds, oldest first. *)

From S2P Require Import Prelude GoStd Conf.

Record slice := mkSlice { slice_id : nat; slice_cap : Z }.

#[global] Instance slice_eq_dec : EqDecision slice.
Proof. solve_decision. Defined.

(** [alloc] numbers the slices [make] has produced so far. *)
Record BytePool := mkBytePool { pool_c : list slice; pool_maxSize : nat; pool_size : Z; alloc : nat }.

Definition NewBytePool (maxSize : nat) (size : Z) (alloc : nat) : BytePool :=
  {| pool_c := []; pool_maxSize := maxSize; pool_size := size; alloc := alloc |}.

(** The [select] with a [default]: receive when the channel is not empty, else [make]. *)
Definition BytePool_Get (bp : BytePool) : slice * BytePool :=
  match pool_c bp with
  | b :: c => (b, {| pool_c := c; pool_maxSize := pool_maxSize bp; pool_size := pool_size bp; alloc := alloc bp |})
  | [] => ({| slice_id := alloc bp; slice_cap := pool_size bp |},
           {| pool_c := []; pool_maxSize := pool_maxSize bp; pool_size := pool_size bp; alloc := S (alloc bp) |})
  end.

(** Send when the channel has room, else discard. *)
Definition BytePool_Put (bp : BytePool) (b : slice) : BytePool :=
  if decide (length (pool_c bp) < pool_maxSize bp)%nat
  then {| pool_c := pool_c bp ++ [b]; pool_maxSize := pool_maxSize bp; pool_size := pool_size bp; alloc := alloc bp |}
  else bp.

(** [init] and [ReplaceBufferPool]: the two global pools. *)
Definition init_BufferPool : BytePool := NewBytePool BUFFER_POOL_SIZE BUFFER_SIZE 0.
Definition init_UDPBufferPool : BytePool := NewBytePool BUFFER_POOL_SIZE UDPBufSize 0.
Definition ReplaceBufferPool (bp : BytePool) (size : Z) : BytePool :=
  NewBytePool BUFFER_POOL_SIZE size (alloc bp).

(** [k] consecutive [Get]s. *)
Fixpoint Get_n (k : nat) (bp : BytePool) : list slice * BytePool :=
  match k with
  | O => ([], bp)
  | S k => let (b, bp) := BytePool_Get bp in
           let (bs, bp) := Get_n k bp in (b :: bs, bp)
  end.

(** ** The ownership discipline

    The pool together with the slices its clients hold.  A disciplined client returns a
    slice it holds, and no longer holds it afterwards. *)
Definition pool_state : Type := BytePool * list slice.

Inductive pool_step : pool_state → pool_state → Prop :=
  | step_Get bp held b bp' :
      BytePool_Get bp = (b, bp') → pool_step (bp, held) (bp', b :: held)
  | step_Put bp held1 b held2 :
      pool_step (bp, held1 ++ b :: held2) (BytePool_Put bp b, held1 ++ held2)
  | step_Replace bp held size :
      pool_step (bp, held) (ReplaceBufferPool bp size, held).

Definition pool_init (s : pool_state) : Prop :=
  ∃ maxSize size, s = (NewBytePool maxSize size 0, []).

(** No slice is both free and held, free twice or held twice; the channel respects its
    bound; every slice was made by this pool's allocator. *)
Record pool_inv (s : pool_state) : Prop := {
  inv_nodup : NoDup (slice_id <$> (pool_c (fst s) ++ snd s));
  inv_bound : (length (pool_c (fst s)) ≤ pool_maxSize (fst s))%nat;
  inv_fresh : Forall (λ b, slice_id b < alloc (fst s))%nat (pool_c (fst s) ++ snd s) }.

(** ** Lemmas *)

Lemma pool_inv_init s : pool_init s → pool_inv s.
Proof. intros (m & z & ->). split; simpl; [constructor|lia|constructor]. Qed.

Lemma pool_inv_Get bp held b bp' :
  pool_inv (bp, held) → BytePool_Get bp = (b, bp') → pool_inv (bp', b :: held).
Proof.
  intros [Hnd Hb Hf]. unfold BytePool_Get. destruct (pool_c bp) as [|b0 c0] eqn:Hc;
    intros [= <- <-]; simpl in *; rewrite ?Hc in *; simpl in *.
  - split; simpl; [|lia|].
    + apply NoDup_cons. split; [|done]. intros (x & Hx & Hin)%list_elem_of_fmap.
      rewrite Forall_forall in Hf. specialize (Hf x Hin). simpl in Hf. lia.
    + constructor; [simpl; lia|]. eapply Forall_impl; [done|]. simpl. lia.
  - split; simpl; [|lia|].
    + by rewrite <- Permutation_middle.
    + rewrite Forall_app, Forall_cons. apply Forall_cons in Hf as [? [? ?]%Forall_app]. done.
Qed.

Lemma pool_inv_Put bp held1 b held2 :
  pool_inv (bp, held1 ++ b :: held2) → pool_inv (BytePool_Put bp b, held1 ++ held2).
Proof.
  intros [Hnd Hb Hf]. simpl in *. unfold BytePool_Put. case_decide; split; simpl; try lia.
  - rewrite <- (assoc app). simpl. revert Hnd. rewrite !fmap_app. csimpl.
    rewrite !fmap_app. csimpl. by rewrite <- !Permutation_middle, (assoc app).
  - rewrite length_app. simpl. lia.
  - revert Hf. rewrite !Forall_app, !Forall_cons. naive_solver.
  - revert Hnd. rewrite !fmap_app. csimpl. rewrite <- !Permutation_middle.
    by intros [_ ?]%NoDup_cons.
  - revert Hf. rewrite !Forall_app, !Forall_cons. naive_solver.
Qed.

Lemma pool_inv_Replace bp held size :
  pool_inv (bp, held) → pool_inv (ReplaceBufferPool bp size, held).
Proof.
  intros [Hnd Hb Hf]. simpl in *. split; simpl; [|lia|].
  - rewrite fmap_app in Hnd. by apply NoDup_app in Hnd as (_ & _ & ?).
  - by apply Forall_app in Hf as [_ ?].
Qed.

Lemma pool_inv_step s s' : pool_inv s → pool_step s s' → pool_inv s'.
Proof.
  intros Hinv Hs. destruct Hs; eauto using pool_inv_Get, pool_inv_Put, pool_inv_Replace.
Qed.

Lemma Get_n_nonempty k bp :
  (k ≤ length (pool_c bp))%nat → fst (Get_n k bp) = take k (pool_c bp).
Proof.
  revert bp. induction k as [|k IH]; intros [c m z a] Hk; simpl in *; [done|].
  destruct c as [|b c]; simpl in *; [lia|]. unfold BytePool_Get. simpl.
  specialize (IH {| pool_c := c; pool_maxSize := m; pool_size := z; alloc := a |}).
  destruct (Get_n k _) eqn:E. simpl in *. f_equal. apply IH. lia.
Qed.

#[export] Hint Resolve pool_inv_init pool_inv_step : ehco.

(** ** Theorems *)

(** As long as every client returns only slices it holds, no slice ever has two
    holders, no held slice is in the pool, and the pool never exceeds its bound: this holds
    in every state reachable by [Get], [Put] and [ReplaceBufferPool] in any order. *)
Theorem pool_exclusive (s : pool_state) (Hr : reachable pool_init pool_step s) :
  NoDup (slice_id <$> snd s) ∧
  (∀ b, b ∈ snd s → slice_id b ∉ slice_id <$> pool_c (fst s)) ∧
  (length (pool_c (fst s)) ≤ pool_maxSize (fst s))%nat.
Proof.
  assert (pool_inv s) as [Hnd Hb _] by (revert s Hr; apply reachable_invariant; eauto with ehco).
  rewrite fmap_app in Hnd. apply NoDup_app in Hnd as (_ & Hdis & Hnd).
  split_and!; [done| |done]. intros b Hin Hc. eapply Hdis; [done|]. by apply list_elem_of_fmap_2.
Qed.

Lemma pool_exclusive_witness :
  NoDup (slice_id <$> [mkSlice 0 1500]) ∧
  (∀ b, b ∈ [mkSlice 0 1500] → slice_id b ∉ slice_id <$> ([] : list slice)) ∧ (0 ≤ 4)%nat.
Proof.
  apply (pool_exclusive (mkBytePool [] 4 1500 1, [mkSlice 0 1500])).
  eapply reach_step; [apply reach_init; by exists 4%nat, 1500|]. by apply step_Get.
Defined.

(** A client that returns the same slice twice breaks the exclusion: once the slices
    queued before it are handed out, the next two [Get]s give the same slice to two
    different holders. *)
Theorem Put_twice_aliases (bp : BytePool) (b : slice)
    (Hroom : (S (length (pool_c bp)) < pool_maxSize bp)%nat) :
  let q := length (pool_c bp) in
  ∃ bs bp', Get_n (S (S q)) (BytePool_Put (BytePool_Put bp b) b) = (bs, bp') ∧
    bs !! q = Some b ∧ bs !! S q = Some b.
Proof.
  intros q. subst q.
  assert (pool_c (BytePool_Put (BytePool_Put bp b) b) = pool_c bp ++ [b; b]) as Hc.
  { unfold BytePool_Put. rewrite (decide_True (P := (length (pool_c bp) < _)%nat)) by lia.
    simpl. rewrite length_app. simpl. rewrite decide_True by lia. simpl.
    by rewrite <- (assoc app). }
  pose proof (Get_n_nonempty (S (S (length (pool_c bp)))) (BytePool_Put (BytePool_Put bp b) b)) as Hg.
  rewrite Hc, length_app in Hg. simpl length in Hg. specialize (Hg ltac:(lia)).
  destruct (Get_n _ _) as [bs bp']. exists bs, bp'. split; [done|]. simpl in Hg. subst bs.
  rewrite take_ge by (rewrite length_app; simpl; lia).
  split; rewrite lookup_app_r by lia; [by rewrite Nat.sub_diag|].
  by replace (S (length (pool_c bp)) - length (pool_c bp))%nat with 1%nat by lia.
Qed.

Lemma Put_twice_aliases_witness :
  ∃ bs bp', Get_n 2 (BytePool_Put (BytePool_Put init_BufferPool (mkSlice 7 40960)) (mkSlice 7 40960)) = (bs, bp') ∧
    bs !! 0%nat = Some (mkSlice 7 40960) ∧ bs !! 1%nat = Some (mkSlice 7 40960).
Proof. apply (Put_twice_aliases init_BufferPool (mkSlice 7 40960)). apply Nat.ltb_lt. reflexivity. Defined.
