(* ===== verification/Net.v ===== *)
(** * The connections the relay handles: the program's [net.Conn] implementations

    Go's dynamic dispatch on [net.Conn] is a match on the constructors of [conn]: a socket
    of the [net] package, the UDP listener's [uc] ([internal/conn/udp_listener.go]), the
    WebSocket wrapper [wsConn] ([internal/conn/ws_conn.go]), [peekedConn]
    ([internal/transporter/sniff.go]) and [RateLimitedConn] ([internal/conn/limit_reader.go]).
    A connection value is a tree of wrappers over a socket or a [uc]; what its methods change
    is the state [netw]: which sockets and channels are closed, and the global buffer pool. *)

From S2P Require Import Prelude GoStd Conf Buffer.

(** [net.ErrClosed] *)
Definition net_ErrClosed : error := Sentinel "use of closed network connection".

(** A byte string read from or written to the network. *)
Definition bytes : Type := list Z.

Inductive conn : Type :=
  | SockConn (fd : nat) (tcp : bool)
  | UcConn (u : nat)
  | WsConn (inner : conn) (isServer : bool) (buf : slice)
  | PeekedConn (inner : conn) (peeked : bytes)
  | RateLimitedConn (inner : conn) (kbps : Z).

#[global] Instance conn_eq_dec : EqDecision conn.
Proof. solve_decision. Defined.

(** The socket or channel a connection bottoms out in. *)
Fixpoint conn_base (c : conn) : nat + nat :=
  match c with
  | SockConn fd _ => inl fd
  | UcConn u => inr u
  | WsConn inner _ _ | PeekedConn inner _ | RateLimitedConn inner _ => conn_base inner
  end.

(** [closed_fds] and [closed_ucs]: the sockets closed so far and the [uc]s whose [msgCh]
    is closed.  [half_closed], [read_closed]: the sockets whose write or read side was shut
    down.  [received]: the payload the relay has written to each socket or channel. *)
Record netw := mkNetw {
  closed_fds : list nat; closed_ucs : list nat; half_closed : list nat; read_closed : list nat;
  received : gmap (nat + nat) bytes; BufferPool : BytePool }.

Definition set_pool (w : netw) (bp : BytePool) : netw :=
  {| closed_fds := closed_fds w; closed_ucs := closed_ucs w; half_closed := half_closed w;
     read_closed := read_closed w; received := received w; BufferPool := bp |}.

Definition received_by (c : conn) (w : netw) : bytes := default [] (received w !! conn_base c).

(** The payload [data] has been written to [c]. *)
Definition deliver (c : conn) (data : bytes) (w : netw) : netw :=
  {| closed_fds := closed_fds w; closed_ucs := closed_ucs w; half_closed := half_closed w;
     read_closed := read_closed w; received := <[conn_base c := received_by c w ++ data]> (received w);
     BufferPool := BufferPool w |}.

(** [NewWSConn] takes its buffer from the global pool. *)
Definition NewWSConn (inner : conn) (isServer : bool) (w : netw) : conn * netw :=
  let (b, bp) := BytePool_Get (BufferPool w) in (WsConn inner isServer b, set_pool w bp).

(** [Close].  Closing a socket twice is an error; closing a [uc] twice closes its channel
    twice, a panic; [wsConn.Close] puts its buffer back whatever the inner result. *)
Fixpoint conn_Close (c : conn) (w : netw) : outcome unit * netw :=
  match c with
  | SockConn fd _ =>
      if decide (fd ∈ closed_fds w) then (Err (Wrapf "close: " net_ErrClosed), w)
      else (Ret tt, {| closed_fds := fd :: closed_fds w; closed_ucs := closed_ucs w;
                       half_closed := half_closed w; read_closed := read_closed w; received := received w; BufferPool := BufferPool w |})
  | UcConn u =>
      if decide (u ∈ closed_ucs w) then (Panic CloseOfClosedChannel, w)
      else (Ret tt, {| closed_fds := closed_fds w; closed_ucs := u :: closed_ucs w;
                       half_closed := half_closed w; read_closed := read_closed w; received := received w; BufferPool := BufferPool w |})
  | WsConn inner _ b =>
      let (r, w) := conn_Close inner w in (r, set_pool w (BytePool_Put (BufferPool w) b))
  | PeekedConn inner _ => conn_Close inner w
  | RateLimitedConn inner _ => conn_Close inner w
  end.

(** [innerConn.CloseWrite]: only a bare [*net.TCPConn] is half-closed; the type assertion
    fails on every wrapper. *)
Definition innerConn_CloseWrite (c : conn) (w : netw) : netw :=
  match c with
  | SockConn fd true =>
      {| closed_fds := closed_fds w; closed_ucs := closed_ucs w;
         half_closed := fd :: half_closed w; read_closed := read_closed w; received := received w; BufferPool := BufferPool w |}
  | _ => w
  end.

Definition innerConn_CloseRead (c : conn) (w : netw) : netw :=
  match c with
  | SockConn fd true =>
      {| closed_fds := closed_fds w; closed_ucs := closed_ucs w;
         half_closed := half_closed w; read_closed := fd :: read_closed w; received := received w; BufferPool := BufferPool w |}
  | _ => w
  end.

(** ** [wsConn.Read]: one WebSocket frame

    [ws.ReadHeader], [io.ReadFull] on the inner connection and [ws.Cipher] are the library
    calls whose results the caller supplies: the header or an error, then the payload as
    read and unmasked, or an error.  [WsStream] runs it on the bytes of a socket. *)
Record ws_header := mkHeader {
  hdr_Fin : bool; hdr_OpCode : Z; hdr_Masked : bool; hdr_Mask : Z; hdr_Length : Z }.

Definition wsConn_Read (buf : slice) (lenb : Z) (header : ws_header + error)
    (payload : bytes + error) : bytes * option error :=
  match header with
  | inr err => ([], Some err)
  | inl h =>
      if decide (slice_cap buf < hdr_Length h) then
        ([], Some (Errorf ("buffer size:" +:+ fmt_d lenb +:+ " too small to transport ws payload size:" +:+
                           fmt_d (hdr_Length h))))
      else match payload with
           | inr err => ([], Some err)
           | inl data =>
               if decide (lenb < Z.of_nat (length data)) then
                 ([], Some (Errorf ("buffer size:" +:+ fmt_d lenb +:+
                                    " too small to transport ws payload size:" +:+
                                    fmt_d (Z.of_nat (length data)))))
               else (data, None)
           end
  end.

(** [wsConn.Write]: all of [b] in one frame, or the library's error. *)
Definition wsConn_Write (b : bytes) (write_err : option error) : Z * option error :=
  match write_err with
  | Some err => (0, Some err)
  | None => (Z.of_nat (length b), None)
  end.

(** ** [peekedConn.Read]: [io.MultiReader(bytes.NewReader(peeked), c)]

    With a buffer of [lenb] bytes: the remaining peeked bytes first, at most [lenb] of
    them; the inner connection once they are gone.  The inner [Read] is given by its result. *)
Definition peekedConn_Read (peeked : bytes) (lenb : nat) (inner : bytes * option error) :
    (bytes * option error) * bytes :=
  match peeked with
  | [] => (inner, [])
  | _ => ((take lenb peeked, None), drop lenb peeked)
  end.

(** Reading a peeked connection to the end: [chunks] are the data the inner connection
    delivers, each call passing a buffer of [lenb] bytes. *)
Fixpoint peeked_read_all (fuel : nat) (peeked : bytes) (lenb : nat) (chunks : list bytes) : bytes :=
  match fuel with
  | O => []
  | S fuel =>
      match peeked, chunks with
      | [], [] => []
      | [], d :: chunks => fst (fst (peekedConn_Read [] lenb (d, None))) ++ peeked_read_all fuel [] lenb chunks
      | _, _ =>
          let '((d, _), rest) := peekedConn_Read peeked lenb ([], None) in
          d ++ peeked_read_all fuel rest lenb chunks
      end
  end.

(** The data of the successive reads with a buffer of [lenb] bytes while there is something
    to read back. *)
Fixpoint peek_pieces (fuel : nat) (peeked : bytes) (lenb : nat) : list bytes :=
  match fuel with
  | O => []
  | S fuel =>
      match peeked with
      | [] => []
      | _ => let '((d, _), rest) := peekedConn_Read peeked lenb ([], None) in
             d :: peek_pieces fuel rest lenb
      end
  end.

(** What reads of [c] return before its socket is asked.  (A [wsConn] is never built over a
    [peekedConn].) *)
Fixpoint conn_pending (c : conn) : bytes :=
  match c with
  | SockConn _ _ | UcConn _ | WsConn _ _ _ => []
  | PeekedConn inner peeked => peeked ++ conn_pending inner
  | RateLimitedConn inner _ => conn_pending inner
  end.

(** ** Lemmas *)

(** Reading back loses, repeats and reorders nothing. *)
Lemma concat_peek_pieces fuel peeked lenb :
  (0 < lenb)%nat → (length peeked ≤ fuel)%nat → concat (peek_pieces fuel peeked lenb) = peeked.
Proof.
  intros Hb. revert peeked. induction fuel as [|fuel IH]; intros peeked Hl; [destruct peeked; simpl in *; [done|lia]|].
  destruct peeked as [|z l] eqn:E; [done|]. rewrite <- E in *.
  assert (peek_pieces (S fuel) peeked lenb = take lenb peeked :: peek_pieces fuel (drop lenb peeked) lenb) as ->
    by (by rewrite E).
  cbn [concat]. rewrite IH; [apply take_drop|]. rewrite length_drop, E in *. simpl in *. lia.
Qed.

(** The buffers a connection returns when it is closed, innermost first. *)
Fixpoint conn_bufs (c : conn) : list slice :=
  match c with
  | SockConn _ _ | UcConn _ => []
  | WsConn inner _ b => conn_bufs inner ++ [b]
  | PeekedConn inner _ | RateLimitedConn inner _ => conn_bufs inner
  end.

Definition base_closed (c : conn) (w : netw) : bool :=
  match conn_base c with
  | inl fd => bool_decide (fd ∈ closed_fds w)
  | inr u => bool_decide (u ∈ closed_ucs w)
  end.

Lemma conn_Close_closed c w : base_closed c (snd (conn_Close c w)) = true.
Proof.
  unfold base_closed. revert w. induction c as [fd t|u|c IH s b|c IH p|c IH k]; intros w; simpl;
    try (case_decide; apply bool_decide_eq_true; simpl; set_solver); try apply IH.
  specialize (IH w). destruct (conn_Close c w) as [r w']. exact IH.
Qed.

Lemma conn_Close_result c w :
  fst (conn_Close c w) =
    if base_closed c w then
      match conn_base c with
      | inl _ => Err (Wrapf "close: " net_ErrClosed)
      | inr _ => Panic CloseOfClosedChannel
      end
    else Ret tt.
Proof.
  unfold base_closed. revert w. induction c as [fd t|u|c IH s b|c IH p|c IH k]; intros w; simpl; auto.
  - case_decide; [rewrite bool_decide_eq_true_2 by done|rewrite bool_decide_eq_false_2 by done]; done.
  - case_decide; [rewrite bool_decide_eq_true_2 by done|rewrite bool_decide_eq_false_2 by done]; done.
  - rewrite <- IH. by destruct (conn_Close c w).
Qed.

Lemma conn_Close_pool c w :
  BufferPool (snd (conn_Close c w)) = foldl BytePool_Put (BufferPool w) (conn_bufs c).
Proof.
  revert w. induction c as [fd t|u|c IH s b|c IH p|c IH k]; intros w; simpl; auto.
  - by case_decide.
  - by case_decide.
  - rewrite foldl_app. simpl. rewrite <- IH. by destruct (conn_Close c w).
Qed.

(** What an already closed connection's [Close] leaves unchanged. *)
Lemma conn_Close_again c w :
  base_closed c w = true →
  closed_fds (snd (conn_Close c w)) = closed_fds w ∧ closed_ucs (snd (conn_Close c w)) = closed_ucs w.
Proof.
  unfold base_closed. revert w. induction c as [fd t|u|c IH s b|c IH p|c IH k]; intros w; simpl; auto.
  - intros H%bool_decide_eq_true. by rewrite decide_True.
  - intros H%bool_decide_eq_true. by rewrite decide_True.
  - intros H. specialize (IH w H). by destruct (conn_Close c w).
Qed.

(** What is closed stays closed. *)
Lemma conn_Close_mono c c' w : base_closed c w = true → base_closed c (snd (conn_Close c' w)) = true.
Proof.
  unfold base_closed. revert w. induction c' as [fd t|u|c' IH s b|c' IH p|c' IH k]; intros w H; simpl; auto.
  - case_decide; [done|]. destruct (conn_base c); [|done]. simpl in *.
    apply bool_decide_eq_true. apply bool_decide_eq_true in H. by right.
  - case_decide; [done|]. destruct (conn_base c); [done|]. simpl in *.
    apply bool_decide_eq_true. apply bool_decide_eq_true in H. by right.
  - specialize (IH w H). by destruct (conn_Close c' w).
Qed.

(** Closing writes no payload. *)
Lemma conn_Close_received c w : received (snd (conn_Close c w)) = received w.
Proof.
  revert w. induction c as [fd t|u|c IH s b|c IH p|c IH k]; intros w; simpl; auto; try by case_decide.
  specialize (IH w). by destruct (conn_Close c w).
Qed.

Lemma half_close_received c w :
  received (innerConn_CloseWrite c w) = received w ∧ received (innerConn_CloseRead c w) = received w.
Proof. by destruct c as [? []| | | |]. Qed.

Lemma received_by_deliver c c' data w :
  received_by c' (deliver c data w) =
    if decide (conn_base c' = conn_base c) then received_by c' w ++ data else received_by c' w.
Proof.
  unfold received_by. cbn [received deliver]. case_decide as H.
  - by rewrite H, lookup_insert_eq.
  - by rewrite lookup_insert_ne.
Qed.

(** ** Theorems *)

(** Sniffing loses nothing: reading a [peekedConn] to the end yields the peeked bytes
    followed by everything the inner connection delivers, whatever the buffer size. *)
Theorem peeked_stream (peeked : bytes) (lenb : nat) (chunks : list bytes) (Hb : (0 < lenb)%nat) :
  peeked_read_all (length peeked + length chunks) peeked lenb chunks = peeked ++ concat chunks.
Proof.
  assert (Htail : ∀ n l, (length l ≤ n)%nat → peeked_read_all n [] lenb l = concat l).
  { induction n as [|n IH]; intros [|d l] Hn; simpl in *; try done; try lia.
    rewrite IH by lia. done. }
  remember (length peeked) as n eqn:Hn. assert (length peeked ≤ n)%nat as Hle by lia. clear Hn.
  revert peeked Hle. induction n as [|n IH]; intros peeked Hle.
  { destruct peeked; simpl in *; [|lia]. apply Htail. lia. }
  destruct peeked as [|z peeked]; [by apply Htail; simpl; lia|].
  cbn [peeked_read_all plus peekedConn_Read]. destruct lenb as [|k]; [lia|].
  cbn [take drop]. rewrite IH by (rewrite length_drop; simpl in *; lia).
  simpl. rewrite (assoc app). by rewrite take_drop.
Qed.

Lemma peeked_stream_witness :
  peeked_read_all 7 [1; 2; 3; 4; 5] 2 [[6]; [7; 8]] = [1; 2; 3; 4; 5; 6; 7; 8].
Proof. apply (peeked_stream [1; 2; 3; 4; 5] 2 [[6]; [7; 8]]). lia. Defined.

(** Closing a WebSocket connection a second time reports an error but still returns
    its buffer: the pool then holds the same slice twice, and two later [Get]s hand it to
    two connections. *)
Theorem wsConn_double_Close (fd : nat) (tcp isServer : bool) (b : slice) (w : netw)
    (Hopen : fd ∉ closed_fds w)
    (Hroom : (S (length (pool_c (BufferPool w))) < pool_maxSize (BufferPool w))%nat) :
  let c := WsConn (SockConn fd tcp) isServer b in
  let '(r1, w1) := conn_Close c w in
  let '(r2, w2) := conn_Close c w1 in
  r1 = Ret tt ∧ r2 = Err (Wrapf "close: " net_ErrClosed) ∧
  pool_c (BufferPool w2) = pool_c (BufferPool w) ++ [b; b].
Proof.
  simpl. rewrite decide_False by done. simpl. rewrite decide_True by set_solver. simpl.
  split_and!; [done..|]. unfold BytePool_Put.
  rewrite (decide_True (P := (length (pool_c (BufferPool w)) < _)%nat)) by lia. simpl.
  rewrite length_app. simpl. rewrite decide_True by lia. simpl. by rewrite <- (assoc app).
Qed.

Definition sample_netw : netw := mkNetw [] [] [] [] ∅ init_BufferPool.

Lemma wsConn_double_Close_witness :
  3%nat ∉ closed_fds sample_netw ∧
  pool_c (BufferPool (snd (conn_Close (WsConn (SockConn 3 true) false (mkSlice 0 40960))
    (snd (conn_Close (WsConn (SockConn 3 true) false (mkSlice 0 40960)) sample_netw))))) =
    [mkSlice 0 40960; mkSlice 0 40960].
Proof.
  assert (3%nat ∉ closed_fds sample_netw) as H by (simpl; apply not_elem_of_nil).
  split; [exact H|].
  apply (wsConn_double_Close 3 true false (mkSlice 0 40960) sample_netw H).
  apply Nat.ltb_lt. reflexivity.
Defined.
