(* ===== verification/RelayConn.v ===== *)
(** * internal/conn/relay_conn.go: one relayed connection

    The two directions of [copyConn] run [io.CopyBuffer] between two [innerConn]s.  What the
    sockets answer is the environment: a script of read results, each with the clock at its
    return, and a script of write results.  The byte-level part follows one direction at a
    time; the unsynchronised [Stats.Record] of the two goroutines is the step relation
    [stats_step].  Not modelled: logging, [shortHashSHA256], [GetTime]. *)

From S2P Require Import Prelude GoStd Conf Lb Buffer Net.

Definition ErrIdleTimeout : error := Sentinel "connection closed due to idle timeout".

(** ** Stats *)

Record Stats := mkStats { Up : Z; Down : Z; HandShakeLatency : Z }.

#[global] Instance Stats_eq_dec : EqDecision Stats.
Proof. solve_decision. Defined.

Definition Stats_Record (s : Stats) (up down : Z) : Stats :=
  {| Up := wrap64 (Up s + up); Down := wrap64 (Down s + down); HandShakeLatency := HandShakeLatency s |}.

(** [recordStats] also adds to the [read] or [write] flow of the
    [network_transmit_bytes] counter. *)
Record meter := mkMeter { m_Stats : Stats; flow_read : Z; flow_write : Z }.

Definition innerConn_recordStats (n : Z) (isRead : bool) (m : meter) : meter :=
  if isRead then
    {| m_Stats := Stats_Record (m_Stats m) 0 n; flow_read := flow_read m + n; flow_write := flow_write m |}
  else
    {| m_Stats := Stats_Record (m_Stats m) n 0; flow_read := flow_read m; flow_write := flow_write m + n |}.

(** ** combineErrorsAndMuteIDLE *)

Definition combineErrorsAndMuteIDLE (err1 err2 : option error) : option error :=
  let err1 := if decide (err1 = Some ErrIdleTimeout) then None else err1 in
  if decide (err2 = Some ErrIdleTimeout) then None
  else match err1, err2 with
       | Some e1, Some e2 => Some (Joined e1 e2)
       | Some e1, None => Some e1
       | None, _ => err2
       end.

(** ** innerConn.Read and innerConn.Write *)

(** One round of the read loop as the socket answers it: the error of [SetReadDeadline],
    then the data or the error of [Read], the clock when it returns, and the time of the
    last successful write the other goroutine made to this connection meanwhile, if any. *)
Record read_event := mkRead {
  rd_deadline_err : option error; rd_data : bytes; rd_err : option error;
  rd_now : Z; rd_touched : option Z }.

Definition is_timeout (e : error) : bool :=
  match e with NetError timeout _ => timeout | _ => false end.

(** [None]: the socket has not answered yet, the call blocks. *)
Fixpoint innerConn_Read (IdleTimeout : Z) (script : list read_event) (lastActive : Z) :
    option ((bytes * option error) * Z * list read_event) :=
  match script with
  | [] => None
  | e :: rest =>
      match rd_deadline_err e with
      | Some err => Some (([], Some err), lastActive, rest)
      | None =>
          match rd_err e with
          | None => Some ((rd_data e, None), rd_now e, rest)
          | Some err =>
              if is_timeout err then
                let lastActive := default lastActive (rd_touched e) in
                if decide (IdleTimeout < time_Sub (rd_now e) lastActive)
                then Some (([], Some ErrIdleTimeout), lastActive, rest)
                else innerConn_Read IdleTimeout rest lastActive
              else Some (([], Some err), lastActive, rest)
          end
      end
  end.

(** A write as the socket answers it: the number of bytes taken and the error. *)
Record write_event := mkWrite { wr_n : Z; wr_err : option error }.

Definition innerConn_Write (e : write_event) (m : meter) : (Z * option error) * meter :=
  ((wr_n e, wr_err e),
   match wr_err e with None => innerConn_recordStats (wr_n e) false m | Some _ => m end).

(** ** io.CopyBuffer *)

Definition errShortWrite : error := Sentinel "short write".
Definition errInvalidWrite : error := Sentinel "invalid write result".

(** One direction: what it still has to read and write, what the destination has taken since
    the copy began. *)
Record direction := mkDirection {
  d_reads : list read_event; d_writes : list write_event;
  d_lastActive : Z; d_delivered : bytes }.

(** The loop of [io.CopyBuffer(dst, src, buf)] over two [innerConn]s (which implement
    neither [WriterTo] nor [ReaderFrom]).  Every round consumes a read event; [fuel] bounds
    the rounds.  [None]: blocked on a socket that has not answered. *)
Fixpoint CopyBuffer (fuel : nat) (IdleTimeout : Z) (d : direction) (m : meter) :
    option (option error * direction * meter) :=
  match fuel with
  | O => None
  | S fuel =>
      match innerConn_Read IdleTimeout (d_reads d) (d_lastActive d) with
      | None => None
      | Some ((data, er), lastActive, reads) =>
          let m := match er with
                   | None => innerConn_recordStats (Z.of_nat (length data)) true m
                   | Some _ => m
                   end in
          let d := {| d_reads := reads; d_writes := d_writes d; d_lastActive := lastActive;
                      d_delivered := d_delivered d |} in
          let after_write d m :=
            match er with
            | None => CopyBuffer fuel IdleTimeout d m
            | Some e => Some (if decide (e = io_EOF) then None else Some e, d, m)
            end in
          if decide (data = []) then after_write d m
          else match d_writes d with
               | [] => None
               | w :: writes =>
                   let '((nw, ew), m) := innerConn_Write w m in
                   let nr := Z.of_nat (length data) in
                   let '(nw, ew) :=
                     if decide (nw < 0 ∨ nr < nw)
                     then (0, Some (default errInvalidWrite ew)) else (nw, ew) in
                   let d := {| d_reads := reads; d_writes := writes; d_lastActive := lastActive;
                               d_delivered := d_delivered d ++ take (Z.to_nat nw) data |} in
                   match ew with
                   | Some e => Some (Some e, d, m)
                   | None =>
                       if decide (nr ≠ nw) then Some (Some errShortWrite, d, m)
                       else after_write d m
                   end
               end
      end
  end.

(** The reads of direction [d] through the wrappers of its source: first what they hold
    back, in reads of at most [lenb] bytes, then what the socket answers. *)
Definition served (c : conn) (lenb : Z) (d : direction) : direction :=
  {| d_reads := ((λ p, mkRead None p None (d_lastActive d) None) <$>
                   peek_pieces (length (conn_pending c)) (conn_pending c) (Z.to_nat lenb)) ++ d_reads d;
     d_writes := d_writes d; d_lastActive := d_lastActive d; d_delivered := d_delivered d |}.

(** [copyConn(conn1, conn2)]: [d1] is conn1 -> conn2, run by the spawned goroutine, [d2] is
    conn2 -> conn1; the deferred [Put]s run last in, first out.  Each direction half-closes its destination when it ends; the buffers
    come from the global pool and go back to it.  [None]: one direction is blocked. *)
Definition copyConn (fuel : nat) (IdleTimeout : Z) (conn1 conn2 : conn) (d1 d2 : direction)
    (m : meter) (w : netw) : option (option error * direction * direction * meter * netw) :=
  let (buf1, bp) := BytePool_Get (BufferPool w) in
  let (buf2, bp) := BytePool_Get bp in
  let w := set_pool w bp in
  '(err2, d1, m) ← CopyBuffer fuel IdleTimeout (served conn1 (slice_cap buf1) d1) m;
  let w := innerConn_CloseWrite conn2 (deliver conn2 (d_delivered d1) w) in
  '(err, d2, m) ← CopyBuffer fuel IdleTimeout (served conn2 (slice_cap buf2) d2) m;
  let w := innerConn_CloseWrite conn1 (deliver conn1 (d_delivered d2) w) in
  let w := innerConn_CloseRead conn2 (innerConn_CloseRead conn1 w) in
  let w := set_pool w (BytePool_Put (BytePool_Put (BufferPool w) buf2) buf1) in
  Some (combineErrorsAndMuteIDLE err err2, d1, d2, m, w).

(** ** relayConnImpl *)

Record relayConnImpl := mkRelayConn {
  clientConn : conn; remoteConn : conn; Closed : bool;
  rc_Stats : Stats; rc_remote : string; RelayLabel : string; ConnType : string;
  rc_Options : option Options }.

(** [NewRelayConn] with the options [handleRelayConn] passes ([WithRemote] copies the
    remote's handshake latency into the stats). *)
Definition NewRelayConn (c rc : conn) (remote : Node) (connType label : string)
    (opts : option Options) : relayConnImpl :=
  {| clientConn := c; remoteConn := rc; Closed := false;
     rc_Stats := {| Up := 0; Down := 0; HandShakeLatency := HandShakeDuration remote |};
     rc_remote := Address remote; RelayLabel := label; ConnType := connType; rc_Options := opts |}.

Definition option_of (r : outcome unit) : option error :=
  match r with Err e => Some e | _ => None end.

(** Both connections are closed, the client's first; a panic in the first close skips the
    second. *)
Definition relayConnImpl_Close (rc : relayConnImpl) (w : netw) : outcome (option error) * relayConnImpl * netw :=
  match conn_Close (clientConn rc) w with
  | (Panic p, w) => (Panic p, rc, w)
  | (r1, w) =>
      match conn_Close (remoteConn rc) w with
      | (Panic p, w) => (Panic p, rc, w)
      | (r2, w) =>
          (Ret (combineErrorsAndMuteIDLE (option_of r1) (option_of r2)),
           {| clientConn := clientConn rc; remoteConn := remoteConn rc; Closed := true;
              rc_Stats := rc_Stats rc; rc_remote := rc_remote rc; RelayLabel := RelayLabel rc;
              ConnType := ConnType rc; rc_Options := rc_Options rc |}, w)
      end
  end.

(** [Transport]: the copy, then the deferred [Close], whose error is only logged.  The
    copy's error is wrapped with the addresses.  Both [Read]s dereference [rc.Options].  The
    prometheus flows are counted from zero.  [None]: still copying. *)
Definition relayConnImpl_Transport (fuel : nat) (rc : relayConnImpl) (d1 d2 : direction)
    (w : netw) : option (outcome (option error) * relayConnImpl * netw) :=
  '(res, rc, w) ←
    match rc_Options rc with
    | None => Some (Panic NilDereference, rc, w)
    | Some o =>
        '(err, _, _, m, w) ← copyConn fuel (IdleTimeout o) (clientConn rc) (remoteConn rc) d1 d2
                               (mkMeter (rc_Stats rc) 0 0) w;
        Some (Ret (Wrapf "(client, remote) " <$> err),
              {| clientConn := clientConn rc; remoteConn := remoteConn rc; Closed := Closed rc;
                 rc_Stats := m_Stats m; rc_remote := rc_remote rc; RelayLabel := RelayLabel rc;
                 ConnType := ConnType rc; rc_Options := rc_Options rc |}, w)
    end;
  let '(closed, rc, w) := relayConnImpl_Close rc w in
  Some (match closed with Panic p => Panic p | _ => res end, rc, w).

(** ** Stats.Record by two goroutines

    [s.Up += up] is a load, an addition and a store.  A goroutine is the increments it has
    still to apply, with the value it has loaded, if any. *)
Record thread := mkThread { th_todo : list Z; th_loaded : option Z }.

Record stats_state := mkStatsState { sh_Up : Z; th_1 : thread; th_2 : thread }.

Inductive thread_step : Z * thread → Z * thread → Prop :=
  | th_load up n todo :
      thread_step (up, mkThread (n :: todo) None) (up, mkThread (n :: todo) (Some up))
  | th_store up n todo v :
      thread_step (up, mkThread (n :: todo) (Some v)) (v + n, mkThread todo None).

Inductive stats_step : stats_state → stats_state → Prop :=
  | stats_step_1 up up' t1 t1' t2 :
      thread_step (up, t1) (up', t1') → stats_step (mkStatsState up t1 t2) (mkStatsState up' t1' t2)
  | stats_step_2 up up' t1 t2 t2' :
      thread_step (up, t2) (up', t2') → stats_step (mkStatsState up t1 t2) (mkStatsState up' t1 t2').

Definition stats_init (l1 l2 : list Z) : stats_state :=
  mkStatsState 0 (mkThread l1 None) (mkThread l2 None).

Definition stats_done (s : stats_state) : Prop :=
  th_todo (th_1 s) = [] ∧ th_todo (th_2 s) = [].

(** ** Lemmas *)

(** The bytes the successful reads of a script bring in. *)
Definition read_bytes (script : list read_event) : bytes :=
  concat ((λ e, match rd_deadline_err e, rd_err e with None, None => rd_data e | _, _ => [] end) <$> script).

Lemma read_bytes_app s1 s2 : read_bytes (s1 ++ s2) = read_bytes s1 ++ read_bytes s2.
Proof. unfold read_bytes. by rewrite fmap_app, concat_app. Qed.

Lemma innerConn_Read_consumes I script last data er last' rest :
  innerConn_Read I script last = Some ((data, er), last', rest) →
  ∃ used, used ≠ [] ∧ script = used ++ rest ∧ read_bytes used = data ∧ (er ≠ None → data = []).
Proof.
  revert last. induction script as [|e script IH]; intros last; simpl; [done|].
  assert (∀ s, e :: s = [e] ++ s) as Hcons by done.
  destruct (rd_deadline_err e) as [err|] eqn:Hd.
  { intros [= <- <- <- <-]. exists [e]. unfold read_bytes. simpl. by rewrite Hd. }
  destruct (rd_err e) as [err|] eqn:He.
  - case_match; [case_decide|].
    + intros [= <- <- <- <-]. exists [e]. unfold read_bytes. simpl. by rewrite Hd, He.
    + intros (used & Hne & -> & Hb & Hdata)%IH. exists (e :: used). split; [done|].
      split; [done|]. split; [|done]. rewrite <- Hb. unfold read_bytes. simpl. by rewrite Hd, He.
    + intros [= <- <- <- <-]. exists [e]. unfold read_bytes. simpl. by rewrite Hd, He.
  - intros [= <- <- <- <-]. exists [e]. unfold read_bytes. simpl. rewrite Hd, He, app_nil_r. done.
Qed.

(** What one run of a direction does to its state: the bytes delivered are a prefix of the
    bytes read. *)
Lemma CopyBuffer_prefix fuel I d m err d' m' :
  CopyBuffer fuel I d m = Some (err, d', m') →
  ∃ used out, d_reads d = used ++ d_reads d' ∧
    d_delivered d' = d_delivered d ++ out ∧ out `prefix_of` read_bytes used.
Proof.
  revert d m. induction fuel as [|fuel IH]; intros d m; [done|]. cbn [CopyBuffer].
  destruct (innerConn_Read I (d_reads d) (d_lastActive d)) as [[[[data er] last] rest]|] eqn:Hr; [|done].
  apply innerConn_Read_consumes in Hr as (used & _ & Hu & Hb & Her).
  set (m1 := match er with None => _ | Some _ => m end).
  assert (Hend : ∀ x e, x `prefix_of` data → ∀ ws mm,
    Some (e, {| d_reads := rest; d_writes := ws; d_lastActive := last; d_delivered := d_delivered d ++ x |}, mm)
      = Some (err, d', m') →
    ∃ used out, d_reads d = used ++ d_reads d' ∧ d_delivered d' = d_delivered d ++ out ∧ out `prefix_of` read_bytes used).
  { intros x e Hx ws mm Heq. simplify_eq/=. by exists used, x. }
  assert (Hloop : ∀ ws mm, CopyBuffer fuel I {| d_reads := rest; d_writes := ws; d_lastActive := last;
      d_delivered := d_delivered d ++ data |} mm = Some (err, d', m') →
    ∃ used out, d_reads d = used ++ d_reads d' ∧ d_delivered d' = d_delivered d ++ out ∧ out `prefix_of` read_bytes used).
  { intros ws mm (used' & out & Hu' & Hd' & Hp)%IH. simpl in *.
    exists (used ++ used'), (data ++ out). rewrite Hu, Hu', Hd', read_bytes_app, Hb.
    rewrite <- !(assoc app). split_and!; [done..|]. by apply prefix_app. }
  case_decide as Hnil.
  - pose proof (λ e, Hend [] e (prefix_nil _)) as Hend0. rewrite Hnil in Hloop.
    rewrite app_nil_r in Hend0, Hloop. destruct er as [e|]; [apply Hend0|apply Hloop].
  - destruct er as [e|]; [by rewrite Her in Hnil|].
    cbn [d_writes d_reads d_delivered d_lastActive].
    destruct (d_writes d) as [|w ws]; [done|]. cbn [innerConn_Write].
    case_decide as Hinv.
    { apply Hend. rewrite Z2Nat.inj_0. apply prefix_nil. }
    destruct (wr_err w) as [ew|]; [apply Hend, prefix_take|].
    case_decide as Hshort; [apply Hend, prefix_take|].
    rewrite take_ge by lia. apply Hloop.
Qed.

(** The script of a source that sends [chunks] (data and arrival time) and then closes, and
    of a destination that takes every non-empty chunk whole. *)
Definition clean_reads (chunks : list (bytes * Z)) (t_eof : Z) : list read_event :=
  ((λ c, mkRead None (fst c) None (snd c) None) <$> chunks) ++ [mkRead None [] (Some io_EOF) t_eof None].

Fixpoint clean_writes (chunks : list (bytes * Z)) : list write_event :=
  match chunks with
  | [] => []
  | (data, _) :: chunks =>
      if decide (data = []) then clean_writes chunks
      else mkWrite (Z.of_nat (length data)) None :: clean_writes chunks
  end.

Definition total_bytes (chunks : list (bytes * Z)) : Z :=
  sum_Z ((λ c, Z.of_nat (length (fst c))) <$> chunks).

(** The meter after [n] more bytes in and out. *)
Definition meter_add (m : meter) (n : Z) : meter :=
  {| m_Stats := {| Up := wrap64 (Up (m_Stats m) + n); Down := wrap64 (Down (m_Stats m) + n);
                   HandShakeLatency := HandShakeLatency (m_Stats m) |};
     flow_read := flow_read m + n; flow_write := flow_write m + n |}.

Definition meter_ok (m : meter) : Prop := in_int64 (Up (m_Stats m)) ∧ in_int64 (Down (m_Stats m)).

Lemma meter_add_0 m : meter_ok m → meter_add m 0 = m.
Proof.
  intros [HU HD]. destruct m as [[u d h] fr fw]. unfold meter_add. simpl in *.
  rewrite !Z.add_0_r, !wrap64_id by done. done.
Qed.

Lemma meter_add_add m a b : meter_add (meter_add m a) b = meter_add m (a + b).
Proof.
  unfold meter_add. simpl. rewrite !wrap64_wrap64_add. f_equal; [|lia..]. f_equal; f_equal; lia.
Qed.

Lemma meter_ok_add m a : meter_ok (meter_add m a).
Proof. split; apply wrap64_range. Qed.

(** The two records of a whole chunk: on reading it, then on writing it. *)
Lemma record_read_write n m :
  meter_ok m →
  innerConn_recordStats n false (innerConn_recordStats n true m) = meter_add m n.
Proof.
  intros [HU HD]. unfold innerConn_recordStats, Stats_Record, meter_add. simpl.
  rewrite !Z.add_0_r, (wrap64_id (Up (m_Stats m))) by done.
  by rewrite (wrap64_id (wrap64 (Down (m_Stats m) + n))) by apply wrap64_range.
Qed.

Lemma record_read_empty m :
  meter_ok m → innerConn_recordStats 0 true m = m.
Proof.
  intros [HU HD]. destruct m as [[u d h] fr fw]. unfold innerConn_recordStats, Stats_Record. simpl in *.
  rewrite !Z.add_0_r, !wrap64_id by done. done.
Qed.

(** A copy loop that has taken [chunks] goes on as if it began with what is left. *)
Lemma CopyBuffer_after chunks fuel rest I ws last pre m :
  meter_ok m →
  ∃ last',
    CopyBuffer (length chunks + fuel) I
      {| d_reads := ((λ c, mkRead None (fst c) None (snd c) None) <$> chunks) ++ rest;
         d_writes := clean_writes chunks ++ ws; d_lastActive := last; d_delivered := pre |} m =
    CopyBuffer fuel I
      {| d_reads := rest; d_writes := ws; d_lastActive := last';
         d_delivered := pre ++ concat (fst <$> chunks) |} (meter_add m (total_bytes chunks)).
Proof.
  revert last pre m. induction chunks as [|[data t] chunks IH]; intros last pre m Hok.
  { exists last. simpl. by rewrite app_nil_r, meter_add_0 by done. }
  cbn [length Nat.add]. set (k := (length chunks + fuel)%nat) in *.
  cbn [CopyBuffer fmap list_fmap app innerConn_Read d_reads rd_deadline_err rd_err rd_data rd_now fst snd
       clean_writes d_writes d_delivered]. cbv zeta.
  unfold total_bytes. cbn [fmap list_fmap sum_Z fst snd concat].
  case_decide as Hnil.
  - subst data. change (Z.of_nat (length [])) with 0. rewrite record_read_empty by done.
    destruct (IH t pre m Hok) as [last' IH']. exists last'. rewrite Z.add_0_l. exact IH'.
  - cbn [app innerConn_Write wr_n wr_err]. rewrite decide_False by lia. cbn beta iota.
    rewrite decide_False by naive_solver. rewrite record_read_write by done.
    rewrite take_ge by lia.
    destruct (IH t (pre ++ data) (meter_add m (Z.of_nat (length data))) (meter_ok_add _ _)) as [last' IH'].
    exists last'. rewrite meter_add_add, <- (assoc app) in IH'. exact IH'.
Qed.

Lemma CopyBuffer_clean chunks t_eof I ws last pre m :
  meter_ok m →
  ∃ last',
    CopyBuffer (S (length chunks)) I
      {| d_reads := clean_reads chunks t_eof; d_writes := clean_writes chunks ++ ws;
         d_lastActive := last; d_delivered := pre |} m =
    Some (None, {| d_reads := []; d_writes := ws; d_lastActive := last';
                   d_delivered := pre ++ concat (fst <$> chunks) |}, meter_add m (total_bytes chunks)).
Proof.
  intros Hok. destruct (CopyBuffer_after chunks 1 [mkRead None [] (Some io_EOF) t_eof None] I ws last pre m Hok) as [l Hl].
  exists l. rewrite Nat.add_1_r in Hl. exact Hl.
Qed.

Lemma served_none c lenb d : conn_pending c = [] → served c lenb d = d.
Proof. intros H. unfold served. rewrite H. by destruct d. Qed.

(** More fuel changes nothing once the copy has ended. *)
Lemma CopyBuffer_more fuel I d m r : CopyBuffer fuel I d m = Some r → CopyBuffer (S fuel) I d m = Some r.
Proof.
  revert d m. induction fuel as [|fuel IH]; intros d m; [done|]. intros H. remember (S fuel) as k eqn:Hk.
  cbn [CopyBuffer]. rewrite Hk in H. cbn [CopyBuffer] in H.
  destruct (innerConn_Read I (d_reads d) (d_lastActive d)) as [[[[data er] last] rest]|]; [|done].
  cbv zeta in *. cbn [d_writes d_reads d_delivered d_lastActive] in *.
  case_decide; [destruct er; [done|by apply IH]|].
  destruct (d_writes d) as [|e ws]; [done|]. destruct (innerConn_Write e _) as [[n ew] m1].
  case_decide; [done|]. destruct ew; [done|]. case_decide; [done|]. destruct er; [done|]. by apply IH.
Qed.

Lemma CopyBuffer_fuel fuel fuel' I d m r :
  CopyBuffer fuel I d m = Some r → (fuel ≤ fuel')%nat → CopyBuffer fuel' I d m = Some r.
Proof. intros H Hle. induction Hle; [done|by apply CopyBuffer_more]. Qed.

(** The rounds of [innerConn.Read] in which the socket only times out. *)
Definition timeouts (nows : list Z) : list read_event :=
  (λ t, mkRead None [] (Some (NetError true "i/o timeout")) t None) <$> nows.

Lemma innerConn_Read_timeouts I nows last :
  innerConn_Read I (timeouts nows) last =
    match list_find (λ t, I < time_Sub t last) nows with
    | Some (i, _) => Some (([], Some ErrIdleTimeout), last, timeouts (drop (S i) nows))
    | None => None
    end.
Proof.
  induction nows as [|t nows IH]; [done|]. cbn [timeouts fmap list_fmap innerConn_Read list_find
    rd_deadline_err rd_err is_timeout rd_now rd_touched default]. case_decide; [done|].
  fold (timeouts nows). rewrite IH. by destruct (list_find _ nows) as [[i x]|].
Qed.

(** A thread's remaining increments, and the sum it starts from. *)
Definition th_sum (t : thread) : Z := sum_Z (th_todo t).

Lemma stats_step_cases s s' :
  stats_step s s' →
  (sh_Up s' = sh_Up s ∧ th_sum (th_1 s') = th_sum (th_1 s) ∧ th_sum (th_2 s') = th_sum (th_2 s)) ∨
  ∃ (v n : Z), sh_Up s' = v + n ∧ (th_loaded (th_1 s) = Some v ∨ th_loaded (th_2 s) = Some v) ∧
    th_sum (th_1 s) + th_sum (th_2 s) = n + th_sum (th_1 s') + th_sum (th_2 s').
Proof.
  unfold th_sum. intros Hs. destruct Hs as [up up' t1 t1' t2 Ht|up up' t1 t2 t2' Ht]; inversion Ht; subst; simpl.
  - by left.
  - right. exists v, n. split_and!; [done|by left|lia].
  - by left.
  - right. exists v, n. split_and!; [done|by right|lia].
Qed.

(** The invariant of the race: every value in flight is at most what the finished
    increments sum to. *)
Record stats_inv (total : Z) (s : stats_state) : Prop := {
  si_pos : Forall (λ n, 0 ≤ n) (th_todo (th_1 s)) ∧ Forall (λ n, 0 ≤ n) (th_todo (th_2 s));
  si_up : sh_Up s + th_sum (th_1 s) + th_sum (th_2 s) ≤ total;
  si_1 : ∀ v, th_loaded (th_1 s) = Some v → v + th_sum (th_1 s) + th_sum (th_2 s) ≤ total;
  si_2 : ∀ v, th_loaded (th_2 s) = Some v → v + th_sum (th_1 s) + th_sum (th_2 s) ≤ total }.

Lemma stats_inv_step total s s' : stats_inv total s → stats_step s s' → stats_inv total s'.
Proof.
  intros [[Hp1 Hp2] Hup H1 H2] Hs.
  destruct Hs as [up up' t1 t1' t2 Ht|up up' t1 t2 t2' Ht]; inversion Ht; subst; simpl in *.
  - split; simpl; naive_solver.
  - apply Forall_cons in Hp1 as [Hn Hp1]. pose proof (H1 v eq_refl). split; simpl; [done|unfold th_sum in *; simpl in *; lia|done|].
    intros v' Hv'. pose proof (H2 v' Hv'). unfold th_sum in *. simpl in *. lia.
  - split; simpl; naive_solver.
  - apply Forall_cons in Hp2 as [Hn Hp2]. pose proof (H2 v eq_refl). split; simpl; [done|unfold th_sum in *; simpl in *; lia| |done].
    intros v' Hv'. pose proof (H1 v' Hv'). unfold th_sum in *. simpl in *. lia.
Qed.

(** ** Theorems *)

(** A source that sends any chunks and then closes, over a destination that takes
    them, is copied completely: the direction ends without error, the destination has
    received exactly the bytes sent, in order, nothing is left to read or write, and [Up],
    [Down] and both prometheus flows have grown by the number of bytes. *)
Theorem CopyBuffer_delivers (chunks : list (bytes * Z)) (t_eof I last : Z) (pre : bytes) (m : meter)
    (Hm : meter_ok m) :
  ∃ last',
    CopyBuffer (S (length chunks)) I
      {| d_reads := clean_reads chunks t_eof; d_writes := clean_writes chunks;
         d_lastActive := last; d_delivered := pre |} m =
    Some (None, {| d_reads := []; d_writes := []; d_lastActive := last';
                   d_delivered := pre ++ concat (fst <$> chunks) |}, meter_add m (total_bytes chunks)).
Proof.
  destruct (CopyBuffer_clean chunks t_eof I [] last pre m Hm) as [last' H].
  exists last'. by rewrite app_nil_r in H.
Qed.

Lemma CopyBuffer_delivers_witness :
  ∃ last',
    CopyBuffer 4 Second
      {| d_reads := clean_reads [([1; 2], 10); ([], 20); ([3], 30)] 40;
         d_writes := clean_writes [([1; 2], 10); ([], 20); ([3], 30)];
         d_lastActive := 0; d_delivered := [] |} (mkMeter (mkStats 0 0 0) 0 0) =
    Some (None, {| d_reads := []; d_writes := []; d_lastActive := last'; d_delivered := [1; 2; 3] |},
          mkMeter (mkStats 3 3 0) 3 3).
Proof.
  apply (CopyBuffer_delivers [([1; 2], 10); ([], 20); ([3], 30)] 40 Second 0 []
    (mkMeter (mkStats 0 0 0) 0 0)).
  split; split; vm_compute; discriminate.
Defined.

(** Whatever the sockets do (errors, timeouts, short or invalid writes), a direction
    that ends has delivered a prefix of the bytes it read, in order: it never invents,
    repeats or reorders a byte. *)
Theorem CopyBuffer_delivers_prefix (fuel : nat) (I : Z) (d d' : direction) (m m' : meter)
    (err : option error) (Hrun : CopyBuffer fuel I d m = Some (err, d', m')) :
  ∃ used out, d_reads d = used ++ d_reads d' ∧
    d_delivered d' = d_delivered d ++ out ∧ out `prefix_of` read_bytes used.
Proof. by eapply CopyBuffer_prefix. Qed.

Definition sample_direction : direction :=
  mkDirection [mkRead None [1; 2; 3] None 5 None; mkRead None [] (Some (Errorf "reset")) 6 None]
    [mkWrite 2 None] 0 [].

Lemma CopyBuffer_delivers_prefix_witness :
  ∃ used out, d_reads sample_direction = used ++ [mkRead None [] (Some (Errorf "reset")) 6 None] ∧
    [1; 2] = [] ++ out ∧ out `prefix_of` read_bytes used.
Proof.
  eapply (CopyBuffer_delivers_prefix 5 Second sample_direction
    (mkDirection [mkRead None [] (Some (Errorf "reset")) 6 None] [] 5 [1; 2])
    (mkMeter (mkStats 0 0 0) 0 0)).
  reflexivity.
Defined.

(** On an idle connection [Read] gives up exactly when the time since the last
    activity first exceeds the idle timeout at the end of a read deadline, with
    [ErrIdleTimeout], and keeps waiting until then. *)
Theorem Read_idle_timeout (IdleTimeout last : Z) (nows : list Z) :
  match innerConn_Read IdleTimeout (timeouts nows) last with
  | Some ((data, er), last', rest) =>
      data = [] ∧ er = Some ErrIdleTimeout ∧ last' = last ∧
      ∃ i t, nows !! i = Some t ∧ IdleTimeout < time_Sub t last ∧ rest = timeouts (drop (S i) nows) ∧
        ∀ j t', (j < i)%nat → nows !! j = Some t' → time_Sub t' last ≤ IdleTimeout
  | None => Forall (λ t, time_Sub t last ≤ IdleTimeout) nows
  end.
Proof.
  rewrite innerConn_Read_timeouts. destruct (list_find _ nows) as [[i t]|] eqn:Hf.
  - apply list_find_Some in Hf as (Hi & Ht & Hj). split_and!; [done..|].
    exists i, t. split_and!; [done..|]. intros j t' Hlt Hj'. specialize (Hj j t' Hj' Hlt). lia.
  - apply list_find_None in Hf. eapply Forall_impl; [done|]. simpl. intros. lia.
Qed.

(** How two errors combine: an idle timeout of the second argument mutes the result
    whatever the first is, while an idle timeout of the first leaves the second; so in
    [copyConn] an idle client-to-remote direction hides a real error of the other one. *)
Theorem combine_spec (err1 err2 : option error) :
  combineErrorsAndMuteIDLE err1 (Some ErrIdleTimeout) = None ∧
  (err2 ≠ Some ErrIdleTimeout → combineErrorsAndMuteIDLE (Some ErrIdleTimeout) err2 = err2) ∧
  (err1 ≠ Some ErrIdleTimeout → err2 ≠ Some ErrIdleTimeout →
     combineErrorsAndMuteIDLE err1 err2 = errors_Join err1 err2).
Proof.
  unfold combineErrorsAndMuteIDLE, errors_Join. split_and!.
  - by rewrite decide_True.
  - intros ?. rewrite (decide_False (P := err2 = Some ErrIdleTimeout)) by done.
    rewrite decide_True by done. by destruct err2.
  - intros ? ?. rewrite !decide_False by done. by destruct err1, err2.
Qed.

(** [Transport]'s close: unless a connection is an already closed UDP client (whose
    second close panics), both connections end up closed, whatever errors the closes
    return, and a first close of distinct open connections reports no error. *)
Theorem relayConn_Close_spec (rc : relayConnImpl) (w : netw) :
  match relayConnImpl_Close rc w with
  | (Ret err, rc', w') =>
      Closed rc' = true ∧ base_closed (remoteConn rc) w' = true ∧
      (base_closed (clientConn rc) w = false → conn_base (clientConn rc) ≠ conn_base (remoteConn rc) →
       base_closed (remoteConn rc) (snd (conn_Close (clientConn rc) w)) = false → err = None)
  | (Panic p, _, _) => p = CloseOfClosedChannel
  | (Err _, _, _) => False
  end.
Proof.
  unfold relayConnImpl_Close.
  pose proof (conn_Close_result (clientConn rc) w) as H1.
  destruct (conn_Close (clientConn rc) w) as [r1 w1] eqn:E1. simpl in H1.
  pose proof (conn_Close_result (remoteConn rc) w1) as H2.
  pose proof (conn_Close_closed (remoteConn rc) w1) as Hc2.
  destruct (conn_Close (remoteConn rc) w1) as [r2 w2] eqn:E2. simpl in *.
  destruct (base_closed (clientConn rc) w), (base_closed (remoteConn rc) w1),
    (conn_base (clientConn rc)), (conn_base (remoteConn rc)); subst r1 r2; simpl; naive_solver.
Qed.

(** The two goroutines of [copyConn] update [Stats.Up] without synchronisation: in
    every interleaving the counter is at most the bytes written so far, and when both
    directions carry data there is a complete interleaving that loses bytes. *)
Theorem Stats_race (l1 l2 : list Z) (Hpos : Forall (λ n, 0 ≤ n) l1 ∧ Forall (λ n, 0 ≤ n) l2) :
  (∀ s, rtc stats_step (stats_init l1 l2) s → sh_Up s ≤ sum_Z l1 + sum_Z l2 - th_sum (th_1 s) - th_sum (th_2 s)) ∧
  (∀ n m, l1 = [n] → l2 = [m] → 0 < n →
     ∃ s, rtc stats_step (stats_init l1 l2) s ∧ stats_done s ∧ sh_Up s < sum_Z l1 + sum_Z l2).
Proof.
  split.
  - intros s Hs. assert (stats_inv (sum_Z l1 + sum_Z l2) s) as [_ Hup _ _]; [|lia].
    assert (stats_inv (sum_Z l1 + sum_Z l2) (stats_init l1 l2)) as Hinit.
    { split; simpl; unfold th_sum; simpl; [done|lia|done..]. }
    clear Hpos. revert Hinit. induction Hs; [done|]. eauto using stats_inv_step.
  - intros n m -> -> Hn. exists (mkStatsState m (mkThread [] None) (mkThread [] None)).
    split; [|split; [done|simpl; lia]]. unfold stats_init.
    eapply rtc_l; [apply stats_step_1, th_load|]. eapply rtc_l; [apply stats_step_2, th_load|].
    eapply rtc_l; [apply stats_step_1, th_store|]. eapply rtc_l; [apply stats_step_2, th_store|].
    simpl. rewrite Z.add_0_l. apply rtc_refl.
Qed.

Lemma Stats_race_witness :
  ∃ s, rtc stats_step (stats_init [100] [50]) s ∧ stats_done s ∧ sh_Up s < 150.
Proof.
  apply (Stats_race [100] [50] ltac:(repeat constructor; lia)) with (n := 100) (m := 50); [done|done|lia].
Defined.
