(* ===== verification/UdpListener.v ===== *)
(** * internal/conn/udp_listener.go: demultiplexing a UDP socket into connections

    The listener goroutine, the goroutine that calls [Accept] ([RawServer.listenUDP] in
    internal/transporter/raw.go) and the relays that read and close the per-client [uc]s
    interleave.  A program point of the listener loop is a constructor of [listen_pc]; each
    event is one atomic step of one goroutine, [udp_run] executes it ([None]: the goroutine
    is blocked or not at that point) and [udp_step] is the induced step relation.
    [connsMu] is held exactly while the listener is at [LNew].  The buffer a datagram lives
    in is not tracked here. *)

From S2P Require Import Prelude GoStd Conf Net.

Record datagram := mkDatagram { dg_from : string; dg_data : bytes }.

#[global] Instance datagram_eq_dec : EqDecision datagram.
Proof. solve_decision. Defined.

(** [uc_got]: what [Read] has returned so far (ghost). *)
Record uc := mkUc {
  uc_addr : string; uc_msgCh : list datagram; uc_closed : bool; uc_lastActivity : Z;
  uc_got : list datagram }.

(** [make(chan []byte, 10)] *)
Definition msgCh_cap : nat := 10.

(** [uc.Read] with a buffer of [lenb] bytes at time [now].  A closed channel yields nil at
    once after its queue is drained. *)
Definition uc_Read (c : uc) (lenb : nat) (now IdleTimeout : Z) : (bytes * option error) * uc :=
  match uc_msgCh c with
  | msg :: q =>
      ((take lenb (dg_data msg), None),
       {| uc_addr := uc_addr c; uc_msgCh := q; uc_closed := uc_closed c; uc_lastActivity := now;
          uc_got := uc_got c ++ [msg] |})
  | [] =>
      if uc_closed c then
        (([], None), {| uc_addr := uc_addr c; uc_msgCh := []; uc_closed := true;
                        uc_lastActivity := now; uc_got := uc_got c |})
      else if decide (IdleTimeout < time_Sub now (uc_lastActivity c)) then (([], Some io_EOF), c)
      else (([], None), c)
  end.

Inductive listen_pc :=
  | LTop                                  (** the loop head, before [l.closed.Load()] *)
  | LRead                                 (** in [ReadFromUDP] *)
  | LGot (dg : datagram)                  (** before the lookup *)
  | LNew (u : nat) (dg : datagram)        (** in [l.connCh <- udpConn], holding [connsMu] *)
  | LSend (u : nat) (dg : datagram)       (** before the send on [udpConn.msgCh] *)
  | LReturned
  | LPanicked (p : panic).

#[global] Instance listen_pc_eq_dec : EqDecision listen_pc.
Proof. solve_decision. Defined.

(** The goroutine of [listenUDP]: in [Accept], or returned. *)
Inductive accept_pc := AWaiting | AReturned (err : option error).

Record UDPListener := mkListener {
  conns : gmap string nat; ucs : list uc; pc : listen_pc; acceptor : accept_pc;
  accepted : list nat; l_closed : bool; close_panics : nat; received : list datagram }.

Definition set_pc (l : UDPListener) (p : listen_pc) : UDPListener :=
  {| conns := conns l; ucs := ucs l; pc := p; acceptor := acceptor l; accepted := accepted l;
     l_closed := l_closed l; close_panics := close_panics l; received := received l |}.

Definition set_uc (l : UDPListener) (u : nat) (c : uc) : UDPListener :=
  {| conns := conns l; ucs := <[u := c]> (ucs l); pc := pc l; acceptor := acceptor l; accepted := accepted l;
     l_closed := l_closed l; close_panics := close_panics l; received := received l |}.

Definition NewUDPListener : UDPListener :=
  {| conns := ∅; ucs := []; pc := LTop; acceptor := AWaiting; accepted := [];
     l_closed := false; close_panics := 0; received := [] |}.

(** One event per atomic step. *)
Inductive udp_event :=
  | EvTop | EvRecv (dg : datagram) | EvRecvErr (err : error) | EvLookup (now : Z) | EvAccept | EvSend
  | EvUcRead (u lenb : nat) (now IdleTimeout : Z) | EvUcClose (u : nat) | EvListenerClose.

(** Loop head: return when the listener is closed. *)
Definition listen_top (l : UDPListener) : option UDPListener :=
  match pc l with LTop => Some (set_pc l (if l_closed l then LReturned else LRead)) | _ => None end.

(** [ReadFromUDP] returns a datagram. *)
Definition listen_recv (dg : datagram) (l : UDPListener) : option UDPListener :=
  match pc l with
  | LRead => Some {| conns := conns l; ucs := ucs l; pc := LGot dg; acceptor := acceptor l;
                     accepted := accepted l; l_closed := l_closed l; close_panics := close_panics l;
                     received := received l ++ [dg] |}
  | _ => None
  end.

(** [ReadFromUDP] fails: unless closed, the error goes to a waiting [Accept], which returns
    it and ends the accept loop; otherwise it is dropped. *)
Definition listen_recv_err (err : error) (l : UDPListener) : option UDPListener :=
  match pc l with
  | LRead => Some {| conns := conns l; ucs := ucs l; pc := LTop;
                     acceptor := match acceptor l with
                                 | AWaiting => if l_closed l then AWaiting else AReturned (Some err)
                                 | a => a
                                 end;
                     accepted := accepted l; l_closed := l_closed l; close_panics := close_panics l;
                     received := received l |}
  | _ => None
  end.

(** The lookup; a new client gets a [uc], registered under [connsMu]. *)
Definition listen_lookup (now : Z) (l : UDPListener) : option UDPListener :=
  match pc l with
  | LGot dg =>
      match conns l !! dg_from dg with
      | Some u => Some (set_pc l (LSend u dg))
      | None =>
          let u := length (ucs l) in
          Some {| conns := <[dg_from dg := u]> (conns l);
                  ucs := ucs l ++ [mkUc (dg_from dg) [] false now []];
                  pc := LNew u dg; acceptor := acceptor l; accepted := accepted l;
                  l_closed := l_closed l; close_panics := close_panics l; received := received l |}
      end
  | _ => None
  end.

(** The rendezvous on the unbuffered [connCh]; [connsMu] is released. *)
Definition listener_Accept (l : UDPListener) : option UDPListener :=
  match pc l, acceptor l with
  | LNew u dg, AWaiting =>
      Some {| conns := conns l; ucs := ucs l; pc := LSend u dg; acceptor := AWaiting;
              accepted := accepted l ++ [u]; l_closed := l_closed l; close_panics := close_panics l;
              received := received l |}
  | _, _ => None
  end.

(** The [select] with a [default] on [udpConn.msgCh]: a full queue drops the datagram, a
    closed channel panics. *)
Definition listen_send (l : UDPListener) : option UDPListener :=
  match pc l with
  | LSend u dg =>
      match ucs l !! u with
      | Some c =>
          if uc_closed c then Some (set_pc l (LPanicked SendOnClosedChannel))
          else if decide (length (uc_msgCh c) < msgCh_cap)%nat then
            Some (set_pc (set_uc l u {| uc_addr := uc_addr c; uc_msgCh := uc_msgCh c ++ [dg];
                                        uc_closed := false; uc_lastActivity := uc_lastActivity c;
                                        uc_got := uc_got c |}) LTop)
          else Some (set_pc l LTop)
      | None => None
      end
  | _ => None
  end.

Definition lock_held (l : UDPListener) : bool :=
  match pc l with LNew _ _ => true | _ => false end.

(** [uc.Close]: blocked while the listener holds [connsMu]. *)
Definition uc_Close (u : nat) (l : UDPListener) : option UDPListener :=
  if lock_held l then None
  else match ucs l !! u with
       | Some c =>
           Some {| conns := delete (uc_addr c) (conns l);
                   ucs := <[u := {| uc_addr := uc_addr c; uc_msgCh := uc_msgCh c; uc_closed := true;
                                    uc_lastActivity := uc_lastActivity c; uc_got := uc_got c |}]> (ucs l);
                   pc := pc l; acceptor := acceptor l; accepted := accepted l; l_closed := l_closed l;
                   close_panics := if uc_closed c then S (close_panics l) else close_panics l;
                   received := received l |}
       | None => None
       end.

(** [UDPListener.Close]: cancels the context (a waiting [Accept] returns its error). *)
Definition UDPListener_Close (l : UDPListener) : UDPListener :=
  if l_closed l then l
  else {| conns := conns l; ucs := ucs l; pc := pc l;
          acceptor := match acceptor l with AWaiting => AReturned None | a => a end;
          accepted := accepted l; l_closed := true; close_panics := close_panics l; received := received l |}.

Definition udp_run (e : udp_event) (l : UDPListener) : option UDPListener :=
  match e with
  | EvTop => listen_top l
  | EvRecv dg => listen_recv dg l
  | EvRecvErr err => listen_recv_err err l
  | EvLookup now => listen_lookup now l
  | EvAccept => listener_Accept l
  | EvSend => listen_send l
  | EvUcRead u lenb now idle =>
      c ← ucs l !! u; Some (set_uc l u (snd (uc_Read c lenb now idle)))
  | EvUcClose u => uc_Close u l
  | EvListenerClose => Some (UDPListener_Close l)
  end.

Definition udp_step (l l' : UDPListener) : Prop := ∃ e, udp_run e l = Some l'.

Fixpoint udp_runs (es : list udp_event) (l : UDPListener) : option UDPListener :=
  match es with [] => Some l | e :: es => l ← udp_run e l; udp_runs es l end.

(** ** The invariant *)

(** The datagrams already handled: the one the listener is working on is not yet. *)
Definition in_flight (l : UDPListener) : option datagram :=
  match pc l with LGot dg | LNew _ dg | LSend _ dg => Some dg | _ => None end.

Definition from (a : string) (l : list datagram) : list datagram := filter (λ d, dg_from d = a) l.

Definition uc_ok (handled : list datagram) (c : uc) : Prop :=
  (length (uc_msgCh c) ≤ msgCh_cap)%nat ∧ (uc_got c ++ uc_msgCh c) `sublist_of` from (uc_addr c) handled.

Record udp_inv (l : UDPListener) : Prop := {
  ui_handled : ∃ handled, received l = handled ++ option_list (in_flight l) ∧ Forall (uc_ok handled) (ucs l);
  ui_conns : ∀ a u, conns l !! a = Some u → ∃ c, ucs l !! u = Some c ∧ uc_addr c = a;
  ui_target : ∀ u dg, pc l = LSend u dg ∨ pc l = LNew u dg → ∃ c, ucs l !! u = Some c ∧ uc_addr c = dg_from dg }.

(** ** Lemmas *)

Lemma uc_ok_more handled more c : uc_ok handled c → uc_ok (handled ++ more) c.
Proof.
  intros [Hl Hs]. split; [done|]. unfold from in *. rewrite filter_app. by apply sublist_inserts_r.
Qed.

Lemma uc_ok_Read handled c lenb now idle : uc_ok handled c → uc_ok handled (snd (uc_Read c lenb now idle)).
Proof.
  unfold uc_ok, uc_Read. intros [Hl Hs]. destruct (uc_msgCh c) as [|m q] eqn:Hq; simpl in *.
  - destruct (uc_closed c); [simpl; done|]. case_decide; simpl; by rewrite Hq.
  - rewrite <- (assoc app). split; [lia|done].
Qed.

Lemma uc_addr_Read c lenb now idle : uc_addr (snd (uc_Read c lenb now idle)) = uc_addr c.
Proof. unfold uc_Read. destruct (uc_msgCh c), (uc_closed c); simpl; try done; by case_decide. Qed.

Lemma uc_ok_enqueue handled c dg :
  uc_ok handled c → (length (uc_msgCh c) < msgCh_cap)%nat → dg_from dg = uc_addr c →
  uc_ok (handled ++ [dg])
    {| uc_addr := uc_addr c; uc_msgCh := uc_msgCh c ++ [dg]; uc_closed := false;
       uc_lastActivity := uc_lastActivity c; uc_got := uc_got c |}.
Proof.
  unfold uc_ok, from. simpl. intros [Hl Hs] Hlt Hfrom. rewrite length_app, (assoc app), filter_app.
  split; [simpl; lia|]. rewrite filter_cons_True, filter_nil by done. by apply sublist_app.
Qed.

(** Replacing one [uc] by another of the same address keeps the address facts. *)
Lemma lookup_update_addr (l : list uc) (u : nat) (c c' : uc) (a : string) (v : nat) :
  l !! u = Some c → uc_addr c' = uc_addr c →
  (∃ x, l !! v = Some x ∧ uc_addr x = a) → ∃ x, <[u := c']> l !! v = Some x ∧ uc_addr x = a.
Proof.
  intros Hu Ha (x & Hv & Hx). destruct (decide (u = v)) as [->|?].
  - exists c'. rewrite list_lookup_insert_eq by (by eapply lookup_lt_Some). naive_solver congruence.
  - exists x. by rewrite list_lookup_insert_ne.
Qed.

Lemma lookup_grow_addr (l l' : list uc) (a : string) (v : nat) :
  (∃ x, l !! v = Some x ∧ uc_addr x = a) → ∃ x, (l ++ l') !! v = Some x ∧ uc_addr x = a.
Proof. intros (x & Hx & ?). exists x. by rewrite (lookup_app_l_Some _ _ _ _ Hx). Qed.

Lemma udp_inv_init : udp_inv NewUDPListener.
Proof. split; simpl; [exists []; done|naive_solver|naive_solver]. Qed.

(** The listener events that leave the connections alone, or the datagram handled. *)
Lemma udp_inv_top l l' : udp_inv l → listen_top l = Some l' → udp_inv l'.
Proof.
  unfold listen_top. intros [(h & Hh & Hu) Hc Ht]. destruct (pc l) eqn:Hpc; intros ?; simplify_eq/=.
  unfold in_flight in Hh. rewrite Hpc in Hh.
  split; simpl; [|done|destruct (l_closed l); naive_solver].
  exists h. unfold in_flight. simpl. by destruct (l_closed l).
Qed.

Lemma udp_inv_recv dg l l' : udp_inv l → listen_recv dg l = Some l' → udp_inv l'.
Proof.
  unfold listen_recv. intros [(h & Hh & Hu) Hc Ht]. destruct (pc l) eqn:Hpc; intros ?; simplify_eq/=.
  unfold in_flight in Hh. rewrite Hpc, app_nil_r in Hh.
  split; simpl; [|done|naive_solver]. exists h. unfold in_flight. simpl. by rewrite Hh.
Qed.

Lemma udp_inv_recv_err err l l' : udp_inv l → listen_recv_err err l = Some l' → udp_inv l'.
Proof.
  unfold listen_recv_err. intros [(h & Hh & Hu) Hc Ht]. destruct (pc l) eqn:Hpc; intros ?; simplify_eq/=.
  unfold in_flight in Hh. rewrite Hpc in Hh.
  split; simpl; [|done|naive_solver]. by exists h.
Qed.

Lemma udp_inv_lookup now l l' : udp_inv l → listen_lookup now l = Some l' → udp_inv l'.
Proof.
  unfold listen_lookup. intros [(h & Hh & Hu) Hc Ht]. destruct (pc l) as [| |dg| | | |] eqn:Hpc; try done.
  unfold in_flight in Hh. rewrite Hpc in Hh.
  destruct (conns l !! dg_from dg) as [u|] eqn:Hl; intros ?; simplify_eq/=.
  - split; simpl; [by exists h|done|]. intros u' dg' [?|?]; simplify_eq. by apply Hc.
  - split; simpl.
    + exists h. split; [done|]. apply Forall_app. split; [done|]. constructor; [|done].
      split; [unfold msgCh_cap; simpl; lia|apply sublist_nil_l].
    + intros a u. rewrite lookup_insert. case_decide; intros; simplify_eq.
      * exists (mkUc (dg_from dg) [] false now []). by rewrite list_lookup_middle.
      * by apply lookup_grow_addr, Hc.
    + intros u dg' [?|?]; simplify_eq. exists (mkUc (dg_from dg') [] false now []).
      by rewrite list_lookup_middle.
Qed.

Lemma udp_inv_Accept l l' : udp_inv l → listener_Accept l = Some l' → udp_inv l'.
Proof.
  unfold listener_Accept. intros [(h & Hh & Hu) Hc Ht].
  destruct (pc l) as [| | |u dg| | |] eqn:Hpc; try done. destruct (acceptor l); intros ?; simplify_eq/=.
  unfold in_flight in Hh. rewrite Hpc in Hh.
  split; simpl; [by exists h|done|]. intros ? ? [?|?]; simplify_eq. eauto.
Qed.

Lemma udp_inv_send l l' : udp_inv l → listen_send l = Some l' → udp_inv l'.
Proof.
  unfold listen_send. intros [(h & Hh & Hu) Hc Ht].
  destruct (pc l) as [| | | |u dg| |] eqn:Hpc; try done.
  unfold in_flight in Hh. rewrite Hpc in Hh. simpl in Hh.
  destruct (ucs l !! u) as [c|] eqn:Hlu; [|done].
  destruct (Ht u dg (or_introl eq_refl)) as (c' & Hc' & Haddr). simplify_eq.
  assert (Forall (uc_ok (h ++ [dg])) (ucs l)) as Hu' by (eapply Forall_impl; eauto using uc_ok_more).
  destruct (uc_closed c) eqn:Hcl; [|case_decide as Hroom]; intros ?; simplify_eq/=.
  - split; simpl; [|done|naive_solver]. exists (h ++ [dg]). by rewrite app_nil_r.
  - split; simpl; [| |naive_solver].
    + exists (h ++ [dg]). unfold in_flight. simpl. rewrite app_nil_r. split; [done|].
      apply Forall_insert; [done|]. apply uc_ok_enqueue; [|done|done].
      by eapply (Forall_lookup_1 (uc_ok h)).
    + intros a v Hv. eapply lookup_update_addr; eauto.
  - split; simpl; [|done|naive_solver]. exists (h ++ [dg]). unfold in_flight. simpl. by rewrite app_nil_r.
Qed.

Lemma udp_inv_set_uc u c c' l :
  udp_inv l → ucs l !! u = Some c → uc_addr c' = uc_addr c →
  (∀ h, uc_ok h c → uc_ok h c') → udp_inv (set_uc l u c').
Proof.
  intros [(h & Hh & Hu) Hc Ht] Hlu Ha Hok. split; simpl.
  - exists h. split; [done|]. apply Forall_insert; [done|]. apply Hok. by eapply (Forall_lookup_1 (uc_ok h)).
  - intros a v Hv. eapply lookup_update_addr; eauto.
  - intros v dg Hv. eapply lookup_update_addr; eauto.
Qed.

Lemma udp_inv_Close u l l' : udp_inv l → uc_Close u l = Some l' → udp_inv l'.
Proof.
  unfold uc_Close. intros Hinv. destruct (lock_held l); [done|].
  destruct (ucs l !! u) as [c|] eqn:Hlu; intros ?; simplify_eq/=.
  set (c' := {| uc_addr := uc_addr c; uc_msgCh := uc_msgCh c; uc_closed := true;
                uc_lastActivity := uc_lastActivity c; uc_got := uc_got c |}).
  destruct (udp_inv_set_uc u c c' l Hinv Hlu eq_refl (λ h Hok, Hok)) as [(h & Hh & Hu) Hc Ht].
  split; simpl in *; [by exists h| |done].
  intros a v [? Hv]%lookup_delete_Some. by apply Hc.
Qed.

Lemma udp_inv_step l l' : udp_inv l → udp_step l l' → udp_inv l'.
Proof.
  intros Hinv [e He]. destruct e; simpl in He;
    eauto using udp_inv_top, udp_inv_recv, udp_inv_recv_err, udp_inv_lookup, udp_inv_Accept, udp_inv_send, udp_inv_Close.
  - destruct (ucs l !! u) as [c|] eqn:Hu; simplify_eq/=.
    eapply udp_inv_set_uc; eauto using uc_addr_Read, uc_ok_Read.
  - simplify_eq. unfold UDPListener_Close. destruct (l_closed l); [done|].
    destruct Hinv as [(h & Hh & Hu) Hc Ht]. split; simpl; [by exists h|done|done].
Qed.

Lemma udp_runs_reachable es l l' :
  udp_runs es l = Some l' → reachable (λ s, s = NewUDPListener) udp_step l →
  reachable (λ s, s = NewUDPListener) udp_step l'.
Proof.
  revert l. induction es as [|e es IH]; intros l; simpl; [by intros [= ->]|].
  destruct (udp_run e l) as [l1|] eqn:He; simpl; [|done]. intros Hr Hl.
  eapply IH; [done|]. eapply reach_step; [done|]. by exists e.
Qed.

(** The state after a schedule, and its reachability. *)
Definition after (es : list udp_event) : UDPListener :=
  default NewUDPListener (udp_runs es NewUDPListener).

Lemma after_reachable es : reachable (λ s, s = NewUDPListener) udp_step (after es).
Proof.
  unfold after. destruct (udp_runs es NewUDPListener) eqn:E; simpl; [|by apply reach_init].
  eapply udp_runs_reachable; [done|by apply reach_init].
Qed.

(** ** Theorems *)

(** [C13] Isolation and order: in every reachable state, what a [uc] has delivered and
    still queues is, in order and without repetition, among the datagrams its own client
    sent; the queue never holds more than 10; and the address map leads to the right [uc]. *)
Theorem udp_isolation (l : UDPListener) (Hr : reachable (λ s, s = NewUDPListener) udp_step l) :
  (∀ u c, ucs l !! u = Some c →
     (length (uc_msgCh c) ≤ 10)%nat ∧
     (uc_got c ++ uc_msgCh c) `sublist_of` filter (λ d, dg_from d = uc_addr c) (received l)) ∧
  (∀ a u, conns l !! a = Some u → ∃ c, ucs l !! u = Some c ∧ uc_addr c = a).
Proof.
  assert (udp_inv l) as [(h & Hh & Hu) Hc _].
  { revert l Hr. apply reachable_invariant; [intros ? ->; apply udp_inv_init|apply udp_inv_step]. }
  split; [|done]. intros u c Hlu.
  destruct (uc_ok_more h (option_list (in_flight l)) c) as [? ?]; [by eapply (Forall_lookup_1 (uc_ok h))|].
  by rewrite Hh.
Qed.

Definition hello : datagram := mkDatagram "10.0.0.1:5000" [104; 105].

(** The schedule of one datagram of a new client, up to its delivery. *)
Definition deliver_first : list udp_event := [EvTop; EvRecv hello; EvLookup 0; EvAccept; EvSend].

Lemma udp_isolation_witness :
  (length (uc_msgCh (mkUc "10.0.0.1:5000" [hello] false 0 [])) ≤ 10)%nat.
Proof.
  refine (proj1 (proj1 (udp_isolation (after deliver_first) (after_reachable _)) 0%nat
    (mkUc "10.0.0.1:5000" [hello] false 0 []) _)).
  vm_compute. reflexivity.
Defined.

(** Closing a client's connection while the listener is between its lookup and its
    send crashes the process: the listener then sends on a closed channel. *)
Theorem udp_send_on_closed_reachable :
  ∃ l, reachable (λ s, s = NewUDPListener) udp_step l ∧ pc l = LPanicked SendOnClosedChannel.
Proof.
  exists (after (deliver_first ++ [EvTop; EvRecv hello; EvLookup 5; EvUcClose 0; EvSend])).
  split; [apply after_reachable|]. vm_compute. reflexivity.
Qed.

(** Deadlock after a read error: once [Accept] has returned an error, [listenUDP] is
    gone; the next datagram of a new client then blocks the listener for ever with
    [connsMu] held, and no [uc] can ever be closed again. *)
Theorem udp_deadlock (l : UDPListener) (u : nat) (dg : datagram) (err : option error)
    (Hpc : pc l = LNew u dg) (Hacc : acceptor l = AReturned err) :
  ∀ l', rtc udp_step l l' →
    pc l' = LNew u dg ∧ (∀ v, udp_run (EvUcClose v) l' = None) ∧ udp_run EvAccept l' = None.
Proof.
  assert (∀ l', pc l' = LNew u dg → acceptor l' = AReturned err →
    pc l' = LNew u dg ∧ (∀ v, udp_run (EvUcClose v) l' = None) ∧ udp_run EvAccept l' = None) as Hblocked.
  { intros l' Hp Ha. simpl. unfold uc_Close, lock_held, listener_Accept. by rewrite Hp, Ha. }
  intros l' Hrtc. induction Hrtc as [|l l1 l2 [e He] _ IH]; [by apply Hblocked|].
  destruct (Hblocked l Hpc Hacc) as (_ & Hcl & Hac). apply IH.
  - destruct e; simpl in *; unfold listen_top, listen_recv, listen_recv_err, listen_lookup, listen_send in He;
      rewrite ?Hpc, ?Hcl, ?Hac in He; simplify_eq/=; auto.
    + destruct (ucs l !! u0); by simplify_eq/=.
    + unfold UDPListener_Close. by destruct (l_closed l).
  - destruct e; simpl in *; unfold listen_top, listen_recv, listen_recv_err, listen_lookup, listen_send in He;
      rewrite ?Hpc, ?Hcl, ?Hac in He; simplify_eq/=; auto.
    + destruct (ucs l !! u0); by simplify_eq/=.
    + unfold UDPListener_Close. rewrite Hacc. destruct (l_closed l); simpl; congruence.
Qed.

Definition deadlocked : UDPListener :=
  after [EvTop; EvRecvErr (Errorf "icmp"); EvTop; EvRecv hello; EvLookup 0].

Lemma udp_deadlock_witness :
  pc deadlocked = LNew 0 hello ∧ udp_run (EvUcClose 0) deadlocked = None.
Proof.
  split; [vm_compute; reflexivity|].
  apply (udp_deadlock deadlocked 0 hello (Some (Errorf "icmp"))
    ltac:(vm_compute; reflexivity) ltac:(vm_compute; reflexivity) deadlocked).
  apply rtc_refl.
Defined.
