(* ===== verification/UdpCopy.v ===== *)
(** * A UDP client in the copy loop (internal/conn/udp_listener.go, relay_conn.go)

    [uc.Read] never blocks: without a datagram it returns no data and no error, or the end of
    file once the client has been silent for the idle timeout.  Here it feeds the loop of
    [io.CopyBuffer]. *)

From S2P Require Import Prelude GoStd Conf Net RelayConn UdpListener.

(** Successive reads of [uc] at the times [ts], as the loop of [innerConn.Read] sees them
    ([SetReadDeadline] of a [uc] does nothing). *)
Fixpoint uc_reads (c : uc) (lenb : nat) (idle : Z) (ts : list Z) : list read_event * uc :=
  match ts with
  | [] => ([], c)
  | t :: ts =>
      let '((data, err), c) := uc_Read c lenb t idle in
      let (events, c) := uc_reads c lenb idle ts in
      (mkRead None data err t None :: events, c)
  end.

Lemma uc_reads_app c lenb idle ts1 ts2 :
  uc_reads c lenb idle (ts1 ++ ts2) =
  let (e1, c) := uc_reads c lenb idle ts1 in
  let (e2, c) := uc_reads c lenb idle ts2 in (e1 ++ e2, c).
Proof.
  revert c. induction ts1 as [|t ts1 IH]; intros c; cbn [app uc_reads]; [by destruct (uc_reads c lenb idle ts2)|].
  destruct (uc_Read c lenb t idle) as [[data err] c1]. rewrite IH.
  destruct (uc_reads c1 lenb idle ts1) as [e1 c2]. by destruct (uc_reads c2 lenb idle ts2).
Qed.

Lemma last_default {A} (x d d' : A) l : List.last (x :: l) d = List.last (x :: l) d'.
Proof. revert x. induction l as [|y l IH]; intros x; [done|]. exact (IH y). Qed.

(** Queued datagrams come out one per read, cut to the buffer. *)
Lemma uc_reads_queued c lenb idle ts q :
  uc_msgCh c = q → length ts = length q →
  ∃ c', uc_reads c lenb idle ts =
    ((λ x, mkRead None (fst x) None (snd x) None) <$> zip (take lenb ∘ dg_data <$> q) ts, c') ∧
    uc_msgCh c' = [] ∧ uc_closed c' = uc_closed c ∧ uc_lastActivity c' = List.last ts (uc_lastActivity c).
Proof.
  revert c q. induction ts as [|t ts IH]; intros c [|d q] Hq Hl; try done; [by exists c|].
  cbn [uc_reads]. unfold uc_Read. rewrite Hq. injection Hl as Hl.
  destruct (IH {| uc_addr := uc_addr c; uc_msgCh := q; uc_closed := uc_closed c; uc_lastActivity := t;
                  uc_got := uc_got c ++ [d] |} q eq_refl Hl) as (c' & -> & H1 & H2 & H3).
  exists c'. cbn in *. split_and!; [done..|]. rewrite H3. destruct ts; [done|]. apply last_default.
Qed.

(** Rounds without data. *)
Definition idle_rounds (ts : list Z) : list (bytes * Z) := (λ t, ([], t)) <$> ts.

(** Reads of an empty queue return at once, with nothing. *)
Lemma uc_reads_empty c lenb idle ts :
  uc_msgCh c = [] → uc_closed c = false → Forall (λ t, time_Sub t (uc_lastActivity c) ≤ idle) ts →
  uc_reads c lenb idle ts = ((λ x, mkRead None (fst x) None (snd x) None) <$> idle_rounds ts, c).
Proof.
  intros Hq Hc Hts. induction Hts as [|t ts Ht _ IH]; [done|].
  cbn [uc_reads]. unfold uc_Read. rewrite Hq, Hc, decide_False by lia. by rewrite IH.
Qed.

Lemma empty_chunks (ts : list Z) :
  concat (fst <$> idle_rounds ts) = [] ∧ clean_writes (idle_rounds ts) = [] ∧ total_bytes (idle_rounds ts) = 0.
Proof.
  unfold total_bytes, idle_rounds. induction ts as [|t ts (H1 & H2 & H3)]; [done|]. csimpl. rewrite H1, H2.
  split_and!; [done..|]. rewrite H3. done.
Qed.

Lemma clean_writes_app c1 c2 : clean_writes (c1 ++ c2) = clean_writes c1 ++ clean_writes c2.
Proof. induction c1 as [|[d t] c1 IH]; [done|]. cbn. case_decide; [done|]. by rewrite IH. Qed.

(** ** Theorem *)


(** ** Witness

    One datagram of four bytes, a buffer of three; three reads in the same nanosecond and one
    a second later find nothing, the last one comes after the idle timeout. *)
Definition sample_uc : uc := mkUc "10.0.0.1:5" [mkDatagram "10.0.0.1:5" [1; 2; 3; 4]] false 0 [].

