(* ===== verification/Cmgr.v ===== *)
(** * internal/cmgr: the connection manager ([cmgr.go], [config.go], [syncer.go])

    A [conn.RelayConn] is an interface holding a pointer: it is modelled by the pointer and
    the relay label the object was created with, and its [Stats] live behind the pointer, in
    a heap that is an argument of the operation that reads them.  Go's unspecified map
    iteration order is an argument of the operation that iterates.  Sampling and the SQL
    store are the environment; [cm_ms] says whether the store was opened.  The lock appears
    in the last section, where its two users interleave. *)

From S2P Require Import Prelude GoStd RelayConn.

(** ** config.go *)

Record CmgrConfig := mkCmgrConfig { SyncURL : string; SyncInterval : Z; EnableMetrics : bool }.

Definition CmgrConfig_NeedSync (c : CmgrConfig) : bool :=
  bool_decide (SyncURL c ≠ "") && bool_decide (0 < SyncInterval c).

Definition CmgrConfig_NeedMetrics (c : CmgrConfig) : bool :=
  EnableMetrics c && bool_decide (0 < SyncInterval c).

Definition CmgrConfig_Adjust (c : CmgrConfig) : CmgrConfig :=
  if decide (SyncInterval c ≤ 0)
  then {| SyncURL := SyncURL c; SyncInterval := 60; EnableMetrics := EnableMetrics c |} else c.

(** ** cmgr.go *)

Definition ConnectionTypeActive : string := "active".
Definition ConnectionTypeClosed : string := "closed".

Definition ErrMetricsDisabled : error := Sentinel "metrics store disabled".

Record rconn := mkRconn { rc_ptr : nat; GetRelayLabel : string }.

#[global] Instance rconn_eq_dec : EqDecision rconn.
Proof. solve_decision. Defined.

Notation conn_map := (gmap string (list rconn)).

Record cmgrImpl := mkCmgr {
  cm_cfg : CmgrConfig;
  activeConnectionsMap : conn_map;
  closedConnectionsMap : conn_map;
  cm_ms : bool }.

(** [open_err] is what [ms.NewMetricsStore] returns. *)
Definition NewCmgr (cfg : CmgrConfig) (open_err : option error) : outcome cmgrImpl :=
  if CmgrConfig_NeedMetrics cfg then
    _ ← check_err open_err;
    Ret {| cm_cfg := cfg; activeConnectionsMap := ∅; closedConnectionsMap := ∅; cm_ms := true |}
  else Ret {| cm_cfg := cfg; activeConnectionsMap := ∅; closedConnectionsMap := ∅; cm_ms := false |}.

(** [cnt += len(v)] over a map, in any order. *)
Definition count_connections (m : conn_map) : Z :=
  sum_Z ((λ kv, Z.of_nat (length (snd kv))) <$> map_to_list m).

Definition cmgrImpl_countActiveConnection (cm : cmgrImpl) : Z := count_connections (activeConnectionsMap cm).
Definition cmgrImpl_countClosedConnection (cm : cmgrImpl) : Z := count_connections (closedConnectionsMap cm).

Definition cmgrImpl_CountConnection (cm : cmgrImpl) (connType : string) : Z :=
  if decide (connType = ConnectionTypeActive)
  then cmgrImpl_countActiveConnection cm else cmgrImpl_countClosedConnection cm.

Definition cmgrImpl_GetActiveConnectCntByRelayLabel (cm : cmgrImpl) (label : string) : Z :=
  Z.of_nat (length (default [] (activeConnectionsMap cm !! label))).

(** The keys of a map after [sort.Strings]. *)
Definition relayLabelList (m : conn_map) : list string :=
  merge_sort String.le ((map_to_list m).*1).

(** [conns = append(conns, m[label]...)] for each label in order. *)
Fixpoint concat_labels (m : conn_map) (labels : list string) : list rconn :=
  match labels with
  | [] => []
  | label :: rest => default [] (m !! label) ++ concat_labels m rest
  end.

(** [l[start:end]] for Go [int] bounds. *)
Definition slice_range {A} (l : list A) (start end_ : Z) : outcome (list A) :=
  if decide (0 ≤ start ∧ start ≤ end_ ∧ end_ ≤ Z.of_nat (length l))
  then Ret (take (Z.to_nat (end_ - start)) (drop (Z.to_nat start) l))
  else Panic SliceOutOfRange.

Definition cmgrImpl_ListConnections (cm : cmgrImpl) (connType : string) (page pageSize : Z) :
    outcome (list rconn) :=
  let '(total, m) :=
    if decide (connType = ConnectionTypeActive)
    then (cmgrImpl_countActiveConnection cm, activeConnectionsMap cm)
    else (cmgrImpl_countClosedConnection cm, closedConnectionsMap cm) in
  let start := wrap64 (wrap64 (page - 1) * pageSize) in
  if decide (total < start) then Ret []
  else
    let end_ := wrap64 (start + pageSize) in
    let end_ := if decide (total < end_) then total else end_ in
    let conns := concat_labels m (relayLabelList m) in
    let end_ := if decide (Z.of_nat (length conns) < end_) then Z.of_nat (length conns) else end_ in
    slice_range conns start end_.

Definition cmgrImpl_AddConnection (cm : cmgrImpl) (c : rconn) : cmgrImpl :=
  let label := GetRelayLabel c in
  let conns := default [] (activeConnectionsMap cm !! label) in
  {| cm_cfg := cm_cfg cm;
     activeConnectionsMap := <[label := conns ++ [c]]> (activeConnectionsMap cm);
     closedConnectionsMap := closedConnectionsMap cm; cm_ms := cm_ms cm |}.

(** The loop that deletes the first entry with the same pointer. *)
Fixpoint remove_first (c : rconn) (connections : list rconn) : list rconn :=
  match connections with
  | [] => []
  | activeConn :: rest =>
      if decide (rc_ptr activeConn = rc_ptr c) then rest else activeConn :: remove_first c rest
  end.

Definition cmgrImpl_RemoveConnection (cm : cmgrImpl) (c : rconn) : cmgrImpl :=
  let label := GetRelayLabel c in
  match activeConnectionsMap cm !! label with
  | None => cm
  | Some connections =>
      {| cm_cfg := cm_cfg cm;
         activeConnectionsMap := <[label := remove_first c connections]> (activeConnectionsMap cm);
         closedConnectionsMap :=
           <[label := default [] (closedConnectionsMap cm !! label) ++ [c]]> (closedConnectionsMap cm);
         cm_ms := cm_ms cm |}
  end.

(** The five storage wrappers share their guard; the store's own result is the argument. *)
Definition with_store {A} (cm : cmgrImpl) (result : outcome A) : outcome A :=
  if cm_ms cm then result else Err ErrMetricsDisabled.

Definition cmgrImpl_DBHealth {A} (cm : cmgrImpl) (result : outcome A) : outcome A := with_store cm result.
Definition cmgrImpl_DBCleanup {A} (cm : cmgrImpl) (result : outcome A) : outcome A := with_store cm result.
Definition cmgrImpl_DBVacuum {A} (cm : cmgrImpl) (result : outcome A) : outcome A := with_store cm result.
Definition cmgrImpl_DBTruncate {A} (cm : cmgrImpl) (result : outcome A) : outcome A := with_store cm result.
Definition cmgrImpl_DBResetStats (cm : cmgrImpl) : outcome unit := with_store cm (Ret tt).

(** [QueryNodeMetrics] has no guard: [QueryNodeMetric] dereferences its nil receiver. *)
Definition cmgrImpl_QueryNodeMetrics {A} (cm : cmgrImpl) (result : outcome A) : outcome A :=
  if cm_ms cm then result else Panic NilDereference.

(** ** syncer.go *)

Record StatsPerRule := mkStatsPerRule {
  RelayLabel : string; spr_Up : Z; spr_Down : Z; ConnectionCnt : Z; spr_HandShakeLatency : Z }.

(** One round of the inner loop; [totalLatency] travels beside the record. *)
Definition add_conn (heap : nat → Stats) (acc : StatsPerRule * Z) (c : rconn) : StatsPerRule * Z :=
  let '(s, totalLatency) := acc in
  let st := heap (rc_ptr c) in
  ({| RelayLabel := RelayLabel s; spr_Up := wrap64 (spr_Up s + Up st);
      spr_Down := wrap64 (spr_Down s + Down st); ConnectionCnt := wrap64 (ConnectionCnt s + 1);
      spr_HandShakeLatency := spr_HandShakeLatency s |},
   wrap64 (totalLatency + Duration_Milliseconds (HandShakeLatency st))).

(** The body of the loop over [closedConnectionsMap]. *)
Definition stats_of_label (heap : nat → Stats) (kv : string * list rconn) : StatsPerRule :=
  let '(s, totalLatency) := foldl (add_conn heap) (mkStatsPerRule (fst kv) 0 0 0 0, 0) (snd kv) in
  if decide (0 < ConnectionCnt s)
  then {| RelayLabel := RelayLabel s; spr_Up := spr_Up s; spr_Down := spr_Down s;
          ConnectionCnt := ConnectionCnt s;
          spr_HandShakeLatency := go_div totalLatency (ConnectionCnt s) |}
  else s.

(** [order]: the closed map in the order the iteration visits it; [post]: the result of
    [PostJSONWithRetry].  The second component is the request's [Stats] when one is sent. *)
Definition cmgrImpl_pushStats (cm : cmgrImpl) (heap : nat → Stats) (order : list (string * list rconn))
    (post : option error) : cmgrImpl * option (list StatsPerRule) * option error :=
  let stats := stats_of_label heap <$> order in
  let cm := {| cm_cfg := cm_cfg cm; activeConnectionsMap := activeConnectionsMap cm;
               closedConnectionsMap := ∅; cm_ms := cm_ms cm |} in
  if CmgrConfig_NeedSync (cm_cfg cm) then (cm, Some stats, post) else (cm, None, None).

(** ** Start: the ticker loop *)

Definition metricsSampleInterval : Z := 5 * Second.

(** [int(time.Duration(SyncInterval)*time.Second/metricsSampleInterval) - 1], at least 1. *)
Definition syncEvery (cfg : CmgrConfig) : Z :=
  let n := wrap64 (go_div (wrap64 (SyncInterval cfg * Second)) metricsSampleInterval - 1) in
  if decide (n < 1) then 1 else n.

(** One [ticker.C] of the loop: the new tick count and whether [pushStats] runs. *)
Definition Start_tick (cfg : CmgrConfig) (tick : Z) : Z * bool :=
  let tick := wrap64 (tick + 1) in
  (tick, bool_decide (go_rem tick (syncEvery cfg) = 0)).

(** The push decisions of [n] consecutive ticks. *)
Fixpoint Start_ticks (n : nat) (cfg : CmgrConfig) (tick : Z) : list bool :=
  match n with
  | O => []
  | S n => let '(tick, push) := Start_tick cfg tick in push :: Start_ticks n cfg tick
  end.

(** ** The life of connections, as steps

    A server adds a connection it has just created, removes it when its transport ends, and
    the ticker pushes.  [drained] collects, in order, what the pushes took out of the closed
    map and [reported] the statistics they computed for it. *)
Record cm_state := mkCmState {
  cs_cm : cmgrImpl; created : list rconn; drained : list rconn; reported : list StatsPerRule }.

(** All connections of a map, whatever their order. *)
Definition conns_of (m : conn_map) : list rconn := map_to_list m ≫= snd.

Inductive cm_step : cm_state → cm_state → Prop :=
  | cm_add cm cr dr rep c :
      rc_ptr c ∉ rc_ptr <$> cr →
      cm_step (mkCmState cm cr dr rep) (mkCmState (cmgrImpl_AddConnection cm c) (c :: cr) dr rep)
  | cm_remove cm cr dr rep c :
      c ∈ conns_of (activeConnectionsMap cm) →
      cm_step (mkCmState cm cr dr rep) (mkCmState (cmgrImpl_RemoveConnection cm c) cr dr rep)
  | cm_push cm cr dr rep heap order post :
      order ≡ₚ map_to_list (closedConnectionsMap cm) →
      cm_step (mkCmState cm cr dr rep)
        (mkCmState (fst (fst (cmgrImpl_pushStats cm heap order post))) cr
           (dr ++ (order ≫= snd)) (rep ++ (stats_of_label heap <$> order))).

Definition cm_init (s : cm_state) : Prop :=
  ∃ cfg ms, s = mkCmState (mkCmgr cfg ∅ ∅ ms) [] [] [].

(** Every connection ever created is in exactly one of the three places, under its label. *)
Record cm_inv (s : cm_state) : Prop := {
  cmi_nodup : NoDup (rc_ptr <$> created s);
  cmi_all : conns_of (activeConnectionsMap (cs_cm s)) ++ conns_of (closedConnectionsMap (cs_cm s)) ++ drained s
            ≡ₚ created s;
  cmi_active : map_Forall (λ l cs, Forall (λ c, GetRelayLabel c = l) cs) (activeConnectionsMap (cs_cm s));
  cmi_closed : map_Forall (λ l cs, Forall (λ c, GetRelayLabel c = l) cs) (closedConnectionsMap (cs_cm s)) }.

(** ** Lemmas on connection maps *)

Lemma conns_of_empty : conns_of ∅ = [].
Proof. unfold conns_of. by rewrite map_to_list_empty. Qed.

Lemma conns_of_insert m l cs : conns_of (<[l := cs]> m) ≡ₚ cs ++ conns_of (delete l m).
Proof.
  unfold conns_of. rewrite <- insert_delete_eq, map_to_list_insert by apply lookup_delete_eq. done.
Qed.

Lemma conns_of_lookup m l : conns_of m ≡ₚ default [] (m !! l) ++ conns_of (delete l m).
Proof.
  destruct (m !! l) as [cs|] eqn:E; simpl.
  - rewrite <- (insert_id m l cs E) at 1. apply conns_of_insert.
  - by rewrite delete_id.
Qed.

Lemma conns_of_elem m c : c ∈ conns_of m ↔ ∃ l cs, m !! l = Some cs ∧ c ∈ cs.
Proof.
  unfold conns_of. rewrite list_elem_of_bind. split.
  - intros ([l cs] & Hin & H%elem_of_map_to_list). eauto.
  - intros (l & cs & H & Hin). exists (l, cs). split; [done|]. by apply elem_of_map_to_list.
Qed.

Lemma count_connections_length m : count_connections m = Z.of_nat (length (conns_of m)).
Proof.
  unfold count_connections, conns_of. induction (map_to_list m) as [|[l cs] kvs IH]; csimpl; [done|].
  rewrite IH, length_app. lia.
Qed.

Lemma concat_labels_Permutation m ls1 ls2 :
  ls1 ≡ₚ ls2 → concat_labels m ls1 ≡ₚ concat_labels m ls2.
Proof.
  induction 1 as [|l ls1 ls2 _ IH|l1 l2 ls|ls1 ls2 ls3 _ IH1 _ IH2]; simpl.
  - done.
  - by rewrite IH.
  - rewrite !(assoc (++)). f_equiv. apply Permutation_app_comm.
  - by etrans.
Qed.

Lemma concat_labels_keys m kvs :
  (∀ kv, kv ∈ kvs → m !! fst kv = Some (snd kv)) → concat_labels m (kvs.*1) = kvs ≫= snd.
Proof.
  induction kvs as [|[l cs] kvs IH]; intros H; csimpl; [done|].
  rewrite IH by (intros; apply H; set_solver).
  pose proof (H (l, cs) ltac:(set_solver)) as Hl. simpl in Hl. by rewrite Hl.
Qed.

(** The list a page is cut from: every connection once, grouped by sorted label. *)
Lemma sorted_conns_Permutation m : concat_labels m (relayLabelList m) ≡ₚ conns_of m.
Proof.
  unfold relayLabelList, conns_of. etrans; [apply concat_labels_Permutation, merge_sort_Permutation|].
  rewrite concat_labels_keys; [done|]. intros [l cs] H. by apply elem_of_map_to_list.
Qed.

Lemma sorted_conns_length m :
  Z.of_nat (length (concat_labels m (relayLabelList m))) = count_connections m.
Proof. by rewrite sorted_conns_Permutation, count_connections_length. Qed.

Lemma remove_first_Permutation c cs :
  NoDup (rc_ptr <$> cs) → c ∈ cs → cs ≡ₚ c :: remove_first c cs.
Proof.
  induction cs as [|a cs IH]; csimpl; [set_solver|].
  intros [Hn Hnd]%NoDup_cons [->|Hin]%elem_of_cons; [by rewrite decide_True|].
  rewrite decide_False.
  - rewrite (IH Hnd Hin) at 1. apply Permutation_swap.
  - intros He. apply Hn. rewrite He. by apply list_elem_of_fmap_2.
Qed.

Lemma conns_of_append m l c :
  conns_of (<[l := default [] (m !! l) ++ [c]]> m) ≡ₚ c :: conns_of m.
Proof. rewrite conns_of_insert, (conns_of_lookup m l). solve_Permutation. Qed.

Lemma labels_append (m : conn_map) (c : rconn) :
  map_Forall (λ l cs, Forall (λ c, GetRelayLabel c = l) cs) m →
  map_Forall (λ l cs, Forall (λ c, GetRelayLabel c = l) cs)
    (<[GetRelayLabel c := default [] (m !! GetRelayLabel c) ++ [c]]> m).
Proof.
  intros H. apply map_Forall_insert_2; [|done]. apply Forall_app. split; [|by constructor].
  destruct (m !! GetRelayLabel c) as [cs|] eqn:E; [|constructor]. by apply (H _ _ E).
Qed.

Lemma remove_first_Forall P c cs : Forall P cs → Forall P (remove_first c cs).
Proof. induction 1; simpl; [constructor|]. case_decide; by try constructor. Qed.

Lemma cm_inv_init s : cm_init s → cm_inv s.
Proof.
  intros (cfg & ms & ->). split; csimpl; [constructor|by rewrite conns_of_empty|apply map_Forall_empty..].
Qed.

Lemma cm_inv_remove cm cr dr rep c :
  cm_inv (mkCmState cm cr dr rep) → c ∈ conns_of (activeConnectionsMap cm) →
  cm_inv (mkCmState (cmgrImpl_RemoveConnection cm c) cr dr rep).
Proof.
  intros [Hnd Hall Ha Hc] (l & cs & Hl & Hin)%conns_of_elem. simpl in *.
  assert (GetRelayLabel c = l) as <- by (pose proof (Ha _ _ Hl) as HF; by eapply Forall_forall in HF).
  unfold cmgrImpl_RemoveConnection. rewrite Hl. split; csimpl; [done| | |by apply labels_append].
  - rewrite conns_of_insert, conns_of_append. rewrite <- Hall.
    rewrite (conns_of_lookup (activeConnectionsMap cm) (GetRelayLabel c)), Hl. simpl. assert (NoDup (rc_ptr <$> cs)) as Hndc.
    { rewrite <- Hall, fmap_app, (conns_of_lookup (activeConnectionsMap cm) (GetRelayLabel c)), Hl, fmap_app in Hnd. simpl in Hnd.
      by apply NoDup_app in Hnd as [[? _]%NoDup_app _]. }
    rewrite (remove_first_Permutation c cs Hndc Hin) at 2. solve_Permutation.
  - apply map_Forall_insert_2; [|done]. by apply remove_first_Forall, (Ha _ _ Hl).
Qed.

Lemma cm_inv_step s s' : cm_inv s → cm_step s s' → cm_inv s'.
Proof.
  intros Hinv Hs. destruct Hs as [cm cr dr rep c Hfresh|cm cr dr rep c Hin|cm cr dr rep heap order post Hord].
  - destruct Hinv as [Hnd Hall Ha Hc]. split; csimpl in *; [by constructor| |by apply labels_append|done].
    rewrite conns_of_append, <- Hall. solve_Permutation.
  - by apply cm_inv_remove.
  - destruct Hinv as [Hnd Hall Ha Hc]. unfold cmgrImpl_pushStats. simpl in *.
    assert ((order ≫= snd) ≡ₚ conns_of (closedConnectionsMap cm)) as Ho by (unfold conns_of; by rewrite Hord).
    split; case_match; csimpl; try done; try apply map_Forall_empty;
      rewrite conns_of_empty, Ho, <- Hall; solve_Permutation.
Qed.

Lemma cm_reachable_inv s : reachable cm_init cm_step s → cm_inv s.
Proof. apply reachable_invariant; [apply cm_inv_init|apply cm_inv_step]. Qed.

Lemma filter_all_true {A} (P : A → Prop) `{∀ x, Decision (P x)} (l : list A) : Forall P l → filter P l = l.
Proof. induction 1; [done|]. rewrite filter_cons_True by done. by f_equal. Qed.

Lemma filter_all_false {A} (P : A → Prop) `{∀ x, Decision (P x)} (l : list A) :
  Forall (λ x, ¬ P x) l → filter P l = [].
Proof. induction 1; [done|]. by rewrite filter_cons_False by done. Qed.

(** The connections of one label, in an active map whose labels are right. *)
Lemma label_count (m : conn_map) l :
  map_Forall (λ l cs, Forall (λ c, GetRelayLabel c = l) cs) m →
  filter (λ c, GetRelayLabel c = l) (conns_of m) ≡ₚ default [] (m !! l).
Proof.
  intros H. rewrite (conns_of_lookup m l), filter_app.
  rewrite (filter_all_false _ (conns_of (delete l m))).
  - rewrite app_nil_r. destruct (m !! l) as [cs|] eqn:E; simpl; [|done].
    by rewrite filter_all_true by apply (H _ _ E).
  - apply Forall_forall. intros c (l' & cs & Hl & Hin)%conns_of_elem Hlab.
    apply lookup_delete_Some in Hl as [Hne Hl]. pose proof (H _ _ Hl) as HF.
    eapply Forall_forall in HF; [|done]. congruence.
Qed.

(** ** Lemmas on statistics *)

Definition conn_up (heap : nat → Stats) (cs : list rconn) : Z := sum_Z ((λ c, Up (heap (rc_ptr c))) <$> cs).
Definition conn_down (heap : nat → Stats) (cs : list rconn) : Z := sum_Z ((λ c, Down (heap (rc_ptr c))) <$> cs).
Definition conn_latency (heap : nat → Stats) (cs : list rconn) : Z :=
  sum_Z ((λ c, Duration_Milliseconds (HandShakeLatency (heap (rc_ptr c)))) <$> cs).

Lemma add_conn_foldl heap cs l u d n h t :
  in_int64 u → in_int64 d → in_int64 n → in_int64 t →
  foldl (add_conn heap) (mkStatsPerRule l u d n h, t) cs =
    (mkStatsPerRule l (wrap64 (u + conn_up heap cs)) (wrap64 (d + conn_down heap cs))
       (wrap64 (n + Z.of_nat (length cs))) h, wrap64 (t + conn_latency heap cs)).
Proof.
  unfold conn_up, conn_down, conn_latency. revert u d n t.
  induction cs as [|c cs IH]; intros u d n t Hu Hd Hn Ht; csimpl.
  - by rewrite !Z.add_0_r, !wrap64_id.
  - rewrite IH by apply wrap64_range. rewrite !wrap64_wrap64_add.
    do 2 f_equal; try lia; f_equal; lia.
Qed.

Lemma in_int64_length {A} (l : list A) : Z.of_nat (length l) ≤ max_int64 → in_int64 (Z.of_nat (length l)).
Proof. unfold in_int64, min_int64, max_int64. lia. Qed.

Lemma stats_of_label_eq heap l cs :
  Z.of_nat (length cs) ≤ max_int64 →
  stats_of_label heap (l, cs) =
    mkStatsPerRule l (wrap64 (conn_up heap cs)) (wrap64 (conn_down heap cs)) (Z.of_nat (length cs))
      (if decide (cs = []) then 0 else go_div (wrap64 (conn_latency heap cs)) (Z.of_nat (length cs))).
Proof.
  intros Hlen. unfold stats_of_label. simpl. rewrite add_conn_foldl by apply in_int64_0.
  rewrite !Z.add_0_l. simpl. rewrite (wrap64_id (Z.of_nat (length cs))) by by apply in_int64_length.
  destruct cs as [|c cs]; [done|]. rewrite decide_True by (simpl; lia). by rewrite decide_False.
Qed.

Lemma stats_of_label_cnt heap (order : list (string * list rconn)) :
  Forall (λ kv, Z.of_nat (length (snd kv)) ≤ max_int64) order →
  sum_Z (ConnectionCnt <$> (stats_of_label heap <$> order)) = Z.of_nat (length (order ≫= snd)).
Proof.
  induction 1 as [|[l cs] order Hl _ IH]; csimpl; [done|].
  rewrite stats_of_label_eq by done. cbn [ConnectionCnt]. rewrite IH, length_app. simpl. lia.
Qed.

(** The reports of a reachable state count what was drained. *)
Lemma reported_cnt s :
  reachable cm_init cm_step s → Z.of_nat (length (created s)) ≤ max_int64 →
  sum_Z (ConnectionCnt <$> reported s) = Z.of_nat (length (drained s)).
Proof.
  intros Hr. induction Hr as [s (cfg & ms & ->)|s s' Hr IH Hstep]; [done|].
  intros Hlen. pose proof (cm_reachable_inv _ Hr) as Hinv.
  destruct Hstep as [cm cr dr rep c ?|cm cr dr rep c ?|cm cr dr rep heap order post Hord]; simpl in *.
  - apply IH. lia.
  - by apply IH.
  - rewrite fmap_app, sum_Z_app, IH, length_app, stats_of_label_cnt; [lia| |done].
    apply Forall_forall. intros [l cs] Hin. simpl.
    destruct Hinv as [_ Hall _ _]. simpl in *. apply Permutation_length in Hall.
    rewrite !length_app in Hall.
    assert (length cs ≤ length (conns_of (closedConnectionsMap cm)))%nat; [|lia].
    rewrite Hord, elem_of_map_to_list in Hin.
    rewrite (conns_of_lookup _ l), Hin, length_app. simpl. lia.
Qed.

(** ** Lemmas on pages *)

Lemma slice_range_page {A} (l : list A) (k : nat) (ps : Z) :
  1 ≤ ps → Z.of_nat k * ps ≤ Z.of_nat (length l) →
  slice_range l (Z.of_nat k * ps) (Z.min (Z.of_nat k * ps + ps) (Z.of_nat (length l))) =
    Ret (take (Z.to_nat ps) (drop (k * Z.to_nat ps) l)).
Proof.
  intros Hps Hle. unfold slice_range. rewrite decide_True by nia. f_equal.
  replace (Z.to_nat (Z.of_nat k * ps)) with (k * Z.to_nat ps)%nat by nia.
  destruct (decide (Z.of_nat k * ps + ps ≤ Z.of_nat (length l))).
  - f_equal. lia.
  - rewrite !take_ge; [done|rewrite length_drop; nia|rewrite length_drop; nia].
Qed.

Lemma take_pages {A} (l : list A) (n p : nat) :
  concat ((λ k, take p (drop (k * p) l)) <$> seq 0 n) = take (n * p) l.
Proof.
  induction n as [|n IH]; [done|].
  rewrite seq_S, fmap_app, concat_app, IH. simpl. rewrite app_nil_r.
  rewrite take_take_drop. f_equal. lia.
Qed.

Definition conns_of_type (cm : cmgrImpl) (connType : string) : conn_map :=
  if decide (connType = ConnectionTypeActive) then activeConnectionsMap cm else closedConnectionsMap cm.

(** The list every page of [connType] is cut from. *)
Definition sorted_conns (cm : cmgrImpl) (connType : string) : list rconn :=
  concat_labels (conns_of_type cm connType) (relayLabelList (conns_of_type cm connType)).

Lemma ListConnections_eq cm connType page pageSize :
  cmgrImpl_ListConnections cm connType page pageSize =
    let total := Z.of_nat (length (sorted_conns cm connType)) in
    let start := wrap64 (wrap64 (page - 1) * pageSize) in
    if decide (total < start) then Ret []
    else slice_range (sorted_conns cm connType) start (Z.min (wrap64 (start + pageSize)) total).
Proof.
  unfold cmgrImpl_ListConnections, sorted_conns, conns_of_type, cmgrImpl_countActiveConnection,
    cmgrImpl_countClosedConnection.
  destruct (decide (connType = ConnectionTypeActive)); rewrite <- sorted_conns_length; cbv zeta;
    (case_decide; [done|]); f_equal; repeat case_decide; lia.
Qed.

Lemma ListConnections_page cm connType (k : nat) pageSize :
  1 ≤ pageSize → (Z.of_nat k + 1) * pageSize ≤ max_int64 →
  cmgrImpl_ListConnections cm connType (Z.of_nat k + 1) pageSize =
    Ret (take (Z.to_nat pageSize) (drop (k * Z.to_nat pageSize) (sorted_conns cm connType))).
Proof.
  intros Hps Hmax. rewrite ListConnections_eq. cbv zeta.
  replace (Z.of_nat k + 1 - 1) with (Z.of_nat k) by lia.
  unfold max_int64 in Hmax.
  assert (Z.of_nat k ≤ (Z.of_nat k + 1) * pageSize) by nia.
  rewrite (wrap64_id (Z.of_nat k)) by (unfold in_int64, min_int64, max_int64; lia).
  rewrite (wrap64_id (Z.of_nat k * pageSize)) by (unfold in_int64, min_int64, max_int64; nia).
  rewrite (wrap64_id (Z.of_nat k * pageSize + pageSize)) by (unfold in_int64, min_int64, max_int64; nia).
  case_decide as Hlt.
  - rewrite drop_ge by nia. by rewrite take_nil.
  - apply slice_range_page; lia.
Qed.

(** ** Theorems *)

(** [C12] Every connection is accounted for exactly once: whatever sequence of adds (of new
    connections), removes (of active ones) and pushes happened, each created connection is
    either active, or closed and waiting, or in exactly one push; the pushed statistics
    count exactly the drained connections; and the per-label counter is the number of
    active connections of that relay. *)
Theorem connections_accounted (s : cm_state) (Hr : reachable cm_init cm_step s)
    (Hlen : Z.of_nat (length (created s)) ≤ max_int64) :
  let places := conns_of (activeConnectionsMap (cs_cm s)) ++
                conns_of (closedConnectionsMap (cs_cm s)) ++ drained s in
  NoDup (rc_ptr <$> places) ∧ places ≡ₚ created s ∧
  sum_Z (ConnectionCnt <$> reported s) = Z.of_nat (length (drained s)) ∧
  ∀ label, cmgrImpl_GetActiveConnectCntByRelayLabel (cs_cm s) label =
    Z.of_nat (length (filter (λ c, GetRelayLabel c = label) (conns_of (activeConnectionsMap (cs_cm s))))).
Proof.
  pose proof (cm_reachable_inv _ Hr) as [Hnd Hall Ha Hc]. split_and!.
  - by rewrite Hall.
  - done.
  - by apply reported_cnt.
  - intros label. unfold cmgrImpl_GetActiveConnectCntByRelayLabel. by rewrite label_count.
Qed.

Definition sample_cm : cmgrImpl := mkCmgr (mkCmgrConfig "http://panel" 60 false) ∅ ∅ false.

Lemma connections_accounted_witness :
  cmgrImpl_GetActiveConnectCntByRelayLabel
    (cmgrImpl_AddConnection (cmgrImpl_AddConnection sample_cm (mkRconn 0 "a")) (mkRconn 1 "b")) "a" = 1.
Proof.
  assert (reachable cm_init cm_step (mkCmState
    (cmgrImpl_AddConnection (cmgrImpl_AddConnection sample_cm (mkRconn 0 "a")) (mkRconn 1 "b"))
    [mkRconn 1 "b"; mkRconn 0 "a"] [] [])) as Hr.
  { eapply reach_step; [eapply reach_step; [apply reach_init; by eexists _, _|]|];
      apply cm_add; vm_compute; intros H; inversion H as [|? ? ? H']; inversion H'. }
  apply (connections_accounted _ Hr). vm_compute. discriminate.
Defined.

(** Pagination: for a positive page size, the pages 1 to [n] are pieces of at most
    [pageSize] connections of one list sorted by relay label; glued together they are its
    first [n * pageSize] elements, so enough pages list every connection exactly once.  A
    page below 1 is not rejected: it slices at a negative index and panics. *)
Theorem ListConnections_pages (cm : cmgrImpl) (connType : string) (pageSize : Z) (n : nat)
    (Hps : 1 ≤ pageSize) (Hmax : Z.of_nat n * pageSize ≤ max_int64) :
  let all := sorted_conns cm connType in
  all ≡ₚ conns_of (conns_of_type cm connType) ∧
  (∃ pages,
    (∀ k, (k < n)%nat → ∃ page, pages !! k = Some page ∧ Z.of_nat (length page) ≤ pageSize ∧
       cmgrImpl_ListConnections cm connType (Z.of_nat k + 1) pageSize = Ret page) ∧
    length pages = n ∧ concat pages = take (n * Z.to_nat pageSize) all) ∧
  (∀ page, - max_int64 ≤ (page - 1) * pageSize < 0 →
     cmgrImpl_ListConnections cm connType page pageSize = Panic SliceOutOfRange).
Proof.
  intros all. split_and!.
  - apply sorted_conns_Permutation.
  - exists ((λ k, take (Z.to_nat pageSize) (drop (k * Z.to_nat pageSize) all)) <$> seq 0 n).
    split_and!; [|by rewrite length_fmap, length_seq|apply take_pages].
    intros k Hk. eexists. split_and!.
    + rewrite list_lookup_fmap, lookup_seq_lt by done. reflexivity.
    + rewrite length_take. lia.
    + apply ListConnections_page; [done|nia].
  - intros page Hpage. rewrite ListConnections_eq. cbv zeta. unfold max_int64 in Hpage.
    rewrite (wrap64_id (page - 1)) by (unfold in_int64, min_int64, max_int64; nia).
    rewrite (wrap64_id ((page - 1) * pageSize)) by (unfold in_int64, min_int64, max_int64; lia).
    rewrite decide_False by lia. unfold slice_range. rewrite decide_False by lia. done.
Qed.

Lemma ListConnections_pages_witness :
  cmgrImpl_ListConnections sample_cm "active" 0 10 = Panic SliceOutOfRange.
Proof.
  refine (proj2 (proj2 (ListConnections_pages sample_cm "active" 10 1 _ _)) 0 _);
    [lia|vm_compute; discriminate|split; vm_compute; congruence].
Defined.

(** What a push reports for each label: the number of closed connections, the sums of
    their byte counters (as int64) and the average handshake latency in milliseconds,
    rounded down; and the closed map is empty afterwards even when the request failed, so
    a failed push loses its statistics. *)
Theorem pushStats_report (cm : cmgrImpl) (heap : nat → Stats) (order : list (string * list rconn))
    (post : option error)
    (Hord : order ≡ₚ map_to_list (closedConnectionsMap cm))
    (Hlen : count_connections (closedConnectionsMap cm) ≤ max_int64)
    (Hlat : ∀ p, 0 ≤ HandShakeLatency (heap p))
    (Hsum : conn_latency heap (conns_of (closedConnectionsMap cm)) ≤ max_int64) :
  let '(cm', req, err) := cmgrImpl_pushStats cm heap order post in
  closedConnectionsMap cm' = ∅ ∧ activeConnectionsMap cm' = activeConnectionsMap cm ∧
  (CmgrConfig_NeedSync (cm_cfg cm) = false → req = None ∧ err = None) ∧
  (CmgrConfig_NeedSync (cm_cfg cm) = true → err = post ∧
     ∃ stats, req = Some stats ∧ RelayLabel <$> stats ≡ₚ (map_to_list (closedConnectionsMap cm)).*1 ∧
       ∀ s, s ∈ stats → ∃ cs, closedConnectionsMap cm !! RelayLabel s = Some cs ∧
         ConnectionCnt s = Z.of_nat (length cs) ∧
         spr_Up s = wrap64 (conn_up heap cs) ∧ spr_Down s = wrap64 (conn_down heap cs) ∧
         (cs ≠ [] → spr_HandShakeLatency s * ConnectionCnt s ≤ conn_latency heap cs
                      < (spr_HandShakeLatency s + 1) * ConnectionCnt s)).
Proof.
  assert (Hnonneg : ∀ cs, 0 ≤ conn_latency heap cs).
  { intros cs. unfold conn_latency. induction cs as [|c cs IH]; csimpl; [lia|].
    assert (0 ≤ Duration_Milliseconds (HandShakeLatency (heap (rc_ptr c)))); [|lia].
    by apply Z.quot_pos, eq_refl. }
  assert (Hkv : ∀ l cs, (l, cs) ∈ order →
    closedConnectionsMap cm !! l = Some cs ∧ Z.of_nat (length cs) ≤ max_int64 ∧ conn_latency heap cs ≤ max_int64).
  { intros l cs Hin. rewrite Hord, elem_of_map_to_list in Hin. split; [done|].
    rewrite count_connections_length in Hlen. unfold conn_latency in Hsum.
    rewrite (conns_of_lookup _ l), Hin, length_app in Hlen.
    rewrite (conns_of_lookup _ l), Hin, fmap_app, sum_Z_app in Hsum. simpl in *.
    specialize (Hnonneg (conns_of (delete l (closedConnectionsMap cm)))). unfold conn_latency in *. lia. }
  unfold cmgrImpl_pushStats. cbn [cm_cfg]. destruct (CmgrConfig_NeedSync (cm_cfg cm)); [|done].
  split_and!; [done..|]. intros _. split; [done|]. eexists. split_and!; [done| |].
  - rewrite <- Hord, <- list_fmap_compose. apply reflexive_eq, list_fmap_ext. intros i [l cs] Hi.
    apply list_elem_of_lookup_2, Hkv in Hi as (_ & Hl & _). simpl. by rewrite stats_of_label_eq.
  - intros s ([l cs] & -> & Hin)%list_elem_of_fmap. destruct (Hkv _ _ Hin) as (Hl & Hn & Hs).
    rewrite stats_of_label_eq by done. exists cs. split_and!; [done..|]. cbn [spr_HandShakeLatency ConnectionCnt].
    intros Hne. rewrite decide_False by done. specialize (Hnonneg cs).
    rewrite wrap64_id by (unfold in_int64, min_int64, max_int64 in *; lia). unfold go_div.
    assert (0 < Z.of_nat (length cs)) by (destruct cs; [done|simpl; lia]).
    rewrite Z.quot_div_nonneg by lia.
    pose proof (Z.div_mod (conn_latency heap cs) (Z.of_nat (length cs))).
    pose proof (Z.mod_pos_bound (conn_latency heap cs) (Z.of_nat (length cs))).
    pose proof (Z.div_pos (conn_latency heap cs) (Z.of_nat (length cs))).
    assert (conn_latency heap cs / Z.of_nat (length cs) ≤ conn_latency heap cs) by nia.
    rewrite wrap64_id by (unfold in_int64, min_int64, max_int64 in *; lia). nia.
Qed.

Lemma pushStats_report_witness :
  let '(cm', req, err) := cmgrImpl_pushStats
    (mkCmgr (mkCmgrConfig "http://panel" 60 false) ∅ {[ "a" := [mkRconn 0 "a"] ]} false)
    (λ _, mkStats 10 20 (3 * Millisecond)) [("a", [mkRconn 0 "a"])] (Some (Errorf "503")) in
  closedConnectionsMap cm' = ∅ ∧ err = Some (Errorf "503").
Proof.
  pose proof (pushStats_report
    (mkCmgr (mkCmgrConfig "http://panel" 60 false) ∅ {[ "a" := [mkRconn 0 "a"] ]} false)
    (λ _, mkStats 10 20 (3 * Millisecond)) [("a", [mkRconn 0 "a"])] (Some (Errorf "503"))
    ltac:(simpl; by rewrite map_to_list_singleton)
    ltac:(vm_compute; discriminate) ltac:(intros; vm_compute; discriminate)
    ltac:(vm_compute; discriminate)) as H.
  destruct H as (H1 & _ & _ & H2). split; [exact H1|]. by apply H2.
Defined.

(** The pushes are spaced [syncEvery] ticks apart. *)
Lemma Start_ticks_lookup cfg n tick i :
  1 ≤ syncEvery cfg → 0 ≤ tick → tick + Z.of_nat n ≤ max_int64 → (i < n)%nat →
  Start_ticks n cfg tick !! i = Some (bool_decide ((tick + Z.of_nat i + 1) mod syncEvery cfg = 0)).
Proof.
  intros Hs. revert tick i. induction n as [|n IH]; intros tick i Ht Hmax Hi; [lia|].
  cbn [Start_ticks]. unfold Start_tick. unfold max_int64 in Hmax.
  rewrite wrap64_id by (unfold in_int64, min_int64, max_int64; lia).
  destruct i as [|i].
  - simpl. unfold go_rem. rewrite Z.rem_mod_nonneg by lia. by rewrite Z.add_0_r.
  - simpl. rewrite IH by (unfold max_int64; lia).
    by replace (tick + 1 + Z.of_nat i + 1) with (tick + Z.of_nat (S i) + 1) by lia.
Qed.

(** The sync cadence: with an interval of [s] seconds that fits a duration, the ticker
    (one tick per five seconds) pushes on every [max 1 (s / 5 - 1)]-th tick and on no other.
    For ten seconds or more this is five to ten seconds earlier than the configured
    interval: the default 60 s interval pushes every 55 s. *)
Theorem Start_cadence (cfg : CmgrConfig) (n i : nat)
    (Hs : 0 < SyncInterval cfg ≤ 9223372036) (Hn : Z.of_nat n ≤ max_int64) (Hi : (i < n)%nat) :
  let every := Z.max 1 (SyncInterval cfg / 5 - 1) in
  Start_ticks n cfg 0 !! i = Some (bool_decide ((Z.of_nat i + 1) mod every = 0)) ∧
  (10 ≤ SyncInterval cfg → SyncInterval cfg - 10 < every * 5 ≤ SyncInterval cfg - 5) ∧
  (SyncInterval (CmgrConfig_Adjust cfg) = SyncInterval cfg).
Proof.
  intros every.
  assert (syncEvery cfg = every) as He.
  { unfold syncEvery, go_div, metricsSampleInterval, every.
    rewrite (wrap64_id (_ * Second)) by (unfold in_int64, min_int64, max_int64, Second; lia).
    rewrite Z.quot_div_nonneg by (unfold Second; lia).
    rewrite Z.div_mul_cancel_r by (unfold Second; lia).
    assert (0 ≤ SyncInterval cfg / 5 ≤ SyncInterval cfg).
    { split; [apply Z.div_pos; lia|]. apply Z.div_le_upper_bound; lia. }
    rewrite (wrap64_id (_ / 5)) by (unfold in_int64, min_int64, max_int64; lia).
    rewrite wrap64_id by (unfold in_int64, min_int64, max_int64; lia). case_decide; lia. }
  split_and!.
  - rewrite Start_ticks_lookup; [|lia..]. rewrite He. do 3 f_equal.
  - intros H10. pose proof (Z.div_mod (SyncInterval cfg) 5 ltac:(lia)).
    pose proof (Z.mod_pos_bound (SyncInterval cfg) 5 ltac:(lia)). lia.
  - unfold CmgrConfig_Adjust. rewrite decide_False by lia. done.
Qed.

Lemma Start_cadence_witness :
  Start_ticks 11 (mkCmgrConfig "http://panel" 60 false) 0 !! 10%nat = Some true.
Proof.
  apply (Start_cadence (mkCmgrConfig "http://panel" 60 false) 11 10);
    [split; vm_compute; congruence|vm_compute; discriminate|lia].
Defined.

(** ** The lock: [ListConnections] beside a writer

    [ListConnections] holds the read lock while [countActiveConnection] takes it again.  A
    [sync.RWMutex] with a waiting writer admits no new reader.  [lister] and [writer] are
    the program points of the two goroutines (the writer is [AddConnection],
    [RemoveConnection] or [pushStats]). *)

Inductive lister_pc :=
  | LStart          (** before [cm.lock.RLock()] in [ListConnections] *)
  | LOuter          (** before [cm.lock.RLock()] in [countActiveConnection] *)
  | LInner          (** counting, before the inner [RUnlock] *)
  | LCounted        (** before the outer [RUnlock] *)
  | LDone.

Inductive writer_pc :=
  | WStart          (** before [cm.lock.Lock()] *)
  | WWaiting        (** announced, waiting for the readers to leave *)
  | WHolding
  | WDone.

Definition readers (l : lister_pc) : nat :=
  match l with LStart | LDone => 0 | LOuter | LCounted => 1 | LInner => 2 end.

Inductive lock_step : lister_pc * writer_pc → lister_pc * writer_pc → Prop :=
  | ls_rlock w : w = WStart ∨ w = WDone → lock_step (LStart, w) (LOuter, w)
  | ls_rlock_inner w : w = WStart ∨ w = WDone → lock_step (LOuter, w) (LInner, w)
  | ls_runlock_inner w : lock_step (LInner, w) (LCounted, w)
  | ls_runlock w : lock_step (LCounted, w) (LDone, w)
  | ls_lock l : lock_step (l, WStart) (l, WWaiting)
  | ls_acquire l : readers l = 0%nat → lock_step (l, WWaiting) (l, WHolding)
  | ls_unlock l : lock_step (l, WHolding) (l, WDone).

(** While a writer holds the lock there is no reader. *)
Lemma lock_excl s s' :
  rtc lock_step s s' → (snd s = WHolding → readers (fst s) = 0%nat) →
  snd s' = WHolding → readers (fst s') = 0%nat.
Proof.
  induction 1 as [|x y z Hst _ IH]; [done|]. intros Hx. apply IH.
  destruct Hst; simpl in *; naive_solver.
Qed.

(** The recursive read lock can deadlock: a writer that arrives between the two
    [RLock]s of [ListConnections] waits for the first reader, which waits behind the
    writer.  This is the only way the two goroutines get stuck: every other state in which
    one of them is not finished can move. *)
Theorem ListConnections_deadlock :
  rtc lock_step (LStart, WStart) (LOuter, WWaiting) ∧
  ∀ l w, (l, w) ≠ (LDone, WDone) → rtc lock_step (LStart, WStart) (l, w) →
    (¬ (∃ s', lock_step (l, w) s') ↔ l = LOuter ∧ w = WWaiting).
Proof.
  split.
  - eapply rtc_l; [apply ls_rlock; by left|]. eapply rtc_l; [apply ls_lock|]. apply rtc_refl.
  - intros l w Hne Hr. split.
    + intros Hstuck. assert (w = WHolding → readers l = 0%nat) as Hexcl.
      { exact (lock_excl _ _ Hr ltac:(done)). }
      destruct w, l; try done; exfalso; apply Hstuck; eexists;
        first [by apply ls_lock | by apply ls_unlock | by apply ls_runlock_inner | by apply ls_runlock
              |by apply ls_acquire | apply ls_rlock; by right | apply ls_rlock_inner; by right].
    + intros [-> ->] [s' Hs]. inversion Hs; subst; naive_solver.
Qed.
