(* ===== verification/Transporter.v ===== *)
(** * internal/transporter: accepting a connection and relaying it

    [sniff.go], [interface.go], [base.go], [raw.go], [ws.go] and [wss.go].  The environment of
    one connection is a record of what the sockets, the dialer and the url library answer; the
    state is the server's balancer, the connection manager, the network state, the
    connection gauge and the allocation counter of relay connections.  The code is followed
    for one connection from accept to return; the last section interleaves several at the
    connection limit.  Not modelled: TLS set-up, prometheus histograms, logging. *)

From S2P Require Import Prelude GoStd Url Lb Conf Buffer Net RelayConn Cmgr.

(** ** sniff.go *)

Definition peekBufferSize : nat := 4096.

(** [[]byte(s)] *)
Definition bytes_of (s : string) : bytes :=
  (λ c, Z.of_N (Ascii.N_of_ascii c)) <$> String.list_ascii_of_string s.

(** [bytes.HasPrefix] *)
Fixpoint bytes_HasPrefix (data prefix : bytes) {struct prefix} : bool :=
  match prefix, data with
  | [], _ => true
  | p :: prefix, d :: data => bool_decide (p = d) && bytes_HasPrefix data prefix
  | _ :: _, [] => false
  end.

Definition isTLSClientHello (data : bytes) : bool :=
  if decide (length data < 6)%nat then false
  else if decide (data !!! 0%nat ≠ 0x16) then false
  else if decide (data !!! 1%nat ≠ 0x03 ∨ 0x03 < data !!! 2%nat) then false
  else bool_decide (data !!! 5%nat = 0x01).

Definition httpMethods : list bytes :=
  bytes_of <$> ["GET "; "POST "; "HEAD "; "PUT "; "DELETE "; "OPTIONS "; "PATCH "; "CONNECT "; "TRACE "].

Definition isHTTPRequest (data : bytes) : bool := existsb (bytes_HasPrefix data) httpMethods.

Definition sniffProtocol (data : bytes) : string :=
  if isTLSClientHello data then ProtocolTLS
  else if isHTTPRequest data then ProtocolHTTP
  else "".

(** ** interface.go: the kind of client and server a configuration selects *)

Inductive relay_client := RawClient | WsClient | WssClient.
Inductive relay_server := RawServer | WsServer | WssServer.

#[global] Instance relay_client_eq_dec : EqDecision relay_client.
Proof. solve_decision. Defined.
#[global] Instance relay_server_eq_dec : EqDecision relay_server.
Proof. solve_decision. Defined.

(** [cfg.Options.f] on a possibly nil [Options]. *)
Definition deref {A} (o : option A) : outcome A :=
  match o with Some a => Ret a | None => Panic NilDereference end.

(** Every client reads an option to build its dialer. *)
Definition newRelayClient (cfg : Config) : outcome relay_client :=
  if decide (TransportType cfg = RelayTypeRaw) then _ ← deref (Config_Options cfg); Ret RawClient
  else if decide (TransportType cfg = RelayTypeWS) then _ ← deref (Config_Options cfg); Ret WsClient
  else if decide (TransportType cfg = RelayTypeWSS) then _ ← deref (Config_Options cfg); Ret WssClient
  else Err (Errorf ("unsupported transport type: " +:+ TransportType cfg)).

(** [bs_cmgr]: whether the manager interface is non-nil. *)
Record BaseRelayServer := mkBase { bs_cfg : Config; bs_relayer : relay_client; bs_cmgr : bool }.

Definition newBaseRelayServer (cfg : Config) (cmgr : bool) : outcome (BaseRelayServer * roundrobin) :=
  relayer ← newRelayClient cfg;
  Ret ({| bs_cfg := cfg; bs_relayer := relayer; bs_cmgr := cmgr |}, Config_ToRemotesLB cfg).

Definition NewRelayServer (cfg : Config) (cmgr : bool) :
    outcome (relay_server * BaseRelayServer * roundrobin) :=
  '(base, rr) ← newBaseRelayServer cfg cmgr;
  if decide (ListenType cfg = RelayTypeRaw) then Ret (RawServer, base, rr)
  else if decide (ListenType cfg = RelayTypeWS) then Ret (WsServer, base, rr)
  else if decide (ListenType cfg = RelayTypeWSS) then Ret (WssServer, base, rr)
  else Panic (ExplicitPanic ("unsupported transport type" +:+ ListenType cfg)).

(** ** The state a connection handler changes *)

Definition METRIC_CONN_TYPE_TCP : string := "tcp".
Definition METRIC_CONN_TYPE_UDP : string := "udp".

Definition gauge_key : Type := string * string * string.

(** [sv_gauge]: [CurConnectionCount] by its labels; [sv_ptr]: the next relay connection's
    pointer; [sv_rr]: the balancer, whose nodes the handshakes update in place. *)
Record server := mkServer {
  sv_rr : roundrobin; sv_cm : cmgrImpl; sv_net : netw; sv_gauge : gmap gauge_key Z; sv_ptr : nat }.

Definition set_rr (rr : roundrobin) (sv : server) : server :=
  {| sv_rr := rr; sv_cm := sv_cm sv; sv_net := sv_net sv; sv_gauge := sv_gauge sv; sv_ptr := sv_ptr sv |}.
Definition set_net (w : netw) (sv : server) : server :=
  {| sv_rr := sv_rr sv; sv_cm := sv_cm sv; sv_net := w; sv_gauge := sv_gauge sv; sv_ptr := sv_ptr sv |}.
Definition set_cm (cm : cmgrImpl) (sv : server) : server :=
  {| sv_rr := sv_rr sv; sv_cm := cm; sv_net := sv_net sv; sv_gauge := sv_gauge sv; sv_ptr := sv_ptr sv |}.

(** [CurConnectionCount.WithLabelValues(labels...).Add(d)] *)
Definition gauge_add (k : gauge_key) (d : Z) (sv : server) : server :=
  {| sv_rr := sv_rr sv; sv_cm := sv_cm sv; sv_net := sv_net sv;
     sv_gauge := <[k := default 0 (sv_gauge sv !! k) + d]> (sv_gauge sv); sv_ptr := sv_ptr sv |}.

Definition gauge_val (sv : server) (k : gauge_key) : Z := default 0 (sv_gauge sv !! k).

(** A [*lb.Node]: an entry of the balancer, or a node made for this request. *)
Inductive node_ptr := InList (i : nat) | Fresh (n : Node).

Definition load_node (sv : server) (p : node_ptr) : Node :=
  match p with
  | InList i => default {| Address := ""; HandShakeDuration := 0 |} (nodeList (sv_rr sv) !! i)
  | Fresh n => n
  end.

(** [remote.HandShakeDuration = latency] through the pointer. *)
Definition store_latency (p : node_ptr) (latency : Z) (sv : server) : server :=
  match p with
  | InList i =>
      let rr := sv_rr sv in
      set_rr {| nodeList := alter (λ n, {| Address := Address n; HandShakeDuration := latency |}) i (nodeList rr);
                next := next rr; len := len rr |} sv
  | Fresh _ => sv
  end.

(** What the world answers to one connection.  [dial isTCP addr] is a new socket, or an
    error; [joinPath] is [url.JoinPath]; [print_base] and [print_fragment] are how [net/url]
    parses and prints what surrounds a query ([None]: it does not parse); [sniff_deadline] and [sniff_read] are the results of
    the two calls of the sniffer; the rest drives the copy. *)
Record conn_env := mkEnv {
  joinPath : string → string → string + error;
  print_base : string → option string;
  print_fragment : string → string;
  dial : bool → string → nat + error;
  latency : Z;
  sniff_deadline : option error; sniff_read : bytes * option error;
  copy_fuel : nat; copy_d1 : direction; copy_d2 : direction }.

(** ** cfg.go and ws.go: the address a WebSocket client dials *)

Definition Config_GetWSRemoteAddr (r : Config) (joinPath : string → string → string + error)
    (baseAddr : string) : outcome string :=
  match joinPath baseAddr (Config_GetWSHandShakePath r) with
  | inr err => Err err
  | inl addr =>
      Ret match Config_Options r ≫= Options_WSConfig with
          | Some w => if decide (RemoteAddr w ≠ "")
                      then addr +:+ "?" +:+ WS_QUERY_REMOTE_ADDR +:+ "=" +:+ RemoteAddr w else addr
          | None => addr
          end
  end.

Definition WsClient_addUDPQueryParam (env : conn_env) (addr : string) : string :=
  default addr (map_query (print_base env) (print_fragment env) (λ q, Values_Set q "type" "udp") addr).

(** ** raw.go, ws.go, wss.go: HandShake

    A raw client dials the network of the connection, a WebSocket client always dials TCP (a
    [*tls.Conn] over it for wss) and wraps the socket in a [wsConn].  The latency is stored
    through the remote's pointer, on success only. *)

Definition RawClient_HandShake (env : conn_env) (remote : node_ptr) (isTCP : bool) (sv : server) :
    outcome conn * server :=
  match dial env isTCP (Address (load_node sv remote)) with
  | inr err => (Err err, sv)
  | inl fd => (Ret (SockConn fd isTCP), store_latency remote (latency env) sv)
  end.

Definition WsClient_HandShake (tls : bool) (cfg : Config) (env : conn_env) (remote : node_ptr)
    (isTCP : bool) (sv : server) : outcome conn * server :=
  match Config_GetWSRemoteAddr cfg (joinPath env) (Address (load_node sv remote)) with
  | Panic p => (Panic p, sv)
  | Err err => (Err err, sv)
  | Ret addr =>
      let addr := if isTCP then addr else WsClient_addUDPQueryParam env addr in
      match dial env true addr with
      | inr err => (Err err, sv)
      | inl fd =>
          let sv := store_latency remote (latency env) sv in
          let (c, w) := NewWSConn (SockConn fd (negb tls)) false (sv_net sv) in
          (Ret c, set_net w sv)
      end
  end.

Definition HandShake (bs : BaseRelayServer) (env : conn_env) (remote : node_ptr) (isTCP : bool)
    (sv : server) : outcome conn * server :=
  match bs_relayer bs with
  | RawClient => RawClient_HandShake env remote isTCP sv
  | WsClient => WsClient_HandShake false (bs_cfg bs) env remote isTCP sv
  | WssClient => WsClient_HandShake true (bs_cfg bs) env remote isTCP sv
  end.

(** ** base.go *)

Definition checkConnectionLimit (bs : BaseRelayServer) (cm : cmgrImpl) : outcome unit :=
  if negb (bs_cmgr bs) then Ret tt
  else
    o ← deref (Config_Options (bs_cfg bs));
    if decide (0 < MaxConnection o ∧
               MaxConnection o ≤ cmgrImpl_CountConnection cm ConnectionTypeActive)
    then Err (Errorf ("relay:" +:+ Label (bs_cfg bs) +:+ " active connection count exceed limit " +:+
                      fmt_d (MaxConnection o)))
    else Ret tt.

(** A read that returns no byte, whatever its error, lets the connection through; an error
    beside some bytes is dropped. *)
Definition sniffAndBlockProtocol (bs : BaseRelayServer) (env : conn_env) (c : conn) : outcome conn :=
  o ← deref (Config_Options (bs_cfg bs));
  if decide (BlockedProtocols o = []) then Ret c
  else match sniff_deadline env with
       | Some _ => Ret c
       | None =>
           let peek := take peekBufferSize (fst (sniff_read env)) in
           if decide (peek = []) then Ret c
           else
             let protocol := sniffProtocol peek in
             if decide (protocol ≠ "" ∧ protocol ∈ BlockedProtocols o)
             then Err (Errorf ("relay:" +:+ Label (bs_cfg bs) +:+ " blocked protocol:" +:+ protocol))
             else Ret (PeekedConn c peek)
       end.

Definition applyRateLimit (bs : BaseRelayServer) (c : conn) : outcome conn :=
  o ← deref (Config_Options (bs_cfg bs));
  Ret (if decide (0 < MaxReadRateKbps o) then RateLimitedConn c (MaxReadRateKbps o) else c).

(** The error a handler returns from the outcome of [Transport]. *)
Definition handler_result (r : outcome (option error)) : outcome unit :=
  match r with Ret None => Ret tt | Ret (Some e) => Err e | Err e => Err e | Panic p => Panic p end.

(** [RemoveConnection] is deferred: it runs whatever [Transport] ends with.  [None]: the
    copy has not ended. *)
Definition handleRelayConn (bs : BaseRelayServer) (env : conn_env) (c rc : conn) (remote : node_ptr)
    (connType : string) (sv : server) : option (outcome unit * server) :=
  let label := Label (bs_cfg bs) in
  let relayConn := NewRelayConn c rc (load_node sv remote) connType label (Config_Options (bs_cfg bs)) in
  let ptr := mkRconn (sv_ptr sv) label in
  let sv := {| sv_rr := sv_rr sv; sv_cm := sv_cm sv; sv_net := sv_net sv; sv_gauge := sv_gauge sv;
               sv_ptr := S (sv_ptr sv) |} in
  let sv := if bs_cmgr bs then set_cm (cmgrImpl_AddConnection (sv_cm sv) ptr) sv else sv in
  '(res, _, w) ← relayConnImpl_Transport (copy_fuel env) relayConn (copy_d1 env) (copy_d2 env) (sv_net sv);
  let sv := set_net w sv in
  let sv := if bs_cmgr bs then set_cm (cmgrImpl_RemoveConnection (sv_cm sv) ptr) sv else sv in
  Some (handler_result res, sv).

(** [defer rc.Close()], its error ignored. *)
Definition deferred_Close (rc : conn) (r : outcome unit * server) : outcome unit * server :=
  let '(res, sv) := r in
  let (closed, w) := conn_Close rc (sv_net sv) in
  (match closed with Panic p => Panic p | _ => res end, set_net w sv).

(** [if err != nil { return fmt.Errorf("handshake error: %w", err) }] *)
Definition handshake_error (err : error) : outcome unit := Err (Wrapf "handshake error: " err).

Definition RelayTCPConn (bs : BaseRelayServer) (env : conn_env) (c : conn) (remote : node_ptr)
    (sv : server) : option (outcome unit * server) :=
  let labels := (Label (bs_cfg bs), METRIC_CONN_TYPE_TCP, Address (load_node sv remote)) in
  let sv := gauge_add labels 1 sv in
  '(res, sv) ←
    match (_ ← checkConnectionLimit bs (sv_cm sv); c ← sniffAndBlockProtocol bs env c; applyRateLimit bs c) with
    | Err e => Some (Err e, sv)
    | Panic p => Some (Panic p, sv)
    | Ret c =>
        match HandShake bs env remote true sv with
        | (Err err, sv) => Some (handshake_error err, sv)
        | (Panic p, sv) => Some (Panic p, sv)
        | (Ret rc, sv) => deferred_Close rc <$> handleRelayConn bs env c rc remote METRIC_CONN_TYPE_TCP sv
        end
    end;
  Some (res, gauge_add labels (-1) sv).

Definition RelayUDPConn (bs : BaseRelayServer) (env : conn_env) (c : conn) (remote : node_ptr)
    (sv : server) : option (outcome unit * server) :=
  let labels := (Label (bs_cfg bs), METRIC_CONN_TYPE_UDP, Address (load_node sv remote)) in
  let sv := gauge_add labels 1 sv in
  '(res, sv) ←
    match HandShake bs env remote false sv with
    | (Err err, sv) => Some (handshake_error err, sv)
    | (Panic p, sv) => Some (Panic p, sv)
    | (Ret rc, sv) => deferred_Close rc <$> handleRelayConn bs env c rc remote METRIC_CONN_TYPE_UDP sv
    end;
  Some (res, gauge_add labels (-1) sv).

(** [HealthCheck] handshakes with a clone of the next remote and discards the connection. *)
Definition BaseRelayServer_HealthCheck (bs : BaseRelayServer) (env : conn_env) (sv : server) :
    outcome (Z * option error) * server :=
  let (p, rr) := roundrobin_Next (sv_rr sv) in
  let sv := set_rr rr sv in
  match p with
  | Panic p => (Panic p, sv)
  | Err e => (Err e, sv)
  | Ret i =>
      let remote := Node_Clone (load_node sv (InList i)) in
      match HandShake bs env (Fresh remote) true sv with
      | (Panic p, sv) => (Panic p, sv)
      | (Err e, sv) => (Ret (Duration_Milliseconds (HandShakeDuration remote), Some e), sv)
      | (Ret _, sv) => (Ret (Duration_Milliseconds (latency env), None), sv)
      end
  end.

(** ** raw.go: what the accept loops do with one connection *)

(** [defer c.Close(); s.RelayTCPConn(ctx, c, s.remotes.Next())], the error logged. *)
Definition RawServer_serveTCP (bs : BaseRelayServer) (env : conn_env) (c : conn) (sv : server) :
    option (outcome unit * server) :=
  let (p, rr) := roundrobin_Next (sv_rr sv) in
  let sv := set_rr rr sv in
  r ← match p with
      | Ret i => RelayTCPConn bs env c (InList i) sv
      | Err e => Some (Err e, sv)
      | Panic p => Some (Panic p, sv)
      end;
  Some (deferred_Close c r).

(** The goroutine of [listenUDP]: no deferred close. *)
Definition RawServer_serveUDP (bs : BaseRelayServer) (env : conn_env) (c : conn) (sv : server) :
    option (outcome unit * server) :=
  let (p, rr) := roundrobin_Next (sv_rr sv) in
  let sv := set_rr rr sv in
  match p with
  | Ret i => RelayUDPConn bs env c (InList i) sv
  | Err e => Some (Err e, sv)
  | Panic p => Some (Panic p, sv)
  end.

(** The listeners of a [RawServer]: nil until [ListenAndServe] has set them. *)
Record raw_listeners := mkRawListeners { tcpLis : option nat; udpLis : option nat }.

(** The set-up part of [ListenAndServe]: [tcp] and [udp] are what the two listen calls
    return.  An error of the second leaves the first listener open. *)
Definition RawServer_ListenAndServe (cfg : Config) (tcp udp : nat + error) (s : raw_listeners) :
    outcome unit * raw_listeners :=
  match tcp with
  | inr err => (Err err, s)
  | inl ts =>
      let s := {| tcpLis := Some ts; udpLis := udpLis s |} in
      match Config_Options cfg with
      | Some o =>
          if EnableUDP o then
            match udp with
            | inr err => (Err err, s)
            | inl u => (Ret tt, {| tcpLis := Some ts; udpLis := Some u |})
            end
          else (Ret tt, s)
      | None => (Ret tt, s)
      end
  end.

(** [Close] calls the listener's method through the interface: a nil one panics. *)
Definition RawServer_Close (s : raw_listeners) (tcp_err udp_err : option error) : outcome (option error) :=
  match tcpLis s with
  | None => Panic NilDereference
  | Some _ =>
      match udpLis s with
      | Some _ => Ret (errors_Join tcp_err udp_err)
      | None => Ret tcp_err
      end
  end.

(** ** ws.go: handleRequest

    [fd]: the socket [UpgradeHTTP] took over from the http server, which does not close it;
    [query] is [req.URL.Query()].  The error is only logged. *)
Definition WsServer_handleRequest (bs : BaseRelayServer) (env : conn_env) (upgrade : nat + error)
    (query : Values) (sv : server) : option (outcome unit * server) :=
  match upgrade with
  | inr _ => Some (Ret tt, sv)
  | inl fd =>
      let addr := Values_Get query WS_QUERY_REMOTE_ADDR in
      let '(p, sv) :=
        if decide (addr ≠ "") then (Ret (Fresh {| Address := addr; HandShakeDuration := 0 |}), sv)
        else let (p, rr) := roundrobin_Next (sv_rr sv) in (InList <$> p, set_rr rr sv) in
      match p with
      | Panic p => Some (Panic p, sv)
      | Err e => Some (Err e, sv)
      | Ret remote =>
          if decide (Values_Get query "type" = "udp") then
            match Config_Options (bs_cfg bs) with
            | None => Some (Panic NilDereference, sv)
            | Some o =>
                if negb (EnableUDP o)
                then Some (Ret tt, set_net (snd (conn_Close (SockConn fd false) (sv_net sv))) sv)
                else let (c, w) := NewWSConn (SockConn fd false) true (sv_net sv) in
                     RelayUDPConn bs env c remote (set_net w sv)
            end
          else let (c, w) := NewWSConn (SockConn fd false) true (sv_net sv) in
               RelayTCPConn bs env c remote (set_net w sv)
      end
  end.

(** ** Several connections at the limit

    The program points of the goroutines between the limit check and the registration; [cm]
    is shared.  [ptr] numbers the goroutine's connection. *)
Inductive limit_pc := LmBefore | LmPassed | LmActive | LmRejected | LmDone.

Definition limit_state : Type := cmgrImpl * list limit_pc.

Inductive limit_step (bs : BaseRelayServer) : limit_state → limit_state → Prop :=
  | lm_pass cm pcs i :
      pcs !! i = Some LmBefore → checkConnectionLimit bs cm = Ret tt →
      limit_step bs (cm, pcs) (cm, <[i := LmPassed]> pcs)
  | lm_reject cm pcs i e :
      pcs !! i = Some LmBefore → checkConnectionLimit bs cm = Err e →
      limit_step bs (cm, pcs) (cm, <[i := LmRejected]> pcs)
  | lm_add cm pcs i :
      pcs !! i = Some LmPassed →
      limit_step bs (cm, pcs)
        (cmgrImpl_AddConnection cm (mkRconn i (Label (bs_cfg bs))), <[i := LmActive]> pcs)
  | lm_remove cm pcs i :
      pcs !! i = Some LmActive →
      limit_step bs (cm, pcs)
        (cmgrImpl_RemoveConnection cm (mkRconn i (Label (bs_cfg bs))), <[i := LmDone]> pcs).

(** The same with the check and the registration in one atomic step: goroutines [i], [i+1], ... *)
Fixpoint admit_atomically (bs : BaseRelayServer) (n i : nat) (cm : cmgrImpl) : cmgrImpl :=
  match n with
  | O => cm
  | S n =>
      admit_atomically bs n (S i)
        match checkConnectionLimit bs cm with
        | Ret _ => cmgrImpl_AddConnection cm (mkRconn i (Label (bs_cfg bs)))
        | _ => cm
        end
  end.

(** ** Lemmas: the sniffer *)

Lemma bytes_HasPrefix_spec data prefix : bytes_HasPrefix data prefix = true ↔ ∃ rest, data = prefix ++ rest.
Proof.
  revert data. induction prefix as [|p prefix IH]; intros data; simpl.
  - split; [intros _; by exists data|done].
  - destruct data as [|d data]; [naive_solver|].
    rewrite andb_true_iff, bool_decide_eq_true, IH. split; [intros [-> [rest ->]]|intros [rest [= -> ->]]]; eauto.
Qed.

Lemma isHTTPRequest_spec data :
  isHTTPRequest data = true ↔ ∃ method rest, method ∈ httpMethods ∧ data = method ++ rest.
Proof.
  unfold isHTTPRequest. rewrite existsb_exists. setoid_rewrite bytes_HasPrefix_spec.
  setoid_rewrite <- list_elem_of_In. naive_solver.
Qed.

Lemma isTLSClientHello_spec data :
  isTLSClientHello data = true ↔ ∃ minor l1 l2 rest, minor ≤ 3 ∧ data = [22; 3; minor; l1; l2; 1] ++ rest.
Proof.
  unfold isTLSClientHello. split.
  - intros H. do 3 (case_decide; [done|]). apply bool_decide_eq_true in H.
    destruct data as [|b0 [|b1 [|b2 [|b3 [|b4 [|b5 rest]]]]]]; simpl in *; try lia.
    exists b2, b3, b4, rest. split; [lia|]. repeat f_equal; lia.
  - intros (minor & l1 & l2 & rest & Hm & ->). rewrite decide_False by (simpl; lia).
    rewrite decide_False by (simpl; lia). rewrite decide_False by (simpl; lia). done.
Qed.

Lemma TLS_not_HTTP data : isTLSClientHello data = true → isHTTPRequest data = false.
Proof.
  intros (minor & l1 & l2 & rest & Hm & ->)%isTLSClientHello_spec. done.
Qed.

(** ** Lemmas: what a handler leaves unchanged *)

Lemma store_latency_frame p l sv :
  sv_cm (store_latency p l sv) = sv_cm sv ∧ sv_net (store_latency p l sv) = sv_net sv ∧
  sv_gauge (store_latency p l sv) = sv_gauge sv ∧ sv_ptr (store_latency p l sv) = sv_ptr sv.
Proof. by destruct p. Qed.

(** A handshake changes the network state only when it succeeds, by taking a buffer. *)
Lemma HandShake_frame bs env remote isTCP sv r sv' :
  HandShake bs env remote isTCP sv = (r, sv') →
  sv_cm sv' = sv_cm sv ∧ sv_gauge sv' = sv_gauge sv ∧ sv_ptr sv' = sv_ptr sv ∧
  closed_fds (sv_net sv') = closed_fds (sv_net sv) ∧
  closed_ucs (sv_net sv') = closed_ucs (sv_net sv) ∧
  ((∀ c, r ≠ Ret c) → sv' = sv).
Proof.
  assert (∀ tls, WsClient_HandShake tls (bs_cfg bs) env remote isTCP sv = (r, sv') →
    sv_cm sv' = sv_cm sv ∧ sv_gauge sv' = sv_gauge sv ∧ sv_ptr sv' = sv_ptr sv ∧
    closed_fds (sv_net sv') = closed_fds (sv_net sv) ∧
    closed_ucs (sv_net sv') = closed_ucs (sv_net sv) ∧
    ((∀ c, r ≠ Ret c) → sv' = sv)) as Hws.
  { intros tls. unfold WsClient_HandShake. case_match; [|by intros [= <- <-]..].
    case_match; [|by intros [= <- <-]].
    destruct (store_latency_frame remote (latency env) sv) as (Hc & Hn & Hg & Hp).
    rewrite Hn. unfold NewWSConn. destruct (BytePool_Get _) as [b bp].
    intros [= <- <-]. simpl. split_and!; try done. naive_solver. }
  unfold HandShake. destruct (bs_relayer bs); [|apply Hws..].
  unfold RawClient_HandShake. case_match; intros [= <- <-]; [|done].
  destruct (store_latency_frame remote (latency env) sv) as (Hc & Hn & Hg & Hp).
  rewrite Hn. split_and!; try done. naive_solver.
Qed.

(** The connection a handshake returns is over the socket the dialer gave it. *)
Lemma HandShake_conn bs env remote isTCP sv rc sv' :
  HandShake bs env remote isTCP sv = (Ret rc, sv') →
  ∃ fd net addr, dial env net addr = inl fd ∧ conn_base rc = inl fd ∧
    match bs_relayer bs with
    | RawClient => conn_bufs rc = []
    | _ => ∃ b bp, conn_bufs rc = [b] ∧ BytePool_Get (BufferPool (sv_net sv)) = (b, bp) ∧
             BufferPool (sv_net sv') = bp
    end.
Proof.
  assert (∀ tls, WsClient_HandShake tls (bs_cfg bs) env remote isTCP sv = (Ret rc, sv') →
    ∃ fd net addr, dial env net addr = inl fd ∧ conn_base rc = inl fd ∧
      ∃ b bp, conn_bufs rc = [b] ∧ BytePool_Get (BufferPool (sv_net sv)) = (b, bp) ∧
             BufferPool (sv_net sv') = bp) as Hws.
  { intros tls. unfold WsClient_HandShake. case_match; [|done..].
    case_match eqn:Hd; [|done].
    destruct (store_latency_frame remote (latency env) sv) as (_ & Hn & _).
    rewrite Hn. unfold NewWSConn. destruct (BytePool_Get _) as [b bp].
    intros [= <- <-]. simpl. eauto 10. }
  unfold HandShake. destruct (bs_relayer bs); [|apply Hws..].
  unfold RawClient_HandShake. case_match eqn:Hd; intros [= <- <-]. eauto 10.
Qed.

(** ** Lemmas: registration *)

Definition fresh_ptr (cm : cmgrImpl) (p : nat) : Prop :=
  Forall (λ c, rc_ptr c < p)%nat (conns_of (activeConnectionsMap cm)).

Lemma remove_first_last c cs :
  rc_ptr c ∉ rc_ptr <$> cs → remove_first c (cs ++ [c]) = cs.
Proof.
  induction cs as [|a cs IH]; csimpl; [by rewrite decide_True|].
  intros [Hne Hn]%not_elem_of_cons. rewrite decide_False by congruence. by rewrite IH.
Qed.

(** Removing the connection just added: the active map has the same connections, the closed
    one has it too. *)
Lemma Remove_Add cm c :
  fresh_ptr cm (rc_ptr c) →
  let cm' := cmgrImpl_RemoveConnection (cmgrImpl_AddConnection cm c) c in
  conns_of (activeConnectionsMap cm') ≡ₚ conns_of (activeConnectionsMap cm) ∧
  conns_of (closedConnectionsMap cm') ≡ₚ c :: conns_of (closedConnectionsMap cm).
Proof.
  intros Hf. unfold cmgrImpl_RemoveConnection, cmgrImpl_AddConnection.
  cbn [activeConnectionsMap closedConnectionsMap]. rewrite lookup_insert_eq. cbn -[conns_of]. split.
  - rewrite insert_insert_eq, remove_first_last.
    + by rewrite conns_of_insert, <- conns_of_lookup.
    + intros (c' & Heq & Hin)%list_elem_of_fmap. unfold fresh_ptr in Hf. rewrite Forall_forall in Hf.
      specialize (Hf c'). rewrite conns_of_elem in Hf.
      destruct (activeConnectionsMap cm !! GetRelayLabel c) as [cs|] eqn:E; simpl in Hin; [|by apply elem_of_nil in Hin].
      specialize (Hf ltac:(eauto)). lia.
  - apply conns_of_append.
Qed.

Lemma count_active_Add cm c :
  cmgrImpl_CountConnection (cmgrImpl_AddConnection cm c) ConnectionTypeActive =
  cmgrImpl_CountConnection cm ConnectionTypeActive + 1.
Proof.
  unfold cmgrImpl_CountConnection, cmgrImpl_countActiveConnection. rewrite !decide_True by done.
  rewrite !count_connections_length. unfold cmgrImpl_AddConnection. cbn [activeConnectionsMap].
  rewrite conns_of_append. simpl. lia.
Qed.

Lemma deferred_Close_frame rc r sv :
  sv_cm (snd (deferred_Close rc (r, sv))) = sv_cm sv ∧
  sv_gauge (snd (deferred_Close rc (r, sv))) = sv_gauge sv ∧
  base_closed rc (sv_net (snd (deferred_Close rc (r, sv)))) = true.
Proof.
  unfold deferred_Close. pose proof (conn_Close_closed rc (sv_net sv)) as Hc.
  destruct (conn_Close rc (sv_net sv)) as [x w]. done.
Qed.

Lemma handleRelayConn_frame bs env c rc remote connType sv res sv' :
  bs_cmgr bs = true → fresh_ptr (sv_cm sv) (sv_ptr sv) →
  handleRelayConn bs env c rc remote connType sv = Some (res, sv') →
  sv_gauge sv' = sv_gauge sv ∧
  conns_of (activeConnectionsMap (sv_cm sv')) ≡ₚ conns_of (activeConnectionsMap (sv_cm sv)) ∧
  conns_of (closedConnectionsMap (sv_cm sv')) ≡ₚ
    mkRconn (sv_ptr sv) (Label (bs_cfg bs)) :: conns_of (closedConnectionsMap (sv_cm sv)).
Proof.
  intros Hcm Hf. unfold handleRelayConn. rewrite Hcm.
  intros ([[res' rc'] w] & _ & [= <- <-])%bind_Some. split; [done|]. cbn [sv_cm set_cm set_net].
  by apply Remove_Add.
Qed.

Lemma gauge_val_add k k' d sv :
  gauge_val (gauge_add k d sv) k' = gauge_val sv k' + (if decide (k = k') then d else 0).
Proof.
  unfold gauge_val, gauge_add. simpl. case_decide; [subst; by rewrite lookup_insert_eq|].
  rewrite lookup_insert_ne by done. lia.
Qed.

(** A run between the two gauge updates that leaves the gauge alone changes it not at all. *)
Lemma gauge_balanced k sv sv1 :
  sv_gauge sv1 = sv_gauge (gauge_add k 1 sv) → ∀ k', gauge_val (gauge_add k (-1) sv1) k' = gauge_val sv k'.
Proof.
  intros Hg k'. rewrite gauge_val_add. unfold gauge_val at 1. rewrite Hg.
  change (default 0 (sv_gauge (gauge_add k 1 sv) !! k')) with (gauge_val (gauge_add k 1 sv) k').
  rewrite gauge_val_add. case_decide; lia.
Qed.

(** The part of a handler between a successful handshake and its return. *)
Definition relay_balanced (bs : BaseRelayServer) (env : conn_env) (sv sv' : server) (new : list rconn) : Prop :=
  (∀ k, gauge_val sv' k = gauge_val sv k) ∧
  conns_of (activeConnectionsMap (sv_cm sv')) ≡ₚ conns_of (activeConnectionsMap (sv_cm sv)) ∧
  conns_of (closedConnectionsMap (sv_cm sv')) ≡ₚ new ++ conns_of (closedConnectionsMap (sv_cm sv)) ∧
  match new with
  | [] => sv_net sv' = sv_net sv
  | _ => new = [mkRconn (sv_ptr sv) (Label (bs_cfg bs))] ∧
         ∃ fd net addr, dial env net addr = inl fd ∧ fd ∈ closed_fds (sv_net sv')
  end.

Lemma relay_balanced_reject bs env sv sv1 k :
  sv1 = gauge_add k 1 sv → relay_balanced bs env sv (gauge_add k (-1) sv1) [].
Proof. intros ->. split_and!; [by apply gauge_balanced|done..]. Qed.

Lemma relay_balanced_done bs env c rc remote connType isTCP k sv sv1 res sv2 :
  bs_cmgr bs = true → fresh_ptr (sv_cm sv) (sv_ptr sv) →
  HandShake bs env remote isTCP (gauge_add k 1 sv) = (Ret rc, sv1) →
  deferred_Close rc <$> handleRelayConn bs env c rc remote connType sv1 = Some (res, sv2) →
  relay_balanced bs env sv (gauge_add k (-1) sv2) [mkRconn (sv_ptr sv) (Label (bs_cfg bs))].
Proof.
  intros Hcm Hf Hh Hrun. pose proof (HandShake_frame _ _ _ _ _ _ _ Hh) as (Hc1 & Hg1 & Hp1 & _).
  apply HandShake_conn in Hh as (fd & net & addr & Hd & Hb & _).
  apply fmap_Some in Hrun as ([res' sv1'] & Hrun & Heq). symmetry in Heq.
  apply handleRelayConn_frame in Hrun as (Hg2 & Ha & Hcl); [|done|by rewrite Hc1, Hp1].
  pose proof (deferred_Close_frame rc res' sv1') as (Hc3 & Hg3 & Hcl3). rewrite Heq in *. simpl in *.
  rewrite Hc1, Hp1 in *. unfold relay_balanced. split_and!.
  - apply gauge_balanced. rewrite Hg3, Hg2, Hg1. done.
  - simpl. rewrite Hc3. exact Ha.
  - simpl. rewrite Hc3. exact Hcl.
  - done.
  - exists fd, net, addr. split; [done|]. unfold base_closed in Hcl3. rewrite Hb in Hcl3.
    by apply bool_decide_eq_true in Hcl3.
Qed.

Lemma RelayTCPConn_balanced_aux bs env c remote sv res sv' :
  bs_cmgr bs = true → fresh_ptr (sv_cm sv) (sv_ptr sv) →
  RelayTCPConn bs env c remote sv = Some (res, sv') →
  ∃ new, relay_balanced bs env sv sv' new ∧ (res = Ret tt → new ≠ []).
Proof.
  intros Hcm Hf. unfold RelayTCPConn. set (k := (_, _, _)).
  intros ([res1 sv1] & Hrun & [= <- <-])%bind_Some.
  destruct (_ ← checkConnectionLimit _ _; _) as [c'|e|p]; [|exists []; simplify_eq; eauto using relay_balanced_reject..].
  destruct (HandShake bs env remote true (gauge_add k 1 sv)) as [[rc|e|p] sv2] eqn:Hh.
  - eexists. split; [by eapply relay_balanced_done|done].
  - apply HandShake_frame in Hh as (_ & _ & _ & _ & _ & Hsame). specialize (Hsame ltac:(done)).
    exists []. simplify_eq. split; [by eapply relay_balanced_reject|done].
  - apply HandShake_frame in Hh as (_ & _ & _ & _ & _ & Hsame). specialize (Hsame ltac:(done)).
    exists []. simplify_eq. split; [by eapply relay_balanced_reject|done].
Qed.

Lemma RelayUDPConn_balanced_aux bs env c remote sv res sv' :
  bs_cmgr bs = true → fresh_ptr (sv_cm sv) (sv_ptr sv) →
  RelayUDPConn bs env c remote sv = Some (res, sv') →
  ∃ new, relay_balanced bs env sv sv' new ∧ (res = Ret tt → new ≠ []).
Proof.
  intros Hcm Hf. unfold RelayUDPConn. set (k := (_, _, _)).
  intros ([res1 sv1] & Hrun & [= <- <-])%bind_Some.
  destruct (HandShake bs env remote false (gauge_add k 1 sv)) as [[rc|e|p] sv2] eqn:Hh.
  - eexists. split; [by eapply relay_balanced_done|done].
  - apply HandShake_frame in Hh as (_ & _ & _ & _ & _ & Hsame). specialize (Hsame ltac:(done)).
    exists []. simplify_eq. split; [by eapply relay_balanced_reject|done].
  - apply HandShake_frame in Hh as (_ & _ & _ & _ & _ & Hsame). specialize (Hsame ltac:(done)).
    exists []. simplify_eq. split; [by eapply relay_balanced_reject|done].
Qed.

(** ** Lemmas: the buffer pool through a relayed connection *)

(** The pool has room for [k] more slices. *)
Definition room (k : nat) (bp : BytePool) : Prop := (length (pool_c bp) + k ≤ pool_maxSize bp)%nat.

Lemma Get_room k bp b bp' : BytePool_Get bp = (b, bp') → room k bp → room k bp'.
Proof. unfold BytePool_Get, room. destruct (pool_c bp); intros [= <- <-]; simpl; lia. Qed.

Lemma Put_room k bp b : room (S k) bp → pool_c (BytePool_Put bp b) = pool_c bp ++ [b] ∧ room k (BytePool_Put bp b).
Proof.
  unfold room, BytePool_Put. intros H. rewrite decide_True by lia. simpl. rewrite length_app. simpl.
  split; [done|lia].
Qed.

Lemma foldl_Put_room k bs bp : room (length bs + k) bp → room k (foldl BytePool_Put bp bs).
Proof.
  revert bp. induction bs as [|b bs IH]; intros bp H; simpl in *; [done|].
  apply IH. by apply Put_room.
Qed.

Lemma foldl_Put_last k bs b bp :
  room (length bs + S k) bp →
  ∃ pre, pool_c (foldl BytePool_Put bp (bs ++ [b])) = pre ++ [b] ∧ room k (foldl BytePool_Put bp (bs ++ [b])).
Proof.
  intros H. rewrite foldl_app. simpl. eexists. apply Put_room. by apply foldl_Put_room.
Qed.

Lemma CloseWrite_pool c w : BufferPool (innerConn_CloseWrite c w) = BufferPool w.
Proof. by destruct c as [? []| | | |]. Qed.

Lemma CloseRead_pool c w : BufferPool (innerConn_CloseRead c w) = BufferPool w.
Proof. by destruct c as [? []| | | |]. Qed.

Lemma half_close_closed c w :
  closed_fds (innerConn_CloseWrite c w) = closed_fds w ∧ closed_fds (innerConn_CloseRead c w) = closed_fds w.
Proof. by destruct c as [? []| | | |]. Qed.

Lemma copyConn_pool fuel I c1 c2 d1 d2 m w err d1' d2' m' w' k :
  copyConn fuel I c1 c2 d1 d2 m w = Some (err, d1', d2', m', w') →
  room (S (S k)) (BufferPool w) → room k (BufferPool w').
Proof.
  unfold copyConn. destruct (BytePool_Get (BufferPool w)) as [b1 bp1] eqn:E1.
  destruct (BytePool_Get bp1) as [b2 bp2] eqn:E2.
  intros ([[err2 d1''] m1] & _ & ([[err1 d2''] m2] & _ & [= <- <- <- <- <-])%bind_Some)%bind_Some Hr.
  do 2 rewrite CloseRead_pool. rewrite CloseWrite_pool. cbn [deliver BufferPool]. rewrite CloseWrite_pool. cbn [set_pool deliver BufferPool].
  apply Put_room, Put_room. by eapply Get_room, Get_room.
Qed.

(** [Transport] closes the client's connection, then the remote one: the last buffer put
    back is the remote's. *)
Lemma Transport_pool fuel rc d1 d2 w res rc' w' fd b k :
  relayConnImpl_Transport fuel rc d1 d2 w = Some (res, rc', w') →
  conn_base (clientConn rc) = inl fd → conn_bufs (remoteConn rc) = [b] →
  room (length (conn_bufs (clientConn rc)) + S (S (S k))) (BufferPool w) →
  ∃ pre, pool_c (BufferPool w') = pre ++ [b] ∧ room k (BufferPool w').
Proof.
  unfold relayConnImpl_Transport. intros ([[res1 rc1] w1] & Hcopy & Hclose)%bind_Some Hc Hr Hroom.
  assert (clientConn rc1 = clientConn rc ∧ remoteConn rc1 = remoteConn rc ∧
    room (length (conn_bufs (clientConn rc)) + S k) (BufferPool w1)) as (Hc1 & Hr1 & Hroom1).
  { destruct (rc_Options rc).
    - apply bind_Some in Hcopy as ([[[[err d1'] d2'] m'] w''] & Hcopy & [= <- <- <-]). split_and!; [done..|].
      eapply copyConn_pool; [done|]. unfold room in *. lia.
    - injection Hcopy as <- <- <-. split_and!; [done..|]. unfold room in *. lia. }
  unfold relayConnImpl_Close in Hclose. rewrite Hc1, Hr1 in Hclose.
  pose proof (conn_Close_result (clientConn rc) w1) as Hcl. pose proof (conn_Close_pool (clientConn rc) w1) as Hp.
  destruct (conn_Close (clientConn rc) w1) as [r1 w2]. simpl in Hcl, Hp. rewrite Hc in Hcl.
  assert (¬ is_Panic r1) as Hnp by (subst r1; intros [? ?]; by case_match).
  pose proof (conn_Close_pool (remoteConn rc) w2) as Hp2.
  destruct (conn_Close (remoteConn rc) w2) as [r2 w3] eqn:Hcl2. simpl in Hp2.
  assert (BufferPool w' = foldl BytePool_Put (BufferPool w1) (conn_bufs (clientConn rc) ++ [b])) as ->.
  { rewrite foldl_app, <- Hp, <- Hr, <- Hp2.
    destruct r1; [..|exfalso; apply Hnp; by eexists]; destruct r2; by simplify_eq. }
  by apply foldl_Put_last.
Qed.

(** ** Theorems *)

(** The sniffer: a payload is TLS exactly when it starts with a ClientHello record
    header (22, 3, minor version at most 3, two length bytes, 1), HTTP exactly when it
    starts with one of the nine methods and a space, and never both, so the order of the
    two tests does not matter. *)
Theorem sniffProtocol_spec (data : bytes) :
  (sniffProtocol data = ProtocolTLS ↔
     ∃ minor l1 l2 rest, minor ≤ 3 ∧ data = [22; 3; minor; l1; l2; 1] ++ rest) ∧
  (sniffProtocol data = ProtocolHTTP ↔ ∃ method rest, method ∈ httpMethods ∧ data = method ++ rest) ∧
  (sniffProtocol data = "" ↔ isTLSClientHello data = false ∧ isHTTPRequest data = false).
Proof.
  rewrite <- isTLSClientHello_spec, <- isHTTPRequest_spec. pose proof (TLS_not_HTTP data) as Hex.
  unfold sniffProtocol. destruct (isTLSClientHello data), (isHTTPRequest data); naive_solver.
Qed.

(** What the sniffer does to a connection: it is refused exactly when the deadline
    could be set, some byte arrived and the sniffed protocol is on the list; otherwise the
    relay goes on over the same socket and no peeked byte is lost.  A client that stays
    silent through the sniff timeout is never refused, whatever it sends afterwards. *)
Theorem sniffAndBlock_spec (bs : BaseRelayServer) (env : conn_env) (c : conn) (o : Options)
    (Ho : Config_Options (bs_cfg bs) = Some o)
    (Hread : (length (fst (sniff_read env)) ≤ peekBufferSize)%nat) :
  let data := fst (sniff_read env) in
  ((∃ e, sniffAndBlockProtocol bs env c = Err e) ↔
     sniff_deadline env = None ∧ sniffProtocol data ∈ BlockedProtocols o ∧ sniffProtocol data ≠ "") ∧
  (∀ c', sniffAndBlockProtocol bs env c = Ret c' →
     c' = PeekedConn c data ∨
     c' = c ∧ (data = [] ∨ BlockedProtocols o = [] ∨ sniff_deadline env ≠ None)) ∧
  (data = [] → sniffAndBlockProtocol bs env c = Ret c).
Proof.
  intros data. unfold sniffAndBlockProtocol. rewrite Ho. cbn [deref mbind outcome_bind].
  rewrite take_ge by done. fold data.
  assert (data = [] → sniffProtocol data = "") as Hnil by (intros ->; done).
  case_decide as Hb; [rewrite Hb; split_and!; [split; [by intros [? ?]|set_solver]|naive_solver|done]|].
  destruct (sniff_deadline env); [split_and!; [split; [by intros [? ?]|naive_solver]|naive_solver|done]|].
  case_decide as Hd; [split_and!; [split; [by intros [? ?]|naive_solver]|naive_solver|done]|].
  case_decide as Hp; (split_and!; [|naive_solver|done]); (split; [naive_solver|]); [eauto|].
  intros (_ & ? & ?). exfalso. by apply Hp.
Qed.

(** ** A concrete server for the witnesses *)

Definition sample_relay (transport : string) : Config :=
  mkConfig "r1" "0.0.0.0:1234" "raw" transport ["10.0.0.9:22"]
    (Some (mkOptions false true 1 [ProtocolTLS] 0 None (3 * Second) 3 (30 * Second) 30 (5 * Second) 5 Second 1)).

Definition sample_bs (k : relay_client) (transport : string) : BaseRelayServer :=
  mkBase (sample_relay transport) k true.

Definition sample_sv : server :=
  mkServer (NewRoundRobin [mkNode "10.0.0.9:22" 0]) sample_cm sample_netw ∅ 7.

(** The client sends [data] first; the dialer gives socket 5; both directions end at once. *)
Definition sample_env (data : bytes) : conn_env :=
  {| joinPath := λ a p, inl (a +:+ "/" +:+ p); print_base := Some; print_fragment := id;
     dial := λ _ _, inl 5%nat; latency := 12 * Millisecond;
     sniff_deadline := None; sniff_read := (data, None); copy_fuel := 3;
     copy_d1 := mkDirection [mkRead None [] (Some io_EOF) 1 None] [] 0 [];
     copy_d2 := mkDirection [mkRead None [] (Some io_EOF) 1 None] [] 0 [] |}.

Definition client_hello : bytes := [22; 3; 1; 2; 0; 1; 0; 1].

Lemma sniffAndBlock_spec_witness :
  ∃ e, sniffAndBlockProtocol (sample_bs RawClient "raw") (sample_env client_hello) (SockConn 4 true) = Err e.
Proof.
  eapply (sniffAndBlock_spec (sample_bs RawClient "raw") (sample_env client_hello) (SockConn 4 true));
    [reflexivity|apply Nat.leb_le; reflexivity|].
  split_and!; [done|vm_compute; constructor|done].
Defined.

Lemma sample_sv_fresh : fresh_ptr (sv_cm sample_sv) (sv_ptr sample_sv).
Proof. apply Forall_nil_2. Qed.

(** [C9] Whatever happens to a TCP connection (refused at the limit, blocked, handshake
    error, copy errors), when its handler returns the connection gauge is back where it
    was, the set of active connections too, and either nothing was dialed and the network
    state is untouched, or exactly one connection was added to the closed list and the
    dialed socket is closed. *)
Theorem RelayTCPConn_balanced (bs : BaseRelayServer) (env : conn_env) (c : conn) (remote : node_ptr)
    (sv sv' : server) (res : outcome unit)
    (Hcm : bs_cmgr bs = true) (Hfresh : fresh_ptr (sv_cm sv) (sv_ptr sv))
    (Hrun : RelayTCPConn bs env c remote sv = Some (res, sv')) :
  ∃ new, relay_balanced bs env sv sv' new ∧ (res = Ret tt → new ≠ []).
Proof. by eapply RelayTCPConn_balanced_aux. Qed.

Lemma RelayTCPConn_balanced_witness :
  match RelayTCPConn (sample_bs RawClient "raw") (sample_env []) (SockConn 4 true) (InList 0) sample_sv with
  | Some (res, sv') => res = Ret tt ∧ ∃ new, relay_balanced (sample_bs RawClient "raw") (sample_env []) sample_sv sv' new
  | None => False
  end.
Proof.
  destruct (RelayTCPConn (sample_bs RawClient "raw") (sample_env []) (SockConn 4 true) (InList 0) sample_sv)
    as [[res sv']|] eqn:E; [|vm_compute in E; discriminate].
  destruct (RelayTCPConn_balanced (sample_bs RawClient "raw") (sample_env []) (SockConn 4 true) (InList 0)
    sample_sv sv' res eq_refl sample_sv_fresh E) as (new & H & _).
  split; [vm_compute in E; congruence|eauto].
Defined.

(** The raw TCP accept loop closes the client's socket on every path, errors and
    panics included. *)
Theorem serveTCP_closes_client (bs : BaseRelayServer) (env : conn_env) (c : conn) (sv sv' : server)
    (res : outcome unit) (Hrun : RawServer_serveTCP bs env c sv = Some (res, sv')) :
  base_closed c (sv_net sv') = true.
Proof.
  unfold RawServer_serveTCP in Hrun. destruct (roundrobin_Next (sv_rr sv)) as [p rr].
  apply bind_Some in Hrun as ([res1 sv1] & _ & Heq).
  assert (deferred_Close c (res1, sv1) = (res, sv')) as Hd by congruence.
  pose proof (deferred_Close_frame c res1 sv1) as (_ & _ & H). by rewrite Hd in H.
Qed.

Lemma serveTCP_closes_client_witness :
  match RawServer_serveTCP (sample_bs RawClient "raw") (sample_env client_hello) (SockConn 4 true) sample_sv with
  | Some (_, sv') => base_closed (SockConn 4 true) (sv_net sv') = true
  | None => False
  end.
Proof.
  destruct (RawServer_serveTCP (sample_bs RawClient "raw") (sample_env client_hello) (SockConn 4 true) sample_sv)
    as [[res sv']|] eqn:E; [|vm_compute in E; discriminate].
  exact (serveTCP_closes_client _ _ _ _ _ _ E).
Defined.

(** The WebSocket and UDP handlers have no such close: when the relay ends before the
    transport starts (limit, blocked protocol, failed handshake) the hijacked socket stays
    open and its buffer is not returned, and a UDP client's channel stays registered, so
    its later datagrams go to a connection nobody reads. *)
Theorem rejected_not_closed (bs : BaseRelayServer) (env : conn_env) (fd u : nat) (sv : server)
    (o : Options) (e : error)
    (Ho : Config_Options (bs_cfg bs) = Some o)
    (Hfd : fd ∉ closed_fds (sv_net sv)) (Hu : u ∉ closed_ucs (sv_net sv))
    (Hdial : ∀ net addr, dial env net addr = inr e) :
  (∀ query res sv', Values_Get query WS_QUERY_REMOTE_ADDR ≠ "" →
     (Values_Get query "type" = "udp" → EnableUDP o = true) →
     WsServer_handleRequest bs env (inl fd) query sv = Some (res, sv') →
     fd ∉ closed_fds (sv_net sv') ∧ BufferPool (sv_net sv') = snd (BytePool_Get (BufferPool (sv_net sv)))) ∧
  (∀ res sv', RawServer_serveUDP bs env (UcConn u) sv = Some (res, sv') → u ∉ closed_ucs (sv_net sv')).
Proof.
  assert (Hfail : ∀ remote isTCP sv c sv1, HandShake bs env remote isTCP sv ≠ (Ret c, sv1)).
  { intros remote isTCP sv0 c sv1 Hh. apply HandShake_conn in Hh as (? & ? & ? & Hd & _). by rewrite Hdial in Hd. }
  assert (Hsame : ∀ remote isTCP sv r sv1, HandShake bs env remote isTCP sv = (r, sv1) → sv_net sv1 = sv_net sv).
  { intros remote isTCP sv0 r sv1 Hh. destruct r as [c| |]; [by apply Hfail in Hh|..];
      apply HandShake_frame in Hh as (_ & _ & _ & _ & _ & Hs); by rewrite Hs. }
  assert (Hudp : ∀ c remote sv res sv', RelayUDPConn bs env c remote sv = Some (res, sv') → sv_net sv' = sv_net sv).
  { intros c remote sv0 res sv'. unfold RelayUDPConn. set (k := (_, _, _)).
    destruct (HandShake bs env remote false (gauge_add k 1 sv0)) as [[rc|e'|p] sv1] eqn:Hh;
      [by apply Hfail in Hh|..]; intros [= <- <-]; simpl; by apply Hsame in Hh. }
  assert (Htcp : ∀ c remote sv res sv', RelayTCPConn bs env c remote sv = Some (res, sv') → sv_net sv' = sv_net sv).
  { intros c remote sv0 res sv'. unfold RelayTCPConn. set (k := (_, _, _)).
    destruct (_ ← checkConnectionLimit _ _; _) as [c'|e'|p]; [|by intros [= <- <-]..].
    destruct (HandShake bs env remote true (gauge_add k 1 sv0)) as [[rc|e'|p] sv1] eqn:Hh;
      [by apply Hfail in Hh|..]; intros [= <- <-]; simpl; by apply Hsame in Hh. }
  split.
  - intros query res sv' Hr Ht. unfold WsServer_handleRequest. rewrite decide_True by done.
    unfold NewWSConn. destruct (BytePool_Get (BufferPool (sv_net sv))) as [b bp].
    case_decide as Hudp'.
    + rewrite Ho, (Ht Hudp'). cbn [negb]. intros H. apply Hudp in H. by rewrite H.
    + intros H. apply Htcp in H. by rewrite H.
  - intros res sv'. unfold RawServer_serveUDP. destruct (roundrobin_Next (sv_rr sv)) as [[i|e'|p] rr];
      [intros H; apply Hudp in H; by rewrite H|by intros [= <- <-]..].
Qed.

Definition refused_env : conn_env :=
  {| joinPath := λ a p, inl (a +:+ "/" +:+ p); print_base := Some; print_fragment := id;
     dial := λ _ _, inr (Errorf "connection refused"); latency := 0;
     sniff_deadline := None; sniff_read := ([], None); copy_fuel := 0;
     copy_d1 := mkDirection [] [] 0 []; copy_d2 := mkDirection [] [] 0 [] |}.

Lemma rejected_not_closed_witness :
  match RawServer_serveUDP (sample_bs RawClient "raw") refused_env (UcConn 0) sample_sv with
  | Some (res, sv') => res = handshake_error (Errorf "connection refused") ∧ 0%nat ∉ closed_ucs (sv_net sv')
  | None => False
  end.
Proof.
  destruct (RawServer_serveUDP (sample_bs RawClient "raw") refused_env (UcConn 0) sample_sv)
    as [[res sv']|] eqn:E; [|vm_compute in E; discriminate].
  split; [vm_compute in E; inversion E; reflexivity|].
  refine (proj2 (rejected_not_closed (sample_bs RawClient "raw") refused_env 4 0 sample_sv _
    (Errorf "connection refused") eq_refl _ _ _) res sv' E); [apply not_elem_of_nil..|reflexivity].
Defined.

(** Over a WebSocket remote the handler returns the remote's buffer to the pool
    twice, because [Transport] closes both connections and the deferred [rc.Close] closes
    the remote again: after every completed relay the pool ends with the same slice twice,
    which later hands one buffer to two connections. *)
Theorem RelayTCPConn_double_put (bs : BaseRelayServer) (env : conn_env) (c : conn) (remote : node_ptr)
    (sv sv' : server) (fd : nat)
    (Hws : bs_relayer bs ≠ RawClient) (Hc : conn_base c = inl fd)
    (Hroom : room (length (conn_bufs c) + 4) (BufferPool (sv_net sv)))
    (Hrun : RelayTCPConn bs env c remote sv = Some (Ret tt, sv')) :
  ∃ pre b, pool_c (BufferPool (sv_net sv')) = pre ++ [b; b].
Proof.
  unfold RelayTCPConn in Hrun. set (k := (_, _, _)) in Hrun.
  apply bind_Some in Hrun as ([res1 sv1] & Hrun & [= -> <-]). cbn [sv_net gauge_add].
  destruct (_ ← checkConnectionLimit _ _; _) as [c'|e|p] eqn:Hg; [|done..].
  assert (conn_base c' = inl fd ∧ conn_bufs c' = conn_bufs c) as [Hc' Hb'].
  { inv_outcome. unfold sniffAndBlockProtocol, applyRateLimit in *. inv_outcome.
    repeat case_decide; simplify_eq/=; repeat case_match; simplify_eq/=; done. }
  destruct (HandShake bs env remote true (gauge_add k 1 sv)) as [[rc|e|p] sv2] eqn:Hh; [|done..].
  apply HandShake_conn in Hh as (fd' & net & addr & _ & _ & Hbuf).
  assert (∃ b, conn_bufs rc = [b] ∧ room (length (conn_bufs c) + 4) (BufferPool (sv_net sv2))) as (b & Hrc & Hroom2).
  { destruct (bs_relayer bs); [done|..]; destruct Hbuf as (b & bp & ? & Hget & ->);
      exists b; (split; [done|]); by eapply Get_room. }
  clear Hbuf. apply fmap_Some in Hrun as ([res2 sv3] & Hh & Heq). unfold handleRelayConn in Hh.
  apply bind_Some in Hh as ([[res' rc'] w] & Htr & [= <- <-]).
  assert (BufferPool (sv_net (if bs_cmgr bs
    then set_cm (cmgrImpl_AddConnection (sv_cm sv2) (mkRconn (sv_ptr sv2) (Label (bs_cfg bs)))) sv2
    else sv2)) = BufferPool (sv_net sv2)) as Hsv2 by by destruct (bs_cmgr bs).
  eapply Transport_pool with (k := 1%nat) in Htr as (pre & Hpre & Hroom3); [|by simpl; eauto|done|].
  - unfold deferred_Close in Heq.
    set (sv4 := if bs_cmgr bs then _ else set_net w _) in Heq.
    assert (sv_net sv4 = w) as Hw by (subst sv4; by destruct (bs_cmgr bs)).
    rewrite Hw in Heq. pose proof (conn_Close_pool rc w) as Hp. rewrite Hrc in Hp.
    destruct (conn_Close rc w) as [closed w']. simpl in *. simplify_eq. simpl.
    exists pre, b. rewrite Hp. destruct (Put_room 0 (BufferPool w) b Hroom3) as [-> _].
    by rewrite Hpre, <- (assoc app).
  - simpl. rewrite Hb'. destruct (bs_cmgr bs); simpl; unfold room in *; lia.
Qed.

Lemma RelayTCPConn_double_put_witness :
  match RelayTCPConn (sample_bs WsClient "ws") (sample_env []) (SockConn 4 true) (InList 0) sample_sv with
  | Some (res, sv') => res = Ret tt ∧ ∃ pre b, pool_c (BufferPool (sv_net sv')) = pre ++ [b; b]
  | None => False
  end.
Proof.
  destruct (RelayTCPConn (sample_bs WsClient "ws") (sample_env []) (SockConn 4 true) (InList 0) sample_sv)
    as [[res sv']|] eqn:E; [|vm_compute in E; discriminate].
  assert (res = Ret tt) as -> by (vm_compute in E; inversion E; reflexivity).
  split; [reflexivity|].
  refine (RelayTCPConn_double_put (sample_bs WsClient "ws") (sample_env []) (SockConn 4 true) (InList 0)
    sample_sv sv' 4 _ eq_refl _ E); [discriminate|apply Nat.leb_le; reflexivity].
Defined.

(** The client and server kinds of a configuration with known types. *)
Lemma relay_kinds cfg cmgr o :
  Config_Options cfg = Some o → is_relay_type (ListenType cfg) → is_relay_type (TransportType cfg) →
  ∃ srv client, NewRelayServer cfg cmgr = Ret (srv, mkBase cfg client cmgr, Config_ToRemotesLB cfg) ∧
    (client = RawClient ↔ TransportType cfg = RelayTypeRaw) ∧
    (client = WssClient ↔ TransportType cfg = RelayTypeWSS) ∧
    (srv = RawServer ↔ ListenType cfg = RelayTypeRaw) ∧
    (srv = WssServer ↔ ListenType cfg = RelayTypeWSS).
Proof.
  unfold is_relay_type, NewRelayServer, newBaseRelayServer, newRelayClient. intros ->.
  intros [->|[-> | ->]] [->|[-> | ->]]; eexists _, _; (split; [reflexivity|]); naive_solver.
Qed.



(** The count checked is the whole manager's, so it grows with every admission. *)
Lemma limit_all_pass bs cm n pcs :
  checkConnectionLimit bs cm = Ret tt →
  rtc (limit_step bs) (cm, pcs ++ replicate n LmBefore) (cm, pcs ++ replicate n LmPassed).
Proof.
  intros Hc. revert pcs. induction n as [|n IH]; intros pcs; [by apply rtc_refl|]. simpl.
  eapply rtc_l.
  - apply (lm_pass bs cm (pcs ++ LmBefore :: replicate n LmBefore) (length pcs)); [|done].
    rewrite lookup_app_r, Nat.sub_diag by lia. done.
  - rewrite insert_app_r_alt, Nat.sub_diag by lia. simpl.
    rewrite !(cons_middle LmPassed), !(assoc app). apply IH.
Qed.

Lemma limit_all_add bs n cm pcs :
  ∃ cm', rtc (limit_step bs) (cm, pcs ++ replicate n LmPassed) (cm', pcs ++ replicate n LmActive) ∧
    cmgrImpl_CountConnection cm' ConnectionTypeActive =
    cmgrImpl_CountConnection cm ConnectionTypeActive + Z.of_nat n.
Proof.
  revert cm pcs. induction n as [|n IH]; intros cm pcs; [exists cm; split; [apply rtc_refl|lia]|].
  destruct (IH (cmgrImpl_AddConnection cm (mkRconn (length pcs) (Label (bs_cfg bs)))) (pcs ++ [LmActive]))
    as (cm' & Hr & Hn).
  exists cm'. split; [|rewrite Hn, count_active_Add; lia]. eapply rtc_l.
  - apply (lm_add bs cm _ (length pcs)). simpl. by rewrite lookup_app_r, Nat.sub_diag by lia.
  - simpl. rewrite insert_app_r_alt, Nat.sub_diag by lia. simpl.
    rewrite (cons_middle LmActive), (cons_middle LmActive _ (replicate n LmActive)), !(assoc app). exact Hr.
Qed.

Lemma checkConnectionLimit_Ret bs cm o :
  bs_cmgr bs = true → Config_Options (bs_cfg bs) = Some o → 0 < MaxConnection o →
  checkConnectionLimit bs cm = Ret tt ↔
  cmgrImpl_CountConnection cm ConnectionTypeActive < MaxConnection o.
Proof.
  intros Hcm Ho Hmax. unfold checkConnectionLimit. rewrite Hcm, Ho. simpl.
  case_decide; (split; [intros; try done; lia|]); intros; (done || lia).
Qed.

(** The connection limit is checked and the connection registered later, so the limit
    does not bound concurrent connections: any number of goroutines can pass the check
    before the first registers.  Done in one atomic step the same check would keep the
    count within the limit. *)
Theorem limit_race (bs : BaseRelayServer) (o : Options) (cm : cmgrImpl) (n : nat)
    (Hcm : bs_cmgr bs = true) (Ho : Config_Options (bs_cfg bs) = Some o) (Hmax : 0 < MaxConnection o)
    (Hcount : cmgrImpl_CountConnection cm ConnectionTypeActive < MaxConnection o) :
  (∃ cm', rtc (limit_step bs) (cm, replicate n LmBefore) (cm', replicate n LmActive) ∧
     cmgrImpl_CountConnection cm' ConnectionTypeActive =
     cmgrImpl_CountConnection cm ConnectionTypeActive + Z.of_nat n) ∧
  (∀ i, cmgrImpl_CountConnection (admit_atomically bs n i cm) ConnectionTypeActive ≤ MaxConnection o).
Proof.
  split.
  - destruct (limit_all_add bs n cm []) as (cm' & Hr & Hn). exists cm'. split; [|done].
    etrans; [|exact Hr]. apply (limit_all_pass bs cm n []). by eapply checkConnectionLimit_Ret.
  - assert (cmgrImpl_CountConnection cm ConnectionTypeActive ≤ MaxConnection o) as Hle by lia.
    clear Hcount. revert cm Hle. induction n as [|n IH]; intros cm Hle i; [done|]. simpl. apply IH.
    pose proof (checkConnectionLimit_Ret bs cm o Hcm Ho Hmax) as Hc.
    destruct (checkConnectionLimit bs cm) as [[]| |]; [|done..].
    rewrite count_active_Add. pose proof (proj1 Hc eq_refl). lia.
Qed.

Lemma limit_race_witness :
  ∃ cm', rtc (limit_step (sample_bs RawClient "raw")) (sample_cm, replicate 5 LmBefore) (cm', replicate 5 LmActive) ∧
     cmgrImpl_CountConnection cm' ConnectionTypeActive = 5.
Proof. eapply (limit_race (sample_bs RawClient "raw") _ sample_cm 5 eq_refl eq_refl); reflexivity. Defined.

(** The limit is a setting of one relay, and its error names the relay, but what is compared
    with it is the number of active connections of all relays: the relay's own, which the
    manager could tell ([GetActiveConnectCntByRelayLabel]), and everybody else's.  Other
    relays alone can therefore shut out every connection of this one. *)
Theorem limit_counts_all_relays (bs : BaseRelayServer) (o : Options) (cm : cmgrImpl)
    (Hcm : bs_cmgr bs = true) (Ho : Config_Options (bs_cfg bs) = Some o) (Hmax : 0 < MaxConnection o) :
  let own := cmgrImpl_GetActiveConnectCntByRelayLabel cm (Label (bs_cfg bs)) in
  let others := count_connections (delete (Label (bs_cfg bs)) (activeConnectionsMap cm)) in
  (checkConnectionLimit bs cm = Ret tt ↔ own + others < MaxConnection o) ∧
  (MaxConnection o ≤ others → ∀ cs,
     checkConnectionLimit bs
       {| cm_cfg := cm_cfg cm; activeConnectionsMap := <[Label (bs_cfg bs) := cs]> (activeConnectionsMap cm);
          closedConnectionsMap := closedConnectionsMap cm; cm_ms := cm_ms cm |} ≠ Ret tt).
Proof.
  intros own others.
  assert (Hsum : ∀ m l, count_connections m = Z.of_nat (length (default [] (m !! l))) + count_connections (delete l m)).
  { intros m l. rewrite !count_connections_length. destruct (m !! l) as [cs|] eqn:E; simpl.
    - rewrite <- (insert_delete_id m l cs E) at 1. rewrite conns_of_insert, length_app.
      rewrite delete_delete_eq. lia.
    - rewrite delete_id by done. lia. }
  split.
  - rewrite (checkConnectionLimit_Ret bs cm o) by done. unfold cmgrImpl_CountConnection, cmgrImpl_countActiveConnection.
    rewrite decide_True, (Hsum _ (Label (bs_cfg bs))) by done. done.
  - intros Hle cs H. apply (checkConnectionLimit_Ret _ _ o) in H; [|done..].
    unfold cmgrImpl_CountConnection, cmgrImpl_countActiveConnection in H. rewrite decide_True in H by done.
    cbn [activeConnectionsMap] in H. rewrite (Hsum _ (Label (bs_cfg bs))), delete_insert_eq in H. subst others. lia.
Qed.

Lemma limit_counts_all_relays_witness :
  checkConnectionLimit (sample_bs RawClient "raw") (cmgrImpl_AddConnection sample_cm (mkRconn 0 "other")) ≠ Ret tt.
Proof.
  destruct (limit_counts_all_relays (sample_bs RawClient "raw") _ (cmgrImpl_AddConnection sample_cm (mkRconn 0 "other"))
    eq_refl eq_refl eq_refl) as [H _]. intros Hr. apply H in Hr. vm_compute in Hr. discriminate.
Defined.

(** A health check takes a turn of the balancer, leaves every node's latency alone and
    reports the clone's; it never closes the connection it opened, so each successful
    check leaks a socket (and, over WebSocket, a buffer). *)
Theorem HealthCheck_spec (bs : BaseRelayServer) (env : conn_env) (sv sv' : server) (ms : Z) (err : option error)
    (Hrun : BaseRelayServer_HealthCheck bs env sv = (Ret (ms, err), sv')) :
  nodeList (sv_rr sv') = nodeList (sv_rr sv) ∧ next (sv_rr sv') = wrap64 (next (sv_rr sv) + 1) ∧
  closed_fds (sv_net sv') = closed_fds (sv_net sv) ∧
  (err = None → ms = Duration_Milliseconds (latency env) ∧
     ∃ fd net addr, dial env net addr = inl fd ∧ (fd ∉ closed_fds (sv_net sv) → fd ∉ closed_fds (sv_net sv'))).
Proof.
  unfold BaseRelayServer_HealthCheck in Hrun. destruct (roundrobin_Next (sv_rr sv)) as [p rr] eqn:Hn.
  assert (nodeList rr = nodeList (sv_rr sv) ∧ next rr = wrap64 (next (sv_rr sv) + 1)) as [Hnl Hnx].
  { unfold roundrobin_Next in Hn. by simplify_eq/=. }
  destruct p as [i|e|p]; [|done..]. cbv zeta in Hrun.
  set (sv0 := set_rr rr sv) in *.
  assert (Hrr : ∀ n r sv1, HandShake bs env (Fresh n) true sv0 = (r, sv1) → sv_rr sv1 = rr).
  { intros n r sv1. unfold HandShake, RawClient_HandShake, WsClient_HandShake, NewWSConn.
    destruct (bs_relayer bs); repeat case_match; intros; by simplify_eq/=. }
  destruct (HandShake bs env (Fresh _) true sv0) as [[rc|e|p] sv1] eqn:Hh; [..|done];
    injection Hrun as <- <- <-; pose proof (Hrr _ _ _ Hh) as ->;
    pose proof (HandShake_frame _ _ _ _ _ _ _ Hh) as (_ & _ & _ & Hcl & _).
  - rewrite Hcl. split_and!; [done..|]. intros _. split; [done|].
    apply HandShake_conn in Hh as (fd & net & addr & Hd & _). by exists fd, net, addr.
  - by rewrite Hcl.
Qed.

Lemma HealthCheck_spec_witness :
  match BaseRelayServer_HealthCheck (sample_bs WsClient "ws") (sample_env []) sample_sv with
  | (Ret (ms, err), sv') => ms = 12 ∧ next (sv_rr sv') = 1
  | _ => False
  end.
Proof.
  destruct (BaseRelayServer_HealthCheck (sample_bs WsClient "ws") (sample_env []) sample_sv)
    as [[[ms err]| |] sv'] eqn:E; [|vm_compute in E; discriminate..].
  destruct (HealthCheck_spec (sample_bs WsClient "ws") (sample_env []) sample_sv sv' ms err E) as (_ & H & _).
  split; [vm_compute in E; inversion E; reflexivity|exact H].
Defined.

(** Stopping a raw server whose [ListenAndServe] has not opened its listener yet
    panics; after it, [Close] joins the errors of the listeners it has.  When the UDP listener cannot be opened,
    [ListenAndServe] fails with the TCP listener left open. *)
Theorem RawServer_lifecycle (cfg : Config) (tcp udp : nat + error) (e1 e2 : option error) :
  RawServer_Close (mkRawListeners None None) e1 e2 = Panic NilDereference ∧
  (let '(res, s) := RawServer_ListenAndServe cfg tcp udp (mkRawListeners None None) in
   (res = Ret tt → ∃ ts, tcp = inl ts ∧ tcpLis s = Some ts ∧
      RawServer_Close s e1 e2 = Ret (if udpLis s then errors_Join e1 e2 else e1) ∧
      (is_Some (udpLis s) ↔ ∃ o, Config_Options cfg = Some o ∧ EnableUDP o = true)) ∧
   (∀ o ts e, Config_Options cfg = Some o → EnableUDP o = true → tcp = inl ts → udp = inr e →
      res = Err e ∧ tcpLis s = Some ts)).
Proof.
  split; [done|]. unfold RawServer_ListenAndServe, RawServer_Close.
  destruct tcp as [ts|e]; [|split; [done|by intros ? ? ? _ _ [=]]].
  destruct (Config_Options cfg) as [o|] eqn:Ho.
  - destruct (EnableUDP o) eqn:He.
    + destruct udp as [u|e]; [|split; [done|by intros ? ? ? _ _ [= <-] [= <-]]].
      split; [|by intros ? ? ? _ _ _ [=]]. intros _. exists ts. simpl.
      split_and!; try done. split; [intros _; by exists o|intros _; by eexists].
    + split; [|intros ? ? ? [= <-]; congruence]. intros _. exists ts. simpl. split_and!; try done.
      split; [by intros [? ?]|intros (? & ? & ?); congruence].
  - split; [|by intros ? ? ? [=]]. intros _. exists ts. simpl. split_and!; try done.
    split; [by intros [? ?]|intros (? & ? & ?); congruence].
Qed.
