(* ===== verification/WsUrl.v ===== *)
(** * internal/transporter/ws.go: what the client asks for and what the server understands

    A WebSocket client names the next hop in the query of the address it dials
    ([cfg.go:GetWSRemoteAddr], [addUDPQueryParam]); the server of the next relay reads it
    back from the request ([handleRequest]).  The two halves of [Transporter] are put
    together here over the query language of [Url]: what the server relays to is what the
    client was configured with, and what becomes of an address the query cannot carry. *)

From S2P Require Import Prelude GoStd Url Lb Conf Buffer Net RelayConn Cmgr Transporter.

(** ** The two ends *)

Definition with_dial (d : bool → string → nat + error) (env : conn_env) : conn_env :=
  {| joinPath := joinPath env; print_base := print_base env; print_fragment := print_fragment env;
     dial := d; latency := latency env; sniff_deadline := sniff_deadline env;
     sniff_read := sniff_read env; copy_fuel := copy_fuel env; copy_d1 := copy_d1 env;
     copy_d2 := copy_d2 env |}.

(** The client dials [addr] and nothing else, whatever the network answers. *)
Definition client_dials (tls : bool) (cfg : Config) (env : conn_env) (remote : node_ptr) (isTCP : bool)
    (sv : server) (addr : string) : Prop :=
  ∀ d, WsClient_HandShake tls cfg (with_dial d env) remote isTCP sv =
    match d true addr with
    | inr err => (Err err, sv)
    | inl fd =>
        let sv := store_latency remote (latency env) sv in
        let (c, w) := NewWSConn (SockConn fd (negb tls)) false (sv_net sv) in
        (Ret c, set_net w sv)
    end.

(** The request for [addr]: the server's [req.URL.Query()] is the query of the address. *)
Definition WsServer_serve (bs : BaseRelayServer) (env : conn_env) (upgrade : nat + error)
    (addr : string) (sv : server) : option (outcome unit * server) :=
  WsServer_handleRequest bs env upgrade (ParseQuery (RawQuery addr)) sv.

(** A request is relayed to [remote] as TCP or UDP. *)
Definition relayed_as (isTCP : bool) (bs : BaseRelayServer) (env : conn_env) (fd : nat) (remote : Node)
    (sv : server) (r : option (outcome unit * server)) : Prop :=
  let (c, w) := NewWSConn (SockConn fd false) true (sv_net sv) in
  r = (if isTCP then RelayTCPConn else RelayUDPConn) bs env c (Fresh remote) (set_net w sv).

(** What the query carries unchanged: printable ASCII without [%], [+], [&], [;] and [#].
    Host names, IPv4 and bracketed IPv6 addresses with a port are of this kind. *)
Definition addr_char (c : ascii) : bool :=
  in_range 33 126 c && negb (bool_decide (c ∈ ["%"; "+"; "&"; ";"; "#"]%char)).

(** [net/url] prints a scheme, host and path without a question mark. *)
Definition base_ok (env : conn_env) : Prop := ∀ b b', print_base env b = Some b' → free_of "?" b'.

(** ** Lemmas *)

Lemma addr_char_not c s : addr_char c = false → all_chars addr_char s = true → free_of c s.
Proof.
  intros Hc. apply all_chars_impl. intros x Hx. case_bool_decide; [congruence|done].
Qed.

Lemma addr_char_plain s : all_chars addr_char s = true → all_chars plain s = true.
Proof.
  apply all_chars_impl. intros x. unfold addr_char, plain.
  intros [_ Hx%negb_true_iff%bool_decide_eq_false]%andb_true_iff.
  apply negb_true_iff, bool_decide_eq_false. set_solver.
Qed.

Definition remote_query (ra : string) : string := WS_QUERY_REMOTE_ADDR +:+ "=" +:+ ra.

Lemma remote_query_free c ra :
  free_of c ra → all_chars (λ x, negb (bool_decide (x = c))) (WS_QUERY_REMOTE_ADDR +:+ "=") = true →
  free_of c (remote_query ra).
Proof.
  intros Hra Hk. unfold remote_query. rewrite !all_chars_app in *. by rewrite Hra, andb_true_r.
Qed.

(** What the server makes of the address in the query. *)
Lemma ParseQuery_remote ra :
  free_of "&" ra → free_of ";" ra →
  ParseQuery (remote_query ra) =
    match QueryUnescape ra with Some r => {[ WS_QUERY_REMOTE_ADDR := [r] ]} | None => ∅ end.
Proof.
  intros Ha Hs. unfold ParseQuery. rewrite Split_free by (apply remote_query_free; done).
  cbn [omap list_omap]. unfold parse_pair. rewrite remote_query_free by done. cbn [negb].
  rewrite decide_False by done. unfold remote_query.
  change (WS_QUERY_REMOTE_ADDR +:+ "=" +:+ ra) with ("remote_addr" +:+ String "=" ra).
  rewrite Cut_app by done. cbn [default from_option id].
  change (QueryUnescape "remote_addr") with (Some WS_QUERY_REMOTE_ADDR).
  cbn [mbind option_bind]. destruct (QueryUnescape ra) as [r|]; done.
Qed.

Lemma client_dials_spec tls cfg env remote isTCP sv addr :
  Config_GetWSRemoteAddr cfg (joinPath env) (Address (load_node sv remote)) = Ret addr →
  client_dials tls cfg env remote isTCP sv
    (if isTCP then addr else WsClient_addUDPQueryParam env addr).
Proof.
  intros H d. unfold WsClient_HandShake. cbn [joinPath with_dial latency dial]. rewrite H.
  change (WsClient_addUDPQueryParam (with_dial d env) addr) with (WsClient_addUDPQueryParam env addr). done.
Qed.

(** The UDP address carries the query of the TCP address and the type. *)
Lemma udp_query env addr :
  base_ok env → is_Some (print_base env (Cut "?" addr).1) → free_of "#" addr →
  ParseQuery (RawQuery (WsClient_addUDPQueryParam env addr)) =
    Values_Set (ParseQuery (RawQuery addr)) "type" "udp".
Proof.
  intros Hb [b Hp] Hf. unfold WsClient_addUDPQueryParam.
  destruct (map_query _ _ _ addr) as [addr'|] eqn:E.
  - apply (map_query_RawQuery _ _ _ _ _ Hf) in E; [done|done|]. apply Set_proper, ParseQuery_proper.
  - unfold map_query in E. rewrite Cut_free in E by done.
    destruct (Cut "?" addr) as [base q]. simpl in Hp. by rewrite Hp in E.
Qed.

(** The address the client dials, for a base without query and fragment. *)
Lemma ws_dialled cfg env base b w :
  joinPath env base (Config_GetWSHandShakePath cfg) = inl b →
  Config_Options cfg ≫= Options_WSConfig = Some w → RemoteAddr w ≠ "" →
  Config_GetWSRemoteAddr cfg (joinPath env) base = Ret (b +:+ "?" +:+ remote_query (RemoteAddr w)).
Proof. intros Hj Hw Hr. unfold Config_GetWSRemoteAddr. by rewrite Hj, Hw, decide_True by done. Qed.

Lemma handleRequest_remote (isTCP : bool) bs env fd sv query ra :
  Values_Get query WS_QUERY_REMOTE_ADDR = ra → ra ≠ "" →
  Values_Get query "type" = (if isTCP then "" else "udp") →
  (isTCP = false → ∃ o, Config_Options (bs_cfg bs) = Some o ∧ EnableUDP o = true) →
  relayed_as isTCP bs env fd {| Address := ra; HandShakeDuration := 0 |} sv
    (WsServer_handleRequest bs env (inl fd) query sv).
Proof.
  intros Hra Hne Ht Ho. unfold WsServer_handleRequest, relayed_as. rewrite Hra, Ht, decide_True by done.
  destruct isTCP; [rewrite decide_False by done|rewrite decide_True by done].
  - by destruct (NewWSConn _ _ _).
  - destruct (Ho eq_refl) as (o & -> & ->). by destruct (NewWSConn _ _ _).
Qed.

(** The query at the server, for either kind of connection. *)
Lemma served_query env b ra (isTCP : bool) :
  base_ok env → is_Some (print_base env b) → free_of "?" b → free_of "#" b →
  free_of "&" ra → free_of ";" ra → free_of "#" ra →
  let addr := b +:+ "?" +:+ remote_query ra in
  let q := ParseQuery (RawQuery (if isTCP then addr else WsClient_addUDPQueryParam env addr)) in
  Values_Get q WS_QUERY_REMOTE_ADDR = default "" (QueryUnescape ra) ∧
  Values_Get q "type" = (if isTCP then "" else "udp").
Proof.
  intros Hb Hp Hbq Hbh Ha Hs Hh addr q.
  assert (Hq : ParseQuery (RawQuery addr) =
    match QueryUnescape ra with Some r => {[ WS_QUERY_REMOTE_ADDR := [r] ]} | None => ∅ end).
  { subst addr. by rewrite RawQuery_app, ParseQuery_remote. }
  assert (q = if isTCP then ParseQuery (RawQuery addr) else Values_Set (ParseQuery (RawQuery addr)) "type" "udp") as ->.
  { subst q. destruct isTCP; [done|]. apply udp_query; [done|..].
    - subst addr. change ("?" +:+ remote_query ra) with (String "?" (remote_query ra)). by rewrite Cut_app.
    - subst addr. rewrite !all_chars_app, Hbh. cbn [all_chars andb].
      by rewrite bool_decide_eq_false_2, remote_query_free by done. }
  destruct isTCP; [|rewrite !Get_Set, (decide_True (P := "type" = "type")) by done; rewrite decide_False by done];
    rewrite Hq; split; by destruct (QueryUnescape ra).
Qed.

(** ** Theorems *)

(** [C37] The next hop survives the trip through the WebSocket address: a client configured
    with a remote address of ordinary characters dials one address, and the server that
    receives the request for it relays to exactly that remote, as TCP or, for a UDP
    connection, as UDP; its own balancer is not consulted. *)
Theorem ws_remote_agrees (tls isTCP : bool) (cfg : Config) (w : WSConfig) (env : conn_env)
    (remote : node_ptr) (sv : server) (b : string)
    (Hw : Config_Options cfg ≫= Options_WSConfig = Some w)
    (Hne : RemoteAddr w ≠ "") (Hchars : all_chars addr_char (RemoteAddr w) = true)
    (Hjoin : joinPath env (Address (load_node sv remote)) (Config_GetWSHandShakePath cfg) = inl b)
    (Hbase : free_of "?" b) (Hfrag : free_of "#" b) (Hok : base_ok env) (Hprint : is_Some (print_base env b)) :
  ∃ addr, client_dials tls cfg env remote isTCP sv addr ∧
    ∀ bs env' fd sv',
      (isTCP = false → ∃ o, Config_Options (bs_cfg bs) = Some o ∧ EnableUDP o = true) →
      relayed_as isTCP bs env' fd {| Address := RemoteAddr w; HandShakeDuration := 0 |} sv'
        (WsServer_serve bs env' (inl fd) addr sv').
Proof.
  eexists. split; [by eapply client_dials_spec, ws_dialled|]. intros bs env' fd sv' Ho.
  destruct (served_query env b (RemoteAddr w) isTCP) as [Hr Ht]; try done; try (by apply addr_char_not).
  rewrite QueryUnescape_plain in Hr by (by apply addr_char_plain).
  by apply handleRequest_remote.
Qed.

(** ** A concrete client and server for the witnesses *)

Definition ws_cfg (ra : string) : Config :=
  mkConfig "hop" "0.0.0.0:1234" "raw" "ws" ["ws://10.0.0.2:2443"]
    (Some (mkOptions true false 0 [] 0 (Some (mkWSConfig "handshake/" ra))
             (3 * Second) 3 (30 * Second) 30 (5 * Second) 5 Second 1)).

Definition url_env : conn_env :=
  {| joinPath := λ a p, inl (a +:+ "/" +:+ p);
     print_base := λ b, if all_chars (λ c, negb (bool_decide (c = "?"%char))) b then Some b else None;
     print_fragment := id; dial := λ _ _, inl 5%nat; latency := 12 * Millisecond;
     sniff_deadline := None; sniff_read := ([], None); copy_fuel := 3;
     copy_d1 := mkDirection [mkRead None [] (Some io_EOF) 1 None] [] 0 [];
     copy_d2 := mkDirection [mkRead None [] (Some io_EOF) 1 None] [] 0 [] |}.

Lemma url_env_ok : base_ok url_env.
Proof. intros b b'. simpl. destruct (all_chars _ b) eqn:E; [by intros [= <-]|done]. Qed.

Definition ws_client_sv : server := set_rr (NewRoundRobin [mkNode "ws://10.0.0.2:2443" 0]) sample_sv.

Lemma ws_remote_agrees_witness :
  ∃ addr, client_dials false (ws_cfg "[2001:db8::1]:443") url_env (InList 0) false ws_client_sv addr ∧
    ∀ bs env' fd sv',
      (false = false → ∃ o, Config_Options (bs_cfg bs) = Some o ∧ EnableUDP o = true) →
      relayed_as false bs env' fd {| Address := "[2001:db8::1]:443"; HandShakeDuration := 0 |} sv'
        (WsServer_serve bs env' (inl fd) addr sv').
Proof.
  eapply (ws_remote_agrees false false (ws_cfg "[2001:db8::1]:443") (mkWSConfig "handshake/" "[2001:db8::1]:443")
    url_env (InList 0) ws_client_sv "ws://10.0.0.2:2443/handshake/");
    try reflexivity; [discriminate|exact url_env_ok|eexists; reflexivity].
Defined.

(** The address a UDP client of the sample dials. *)
Example udp_address :
  WsClient_addUDPQueryParam url_env ("ws://10.0.0.2:2443/handshake/?" +:+ remote_query "10.0.0.7:53")
  = "ws://10.0.0.2:2443/handshake/?remote_addr=10.0.0.7%3A53&type=udp".
Proof. vm_compute. reflexivity. Qed.

(** What the server reads is the configured address unescaped, because the client does
    not escape it: when that fails, as for the [%] of an IPv6 zone, the server sees no
    remote and relays to the next node of its own balancer instead; where it succeeds, the
    remote is the unescaped text, with a space for every [+]. *)
Theorem ws_remote_unescaped (cfg : Config) (w : WSConfig) (env : conn_env) (remote : node_ptr)
    (sv : server) (b : string) (isTCP : bool)
    (Hw : Config_Options cfg ≫= Options_WSConfig = Some w) (Hne : RemoteAddr w ≠ "")
    (Ha : free_of "&" (RemoteAddr w)) (Hs : free_of ";" (RemoteAddr w)) (Hh : free_of "#" (RemoteAddr w))
    (Hjoin : joinPath env (Address (load_node sv remote)) (Config_GetWSHandShakePath cfg) = inl b)
    (Hbase : free_of "?" b) (Hfrag : free_of "#" b) (Hok : base_ok env) (Hprint : is_Some (print_base env b)) :
  ∃ addr, (∀ tls, client_dials tls cfg env remote isTCP sv addr) ∧
    ∀ bs env' fd sv',
      (isTCP = false → ∃ o, Config_Options (bs_cfg bs) = Some o ∧ EnableUDP o = true) →
      match QueryUnescape (RemoteAddr w) with
      | Some ra =>
          ra ≠ "" → relayed_as isTCP bs env' fd {| Address := ra; HandShakeDuration := 0 |} sv'
                      (WsServer_serve bs env' (inl fd) addr sv')
      | None =>
          WsServer_serve bs env' (inl fd) addr sv' =
          WsServer_handleRequest bs env' (inl fd)
            (if isTCP then ∅ else {[ "type" := ["udp"] ]}) sv'
      end.
Proof.
  eexists. split; [intros tls; by eapply client_dials_spec, ws_dialled|]. intros bs env' fd sv' Ho.
  destruct (served_query env b (RemoteAddr w) isTCP) as [Hr Ht]; try done.
  unfold WsServer_serve.
  destruct (QueryUnescape (RemoteAddr w)) as [ra|]; simpl in Hr.
  - intros Hra. by apply handleRequest_remote.
  - unfold WsServer_handleRequest. rewrite Hr, Ht. by destruct isTCP.
Qed.

Lemma ws_remote_unescaped_witness :
  ∃ addr, (∀ tls, client_dials tls (ws_cfg "[fe80::1%eth0]:443") url_env (InList 0) true ws_client_sv addr) ∧
    ∀ bs env' fd sv',
      (true = false → ∃ o, Config_Options (bs_cfg bs) = Some o ∧ EnableUDP o = true) →
      WsServer_serve bs env' (inl fd) addr sv' = WsServer_handleRequest bs env' (inl fd) ∅ sv'.
Proof.
  refine (ws_remote_unescaped (ws_cfg "[fe80::1%eth0]:443") (mkWSConfig "handshake/" "[fe80::1%eth0]:443")
    url_env (InList 0) ws_client_sv "ws://10.0.0.2:2443/handshake/" true _ _ _ _ _ _ _ _ _ _);
    try reflexivity; [discriminate|exact url_env_ok|eexists; reflexivity].
Defined.
