(* ===== verification/RateLimit.v ===== *)
(** * internal/conn/limit_reader.go: the rate-limited reader

    [NewRateLimitedConn] turns a limit in kbps into a bucket of tokens, one for a byte, that is
    refilled at the limit's rate and holds a second's worth; a [Read] takes a token for every
    byte it got and waits until they are there.  The bucket is juju/ratelimit: the class
    [TokenBucket] with its documented behaviour.  Times are nanoseconds; tokens are counted in
    byte-nanoseconds, so that nothing is rounded. *)

From S2P Require Import Prelude GoStd Conf Buffer Net.

(** [rateBytesPerSec] and the capacity of the bucket: [kbps * 1000 / 8], exact in binary64
    below 2{^43}. *)
Definition rateBytesPerSec (kbps : Z) : Z := kbps * 1000 / 8.

(** [tb_avail b t]: the tokens at time [t], negative while somebody waits.  [tb_take b t n]: the
    bucket after [n] tokens were taken at [t], and how long to wait. *)
Class TokenBucket (B : Type) := {
  tb_new : Z → Z → Z → B;
  tb_avail : B → Z → Z;
  tb_take : B → Z → Z → B * Z }.

(** A bucket made at [t] with a rate and a capacity is full; it fills no faster than its actual
    rate, which is at most one percent above the one asked for; [n] tokens are gone once they are
    taken, and after the wait there is no debt. *)
Class TokenBucketLaws (B : Type) `{TokenBucket B} (rate actual : Z) : Prop := {
  actual_rate : 0 ≤ actual ∧ 100 * actual ≤ 101 * rate;
  new_full t cap : 0 ≤ cap → tb_avail (tb_new t rate cap) t = cap * Second;
  avail_refill b t t' : t ≤ t' → tb_avail b t ≤ tb_avail b t' ≤ tb_avail b t + actual * (t' - t);
  take_tokens b t n : 0 ≤ n → tb_avail (fst (tb_take b t n)) t ≤ tb_avail b t - n * Second;
  take_wait b t n : 0 ≤ n → let (b', w) := tb_take b t n in 0 ≤ w ∧ 0 ≤ tb_avail b' (t + w) }.

Section Limited.
Context {B : Type} `{HB : TokenBucket B}.

(** [NewRateLimitedConn]: the bucket of a connection wrapped at time [t]. *)
Definition NewRateLimitedConn (t kbps : Z) : B := tb_new t (rateBytesPerSec kbps) (rateBytesPerSec kbps).

(** [Read]: what the inner [Read] gave at time [t], and when the caller has it. *)
Definition RateLimitedConn_Read (b : B) (t : Z) (inner : bytes * option error) : (bytes * option error) * B * Z :=
  match fst inner with
  | [] => (inner, b, t)
  | data => let (b, w) := tb_take b t (Z.of_nat (length data)) in (inner, b, t + w)
  end.

(** Successive reads, the inner ones returning at the given times: the bytes the caller has
    got, and when the last call returned. *)
Fixpoint read_limited (b : B) (last : Z) (reads : list (Z * (bytes * option error))) : bytes * Z :=
  match reads with
  | [] => ([], last)
  | (t, inner) :: reads =>
      let '((data, _), b, last) := RateLimitedConn_Read b t inner in
      let (rest, last) := read_limited b last reads in (data ++ rest, last)
  end.

(** Every inner read returns after the call before it has returned. *)
Fixpoint in_order (b : B) (last : Z) (reads : list (Z * (bytes * option error))) : Prop :=
  match reads with
  | [] => True
  | (t, inner) :: reads =>
      last ≤ t ∧ let '(_, b, last) := RateLimitedConn_Read b t inner in in_order b last reads
  end.

(** ** Lemmas *)

Context {rate actual : Z} `{HL : !TokenBucketLaws B rate actual}.

Lemma read_avail b t inner :
  0 ≤ tb_avail b t →
  let '((data, _), b', t') := RateLimitedConn_Read b t inner in
  data = fst inner ∧ t ≤ t' ∧ 0 ≤ tb_avail b' t' ≤ tb_avail b t + actual * (t' - t) - Z.of_nat (length data) * Second.
Proof.
  intros Hpos. unfold RateLimitedConn_Read. destruct inner as [[|x data] err]; cbn [fst].
  { cbn [length]. split_and!; [done|lia|done|lia]. }
  set (n := Z.of_nat (length (x :: data))).
  pose proof (take_tokens b t n ltac:(lia)) as Ht. pose proof (take_wait b t n ltac:(lia)) as Hw.
  destruct (tb_take b t n) as [b' w]. cbn [fst] in Ht. destruct Hw as [Hw0 Hw].
  pose proof (avail_refill b' t (t + w) ltac:(lia)) as Hr. split_and!; [done|lia|done|]. fold n. lia.
Qed.

(** The tokens bound what has been read, and there is no debt at the end. *)
Lemma read_limited_avail reads b last :
  in_order b last reads → 0 ≤ tb_avail b last →
  let (data, last') := read_limited b last reads in
  data = concat ((λ r, fst (snd r)) <$> reads) ∧ last ≤ last' ∧
  Z.of_nat (length data) * Second ≤ tb_avail b last + actual * (last' - last).
Proof.
  revert b last. induction reads as [|[t inner] reads IH]; intros b last Hord Hpos.
  { cbn. split_and!; [done|lia|lia]. }
  cbn [in_order read_limited] in *. destruct Hord as [Hle Hord].
  pose proof (avail_refill b last t Hle) as Hf. pose proof (read_avail b t inner ltac:(lia)) as Hr.
  destruct (RateLimitedConn_Read b t inner) as [[[data err] b1] t1]. destruct Hr as (-> & Ht & H0 & H1).
  specialize (IH b1 t1 Hord H0). destruct (read_limited b1 t1 reads) as [rest last']. destruct IH as (-> & Hl & Hb).
  csimpl. split_and!; [done|lia|]. rewrite length_app, Nat2Z.inj_add. nia.
Qed.

(** ** Theorem *)

(** [C34] A limit of [kbps] holds whatever the client sends and however the reads fall: every byte
    arrives, in order, and by the time a read returns the client has been read no more than
    one second's worth in advance plus what the limit (with the one percent the library may be
    off) allows for the time since the connection was wrapped. *)
Theorem limit_is_kept (kbps t0 : Z) (reads : list (Z * (bytes * option error)))
    (Hrate : rate = rateBytesPerSec kbps) (Hk : 0 < kbps)
    (Hord : in_order (NewRateLimitedConn t0 kbps) t0 reads) :
  let (data, t) := read_limited (NewRateLimitedConn t0 kbps) t0 reads in
  data = concat ((λ r, fst (snd r)) <$> reads) ∧ t0 ≤ t ∧
  800 * Z.of_nat (length data) * Second ≤ kbps * 1000 * (100 * Second + 101 * (t - t0)).
Proof.
  assert (0 ≤ rateBytesPerSec kbps ∧ 8 * rateBytesPerSec kbps ≤ kbps * 1000) as [Hr0 Hr8].
  { unfold rateBytesPerSec. split; [apply Z.div_pos; lia|apply Z.mul_div_le; lia]. }
  pose proof (new_full t0 (rateBytesPerSec kbps) Hr0) as Hfull. rewrite Hrate in Hfull.
  pose proof (read_limited_avail reads (NewRateLimitedConn t0 kbps) t0 Hord) as H.
  unfold NewRateLimitedConn in *. rewrite Hfull in H.
  assert (0 < Second) as Hs by done. specialize (H ltac:(nia)).
  destruct (read_limited _ t0 reads) as [data t]. destruct H as (-> & Ht & Hb). split_and!; [done|done|].
  destruct (actual_rate (B := B) (rate := rate) (actual := actual)) as [Ha0 Ha]. rewrite Hrate in Ha. nia.
Qed.
End Limited.

(** ** A bucket

    [bk_tokens] at the time [bk_since], refilled at [rate]. *)
Record bucket := mkBucket { bk_cap : Z; bk_tokens : Z; bk_since : Z }.

Definition bucket_avail (rate : Z) (b : bucket) (t : Z) : Z :=
  Z.min (Z.max 0 (bk_cap b)) (bk_tokens b + rate * (t - bk_since b)).

Definition bucket_ops (rate : Z) : TokenBucket bucket := {|
  tb_new t _ cap := mkBucket (cap * Second) (cap * Second) t;
  tb_avail := bucket_avail rate;
  tb_take b t n :=
    let left_ := bucket_avail rate b t - n * Second in
    (mkBucket (bk_cap b) left_ t, if decide (0 ≤ left_) then 0 else - (left_ / rate)) |}.

Lemma bucket_laws rate : 0 < rate → TokenBucketLaws bucket (H := bucket_ops rate) rate rate.
Proof.
  intros Hr. split; cbn; unfold bucket_avail.
  - lia.
  - intros t cap Hc. cbn. assert (0 < Second) by done. nia.
  - intros b t t' Ht. assert (0 ≤ rate * (t' - t)) by nia.
    replace (rate * (t' - bk_since b)) with (rate * (t - bk_since b) + rate * (t' - t)) by lia. lia.
  - intros b t n Hn. cbn. rewrite Z.sub_diag. lia.
  - intros b t n Hn. cbn. set (l := _ - n * Second). case_decide.
    + split; [done|]. replace (t + 0 - t) with 0 by lia. lia.
    + pose proof (Z.mul_div_le l rate Hr). assert (l / rate < 0) by (apply Z.div_lt_upper_bound; lia).
      split; [lia|]. replace (t + - (l / rate) - t) with (- (l / rate)) by lia. nia.
Qed.

(** Eight kbps are a thousand bytes a second: three reads of 1000 bytes take two seconds. *)
Lemma limit_is_kept_witness :
  let reads := [(0, (replicate 1000 7, None)); (0, (replicate 1000 8, None)); (Second, (replicate 1000 9, None))] in
  let (data, t) := read_limited (HB := bucket_ops 1000) (NewRateLimitedConn (HB := bucket_ops 1000) 0 8) 0 reads in
  length data = 3000%nat ∧ t = 2 * Second ∧ 800 * Z.of_nat (length data) * Second ≤ 8 * 1000 * (100 * Second + 101 * t).
Proof.
  intros reads.
  pose proof (limit_is_kept (HB := bucket_ops 1000) (HL := bucket_laws 1000 ltac:(lia)) 8 0 reads eq_refl ltac:(lia)
    ltac:(vm_compute; repeat split; discriminate)) as H.
  destruct (read_limited _ 0 reads) as [data t] eqn:E. destruct H as (Hd & _ & Hb).
  assert (t = 2 * Second) as -> by (vm_compute in E; by injection E as _ <-).
  split; [by rewrite Hd; vm_compute|]. split; [done|]. rewrite Z.sub_0_r in Hb. exact Hb.
Defined.
