(* ===== verification/Accounting.v ===== *)
(** * From relayed bytes to the control plane: [relay_conn.go], [base.go], [syncer.go] together

    A connection's [Stats] are written by its transport, read by the push of the connection
    manager, and shared through a pointer.  Here the three meet: connections are accepted,
    relayed, closed and pushed in any order, every object lives in a heap, and the log keeps
    for each finished connection the bytes its sockets really moved.  (The two goroutines of
    one connection record one after the other here; what their race can lose is
    [RelayConn.Stats_race].) *)

From S2P Require Import Prelude GoStd Lb Conf Buffer Net RelayConn Cmgr Transporter.

(** ** What a transport moves *)

(** Bytes read, and bytes that writes without an error took; over both directions. *)
Definition transfer : Type := Z * Z.

Definition written (ws : list write_event) : Z :=
  sum_Z ((λ e, match wr_err e with None => wr_n e | Some _ => 0 end) <$> ws).

(** What one direction consumed of its scripts. *)
Definition consumed (d d' : direction) : transfer :=
  (Z.of_nat (length (read_bytes (take (length (d_reads d) - length (d_reads d')) (d_reads d)))),
   written (take (length (d_writes d) - length (d_writes d')) (d_writes d))).

Definition Transport_transfer (fuel : nat) (rc : relayConnImpl) (d1 d2 : direction) (w : netw) : option transfer :=
  match rc_Options rc with
  | None => Some (0, 0)
  | Some o =>
      '(_, d1', d2', _, _) ← copyConn fuel (IdleTimeout o) (clientConn rc) (remoteConn rc) d1 d2
                               (mkMeter (rc_Stats rc) 0 0) w;
      let (buf1, bp) := BytePool_Get (BufferPool w) in let (buf2, _) := BytePool_Get bp in
      let (r1, w1) := consumed (served (clientConn rc) (slice_cap buf1) d1) d1' in
      let (r2, w2) := consumed (served (remoteConn rc) (slice_cap buf2) d2) d2' in
      Some (r1 + r2, w1 + w2)
  end.

(** ** The system *)

Record acct := mkAcct { ac_cm : cm_state; ac_heap : gmap nat relayConnImpl; ac_log : gmap nat transfer }.

Definition heap_stats (h : gmap nat relayConnImpl) (p : nat) : Stats :=
  match h !! p with Some rc => rc_Stats rc | None => mkStats 0 0 0 end.

Inductive acct_step : acct → acct → Prop :=
  | ac_accept cm cr dr rep h log p client remote node connType label opts :
      p ∉ rc_ptr <$> cr →
      acct_step (mkAcct (mkCmState cm cr dr rep) h log)
        (mkAcct (mkCmState (cmgrImpl_AddConnection cm (mkRconn p label)) (mkRconn p label :: cr) dr rep)
           (<[p := NewRelayConn client remote node connType label opts]> h) log)
  | ac_finish cm cr dr rep h log c rc fuel d1 d2 w res rc' w' t :
      c ∈ conns_of (activeConnectionsMap cm) → h !! rc_ptr c = Some rc →
      relayConnImpl_Transport fuel rc d1 d2 w = Some (res, rc', w') → Transport_transfer fuel rc d1 d2 w = Some t →
      acct_step (mkAcct (mkCmState cm cr dr rep) h log)
        (mkAcct (mkCmState (cmgrImpl_RemoveConnection cm c) cr dr rep) (<[rc_ptr c := rc']> h) (<[rc_ptr c := t]> log))
  | ac_push cm cr dr rep h log order post :
      order ≡ₚ map_to_list (closedConnectionsMap cm) →
      acct_step (mkAcct (mkCmState cm cr dr rep) h log)
        (mkAcct (mkCmState (fst (fst (cmgrImpl_pushStats cm (heap_stats h) order post))) cr
                   (dr ++ (order ≫= snd)) (rep ++ (stats_of_label (heap_stats h) <$> order))) h log).

Definition acct_init (a : acct) : Prop := ∃ cfg ms, a = mkAcct (mkCmState (mkCmgr cfg ∅ ∅ ms) [] [] []) ∅ ∅.

(** ** Lemmas: the meter of a transport *)

Lemma written_app l1 l2 : written (l1 ++ l2) = written l1 + written l2.
Proof. unfold written. by rewrite fmap_app, sum_Z_app. Qed.

(** The meter after [rd] bytes in and [wr] bytes out. *)
Definition meter_after (m : meter) (rd wr : Z) : meter :=
  {| m_Stats := {| Up := wrap64 (Up (m_Stats m) + wr); Down := wrap64 (Down (m_Stats m) + rd);
                   HandShakeLatency := HandShakeLatency (m_Stats m) |};
     flow_read := flow_read m + rd; flow_write := flow_write m + wr |}.

Lemma meter_after_0 m : meter_ok m → meter_after m 0 0 = m.
Proof.
  intros [HU HD]. destruct m as [[u d h] fr fw]. unfold meter_after. cbn in *.
  by rewrite !Z.add_0_r, !wrap64_id by done.
Qed.

Lemma meter_after_after m r1 w1 r2 w2 :
  meter_after (meter_after m r1 w1) r2 w2 = meter_after m (r1 + r2) (w1 + w2).
Proof. unfold meter_after. cbn. by rewrite !wrap64_wrap64_add, !Z.add_assoc. Qed.

Lemma meter_after_ok m r w : meter_ok (meter_after m r w).
Proof. split; apply wrap64_range. Qed.

Lemma record_read n m : meter_ok m → innerConn_recordStats n true m = meter_after m n 0.
Proof.
  intros [HU HD]. unfold innerConn_recordStats, Stats_Record, meter_after. cbn. by rewrite !Z.add_0_r, (wrap64_id (Up _)).
Qed.

Lemma record_write n m : meter_ok m → innerConn_recordStats n false m = meter_after m 0 n.
Proof.
  intros [HU HD]. unfold innerConn_recordStats, Stats_Record, meter_after. cbn. by rewrite !Z.add_0_r, (wrap64_id (Down _)).
Qed.

Lemma innerConn_Write_meter e m p m' :
  meter_ok m → innerConn_Write e m = (p, m') → m' = meter_after m 0 (written [e]) ∧ p = (wr_n e, wr_err e).
Proof.
  unfold innerConn_Write, written. cbn. intros Hok [= <- <-]. destruct (wr_err e); split; try done.
  - symmetry. by apply meter_after_0.
  - rewrite Z.add_0_r. by apply record_write.
Qed.

(** The meter of a copy counts exactly what it took from its scripts. *)
Lemma CopyBuffer_meter fuel I d m err d' m' :
  meter_ok m → CopyBuffer fuel I d m = Some (err, d', m') →
  ∃ used wused, d_reads d = used ++ d_reads d' ∧ d_writes d = wused ++ d_writes d' ∧
    m' = meter_after m (Z.of_nat (length (read_bytes used))) (written wused).
Proof.
  revert d m. induction fuel as [|fuel IH]; intros d m Hok; [done|]. cbn [CopyBuffer].
  destruct (innerConn_Read I (d_reads d) (d_lastActive d)) as [[[[data er] last] rest]|] eqn:Hr; [|done].
  apply innerConn_Read_consumes in Hr as (used & _ & Hu & Hb & Her). destruct er as [e|].
  { rewrite Her by done. rewrite decide_True by done. intros [= <- <- <-]. exists used, []. cbn.
    split_and!; [done..|]. rewrite Hb, Her by done. symmetry. by apply meter_after_0. }
  rewrite record_read by done. set (n := Z.of_nat (length data)).
  assert (Hloop : ∀ ws dl wused, d_writes d = wused ++ ws →
    CopyBuffer fuel I {| d_reads := rest; d_writes := ws; d_lastActive := last; d_delivered := dl |}
      (meter_after m n (written wused)) = Some (err, d', m') →
    ∃ used wused, d_reads d = used ++ d_reads d' ∧ d_writes d = wused ++ d_writes d' ∧
      m' = meter_after m (Z.of_nat (length (read_bytes used))) (written wused)).
  { intros ws dl wused Hw H. apply IH in H as (used' & wused' & Hu' & Hw' & ->); [|apply meter_after_ok]. cbn in *.
    exists (used ++ used'), (wused ++ wused'). rewrite Hu, Hu', Hw, Hw', <- !(assoc_L app). split_and!; [done..|].
    by rewrite meter_after_after, read_bytes_app, length_app, Nat2Z.inj_add, written_app, Hb. }
  case_decide as Hnil; [by apply (Hloop _ _ [])|]. cbn [d_writes d_reads d_delivered d_lastActive].
  destruct (d_writes d) as [|e ws] eqn:Hws; [done|].
  destruct (innerConn_Write e (meter_after m n 0)) as [p m1] eqn:Hwr.
  apply innerConn_Write_meter in Hwr as [-> ->]; [|apply meter_after_ok]. rewrite meter_after_after, Z.add_0_l, Z.add_0_r.
  assert (Hend : ∀ er dl, Some (er, {| d_reads := rest; d_writes := ws; d_lastActive := last; d_delivered := dl |},
      meter_after m n (written [e])) = Some (err, d', m') →
    ∃ used wused, d_reads d = used ++ d_reads d' ∧ e :: ws = wused ++ d_writes d' ∧
      m' = meter_after m (Z.of_nat (length (read_bytes used))) (written wused)).
  { intros er dl [= _ <- <-]. exists used, [e]. cbn. by rewrite Hu, Hb. }
  destruct (decide (wr_n e < 0 ∨ n < wr_n e)); [apply Hend|]. destruct (wr_err e); [apply Hend|].
  case_decide; [apply Hend|]. by apply (Hloop ws _ [e]).
Qed.

Lemma take_used {A} (used rest l : list A) : l = used ++ rest → take (length l - length rest) l = used.
Proof. intros ->. rewrite length_app, Nat.add_sub. apply take_app_length. Qed.

Lemma copyConn_meter fuel I c1 c2 d1 d2 m w err d1' d2' m' w' :
  meter_ok m → copyConn fuel I c1 c2 d1 d2 m w = Some (err, d1', d2', m', w') →
  let (b1, bp) := BytePool_Get (BufferPool w) in let (b2, _) := BytePool_Get bp in
  let t1 := consumed (served c1 (slice_cap b1) d1) d1' in let t2 := consumed (served c2 (slice_cap b2) d2) d2' in
  m' = meter_after m (t1.1 + t2.1) (t1.2 + t2.2).
Proof.
  unfold copyConn. intros Hok H. destruct (BytePool_Get (BufferPool w)) as [b1 bp]. destruct (BytePool_Get bp) as [b2 bp'].
  apply bind_Some in H as ([[e2 x1] m1] & H1 & H). apply bind_Some in H as ([[e1 x2] m2] & H2 & H).
  injection H as _ <- <- <- _.
  apply CopyBuffer_meter in H1 as (u1 & v1 & Hu1 & Hv1 & ->); [|done].
  apply CopyBuffer_meter in H2 as (u2 & v2 & Hu2 & Hv2 & ->); [|apply meter_after_ok].
  rewrite meter_after_after. unfold consumed. cbn [fst snd].
  by rewrite (take_used _ _ _ Hu1), (take_used _ _ _ Hv1), (take_used _ _ _ Hu2), (take_used _ _ _ Hv2).
Qed.

Lemma relayConnImpl_Close_Stats rc w : rc_Stats (relayConnImpl_Close rc w).1.2 = rc_Stats rc.
Proof.
  unfold relayConnImpl_Close. destruct (conn_Close (clientConn rc) w) as [[| |] w1]; cbn; try done;
    by destruct (conn_Close (remoteConn rc) w1) as [[| |] w2].
Qed.

(** The counters of a connection after its transport. *)
Lemma Transport_Stats fuel rc d1 d2 w res rc' w' t :
  in_int64 (Up (rc_Stats rc)) → in_int64 (Down (rc_Stats rc)) →
  relayConnImpl_Transport fuel rc d1 d2 w = Some (res, rc', w') → Transport_transfer fuel rc d1 d2 w = Some t →
  Up (rc_Stats rc') = wrap64 (Up (rc_Stats rc) + t.2) ∧ Down (rc_Stats rc') = wrap64 (Down (rc_Stats rc) + t.1).
Proof.
  intros HU HD. unfold relayConnImpl_Transport, Transport_transfer. intros H Ht.
  apply bind_Some in H as ([[r rc1] w1] & H1 & H). pose proof (relayConnImpl_Close_Stats rc1 w1) as Hc.
  destruct (relayConnImpl_Close rc1 w1) as [[cl rc2] w2]. injection H as _ <- _. cbn in Hc. rewrite Hc.
  destruct (rc_Options rc) as [o|].
  - apply bind_Some in H1 as ([[[[e d1'] d2'] m] w3] & Hcopy & H1). rewrite Hcopy in Ht. cbn [mbind option_bind] in Ht.
    injection H1 as <- <- <-. cbn [rc_Stats].
    pose proof (copyConn_meter _ _ _ _ _ _ (mkMeter (rc_Stats rc) 0 0) _ _ _ _ _ _ (conj HU HD) Hcopy) as Hm.
    destruct (BytePool_Get (BufferPool w)) as [b1 bp]. destruct (BytePool_Get bp) as [b2 bp'].
    destruct (consumed (served (clientConn rc) _ d1) d1'), (consumed (served (remoteConn rc) _ d2) d2').
    injection Ht as <-. cbv zeta in Hm. rewrite Hm. by split.
  - simplify_eq/=. by rewrite !Z.add_0_r, !wrap64_id.
Qed.

(** ** Lemmas: the reports *)

Definition of_label (label : string) (cs : list rconn) : list rconn := filter (λ c, GetRelayLabel c = label) cs.

(** What the reports say about one relay. *)
Definition reported_sum (f : StatsPerRule → Z) (label : string) (rep : list StatsPerRule) : Z :=
  sum_Z (f <$> filter (λ s, Cmgr.RelayLabel s = label) rep).

Lemma stats_of_label_sums heap l cs :
  Cmgr.RelayLabel (stats_of_label heap (l, cs)) = l ∧
  spr_Up (stats_of_label heap (l, cs)) = wrap64 (conn_up heap cs) ∧
  spr_Down (stats_of_label heap (l, cs)) = wrap64 (conn_down heap cs).
Proof. unfold stats_of_label. cbn. rewrite add_conn_foldl by apply in_int64_0. by case_decide. Qed.

Lemma wrap64_add_r a b : wrap64 (a + wrap64 b) = wrap64 (a + b).
Proof. rewrite (Z.add_comm a), wrap64_wrap64_add. f_equal. lia. Qed.

Lemma wrap64_add_congr a a' b b' : wrap64 a = wrap64 a' → wrap64 b = wrap64 b' → wrap64 (a + b) = wrap64 (a' + b').
Proof.
  intros Ha Hb. by rewrite <- (wrap64_add_r a b), Hb, wrap64_add_r, <- (wrap64_wrap64_add a), Ha, wrap64_wrap64_add.
Qed.

Lemma reported_label heap label order :
  Forall (λ kv : string * list rconn, Forall (λ c, GetRelayLabel c = kv.1) kv.2) order →
  wrap64 (reported_sum spr_Up label (stats_of_label heap <$> order)) =
    wrap64 (conn_up heap (of_label label (order ≫= snd))) ∧
  wrap64 (reported_sum spr_Down label (stats_of_label heap <$> order)) =
    wrap64 (conn_down heap (of_label label (order ≫= snd))).
Proof.
  unfold reported_sum, of_label. induction 1 as [|[l cs] order Hl _ [IHu IHd]]; csimpl; [done|].
  cbn in Hl. destruct (stats_of_label_sums heap l cs) as (Hn & Hu & Hd).
  rewrite filter_cons, filter_app, Hn. unfold conn_up, conn_down in *. rewrite !fmap_app, !sum_Z_app.
  destruct (decide (l = label)) as [->|Hne].
  - rewrite (filter_all_true _ cs) by done. csimpl. rewrite Hu, Hd, !wrap64_wrap64_add.
    split; by apply wrap64_add_congr.
  - rewrite (filter_all_false _ cs); [done|]. eapply Forall_impl; [exact Hl|]. by intros c <-.
Qed.

Lemma conn_sum_ext heap heap' cs :
  (∀ c, c ∈ cs → heap (rc_ptr c) = heap' (rc_ptr c)) →
  conn_up heap cs = conn_up heap' cs ∧ conn_down heap cs = conn_down heap' cs.
Proof.
  intros H. unfold conn_up, conn_down. split; f_equal; apply list_fmap_ext; intros i c Hc;
    rewrite H; try done; by eapply list_elem_of_lookup_2.
Qed.

Lemma heap_stats_ne h p rc q : p ≠ q → heap_stats (<[p := rc]> h) q = heap_stats h q.
Proof. intros H. unfold heap_stats. by rewrite lookup_insert_ne. Qed.

Lemma heap_stats_eq h p rc : heap_stats (<[p := rc]> h) p = rc_Stats rc.
Proof. unfold heap_stats. by rewrite lookup_insert_eq. Qed.

(** ** The invariant *)

Definition settled (log : gmap nat transfer) (h : gmap nat relayConnImpl) (c : rconn) : Prop :=
  ∃ rd wr, log !! rc_ptr c = Some (rd, wr) ∧
    Up (heap_stats h (rc_ptr c)) = wrap64 wr ∧ Down (heap_stats h (rc_ptr c)) = wrap64 rd.

Record acct_inv (a : acct) : Prop := {
  ai_cm : cm_inv (ac_cm a);
  ai_active : ∀ c, c ∈ conns_of (activeConnectionsMap (cs_cm (ac_cm a))) →
    Up (heap_stats (ac_heap a) (rc_ptr c)) = 0 ∧ Down (heap_stats (ac_heap a) (rc_ptr c)) = 0;
  ai_done : ∀ c, c ∈ conns_of (closedConnectionsMap (cs_cm (ac_cm a))) ++ drained (ac_cm a) →
    settled (ac_log a) (ac_heap a) c;
  ai_report : ∀ label,
    wrap64 (reported_sum spr_Up label (reported (ac_cm a))) =
      wrap64 (conn_up (heap_stats (ac_heap a)) (of_label label (drained (ac_cm a)))) ∧
    wrap64 (reported_sum spr_Down label (reported (ac_cm a))) =
      wrap64 (conn_down (heap_stats (ac_heap a)) (of_label label (drained (ac_cm a)))) }.

Lemma acct_cm_step a a' : acct_step a a' → cm_step (ac_cm a) (ac_cm a').
Proof. intros []; cbn; by constructor. Qed.

(** An update of the heap at a connection that was neither closed nor drained. *)
Lemma report_frame h p rc dr rep :
  (∀ c, c ∈ dr → rc_ptr c ≠ p) →
  (∀ label, wrap64 (reported_sum spr_Up label rep) = wrap64 (conn_up (heap_stats h) (of_label label dr)) ∧
            wrap64 (reported_sum spr_Down label rep) = wrap64 (conn_down (heap_stats h) (of_label label dr))) →
  ∀ label, wrap64 (reported_sum spr_Up label rep) = wrap64 (conn_up (heap_stats (<[p := rc]> h)) (of_label label dr)) ∧
           wrap64 (reported_sum spr_Down label rep) = wrap64 (conn_down (heap_stats (<[p := rc]> h)) (of_label label dr)).
Proof.
  intros Hp H label. destruct (conn_sum_ext (heap_stats (<[p := rc]> h)) (heap_stats h) (of_label label dr)) as [-> ->]; [|done].
  intros c [_ Hc]%list_elem_of_filter. apply heap_stats_ne. intros He. by apply (Hp c).
Qed.

Lemma settled_frame log h p rc t c : rc_ptr c ≠ p → settled log h c → settled (<[p := t]> log) (<[p := rc]> h) c.
Proof.
  intros Hp (rd & wr & Hl & Hu & Hd). exists rd, wr. rewrite heap_stats_ne, lookup_insert_ne by done. done.
Qed.

Lemma settled_frame_heap log h p rc c : rc_ptr c ≠ p → settled log h c → settled log (<[p := rc]> h) c.
Proof. intros Hp (rd & wr & Hl & Hu & Hd). exists rd, wr. by rewrite heap_stats_ne. Qed.

Lemma remove_effect s c :
  cm_inv s → c ∈ conns_of (activeConnectionsMap (cs_cm s)) →
  let cm' := cmgrImpl_RemoveConnection (cs_cm s) c in
  conns_of (closedConnectionsMap cm') ≡ₚ c :: conns_of (closedConnectionsMap (cs_cm s)) ∧
  conns_of (activeConnectionsMap (cs_cm s)) ≡ₚ c :: conns_of (activeConnectionsMap cm').
Proof.
  intros [Hnd Hall Ha Hc] (l & cs & Hl & Hin)%conns_of_elem.
  assert (GetRelayLabel c = l) as <- by (pose proof (Ha _ _ Hl) as HF; by eapply Forall_forall in HF).
  unfold cmgrImpl_RemoveConnection. rewrite Hl. cbn. split; [apply conns_of_append|].
  assert (NoDup (rc_ptr <$> cs)) as Hndc.
  { rewrite <- Hall, fmap_app, (conns_of_lookup (activeConnectionsMap _) (GetRelayLabel c)), Hl, fmap_app in Hnd.
    by apply NoDup_app in Hnd as [[? _]%NoDup_app _]. }
  rewrite conns_of_insert, (conns_of_lookup _ (GetRelayLabel c)), Hl. cbn.
  by rewrite (remove_first_Permutation c cs Hndc Hin) at 1.
Qed.

(** The pointers of the connections in all places are distinct. *)
Lemma places_ne s c active closed :
  cm_inv s → conns_of (activeConnectionsMap (cs_cm s)) ≡ₚ c :: active →
  closed = conns_of (closedConnectionsMap (cs_cm s)) →
  ∀ c', c' ∈ active ++ closed ++ drained s → rc_ptr c' ≠ rc_ptr c.
Proof.
  intros [Hnd Hall _ _] Ha -> c' Hc' He. rewrite <- Hall, Ha in Hnd. cbn in Hnd. apply NoDup_cons in Hnd as [Hn _].
  apply Hn. rewrite <- He. by apply list_elem_of_fmap_2.
Qed.

Lemma acct_inv_accept cm cr dr rep h log p client remote node connType label opts :
  p ∉ rc_ptr <$> cr → acct_inv (mkAcct (mkCmState cm cr dr rep) h log) →
  acct_inv (mkAcct (mkCmState (cmgrImpl_AddConnection cm (mkRconn p label)) (mkRconn p label :: cr) dr rep)
    (<[p := NewRelayConn client remote node connType label opts]> h) log).
Proof.
  intros Hp Hinv. pose proof (acct_cm_step _ _ (ac_accept cm cr dr rep h log p client remote node connType label opts Hp)) as Hs.
  destruct Hinv as [Hcm Hact Hdone Hrep]. cbn in *.
  assert (Hne : ∀ c, c ∈ conns_of (activeConnectionsMap cm) ++ conns_of (closedConnectionsMap cm) ++ dr → rc_ptr c ≠ p).
  { intros c Hc <-. apply Hp. pose proof (cmi_all _ Hcm) as Hall. cbn in Hall. rewrite <- Hall. by apply list_elem_of_fmap_2. }
  split; cbn; [by eapply cm_inv_step| | |].
  - intros c. rewrite conns_of_append. intros [->|Hc]%elem_of_cons; [by rewrite heap_stats_eq|].
    rewrite heap_stats_ne; [by apply Hact|]. intros He. symmetry in He. apply (Hne c); [apply elem_of_app; by left|done].
  - intros c Hc. apply settled_frame_heap; [|by apply Hdone]. apply Hne. apply elem_of_app. by right.
  - apply report_frame; [|done]. intros c Hc. apply Hne. rewrite !elem_of_app. tauto.
Qed.

Lemma acct_inv_finish cm cr dr rep h log c rc fuel d1 d2 w res rc' w' t :
  c ∈ conns_of (activeConnectionsMap cm) → h !! rc_ptr c = Some rc →
  relayConnImpl_Transport fuel rc d1 d2 w = Some (res, rc', w') → Transport_transfer fuel rc d1 d2 w = Some t →
  acct_inv (mkAcct (mkCmState cm cr dr rep) h log) →
  acct_inv (mkAcct (mkCmState (cmgrImpl_RemoveConnection cm c) cr dr rep) (<[rc_ptr c := rc']> h) (<[rc_ptr c := t]> log)).
Proof.
  intros Hc Hh Ht Htr [Hcm Hact Hdone Hrep]. cbn in *.
  destruct (remove_effect _ c Hcm Hc) as [Hcl Ha]. cbn in Hcl, Ha.
  pose proof (places_ne _ c _ _ Hcm Ha eq_refl) as Hne. cbn in Hne.
  destruct (Hact c Hc) as [HU HD]. unfold heap_stats in HU, HD. rewrite Hh in HU, HD.
  destruct (Transport_Stats _ _ _ _ _ _ _ _ t ltac:(rewrite HU; apply in_int64_0) ltac:(rewrite HD; apply in_int64_0) Ht Htr)
    as [HU' HD']. rewrite HU in HU'. rewrite HD in HD'.
  split; cbn; [by apply cm_inv_remove| | |].
  - intros c' Hc'. rewrite heap_stats_ne; [apply Hact; rewrite Ha; by right|].
    intros He. symmetry in He. by apply (Hne c'); [apply elem_of_app; left|].
  - intros c'. rewrite Hcl. cbn. intros [->|Hc']%elem_of_cons.
    + exists t.1, t.2. rewrite heap_stats_eq, lookup_insert_eq. by destruct t.
    + apply settled_frame; [|by apply Hdone]. apply Hne. apply elem_of_app. by right.
  - apply report_frame; [|done]. intros c' Hc'. apply Hne. rewrite !elem_of_app. tauto.
Qed.

Lemma acct_inv_push cm cr dr rep h log order post :
  order ≡ₚ map_to_list (closedConnectionsMap cm) → acct_inv (mkAcct (mkCmState cm cr dr rep) h log) →
  acct_inv (mkAcct (mkCmState (fst (fst (cmgrImpl_pushStats cm (heap_stats h) order post))) cr
    (dr ++ (order ≫= snd)) (rep ++ (stats_of_label (heap_stats h) <$> order))) h log).
Proof.
  intros Ho Hinv. pose proof (acct_cm_step _ _ (ac_push cm cr dr rep h log order post Ho)) as Hs.
  destruct Hinv as [Hcm Hact Hdone Hrep]. cbn in *.
  assert (Hconns : (order ≫= snd) ≡ₚ conns_of (closedConnectionsMap cm)) by (unfold conns_of; by rewrite Ho).
  split; cbn; [by eapply cm_inv_step| | |].
  - unfold cmgrImpl_pushStats. by case_match.
  - intros c Hc. apply Hdone. revert Hc. unfold cmgrImpl_pushStats.
    case_match; cbn; rewrite conns_of_empty; cbn; rewrite !elem_of_app, Hconns; tauto.
  - intros label. unfold reported_sum, of_label, conn_up, conn_down in *. rewrite !filter_app, !fmap_app, !sum_Z_app.
    destruct (Hrep label) as [Hu Hd]. destruct (reported_label (heap_stats h) label order) as [Hu' Hd'].
    + apply Forall_forall. intros [l cs] Hin. rewrite Ho, elem_of_map_to_list in Hin. by apply (cmi_closed _ Hcm).
    + split; by apply wrap64_add_congr.
Qed.

Lemma acct_reachable_inv a : reachable acct_init acct_step a → acct_inv a.
Proof.
  apply reachable_invariant.
  - intros ? (cfg & ms & ->). split; cbn; [apply cm_inv_init; by exists cfg, ms| | |done];
      rewrite conns_of_empty; intros c Hc; by apply elem_of_nil in Hc.
  - intros s s' Hinv Hs. destruct Hs; [by apply acct_inv_accept|by eapply acct_inv_finish|by apply acct_inv_push].
Qed.

(** ** The handlers *)

Lemma transfer_defined fuel rc d1 d2 w r :
  relayConnImpl_Transport fuel rc d1 d2 w = Some r → is_Some (Transport_transfer fuel rc d1 d2 w).
Proof.
  unfold relayConnImpl_Transport, Transport_transfer. intros H. apply bind_Some in H as ([[r1 rc1] w1] & H1 & _).
  destruct (rc_Options rc) as [o|]; [|by eexists].
  apply bind_Some in H1 as ([[[[e d1'] d2'] m] w3] & Hcopy & _). rewrite Hcopy. cbn [mbind option_bind].
  destruct (BytePool_Get (BufferPool w)) as [b1 bp]. destruct (BytePool_Get bp) as [b2 bp'].
  destruct (consumed (served (clientConn rc) _ d1) d1'), (consumed (served (remoteConn rc) _ d2) d2'). by eexists.
Qed.

(** A handler is an accept followed by a finish, with anything between them in the system. *)
Lemma handler_accounted bs env c rc remote connType sv res sv' a :
  bs_cmgr bs = true → handleRelayConn bs env c rc remote connType sv = Some (res, sv') →
  cs_cm (ac_cm a) = sv_cm sv → sv_ptr sv ∉ rc_ptr <$> created (ac_cm a) →
  ∃ a', rtc acct_step a a' ∧ cs_cm (ac_cm a') = sv_cm sv' ∧
    created (ac_cm a') = mkRconn (sv_ptr sv) (Label (bs_cfg bs)) :: created (ac_cm a).
Proof.
  intros Hb H Hcm Hfresh. unfold handleRelayConn in H. rewrite Hb in H. cbv zeta in H.
  apply bind_Some in H as ([[r rc'] w'] & Ht & H). destruct (transfer_defined _ _ _ _ _ _ Ht) as [t Htr].
  destruct a as [[cm cr dr rep] h log]. cbn in Hcm, Hfresh. subst cm. injection H as _ <-.
  set (c0 := mkRconn (sv_ptr sv) (Label (bs_cfg bs))) in *.
  exists (mkAcct (mkCmState (cmgrImpl_RemoveConnection (cmgrImpl_AddConnection (sv_cm sv) c0) c0) (c0 :: cr) dr rep)
    (<[rc_ptr c0 := rc']> (<[rc_ptr c0 := NewRelayConn c rc (load_node sv remote) connType (Label (bs_cfg bs)) (Config_Options (bs_cfg bs))]> h))
    (<[rc_ptr c0 := t]> log)).
  split; [|done]. eapply rtc_l; [by apply ac_accept|]. eapply rtc_l; [|reflexivity].
  eapply ac_finish; [|apply lookup_insert_eq|exact Ht|exact Htr]. cbn. rewrite conns_of_append. by left.
Qed.

(** ** Theorems *)

(** What the log says that the finished connections [cs] moved. *)
Definition moved (f : transfer → Z) (log : gmap nat transfer) (cs : list rconn) : Z :=
  sum_Z ((λ c, f (default (0, 0) (log !! rc_ptr c))) <$> cs).


(** Up and Down cannot tell the directions apart: a connection over which the client sends
    [n1] bytes and the remote [n2] counts n1 + n2 under both, so a pure download is reported
    with as much upload. *)
Theorem counters_mix_directions rc o chunks1 chunks2 t1 t2 last1 last2 w
    (Ho : rc_Options rc = Some o) (HU : Up (rc_Stats rc) = 0) (HD : Down (rc_Stats rc) = 0)
    (Hp : conn_pending (clientConn rc) = [] ∧ conn_pending (remoteConn rc) = []) :
  let d chunks t last := mkDirection (clean_reads chunks t) (clean_writes chunks) last [] in
  let fuel := S (length chunks1 + length chunks2) in
  ∃ res rc' w', relayConnImpl_Transport fuel rc (d chunks1 t1 last1) (d chunks2 t2 last2) w = Some (res, rc', w') ∧
    Up (rc_Stats rc') = wrap64 (total_bytes chunks1 + total_bytes chunks2) ∧
    Down (rc_Stats rc') = wrap64 (total_bytes chunks1 + total_bytes chunks2).
Proof.
  intros d fuel. unfold relayConnImpl_Transport. rewrite Ho. unfold copyConn.
  destruct (BytePool_Get (BufferPool w)) as [b1 bp]. destruct (BytePool_Get bp) as [b2 bp'].
  rewrite !served_none by apply Hp.
  assert (Hok : meter_ok (mkMeter (rc_Stats rc) 0 0)) by (split; cbn; rewrite ?HU, ?HD; apply in_int64_0).
  destruct (CopyBuffer_clean chunks1 t1 (IdleTimeout o) [] last1 [] (mkMeter (rc_Stats rc) 0 0) Hok) as [l1 H1].
  destruct (CopyBuffer_clean chunks2 t2 (IdleTimeout o) [] last2 [] _ (meter_ok_add (mkMeter (rc_Stats rc) 0 0) (total_bytes chunks1))) as [l2 H2].
  rewrite app_nil_r in H1, H2. unfold d.
  rewrite (CopyBuffer_fuel _ fuel _ _ _ _ H1) by (unfold fuel; lia). cbn [mbind option_bind].
  rewrite (CopyBuffer_fuel _ fuel _ _ _ _ H2) by (unfold fuel; lia). cbn [mbind option_bind].
  set (rc1 := mkRelayConn _ _ _ _ _ _ _ _). set (w1 := set_pool _ _).
  pose proof (relayConnImpl_Close_Stats rc1 w1) as Hc. destruct (relayConnImpl_Close rc1 w1) as [[cl rc2] w2].
  eexists _, _, _. split; [reflexivity|]. cbn in Hc. rewrite Hc. cbn. by rewrite HU, HD, !Z.add_0_l, !wrap64_wrap64_add.
Qed.

(** ** A connection that moves three bytes one way and one the other *)

Definition sample_rconn : rconn := mkRconn 7 "r1".

Definition sample_rc : relayConnImpl :=
  NewRelayConn (SockConn 3 true) (SockConn 5 true) (mkNode "10.0.0.9:22" 0) "tcp" "r1" (Config_Options (sample_relay "raw")).

Definition sample_d1 : direction := mkDirection (clean_reads [([1; 2], 10); ([3], 20)] 30) (clean_writes [([1; 2], 10); ([3], 20)]) 0 [].
Definition sample_d2 : direction := mkDirection (clean_reads [([9], 10)] 30) (clean_writes [([9], 10)]) 0 [].

Definition sample_after : relayConnImpl * netw :=
  match relayConnImpl_Transport 5 sample_rc sample_d1 sample_d2 sample_netw with
  | Some (_, rc, w) => (rc, w) | None => (sample_rc, sample_netw) end.

Definition sample_rc_after : relayConnImpl := sample_after.1.

Definition sample_closed : cmgrImpl :=
  cmgrImpl_RemoveConnection (cmgrImpl_AddConnection (mkCmgr (mkCmgrConfig "http://panel" 60 false) ∅ ∅ false) sample_rconn) sample_rconn.

Definition sample_heap : gmap nat relayConnImpl := <[7%nat := sample_rc_after]> (<[7%nat := sample_rc]> ∅).

Definition sample_billed : acct :=
  mkAcct (mkCmState (cmgrImpl_pushStats sample_closed (heap_stats sample_heap) [("r1", [sample_rconn])] None).1.1
            [sample_rconn] [sample_rconn] [stats_of_label (heap_stats sample_heap) ("r1", [sample_rconn])])
    sample_heap (<[7%nat := (4, 4)]> ∅).

Lemma sample_billed_reachable : reachable acct_init acct_step sample_billed.
Proof.
  eapply reach_step; [eapply reach_step; [eapply reach_step; [apply reach_init; by eexists _, _|]|]|].
  - apply (ac_accept _ _ _ _ _ _ 7 (SockConn 3 true) (SockConn 5 true) (mkNode "10.0.0.9:22" 0) "tcp" "r1"
      (Config_Options (sample_relay "raw"))). apply not_elem_of_nil.
  - eapply (ac_finish _ _ _ _ _ _ sample_rconn sample_rc 5 sample_d1 sample_d2 sample_netw
      (Ret None) sample_rc_after sample_after.2 (4, 4)); [|vm_compute; reflexivity..].
    unfold cmgrImpl_AddConnection. cbn. rewrite conns_of_append. by left.
  - apply (ac_push sample_closed [sample_rconn] [] [] sample_heap (<[7%nat := (4, 4)]> ∅) [("r1", [sample_rconn])] None).
    vm_compute. reflexivity.
Qed.


Lemma counters_mix_directions_witness :
  ∃ res rc' w', relayConnImpl_Transport 3 sample_rc
    (mkDirection (clean_reads [] 30) (clean_writes []) 0 []) (mkDirection (clean_reads [([9], 10); ([8; 7], 20)] 30)
    (clean_writes [([9], 10); ([8; 7], 20)]) 0 []) sample_netw = Some (res, rc', w') ∧ Up (rc_Stats rc') = 3.
Proof.
  destruct (counters_mix_directions sample_rc _ [] [([9], 10); ([8; 7], 20)] 30 30 0 0 sample_netw eq_refl eq_refl eq_refl
    (conj eq_refl eq_refl))
    as (res & rc' & w' & H & HU & _).
  exists res, rc', w'. split; [exact H|exact HU].
Defined.
