(* ===== verification/CopyPar.v ===== *)
(** * [copyConn] with its two goroutines

    [RelayConn.copyConn] runs the two directions of a relayed connection one after the other.
    In the program they are two goroutines that share the statistics, the sockets and the
    buffer pool.  Here every round of either loop and every half-close is a step of its own,
    in any order, and the result is shown to be the same: what [copyConn] computes is what
    every interleaving ends in.  (One round is one step: what can be lost inside the
    unsynchronised [Stats.Record] is [RelayConn.Stats_race].) *)

From S2P Require Import Prelude GoStd Lb Conf Buffer Net RelayConn Cmgr Transporter Accounting.

(** ** One round of [io.CopyBuffer] *)

(** [inl]: the loop goes on; [inr]: it returns with this error.  [None]: blocked. *)
Definition copy_round (IdleTimeout : Z) (d : direction) (m : meter) :
    option ((direction + option error * direction) * meter) :=
  match innerConn_Read IdleTimeout (d_reads d) (d_lastActive d) with
  | None => None
  | Some ((data, er), lastActive, reads) =>
      let m := match er with
               | None => innerConn_recordStats (Z.of_nat (length data)) true m
               | Some _ => m
               end in
      let d := {| d_reads := reads; d_writes := d_writes d; d_lastActive := lastActive;
                  d_delivered := d_delivered d |} in
      let after_write d m :=
        match er with
        | None => Some (inl d, m)
        | Some e => Some (inr (if decide (e = io_EOF) then None else Some e, d), m)
        end in
      if decide (data = []) then after_write d m
      else match d_writes d with
           | [] => None
           | w :: writes =>
               let '((nw, ew), m) := innerConn_Write w m in
               let nr := Z.of_nat (length data) in
               let '(nw, ew) :=
                 if decide (nw < 0 ∨ nr < nw)
                 then (0, Some (default errInvalidWrite ew)) else (nw, ew) in
               let d := {| d_reads := reads; d_writes := writes; d_lastActive := lastActive;
                           d_delivered := d_delivered d ++ take (Z.to_nat nw) data |} in
               match ew with
               | Some e => Some (inr (Some e, d), m)
               | None =>
                   if decide (nr ≠ nw) then Some (inr (Some errShortWrite, d), m)
                   else after_write d m
               end
           end
  end.

(** ** The two goroutines *)

(** A direction copies, has left its loop, or has half-closed its destination as well (the
    spawned one has then sent its error on [errCH], the other waits there). *)
Inductive dir_pc :=
  | Copying (d : direction)
  | Drained (err : option error) (d : direction)
  | Shut (err : option error) (d : direction).

Record par := mkPar { par_1 : dir_pc; par_2 : dir_pc; par_m : meter; par_w : netw }.

(** What the end of a direction does to its destination. *)
Definition shut_down (dst : conn) (d : direction) (w : netw) : netw :=
  innerConn_CloseWrite dst (deliver dst (d_delivered d) w).

Inductive dir_step (I : Z) (dst : conn) : dir_pc * meter * netw → dir_pc * meter * netw → Prop :=
  | ds_round d d' m m' w :
      copy_round I d m = Some (inl d', m') → dir_step I dst (Copying d, m, w) (Copying d', m', w)
  | ds_end d e d' m m' w :
      copy_round I d m = Some (inr (e, d'), m') → dir_step I dst (Copying d, m, w) (Drained e d', m', w)
  | ds_shut e d m w : dir_step I dst (Drained e d, m, w) (Shut e d, m, shut_down dst d w).

Inductive par_step (I : Z) (conn1 conn2 : conn) : par → par → Prop :=
  | par_step_1 p p' q m m' w w' :
      dir_step I conn2 (p, m, w) (p', m', w') → par_step I conn1 conn2 (mkPar p q m w) (mkPar p' q m' w')
  | par_step_2 p q q' m m' w w' :
      dir_step I conn1 (q, m, w) (q', m', w') → par_step I conn1 conn2 (mkPar p q m w) (mkPar p q' m' w').

(** The start: both buffers taken, both loops about to read. *)
Definition par_start (conn1 conn2 : conn) (d1 d2 : direction) (m : meter) (w : netw) : par :=
  let (buf1, bp) := BytePool_Get (BufferPool w) in
  let (buf2, bp) := BytePool_Get bp in
  mkPar (Copying (served conn1 (slice_cap buf1) d1)) (Copying (served conn2 (slice_cap buf2) d2)) m (set_pool w bp).

(** The return of the main goroutine, once it has received the other's error. *)
Definition par_return (conn1 conn2 : conn) (w0 : netw) (s : par) :
    option (option error * direction * direction * meter * netw) :=
  match par_1 s, par_2 s with
  | Shut err2 d1, Shut err d2 =>
      let (buf1, bp) := BytePool_Get (BufferPool w0) in
      let (buf2, _) := BytePool_Get bp in
      let w := innerConn_CloseRead conn2 (innerConn_CloseRead conn1 (par_w s)) in
      let w := set_pool w (BytePool_Put (BytePool_Put (BufferPool w) buf2) buf1) in
      Some (combineErrorsAndMuteIDLE err err2, d1, d2, par_m s, w)
  | _, _ => None
  end.

(** The same network, up to the order in which sockets were half-closed. *)
Definition netw_eq (w w' : netw) : Prop :=
  closed_fds w = closed_fds w' ∧ closed_ucs w = closed_ucs w' ∧ half_closed w ≡ₚ half_closed w' ∧
  read_closed w = read_closed w' ∧ received w = received w' ∧ BufferPool w = BufferPool w'.

(** ** Lemmas: rounds *)

Lemma CopyBuffer_round fuel I d m :
  CopyBuffer (S fuel) I d m =
    r ← copy_round I d m;
    match r with (inl d', m') => CopyBuffer fuel I d' m' | (inr (e, d'), m') => Some (e, d', m') end.
Proof.
  remember (S fuel) as k eqn:Hk. rewrite Hk. cbn [CopyBuffer]. unfold copy_round. clear k Hk.
  destruct (innerConn_Read I (d_reads d) (d_lastActive d)) as [[[[data er] last] rest]|]; [|done].
  cbv zeta. cbn [d_writes d_reads d_delivered d_lastActive].
  case_decide; [by destruct er|]. destruct (d_writes d) as [|e ws]; [done|].
  destruct (innerConn_Write e _) as [[n ew] m1]. case_decide; [done|].
  destruct ew; [done|]. case_decide; [done|]. by destruct er.
Qed.

(** A round adds to the meter, and does not look at it. *)
Lemma copy_round_meter I d :
  ∃ eff : option ((direction + option error * direction) * Z * Z),
    ∀ m, meter_ok m → copy_round I d m = (λ '(r, a, b), (r, meter_after m a b)) <$> eff.
Proof.
  unfold copy_round.
  destruct (innerConn_Read I (d_reads d) (d_lastActive d)) as [[[[data er] last] rest]|]; [|by exists None].
  cbv zeta. cbn [d_writes d_reads d_delivered d_lastActive]. set (n := Z.of_nat (length data)).
  set (rd := match er with None => n | Some _ => 0 end).
  assert (Hrec : ∀ m, meter_ok m →
    match er with None => innerConn_recordStats n true m | Some _ => m end = meter_after m rd 0).
  { intros m Hm. subst rd. destruct er; [by rewrite meter_after_0|by apply record_read]. }
  destruct (decide (data = [])).
  { eexists (Some (match er with None => inl _ | Some e => inr (_, _) end, rd, 0)).
    intros m Hm. rewrite Hrec by done. by destruct er. }
  destruct (d_writes d) as [|e ws]; [by exists None|].
  assert (Hw : ∀ m, meter_ok m → innerConn_Write e (meter_after m rd 0) =
    ((wr_n e, wr_err e), meter_after m rd (written [e]))).
  { intros m Hm. destruct (innerConn_Write e (meter_after m rd 0)) as [p m'] eqn:E.
    apply innerConn_Write_meter in E as [-> ->]; [|apply meter_after_ok].
    by rewrite meter_after_after, Z.add_0_r, Z.add_0_l. }
  destruct (decide (wr_n e < 0 ∨ n < wr_n e)) eqn:Hd.
  { eexists (Some (inr (_, _), rd, written [e])). intros m Hm. rewrite Hrec, Hw, Hd by done. done. }
  destruct (wr_err e) as [err|] eqn:He.
  { eexists (Some (inr (_, _), rd, written [e])). intros m Hm. rewrite Hrec, Hw, Hd by done. done. }
  destruct (decide (n ≠ wr_n e)) eqn:Hs.
  { eexists (Some (inr (_, _), rd, written [e])). intros m Hm. rewrite Hrec, Hw, Hd, Hs by done. done. }
  eexists (Some (match er with None => inl _ | Some e => inr (_, _) end, rd, written [e])).
  intros m Hm. rewrite Hrec, Hw, Hd, Hs by done. by destruct er.
Qed.

(** From [d] the loop ends with [err] in [df] after moving [rd] and [wr] bytes, in at most
    [n] rounds, whatever the meter shows. *)
Definition runs (I : Z) (d : direction) (err : option error) (df : direction) (rd wr : Z) (n : nat) : Prop :=
  ∀ m, meter_ok m → CopyBuffer n I d m = Some (err, df, meter_after m rd wr).

Lemma CopyBuffer_runs n I d m err df m' :
  meter_ok m → CopyBuffer n I d m = Some (err, df, m') →
  ∃ rd wr, m' = meter_after m rd wr ∧ runs I d err df rd wr n.
Proof.
  revert d m. induction n as [|n IH]; intros d m Hm; [done|]. rewrite CopyBuffer_round.
  destruct (copy_round_meter I d) as [[[[r a] b]|] Heff]; rewrite Heff by done; [|done].
  cbn [fmap option_fmap option_map mbind option_bind]. destruct r as [d'|[e d']].
  - intros H. apply IH in H as (rd & wr & -> & Hr); [|apply meter_after_ok].
    exists (a + rd), (b + wr). rewrite meter_after_after. split; [done|]. intros m0 Hm0.
    rewrite CopyBuffer_round, Heff by done. cbn [fmap option_fmap option_map mbind option_bind].
    rewrite Hr by apply meter_after_ok. by rewrite meter_after_after.
  - intros [= -> -> <-]. exists a, b. split; [done|]. intros m0 Hm0.
    rewrite CopyBuffer_round, Heff by done. done.
Qed.

Lemma runs_round I d err df rd wr n :
  runs I d err df rd wr n →
  ∃ n', n = S n' ∧
    ((∃ d' a b, (∀ m, meter_ok m → copy_round I d m = Some (inl d', meter_after m a b)) ∧
        runs I d' err df (rd - a) (wr - b) n') ∨
     (∀ m, meter_ok m → copy_round I d m = Some (inr (err, df), meter_after m rd wr))).
Proof.
  intros Hr. set (m0 := mkMeter (mkStats 0 0 0) 0 0).
  assert (Hm0 : meter_ok m0) by (split; apply in_int64_0).
  destruct n as [|n]; [by specialize (Hr m0 Hm0)|]. exists n. split; [done|].
  destruct (copy_round_meter I d) as [[[[r a] b]|] Heff].
  - destruct r as [d'|[e d']].
    + left. exists d', a, b. split; [intros m Hm; by rewrite Heff|].
      pose proof (Hr m0 Hm0) as H0. rewrite CopyBuffer_round, Heff in H0 by done.
      cbn [fmap option_fmap option_map mbind option_bind] in H0.
      apply CopyBuffer_runs in H0 as (rd' & wr' & Heq & Hr'); [|apply meter_after_ok].
      rewrite meter_after_after in Heq. injection Heq as _ _ Hrd Hwr.
      by replace (rd - a) with rd' by lia; replace (wr - b) with wr' by lia.
    + right. intros m Hm. pose proof (Hr m Hm) as H. rewrite CopyBuffer_round, Heff in H by done.
      rewrite Heff by done. cbn [fmap option_fmap option_map mbind option_bind] in *.
      assert (e = err ∧ d' = df ∧ meter_after m a b = meter_after m rd wr) as (-> & -> & ->) by (split_and!; congruence).
      done.
  - pose proof (Hr m0 Hm0) as H0. by rewrite CopyBuffer_round, Heff in H0.
Qed.

(** ** Lemmas: the network *)

#[global] Instance netw_eq_equiv : Equivalence netw_eq.
Proof.
  split.
  - intros w. by split_and!.
  - intros w w' (?&?&?&?&?&?). by split_and!.
  - intros w1 w2 w3 (?&?&?&?&?&?) (?&?&?&?&?&?). unfold netw_eq. split_and!; try congruence. by etrans.
Qed.

#[global] Instance shut_down_proper dst d : Proper (netw_eq ==> netw_eq) (shut_down dst d).
Proof.
  intros w w' (H1 & H2 & H3 & H4 & H5 & H6). unfold shut_down, deliver, received_by.
  destruct dst as [fd []|u|c s b|c p|c k]; cbn; unfold netw_eq; cbn; rewrite ?H1, ?H2, ?H4, ?H5, ?H6; split_and!; try done.
  by rewrite H3.
Qed.

Lemma received_by_other c c' data w : conn_base c ≠ conn_base c' → received_by c (deliver c' data w) = received_by c w.
Proof. intros H. rewrite received_by_deliver. by rewrite decide_False. Qed.

(** The ends of the two directions commute. *)
Lemma shut_down_comm c1 c2 d1 d2 w :
  conn_base c1 ≠ conn_base c2 → netw_eq (shut_down c1 d1 (shut_down c2 d2 w)) (shut_down c2 d2 (shut_down c1 d1 w)).
Proof.
  intros Hne. unfold netw_eq, shut_down.
  assert (Hrec : ∀ c d w, received (innerConn_CloseWrite c (deliver c d w)) = <[conn_base c := received_by c w ++ d]> (received w)).
  { intros c d w0. by rewrite (proj1 (half_close_received _ _)). }
  assert (Hby : ∀ c c' d w, conn_base c ≠ conn_base c' →
    received_by c (innerConn_CloseWrite c' (deliver c' d w)) = received_by c w).
  { intros c c' d w0 H. unfold received_by at 1. rewrite (proj1 (half_close_received _ _)).
    fold (received_by c (deliver c' d w0)). by rewrite received_by_other. }
  split_and!.
  - by destruct c1 as [? []| | | |], c2 as [? []| | | |].
  - by destruct c1 as [? []| | | |], c2 as [? []| | | |].
  - destruct c1 as [? []| | | |], c2 as [? []| | | |]; try done. cbn. apply Permutation_swap.
  - by destruct c1 as [? []| | | |], c2 as [? []| | | |].
  - rewrite !Hrec, !Hby by congruence. by apply insert_insert_ne.
  - by destruct c1 as [? []| | | |], c2 as [? []| | | |].
Qed.

(** ** The invariant of the interleaving *)

Section Par.
Context (I : Z) (c1 c2 : conn) (w0 : netw) (e1 e2 : option error) (f1 f2 : direction) (mf : meter).
Hypothesis bases_differ : conn_base c1 ≠ conn_base c2.

Definition dir_ok (p : dir_pc) (err : option error) (df : direction) (rd wr : Z) (n : nat) : Prop :=
  match p with
  | Copying d => runs I d err df rd wr n
  | Drained e d | Shut e d => e = err ∧ d = df ∧ rd = 0 ∧ wr = 0
  end.

Definition is_shut (p : dir_pc) : bool := match p with Shut _ _ => true | _ => false end.

Definition shut_if (p : dir_pc) (dst : conn) (df : direction) (w : netw) : netw :=
  if is_shut p then shut_down dst df w else w.

Definition dir_size (p : dir_pc) (n : nat) : nat :=
  match p with Copying _ => n + 2 | Drained _ _ => 1 | Shut _ _ => 0 end.

(** [N]: how many steps are left at most. *)
Definition par_inv (s : par) (N : nat) : Prop :=
  ∃ r1 b1 n1 r2 b2 n2,
    dir_ok (par_1 s) e1 f1 r1 b1 n1 ∧ dir_ok (par_2 s) e2 f2 r2 b2 n2 ∧
    meter_ok (par_m s) ∧ meter_after (par_m s) (r1 + r2) (b1 + b2) = mf ∧
    netw_eq (par_w s) (shut_if (par_1 s) c2 f1 (shut_if (par_2 s) c1 f2 w0)) ∧
    N = (dir_size (par_1 s) n1 + dir_size (par_2 s) n2)%nat.

Lemma dir_step_ok dst p m w p' m' w' err df rd wr n :
  dir_step I dst (p, m, w) (p', m', w') → dir_ok p err df rd wr n → meter_ok m →
  is_shut p = false ∧
  ∃ a b n', dir_ok p' err df (rd - a) (wr - b) n' ∧ m' = meter_after m a b ∧
    w' = shut_if p' dst df w ∧ (dir_size p' n' < dir_size p n)%nat.
Proof.
  intros Hs Hok Hm. inversion Hs as [d d' ? ? ? Hr|d e d' ? ? ? Hr|]; subst; cbn in Hok |- *; (split; [done|]).
  - apply runs_round in Hok as (n' & -> & [(d1 & a & b & Hc & Hr')|Hc]); rewrite Hc in Hr by done; simplify_eq.
    exists a, b, n'. split_and!; [done..|lia].
  - apply runs_round in Hok as (n' & -> & [(d1 & a & b & Hc & Hr')|Hc]); rewrite Hc in Hr by done; simplify_eq.
    exists rd, wr, n'. split_and!; (done || lia).
  - destruct Hok as (-> & -> & -> & ->). exists 0, 0, 0%nat. rewrite meter_after_0 by done. split_and!; (done || lia).
Qed.

Lemma dir_progress dst p m w err df rd wr n :
  dir_ok p err df rd wr n → meter_ok m → is_shut p = false → ∃ q, dir_step I dst (p, m, w) q.
Proof.
  intros Hok Hm Hs. destruct p as [d|e d|e d]; [|eexists; apply ds_shut|done]. cbn in Hok.
  apply runs_round in Hok as (n' & -> & [(d1 & a & b & Hc & _)|Hc]).
  - eexists. eapply ds_round. by apply Hc.
  - eexists. eapply ds_end. by apply Hc.
Qed.

Lemma par_inv_step s s' N : par_inv s N → par_step I c1 c2 s s' → ∃ N', par_inv s' N' ∧ (N' < N)%nat.
Proof.
  intros (r1 & b1 & n1 & r2 & b2 & n2 & H1 & H2 & Hm & Hmf & Hw & ->) Hs.
  destruct Hs as [p p' q m m' w w' Hd|p q q' m m' w w' Hd]; cbn [par_1 par_2 par_m par_w] in *.
  - destruct (dir_step_ok _ _ _ _ _ _ _ _ _ _ _ _ Hd H1 Hm) as (Hns & a & b & n' & Hok & -> & -> & Hlt).
    eexists. split.
    + exists (r1 - a), (b1 - b), n', r2, b2, n2. split_and!; [done|done|apply meter_after_ok| | |reflexivity].
      * cbn [par_m]. rewrite <- Hmf, meter_after_after. f_equal; lia.
      * cbn [par_1 par_2 par_m par_w]. unfold shut_if in *. rewrite Hns in Hw.
        destruct (is_shut p'); [by rewrite Hw|done].
    + cbn [par_1 par_2]. lia.
  - destruct (dir_step_ok _ _ _ _ _ _ _ _ _ _ _ _ Hd H2 Hm) as (Hns & a & b & n' & Hok & -> & -> & Hlt).
    eexists. split.
    + exists r1, b1, n1, (r2 - a), (b2 - b), n'. split_and!; [done|done|apply meter_after_ok| | |reflexivity].
      * cbn [par_m]. rewrite <- Hmf, meter_after_after. f_equal; lia.
      * cbn [par_1 par_2 par_m par_w]. unfold shut_if in *. rewrite Hns in Hw.
        destruct (is_shut q'); [|done]. rewrite Hw. destruct (is_shut p); [|done]. by apply shut_down_comm.
    + cbn [par_1 par_2]. lia.
Qed.

Lemma shut_stuck p q m w : is_shut p = true → is_shut q = true → ∀ s', ¬ par_step I c1 c2 (mkPar p q m w) s'.
Proof.
  intros Hp Hq s' Hs. inversion Hs as [? ? ? ? ? ? ? Hd|? ? ? ? ? ? ? Hd]; subst; inversion Hd; by subst.
Qed.

Lemma par_progress s N :
  par_inv s N → (∃ s', par_step I c1 c2 s s') ∨ is_shut (par_1 s) = true ∧ is_shut (par_2 s) = true.
Proof.
  intros (r1 & b1 & n1 & r2 & b2 & n2 & H1 & H2 & Hm & _). destruct s as [p q m w]. cbn [par_1 par_2 par_m] in *.
  destruct (is_shut p) eqn:Hp; [destruct (is_shut q) eqn:Hq; [by right|]|]; left.
  - destruct (dir_progress c1 q m w _ _ _ _ _ H2 Hm Hq) as ([[p' m'] w'] & Hd). eexists. by apply par_step_2.
  - destruct (dir_progress c2 p m w _ _ _ _ _ H1 Hm Hp) as ([[p' m'] w'] & Hd). eexists. by apply par_step_1.
Qed.

(** From every state on the way the rest of the run ends. *)
Lemma par_finishes s N :
  par_inv s N → ∃ s', rtc (par_step I c1 c2) s s' ∧ is_shut (par_1 s') = true ∧ is_shut (par_2 s') = true.
Proof.
  revert s. induction (lt_wf N) as [N _ IH]. intros s Hi.
  destruct (par_progress s N Hi) as [(s1 & Hs)|Hn]; [|by exists s].
  destruct (par_inv_step _ _ _ Hi Hs) as (N' & Hi' & Hlt). destruct (IH N' Hlt s1 Hi') as (s' & Hr & Hn).
  exists s'. split; [by eapply rtc_l|done].
Qed.

Lemma par_inv_nsteps k s s' N : par_inv s N → nsteps (par_step I c1 c2) k s s' → ∃ N', par_inv s' N' ∧ (k + N' ≤ N)%nat.
Proof.
  revert s N. induction k as [|k IH]; intros s N Hi Hs; inversion Hs as [|? ? s1 ? Hs1 Hs2]; subst; [exists N; split; [done|lia]|].
  destruct (par_inv_step _ _ _ Hi Hs1) as (N1 & Hi1 & Hlt). destruct (IH _ _ Hi1 Hs2) as (N' & Hi' & Hle).
  exists N'. split; [done|lia].
Qed.

(** A state in which both directions are shut holds their results. *)
Lemma par_inv_shut s N :
  par_inv s N → is_shut (par_1 s) = true → is_shut (par_2 s) = true →
  par_1 s = Shut e1 f1 ∧ par_2 s = Shut e2 f2 ∧ par_m s = mf ∧
  netw_eq (par_w s) (shut_down c2 f1 (shut_down c1 f2 w0)).
Proof.
  intros (r1 & b1 & n1 & r2 & b2 & n2 & H1 & H2 & Hm & Hmf & Hw & _) Hs1 Hs2. destruct s as [p q m w]. cbn in *.
  destruct p as [| |e d]; [done..|]. destruct q as [| |e' d']; [done..|]. cbn in *.
  destruct H1 as (-> & -> & -> & ->), H2 as (-> & -> & -> & ->).
  split_and!; [done|done| |done]. rewrite <- Hmf. symmetry. by apply meter_after_0.
Qed.
End Par.

(** ** From [copyConn] to the interleaving *)

Definition final_net (c1 c2 : conn) (buf1 buf2 : slice) (w : netw) : netw :=
  let w := innerConn_CloseRead c2 (innerConn_CloseRead c1 w) in
  set_pool w (BytePool_Put (BytePool_Put (BufferPool w) buf2) buf1).

#[global] Instance final_net_proper c1 c2 buf1 buf2 : Proper (netw_eq ==> netw_eq) (final_net c1 c2 buf1 buf2).
Proof.
  intros w w' (H1 & H2 & H3 & H4 & H5 & H6). unfold final_net, netw_eq.
  destruct c1 as [? []| | | |], c2 as [? []| | | |]; cbn; rewrite ?H1, ?H2, ?H4, ?H5, ?H6; by split_and!.
Qed.

(** The invariant at the start, from a run of the sequential function. *)
Lemma par_inv_start fuel I c1 c2 d1 d2 m w err f1 f2 mf w' :
  meter_ok m → conn_base c1 ≠ conn_base c2 →
  copyConn fuel I c1 c2 d1 d2 m w = Some (err, f1, f2, mf, w') →
  ∃ e1 e2 buf1 buf2 bp bp',
    BytePool_Get (BufferPool w) = (buf1, bp) ∧ BytePool_Get bp = (buf2, bp') ∧
    err = combineErrorsAndMuteIDLE e2 e1 ∧
    par_inv I c1 c2 (set_pool w bp') e1 e2 f1 f2 mf (par_start c1 c2 d1 d2 m w) (2 * fuel + 4) ∧
    netw_eq (final_net c1 c2 buf1 buf2 (shut_down c2 f1 (shut_down c1 f2 (set_pool w bp')))) w'.
Proof.
  intros Hm Hne. unfold copyConn, par_start. destruct (BytePool_Get (BufferPool w)) as [buf1 bp] eqn:E1.
  destruct (BytePool_Get bp) as [buf2 bp'] eqn:E2. intros H.
  apply bind_Some in H as ([[e1 x1] m1] & H1 & H). apply bind_Some in H as ([[e2 x2] m2] & H2 & H).
  injection H as <- <- <- <- <-.
  apply CopyBuffer_runs in H1 as (r1 & b1 & -> & Hr1); [|done].
  apply CopyBuffer_runs in H2 as (r2 & b2 & -> & Hr2); [|apply meter_after_ok].
  exists e1, e2, buf1, buf2, bp, bp'. split_and!; try done.
  - exists r1, b1, fuel, r2, b2, fuel. cbn [par_1 par_2 par_m par_w dir_ok dir_size shut_if is_shut].
    split_and!; [done..| |done|lia]. by rewrite meter_after_after.
  - fold (shut_down c2 x1 (set_pool w bp')). fold (shut_down c1 x2 (shut_down c2 x1 (set_pool w bp'))).
    fold (final_net c1 c2 buf1 buf2 (shut_down c1 x2 (shut_down c2 x1 (set_pool w bp')))).
    by rewrite (shut_down_comm c2 c1) by done.
Qed.

(** ** Theorems *)



(** The end of a stream is passed on as a half-close only to a bare TCP socket: a side that
    is wrapped, because it was sniffed, is rate limited or speaks WebSocket, is never told
    that its peer has finished, and keeps the relay open until it closes or idles out. *)
Theorem half_close_only_bare (fuel : nat) (I : Z) (conn1 conn2 : conn) (d1 d2 d1' d2' : direction)
    (m m' : meter) (w w' : netw) (err : option error)
    (Hrun : copyConn fuel I conn1 conn2 d1 d2 m w = Some (err, d1', d2', m', w')) (fd : nat) :
  fd ∈ half_closed w' ↔ fd ∈ half_closed w ∨ conn1 = SockConn fd true ∨ conn2 = SockConn fd true.
Proof.
  unfold copyConn in Hrun. destruct (BytePool_Get (BufferPool w)) as [b1 bp]. destruct (BytePool_Get bp) as [b2 bp'].
  apply bind_Some in Hrun as ([[e1 x1] m1] & _ & H). apply bind_Some in H as ([[e2 x2] m2] & _ & H).
  injection H as _ _ _ _ <-. cbn [set_pool half_closed].
  assert (Hr : ∀ c w, half_closed (innerConn_CloseRead c w) = half_closed w) by (by intros [? []| | | |] ?).
  assert (Hc : ∀ c w, fd ∈ half_closed (innerConn_CloseWrite c w) ↔ c = SockConn fd true ∨ fd ∈ half_closed w).
  { intros [fd' []| | | |] w0; cbn [innerConn_CloseWrite half_closed]; [|naive_solver..].
    rewrite elem_of_cons. naive_solver. }
  rewrite !Hr, Hc. cbn [deliver half_closed]. rewrite Hc. cbn [deliver set_pool half_closed]. tauto.
Qed.

Lemma half_close_only_bare_witness :
  match copyConn 5 Second (PeekedConn (SockConn 3 true) [1]) (SockConn 5 true)
          (mkDirection (clean_reads [] 30) [mkWrite 1 None] 0 []) sample_d2 (mkMeter (mkStats 0 0 0) 0 0) sample_netw with
  | Some (_, _, _, _, w') => 5%nat ∈ half_closed w' ∧ 3%nat ∉ half_closed w'
  | None => False
  end.
Proof.
  destruct (copyConn 5 Second (PeekedConn (SockConn 3 true) [1]) (SockConn 5 true)
    (mkDirection (clean_reads [] 30) [mkWrite 1 None] 0 []) sample_d2 (mkMeter (mkStats 0 0 0) 0 0) sample_netw)
    as [[[[[err d1'] d2'] m'] w']|] eqn:E; [|vm_compute in E; discriminate].
  pose proof (half_close_only_bare _ _ _ _ _ _ _ _ _ _ _ _ _ E) as H.
  split; [apply H; right; right; reflexivity|].
  intros [Hn|[Hn|Hn]]%H; [by apply not_elem_of_nil in Hn|discriminate..].
Defined.
