(* ===== verification/WsStream.v ===== *)
(** * WebSocket frames on the byte stream of a socket (internal/conn/ws_conn.go)

    [wsConn.Read] reads a header, then the payload, from a TCP stream; [wsConn.Write] puts one
    frame on it.  Here both work on the bytes themselves: a [stream] is what a socket has to
    give, byte by byte, interleaved with the errors its reads return (an expired deadline, the
    end of file).  The codec of the headers is gobwas/ws: the class [WsLib], with its
    documented behaviour in [WsLibLaws]; [Rfc6455] is the format of the RFC, a codec that has
    these laws. *)

From S2P Require Import Prelude GoStd Conf Buffer Net RelayConn.

(** ** Streams *)

Definition stream : Type := list (Z + error).

Definition arrive (b : bytes) : stream := inl <$> b.

Definition io_ErrUnexpectedEOF : error := Sentinel "unexpected EOF".

(** [io.ReadFull] with a buffer of [n] bytes of which [got] have arrived: what was read before
    an error is gone.  [None]: the call blocks. *)
Fixpoint io_ReadFull (n : nat) (got : bytes) (s : stream) : option ((bytes + error) * stream) :=
  match n with
  | O => Some (inl got, s)
  | S n =>
      match s with
      | [] => None
      | inl b :: s => io_ReadFull n (got ++ [b]) s
      | inr e :: s =>
          Some (inr (if decide (got ≠ [] ∧ e = io_EOF) then io_ErrUnexpectedEOF else e), s)
      end
  end.

(** ** The library *)

(** The headers that can be written: [Mask] is 4 bytes, and zero in an unmasked frame. *)
Record ws_valid (h : ws_header) : Prop := {
  valid_OpCode : 0 ≤ hdr_OpCode h < 16;
  valid_Mask : 0 ≤ hdr_Mask h < 2 ^ 32;
  valid_unmasked : hdr_Masked h = false → hdr_Mask h = 0;
  valid_Length : 0 ≤ hdr_Length h < 2 ^ 63 }.

Class WsLib := {
  header_bytes : ws_header → bytes;
  ws_ReadHeader : stream → option ((ws_header + error) * stream);
  ws_Cipher : bytes → Z → bytes;
  wsutil_WriteServerBinary : bytes → bytes;
  wsutil_WriteClientBinary : Z → bytes → bytes }.

(** A frame on the wire. *)
Definition frame_bytes `{WsLib} (h : ws_header) (b : bytes) : bytes :=
  header_bytes h ++ (if hdr_Masked h then ws_Cipher b (hdr_Mask h) else b).

(** One final binary frame; the client's is masked with the key the library draws. *)
Definition binary_header (isServer : bool) (key : Z) (b : bytes) : ws_header :=
  {| hdr_Fin := true; hdr_OpCode := 2; hdr_Masked := negb isServer;
     hdr_Mask := if isServer then 0 else key; hdr_Length := Z.of_nat (length b) |}.

(** A written header is read back and nothing after it is touched; an error in front of a
    header consumes nothing else, one inside it loses the part already read (a [ReadHeader]
    that fails keeps no state); masking twice with one key is the identity; the two writers
    put a binary frame on the wire. *)
Class WsLibLaws (L : WsLib) : Prop := {
  ReadHeader_whole h s :
    ws_valid h → ws_ReadHeader (arrive (header_bytes h) ++ s) = Some (inl h, s);
  ReadHeader_first e s : ws_ReadHeader (inr e :: s) = Some (inr e, s);
  ReadHeader_cut h p q e s :
    ws_valid h → header_bytes h = p ++ q → q ≠ [] → e ≠ io_EOF →
    ws_ReadHeader (arrive p ++ inr e :: s) = Some (inr e, s);
  Cipher_length b k : length (ws_Cipher b k) = length b;
  Cipher_twice b k : ws_Cipher (ws_Cipher b k) k = b;
  WriteServerBinary_frame b : wsutil_WriteServerBinary b = frame_bytes (binary_header true 0 b) b;
  WriteClientBinary_frame key b : wsutil_WriteClientBinary key b = frame_bytes (binary_header false key b) b }.

Section WsConn.
Context `{L : WsLib}.

(** ** wsConn.Read and wsConn.Write *)

Definition wsConn_Read_stream (buf : slice) (lenb : Z) (s : stream) :
    option ((bytes * option error) * stream) :=
  match ws_ReadHeader s with
  | None => None
  | Some (inr err, s) => Some (wsConn_Read buf lenb (inr err) (inl []), s)
  | Some (inl header, s) =>
      if decide (slice_cap buf < hdr_Length header)
      then Some (wsConn_Read buf lenb (inl header) (inl []), s)
      else
        match io_ReadFull (Z.to_nat (hdr_Length header)) [] s with
        | None => None
        | Some (inr err, s) => Some (wsConn_Read buf lenb (inl header) (inr err), s)
        | Some (inl payload, s) =>
            let payload :=
              if hdr_Masked header then ws_Cipher payload (hdr_Mask header) else payload in
            Some (wsConn_Read buf lenb (inl header) (inl payload), s)
        end
  end.

(** A successful write: what goes to the socket, and what is returned. *)
Definition wsConn_Write_stream (isServer : bool) (key : Z) (b : bytes) : bytes * (Z * option error) :=
  (if isServer then wsutil_WriteServerBinary b else wsutil_WriteClientBinary key b, wsConn_Write b None).

(** The bytes that writing [frames] (keys and data) one after the other puts on the wire. *)
Definition wire (isServer : bool) (frames : list (Z * bytes)) : bytes :=
  concat ((λ f, fst (wsConn_Write_stream isServer (fst f) (snd f))) <$> frames).

(** Successive reads, returning at the times [ts]: the script a copy loop sees. *)
Fixpoint ws_reads (buf : slice) (lenb : Z) (ts : list Z) (s : stream) : list read_event :=
  match ts with
  | [] => []
  | t :: ts =>
      match wsConn_Read_stream buf lenb s with
      | None => []
      | Some ((data, err), s) => mkRead None data err t None :: ws_reads buf lenb ts s
      end
  end.

(** What one read can take. *)
Definition ws_fits (buf : slice) (lenb : Z) (b : bytes) : Prop :=
  Z.of_nat (length b) ≤ slice_cap buf ∧ Z.of_nat (length b) ≤ lenb.

#[global] Instance ws_fits_dec buf lenb b : Decision (ws_fits buf lenb b).
Proof. unfold ws_fits. apply _. Defined.

Definition too_small (lenb n : Z) : error :=
  Errorf ("buffer size:" +:+ fmt_d lenb +:+ " too small to transport ws payload size:" +:+ fmt_d n).

(** ** Lemmas *)

Lemma arrive_app p q : arrive (p ++ q) = arrive p ++ arrive q.
Proof. apply fmap_app. Qed.

Lemma io_ReadFull_arrive b got s :
  io_ReadFull (length b) got (arrive b ++ s) = Some (inl (got ++ b), s).
Proof.
  revert got. induction b as [|x b IH]; intros got; cbn; [by rewrite app_nil_r|].
  rewrite IH. by rewrite <- (assoc app).
Qed.

Lemma io_ReadFull_cut n got p e s :
  (length p < n)%nat → e ≠ io_EOF → io_ReadFull n got (arrive p ++ inr e :: s) = Some (inr e, s).
Proof.
  intros Hn He. revert n got Hn. induction p as [|x p IH]; intros [|n] got Hn; cbn in *; try lia.
  - rewrite decide_False by naive_solver. done.
  - apply IH. lia.
Qed.

Lemma io_ReadFull_more b c got s :
  io_ReadFull (length b) got (arrive (b ++ c) ++ s) = Some (inl (got ++ b), arrive c ++ s).
Proof. by rewrite arrive_app, <- (assoc app), io_ReadFull_arrive. Qed.

Context `{!WsLibLaws L}.

(** One frame, whatever its operation code: its payload, and the stream behind it.  A frame
    that does not fit is an error; its payload may be left in the stream. *)
Lemma wsConn_Read_frame h b buf lenb s :
  ws_valid h → hdr_Length h = Z.of_nat (length b) → ws_fits buf lenb b →
  wsConn_Read_stream buf lenb (arrive (frame_bytes h b) ++ s) = Some ((b, None), s).
Proof.
  intros Hv Hl [Hc Hb]. unfold wsConn_Read_stream, frame_bytes.
  rewrite arrive_app, <- (assoc app), ReadHeader_whole by done.
  rewrite Hl, decide_False by lia. rewrite Nat2Z.id.
  set (w := if hdr_Masked h then _ else _).
  assert (length b = length w) as -> by (subst w; destruct (hdr_Masked h); by rewrite ?Cipher_length).
  rewrite io_ReadFull_arrive. cbn beta iota. rewrite app_nil_l.
  assert ((if hdr_Masked h then ws_Cipher w (hdr_Mask h) else w) = b) as ->
    by (subst w; destruct (hdr_Masked h); by rewrite ?Cipher_twice).
  unfold wsConn_Read. rewrite Hl, decide_False by lia. by rewrite decide_False by lia.
Qed.

Lemma wsConn_Read_big h b buf lenb s :
  ws_valid h → hdr_Length h = Z.of_nat (length b) → ¬ ws_fits buf lenb b →
  ∃ s', wsConn_Read_stream buf lenb (arrive (frame_bytes h b) ++ s) =
        Some (([], Some (too_small lenb (Z.of_nat (length b)))), s').
Proof.
  intros Hv Hl Hf. unfold wsConn_Read_stream, frame_bytes.
  set (w := if hdr_Masked h then _ else _).
  assert (length b = length w) as Hw by (subst w; destruct (hdr_Masked h); by rewrite ?Cipher_length).
  pose proof (io_ReadFull_arrive w [] s) as Hr. rewrite <- Hw in Hr.
  rewrite arrive_app, <- List.app_assoc, ReadHeader_whole by done.
  unfold wsConn_Read. rewrite Hl, Nat2Z.id, Hr. case_decide; [by eexists|]. cbn beta iota zeta.
  set (x := if hdr_Masked h then _ else _).
  assert (length x = length b) as -> by (subst x; destruct (hdr_Masked h); by rewrite ?Cipher_length).
  rewrite decide_True; [by eexists|]. unfold ws_fits in Hf. lia.
Qed.

(** An error before the end of a frame: all of the frame that had arrived is dropped, and the
    stream goes on with the rest of it. *)
Lemma wsConn_Read_cut h b buf lenb p q e s :
  ws_valid h → hdr_Length h = Z.of_nat (length b) → ws_fits buf lenb b →
  frame_bytes h b = p ++ q → q ≠ [] → e ≠ io_EOF →
  wsConn_Read_stream buf lenb (arrive p ++ inr e :: s) = Some (([], Some e), s).
Proof.
  intros Hv Hl [Hc Hb] Hpq Hq He. unfold wsConn_Read_stream. unfold frame_bytes in Hpq.
  set (w := if hdr_Masked h then _ else _) in *.
  assert (length b = length w) as Hw by (subst w; destruct (hdr_Masked h); by rewrite ?Cipher_length).
  assert ((∃ k, p = header_bytes h ++ k ∧ w = k ++ q) ∨ ∃ k, header_bytes h = p ++ k ∧ k ≠ []) as [(k & -> & Hk)|(k & Hh & Hk)].
  { symmetry in Hpq. apply app_eq_inv in Hpq as [(k & -> & ->)|(k & Hh & Hk)]; [left; by eexists|].
    destruct k as [|x k]; [left; exists []; by rewrite app_nil_r in *|right; by exists (x :: k)]. }
  - rewrite arrive_app, <- List.app_assoc, ReadHeader_whole by done.
    rewrite decide_False by lia. rewrite (io_ReadFull_cut _ [] k e s); [|simpl|done].
    { unfold wsConn_Read. by rewrite decide_False by lia. }
    rewrite Hl, Hw, Hk, length_app. destruct q; [done|simpl; lia].
  - by rewrite (ReadHeader_cut h p k e s Hv Hh Hk He).
Qed.

Lemma binary_header_valid isServer key b :
  0 ≤ key < 2 ^ 32 → Z.of_nat (length b) < 2 ^ 63 → ws_valid (binary_header isServer key b).
Proof. intros Hk Hb. destruct isServer; split; simpl; try lia; done. Qed.

Lemma wire_cons isServer k b frames :
  wire isServer ((k, b) :: frames) = frame_bytes (binary_header isServer k b) b ++ wire isServer frames.
Proof.
  unfold wire. cbn [fmap list_fmap concat fst snd wsConn_Write_stream].
  by destruct isServer; rewrite ?WriteServerBinary_frame, ?WriteClientBinary_frame.
Qed.

Lemma wire_app isServer f1 f2 : wire isServer (f1 ++ f2) = wire isServer f1 ++ wire isServer f2.
Proof. unfold wire. by rewrite fmap_app, concat_app. Qed.

(** The frames that fit, then whatever follows. *)
Lemma ws_reads_frames isServer buf lenb frames ts ts' s :
  length ts = length frames →
  Forall (λ f, 0 ≤ fst f < 2 ^ 32 ∧ Z.of_nat (length (snd f)) < 2 ^ 63 ∧ ws_fits buf lenb (snd f)) frames →
  ws_reads buf lenb (ts ++ ts') (arrive (wire isServer frames) ++ s) =
  ((λ c, mkRead None (fst c) None (snd c) None) <$> zip (snd <$> frames) ts) ++ ws_reads buf lenb ts' s.
Proof.
  revert ts. induction frames as [|[k b] frames IH]; intros [|t ts] Hl Hf; try done.
  apply Forall_cons in Hf as [(Hk & Hb & Hfit) Hf]. injection Hl as Hl.
  rewrite wire_cons, arrive_app, <- List.app_assoc. cbn [app ws_reads].
  rewrite wsConn_Read_frame by (done || by apply binary_header_valid).
  rewrite (IH ts Hl Hf). done.
Qed.

Lemma ws_reads_EOF buf lenb t :
  ws_reads buf lenb [t] [inr io_EOF] = [mkRead None [] (Some io_EOF) t None].
Proof. cbn. unfold wsConn_Read_stream. by rewrite ReadHeader_first. Qed.


(** ** Theorems *)

(** What one end of a WebSocket hop writes, the copy loop at the other end delivers: the
    same bytes in the same order, followed by a clean end of file, whatever keys the masks are
    drawn with, as long as every frame fits the buffer of the connection and the buffer of
    the loop; frames without data are passed over; the meters count every byte in and out. *)
Theorem ws_hop_delivers (isServer : bool) (buf : slice) (lenb : Z) (frames : list (Z * bytes))
    (ts : list Z) (t_eof I last : Z) (pre : bytes) (m : meter)
    (Hts : length ts = length frames)
    (Hf : Forall (λ f, 0 ≤ fst f < 2 ^ 32 ∧ Z.of_nat (length (snd f)) < 2 ^ 63 ∧ ws_fits buf lenb (snd f)) frames)
    (Hm : meter_ok m) :
  let chunks := zip (snd <$> frames) ts in
  ∃ last',
    CopyBuffer (S (length frames)) I
      {| d_reads := ws_reads buf lenb (ts ++ [t_eof]) (arrive (wire isServer frames) ++ [inr io_EOF]);
         d_writes := clean_writes chunks; d_lastActive := last; d_delivered := pre |} m =
    Some (None, {| d_reads := []; d_writes := []; d_lastActive := last';
                   d_delivered := pre ++ concat (snd <$> frames) |}, meter_add m (total_bytes chunks)).
Proof.
  intros chunks. rewrite ws_reads_frames, ws_reads_EOF by done.
  assert (length chunks = length frames) as Hlen
    by (unfold chunks; rewrite length_zip_with, length_fmap; lia).
  destruct (CopyBuffer_clean chunks t_eof I [] last pre m Hm) as [l Hl]. exists l.
  rewrite app_nil_r, Hlen in Hl. unfold clean_reads in Hl. etransitivity; [exact Hl|].
  unfold chunks. by rewrite fst_zip by (rewrite length_fmap; lia).
Qed.

(** Two hops must agree on their buffers: the first frame that is larger than the reader's
    ends the copy with an error that names both sizes, exactly the frames before it have been
    delivered, and nothing of it or behind it is. *)
Theorem ws_oversized_frame (isServer : bool) (buf : slice) (lenb : Z) (frames rest : list (Z * bytes))
    (k : Z) (big : bytes) (ts ts' : list Z) (t I last : Z) (pre : bytes) (m : meter) (s : stream)
    (Hts : length ts = length frames)
    (Hf : Forall (λ f, 0 ≤ fst f < 2 ^ 32 ∧ Z.of_nat (length (snd f)) < 2 ^ 63 ∧ ws_fits buf lenb (snd f)) frames)
    (Hk : 0 ≤ k < 2 ^ 32) (Hbig : Z.of_nat (length big) < 2 ^ 63) (Hno : ¬ ws_fits buf lenb big)
    (Hm : meter_ok m) :
  let chunks := zip (snd <$> frames) ts in
  ∃ d,
    CopyBuffer (S (length frames)) I
      {| d_reads := ws_reads buf lenb (ts ++ t :: ts') (arrive (wire isServer (frames ++ (k, big) :: rest)) ++ s);
         d_writes := clean_writes chunks; d_lastActive := last; d_delivered := pre |} m =
    Some (Some (too_small lenb (Z.of_nat (length big))), d, meter_add m (total_bytes chunks)) ∧
    d_delivered d = pre ++ concat (snd <$> frames).
Proof.
  intros chunks.
  assert (length chunks = length frames) as Hlen
    by (unfold chunks; rewrite length_zip_with, length_fmap; lia).
  assert (wire isServer (frames ++ (k, big) :: rest) = wire isServer frames ++
          frame_bytes (binary_header isServer k big) big ++ wire isServer rest) as ->
    by (by rewrite wire_app, wire_cons).
  rewrite arrive_app, <- List.app_assoc, ws_reads_frames by done. rewrite arrive_app, <- List.app_assoc.
  destruct (wsConn_Read_big (binary_header isServer k big) big buf lenb (arrive (wire isServer rest) ++ s))
    as [s' Hs]; [by apply binary_header_valid|done..|].
  cbn [ws_reads]. rewrite Hs.
  destruct (CopyBuffer_after chunks 1
    (mkRead None [] (Some (too_small lenb (Z.of_nat (length big)))) t None :: ws_reads buf lenb ts' s')
    I [] last pre m Hm) as [l Hl].
  rewrite app_nil_r, Hlen, Nat.add_1_r in Hl. eexists. split; [etransitivity; [exact Hl|done]|].
  cbn. unfold chunks. by rewrite fst_zip by (rewrite length_fmap; lia).
Qed.

(** [C36] When the read deadline expires inside a frame, the bytes [p] of it that had arrived are
    lost, and since a timeout makes [innerConn.Read] try again, the loop goes on reading in
    the middle of the frame: payload is taken for the next header.  (Between two frames, [p]
    empty, nothing is lost.) *)
Theorem timeout_inside_frame (h : ws_header) (b : bytes) (buf : slice) (lenb : Z) (p q : bytes)
    (msg : string) (s : stream) (t : Z) (ts : list Z) (I last : Z)
    (Hv : ws_valid h) (Hl : hdr_Length h = Z.of_nat (length b)) (Hfit : ws_fits buf lenb b)
    (Hpq : frame_bytes h b = p ++ q) (Hq : q ≠ [])
    (Hidle : time_Sub t last ≤ I) :
  innerConn_Read I (ws_reads buf lenb (t :: ts) (arrive p ++ inr (NetError true msg) :: arrive q ++ s)) last =
  innerConn_Read I (ws_reads buf lenb ts (arrive q ++ s)) last.
Proof.
  cbn [ws_reads]. rewrite (wsConn_Read_cut h b buf lenb p q) by done.
  cbn. by rewrite decide_False by lia.
Qed.

(** [Read] looks at neither [OpCode] nor [Fin]: the payload of a ping, a pong or a close frame
    is delivered as data, and none of them is answered. *)
Theorem control_frames_are_data (h : ws_header) (b : bytes) (buf : slice) (lenb : Z) (t : Z) (ts : list Z)
    (s : stream) (I last : Z)
    (Hv : ws_valid h) (Hl : hdr_Length h = Z.of_nat (length b)) (Hfit : ws_fits buf lenb b) :
  innerConn_Read I (ws_reads buf lenb (t :: ts) (arrive (frame_bytes h b) ++ s)) last =
  Some ((b, None), t, ws_reads buf lenb ts s).
Proof. cbn [ws_reads]. by rewrite wsConn_Read_frame. Qed.

End WsConn.

(** ** The frame format of RFC 6455

    A codec with the laws: two bytes of flags, operation code and 7-bit length, then the
    extended length and the key, big-endian. *)
Module Rfc6455.

Fixpoint be_split (n : nat) (z : Z) : bytes :=
  match n with O => [] | S n => be_split n (z / 256) ++ [z mod 256] end.

Definition be_combine (b : bytes) : Z := foldl (λ acc x, acc * 256 + x) 0 b.

Definition len7 (n : Z) : Z :=
  if decide (n < 126) then n else if decide (n < 65536) then 126 else 127.

Definition ext_len (l7 : Z) : nat :=
  if decide (l7 < 126) then 0%nat else if decide (l7 = 126) then 2%nat else 8%nat.

Definition flag (b : bool) : Z := if b then 128 else 0.
Definition mask_len (masked : bool) : nat := if masked then 4%nat else 0%nat.

Definition header (h : ws_header) : bytes :=
  [flag (hdr_Fin h) + hdr_OpCode h; flag (hdr_Masked h) + len7 (hdr_Length h)] ++
  be_split (ext_len (len7 (hdr_Length h))) (hdr_Length h) ++ be_split (mask_len (hdr_Masked h)) (hdr_Mask h).

Definition parse (b0 b1 : Z) (ext : bytes) : ws_header :=
  let n := ext_len (b1 mod 128) in
  {| hdr_Fin := bool_decide (128 ≤ b0); hdr_OpCode := b0 mod 16;
     hdr_Masked := bool_decide (128 ≤ b1); hdr_Mask := be_combine (drop n ext);
     hdr_Length := if decide (n = 0%nat) then b1 mod 128 else be_combine (take n ext) |}.

Definition read (s : stream) : option ((ws_header + error) * stream) :=
  match io_ReadFull 2 [] s with
  | Some (inl [b0; b1], s) =>
      match io_ReadFull (ext_len (b1 mod 128) + mask_len (bool_decide (128 ≤ b1))) [] s with
      | Some (inl ext, s) => Some (inl (parse b0 b1 ext), s)
      | Some (inr e, s) => Some (inr e, s)
      | None => None
      end
  | Some (inl _, s) => None
  | Some (inr e, s) => Some (inr e, s)
  | None => None
  end.

Definition cipher (b : bytes) (key : Z) : bytes :=
  imap (λ i x, Z.lxor x (nth (i mod 4) (be_split 4 key) 0)) b.

#[global] Instance lib : WsLib :=
  {| header_bytes := header; ws_ReadHeader := read; ws_Cipher := cipher;
     wsutil_WriteServerBinary b := header (binary_header true 0 b) ++ b;
     wsutil_WriteClientBinary key b := header (binary_header false key b) ++ cipher b key |}.

Lemma length_be_split n z : length (be_split n z) = n.
Proof. revert z. induction n as [|n IH]; intros z; simpl; [done|]. rewrite length_app, IH. simpl. lia. Qed.

Lemma be_combine_split n z : be_combine (be_split n z) = z mod 256 ^ Z.of_nat n.
Proof.
  revert z. induction n as [|n IH]; intros z; [simpl; by rewrite Z.mod_1_r|].
  cbn [be_split]. unfold be_combine. rewrite foldl_app. cbn [foldl]. fold (be_combine (be_split n (z / 256))).
  rewrite IH, Nat2Z.inj_succ, Z.pow_succ_r by lia.
  pose proof (Z.pow_pos_nonneg 256 (Z.of_nat n)). rewrite Z.rem_mul_r by lia. lia.
Qed.

Lemma be_combine_small n z : 0 ≤ z < 256 ^ Z.of_nat n → be_combine (be_split n z) = z.
Proof. intros. rewrite be_combine_split. by apply Z.mod_small. Qed.

Lemma len7_range n : 0 ≤ n → 0 ≤ len7 n < 128.
Proof. unfold len7. repeat case_decide; lia. Qed.

(** Both fixed bytes are read back. *)
Lemma flag_split f x m : 0 ≤ x < m → m ∈ [16; 128] →
  (flag f + x) mod m = x ∧ bool_decide (128 ≤ flag f + x) = f.
Proof.
  intros Hx Hm. assert (m = 16 ∨ m = 128) as Hm' by (set_solver). clear Hm.
  split.
  - destruct f; simpl; [|by apply Z.mod_small].
    destruct Hm' as [-> | ->]; [replace (128 + x) with (x + 8 * 16) by lia|replace (128 + x) with (x + 1 * 128) by lia];
      rewrite Z.mod_add by lia; by apply Z.mod_small.
  - destruct f; simpl; [by apply bool_decide_eq_true; lia|apply bool_decide_eq_false; lia].
Qed.

Lemma parse_header h :
  ws_valid h →
  parse (flag (hdr_Fin h) + hdr_OpCode h) (flag (hdr_Masked h) + len7 (hdr_Length h))
    (be_split (ext_len (len7 (hdr_Length h))) (hdr_Length h) ++
     be_split (mask_len (hdr_Masked h)) (hdr_Mask h)) = h.
Proof.
  intros [Ho Hm Hu Hn]. unfold parse.
  destruct (flag_split (hdr_Fin h) (hdr_OpCode h) 16) as [-> ->]; [lia|set_solver|].
  destruct (flag_split (hdr_Masked h) (len7 (hdr_Length h)) 128) as [-> ->]; [apply len7_range; lia|set_solver|].
  set (n := ext_len _). rewrite (take_app_length' _ _ n), (drop_app_length' _ _ n) by (by rewrite length_be_split).
  destruct h as [f o k key l]; simpl in *. f_equal.
  - destruct k; simpl mask_len; [by apply be_combine_small|by rewrite Hu].
  - subst n. unfold ext_len, len7 in *. repeat case_decide; try done; try lia; apply be_combine_small; simpl; lia.
Qed.

#[global] Instance laws : WsLibLaws lib.
Proof.
  split.
  - intros h s Hv. cbn [ws_ReadHeader header_bytes lib]. unfold read, header.
    rewrite (io_ReadFull_more [_; _] _ [] s). cbn [app].
    pose proof Hv as [_ _ _ Hn].
    destruct (flag_split (hdr_Masked h) (len7 (hdr_Length h)) 128) as [-> ->]; [apply len7_range; lia|set_solver|].
    set (x := be_split _ _ ++ be_split _ _).
    replace (_ + _)%nat with (length x) by (subst x; by rewrite length_app, !length_be_split).
    rewrite io_ReadFull_arrive. subst x. by rewrite parse_header.
  - intros e s. cbn. destruct (decide _) as [[? _]|]; done.
  - intros h p q e s [Ho Hm Hu Hn] Hpq Hq He. cbn [ws_ReadHeader header_bytes lib] in *. unfold read.
    destruct p as [|b0 [|b1 p]].
    1-2: by rewrite io_ReadFull_cut by (simpl; lia || done).
    unfold header in Hpq. injection Hpq as <- <- Hpq.
    change (arrive (?b0 :: ?b1 :: p)) with (arrive ([b0; b1] ++ p)).
    rewrite (io_ReadFull_more [_; _] _ [] _). cbn [app].
    destruct (flag_split (hdr_Masked h) (len7 (hdr_Length h)) 128) as [-> ->]; [apply len7_range; lia|set_solver|].
    rewrite io_ReadFull_cut; [done| |done].
    apply (f_equal length) in Hpq. rewrite !length_app, !length_be_split in Hpq.
    destruct q; [done|simpl in *; lia].
  - intros b k. apply length_imap.
  - intros b k. change (cipher (cipher b k) k = b). apply list_eq. intros i. unfold cipher.
    rewrite !list_lookup_imap. destruct (_ !! i) as [x|]; [|done]. cbn [fmap option_fmap option_map].
    by rewrite Z.lxor_assoc, Z.lxor_nilpotent, Z.lxor_0_r.
  - done.
  - done.
Qed.

End Rfc6455.

(** ** Witnesses *)

Definition sample_buf : slice := mkSlice 0 8.

(** Three frames of a client, the second without data; a reader with buffers of 8 bytes. *)
Definition sample_frames : list (Z * bytes) := [(7, [1; 2; 3]); (9, []); (123456789, [4])].

Lemma ws_hop_delivers_witness :
  ∃ last',
    CopyBuffer 4 Second
      {| d_reads := ws_reads sample_buf 8 [10; 20; 30; 40] (arrive (wire false sample_frames) ++ [inr io_EOF]);
         d_writes := [mkWrite 3 None; mkWrite 1 None]; d_lastActive := 0; d_delivered := [] |}
      (mkMeter (mkStats 0 0 0) 0 0) =
    Some (None, {| d_reads := []; d_writes := []; d_lastActive := last'; d_delivered := [1; 2; 3; 4] |},
          mkMeter (mkStats 4 4 0) 4 4).
Proof.
  apply (ws_hop_delivers false sample_buf 8 sample_frames [10; 20; 30] 40 Second 0 []
           (mkMeter (mkStats 0 0 0) 0 0)); [done| |done].
  repeat constructor; simpl; lia.
Defined.

(** A frame of 9 bytes behind one that fits. *)
Lemma ws_oversized_frame_witness :
  ∃ d,
    CopyBuffer 2 Second
      {| d_reads := ws_reads sample_buf 8 [10; 20] (arrive (wire true [(0, [5; 6]); (0, [1; 2; 3; 4; 5; 6; 7; 8; 9]); (0, [7])]) ++ [inr io_EOF]);
         d_writes := [mkWrite 2 None]; d_lastActive := 0; d_delivered := [] |}
      (mkMeter (mkStats 0 0 0) 0 0) =
    Some (Some (Errorf "buffer size:8 too small to transport ws payload size:9"), d, mkMeter (mkStats 2 2 0) 2 2) ∧
    d_delivered d = [5; 6].
Proof.
  apply (ws_oversized_frame true sample_buf 8 [(0, [5; 6])] [(0, [7])] 0 [1; 2; 3; 4; 5; 6; 7; 8; 9]
           [10] [] 20 Second 0 [] (mkMeter (mkStats 0 0 0) 0 0) [inr io_EOF]); try (simpl; lia); try done.
  - repeat constructor; simpl; lia.
  - unfold ws_fits. simpl. lia.
Defined.

(** The payload [x 82 01 Z] (hexadecimal 82, 01: the header of a one-byte frame) is cut behind
    its first byte: the reader delivers a frame [Z] that nobody sent. *)
Lemma timeout_inside_frame_witness :
  let h := binary_header true 0 [120; 130; 1; 90] in
  innerConn_Read Second
    (ws_reads sample_buf 8 [10; 20]
       (arrive (take 3 (frame_bytes h [120; 130; 1; 90])) ++ inr (NetError true "i/o timeout") ::
        arrive [130; 1; 90])) 0 =
  Some (([90], None), 20, []).
Proof.
  intros h.
  change (arrive [130; 1; 90]) with (arrive [130; 1; 90] ++ []).
  rewrite (timeout_inside_frame h [120; 130; 1; 90] sample_buf 8 (take 3 (frame_bytes h [120; 130; 1; 90]))
             [130; 1; 90] "i/o timeout" [] 10 [20] Second 0).
  - reflexivity.
  - by apply binary_header_valid.
  - done.
  - unfold ws_fits. simpl. lia.
  - reflexivity.
  - done.
  - by vm_compute.
Defined.

(** A close frame with status 1000: its two bytes are handed to the remote. *)
Lemma control_frames_are_data_witness :
  let h := mkHeader true 8 false 0 2 in
  innerConn_Read Second (ws_reads sample_buf 8 [10] (arrive (frame_bytes h [3; 232]) ++ [inr io_EOF])) 0 =
  Some (([3; 232], None), 10, []).
Proof.
  intros h. apply (control_frames_are_data h [3; 232] sample_buf 8 10 [] [inr io_EOF] Second 0).
  - by split.
  - done.
  - unfold ws_fits. simpl. lia.
Defined.
