(* ===== verification/Config.v ===== *)
(** * internal/config/config.go: the program's configuration and its (re)loading

    A source (file or HTTP) answers a load with an error that leaves the configuration
    alone, or with a decoded document: the fields it has, and the decoder's error if a
    field had the wrong type.  A field that is absent keeps its old value, as
    [json.Unmarshal] does.  The xray configuration is a type of another program: here only
    an identity.  [InitTlsCfg]'s result is an argument.  Times are nanoseconds. *)

From S2P Require Import Prelude GoStd Conf.

Record AppConfig := mkAppConfig {
  PATH : string; NodeLabel : string; WebHost : string; WebPort : Z;
  DashboardPass : string; ApiToken : string;
  LogLeveL : string; EnablePing : bool; ReloadInterval : Z;
  RelayConfigs : list Config; RelaySyncURL : string; RelaySyncInterval : Z;
  XRayConfig : option nat; SyncTrafficEndPoint : string; lastLoadTime : Z }.

(** The zero [time.Time], in nanoseconds of the Unix epoch. *)
Definition zero_time : Z := -62135596800 * Second.

Definition NewConfig (path : string) : AppConfig :=
  {| PATH := path; NodeLabel := ""; WebHost := ""; WebPort := 0; DashboardPass := ""; ApiToken := "";
     LogLeveL := ""; EnablePing := false; ReloadInterval := 0; RelayConfigs := [];
     RelaySyncURL := ""; RelaySyncInterval := 0; XRayConfig := None; SyncTrafficEndPoint := "";
     lastLoadTime := zero_time |}.

(** A decoded document: [None] for an absent field. *)
Record document := mkDocument {
  d_NodeLabel : option string; d_WebHost : option string; d_WebPort : option Z;
  d_DashboardPass : option string; d_ApiToken : option string;
  d_LogLeveL : option string; d_EnablePing : option bool; d_ReloadInterval : option Z;
  d_RelayConfigs : option (list Config); d_RelaySyncURL : option string; d_RelaySyncInterval : option Z;
  d_XRayConfig : option nat; d_SyncTrafficEndPoint : option string }.

Inductive source :=
  | SrcErr (err : error)
  | SrcDoc (doc : document) (err : option error).

(** [readFromFile] and [readFromHttp]. *)
Definition AppConfig_read (src : source) (c : AppConfig) : AppConfig * option error :=
  match src with
  | SrcErr err => (c, Some err)
  | SrcDoc d err =>
      ({| PATH := PATH c; NodeLabel := default (NodeLabel c) (d_NodeLabel d);
          WebHost := default (WebHost c) (d_WebHost d); WebPort := default (WebPort c) (d_WebPort d);
          DashboardPass := default (DashboardPass c) (d_DashboardPass d);
          ApiToken := default (ApiToken c) (d_ApiToken d);
          LogLeveL := default (LogLeveL c) (d_LogLeveL d); EnablePing := default (EnablePing c) (d_EnablePing d);
          ReloadInterval := default (ReloadInterval c) (d_ReloadInterval d);
          RelayConfigs := default (RelayConfigs c) (d_RelayConfigs d);
          RelaySyncURL := default (RelaySyncURL c) (d_RelaySyncURL d);
          RelaySyncInterval := default (RelaySyncInterval c) (d_RelaySyncInterval d);
          XRayConfig := match d_XRayConfig d with Some x => Some x | None => XRayConfig c end;
          SyncTrafficEndPoint := default (SyncTrafficEndPoint c) (d_SyncTrafficEndPoint d);
          lastLoadTime := lastLoadTime c |}, err)
  end.

Definition set_relays (c : AppConfig) (rs : list Config) : AppConfig :=
  {| PATH := PATH c; NodeLabel := NodeLabel c; WebHost := WebHost c; WebPort := WebPort c;
     DashboardPass := DashboardPass c; ApiToken := ApiToken c; LogLeveL := LogLeveL c; EnablePing := EnablePing c;
     ReloadInterval := ReloadInterval c; RelayConfigs := rs; RelaySyncURL := RelaySyncURL c;
     RelaySyncInterval := RelaySyncInterval c; XRayConfig := XRayConfig c;
     SyncTrafficEndPoint := SyncTrafficEndPoint c; lastLoadTime := lastLoadTime c |}.

(** The loop that validates, in place, up to the first error. *)
Fixpoint validate_all (rs : list Config) : list Config * outcome unit :=
  match rs with
  | [] => ([], Ret tt)
  | r :: rest =>
      let (r, res) := Config_Validate r in
      match res with
      | Ret _ => let (rest, res) := validate_all rest in (r :: rest, res)
      | e => (r :: rest, e)
      end
  end.

(** The loop over [labelMap]. *)
Fixpoint check_labels (seen : list string) (rs : list Config) : option error :=
  match rs with
  | [] => None
  | r :: rest =>
      if decide (Label r ∈ seen) then Some (Errorf ("relay label " +:+ Label r +:+ " is not unique"))
      else check_labels (Label r :: seen) rest
  end.

Definition uses_wss (r : Config) : bool :=
  bool_decide (ListenType r = RelayTypeWSS ∨ TransportType r = RelayTypeWSS).

(** [tls]: what [InitTlsCfg] returns if it is called. *)
Definition AppConfig_Adjust (tls : option error) (c : AppConfig) : AppConfig * outcome unit :=
  let (rs, res) := validate_all (RelayConfigs c) in
  let c := {| PATH := PATH c; NodeLabel := NodeLabel c;
              WebHost := if decide (WebHost c = "") then "0.0.0.0" else WebHost c; WebPort := WebPort c;
              DashboardPass := DashboardPass c; ApiToken := ApiToken c;
              LogLeveL := if decide (LogLeveL c = "") then "info" else LogLeveL c; EnablePing := EnablePing c;
              ReloadInterval := ReloadInterval c; RelayConfigs := rs; RelaySyncURL := RelaySyncURL c;
              RelaySyncInterval := RelaySyncInterval c; XRayConfig := XRayConfig c;
              SyncTrafficEndPoint := SyncTrafficEndPoint c; lastLoadTime := lastLoadTime c |} in
  (c, _ ← res;
      _ ← check_err (check_labels [] rs);
      if existsb uses_wss rs then check_err tls else Ret tt).

(** [time.Since(c.lastLoadTime).Seconds() < float64(c.ReloadInterval)], for a load that is
    not forced, with a positive interval. *)
Definition skips_load (now : Z) (force : bool) (c : AppConfig) : bool :=
  bool_decide (0 < ReloadInterval c) &&
  bool_decide (time_Sub now (lastLoadTime c) < ReloadInterval c * Second) && negb force.

Definition AppConfig_LoadConfig (now : Z) (force : bool) (src : source) (tls : option error) (c : AppConfig) :
    AppConfig * outcome unit :=
  if skips_load now force c then (c, Ret tt)
  else
    let c := {| PATH := PATH c; NodeLabel := NodeLabel c; WebHost := WebHost c; WebPort := WebPort c;
                DashboardPass := DashboardPass c; ApiToken := ApiToken c;
                LogLeveL := LogLeveL c; EnablePing := EnablePing c; ReloadInterval := ReloadInterval c;
                RelayConfigs := []; RelaySyncURL := RelaySyncURL c;
                RelaySyncInterval := RelaySyncInterval c; XRayConfig := None;
                SyncTrafficEndPoint := SyncTrafficEndPoint c; lastLoadTime := now |} in
    match AppConfig_read src c with
    | (c, Some err) => (c, Err err)
    | (c, None) => AppConfig_Adjust tls c
    end.

Definition AppConfig_NeedSyncFromServer (c : AppConfig) : bool := Contains (PATH c) "http".
Definition AppConfig_NeedStartWebServer (c : AppConfig) : bool := bool_decide (WebPort c ≠ 0).
Definition AppConfig_NeedStartXrayServer (c : AppConfig) : bool := bool_decide (is_Some (XRayConfig c)).
Definition AppConfig_NeedStartRelayServer (c : AppConfig) : bool := bool_decide (0 < length (RelayConfigs c))%nat.
Definition AppConfig_NeedStartCmgr (c : AppConfig) : bool :=
  bool_decide (RelaySyncURL c ≠ "") && bool_decide (0 < RelaySyncInterval c).

(** ** Lemmas *)

(** The relay list a successful load leaves behind. *)
Record relays_ok (rs : list Config) : Prop := {
  rs_valid : Forall Config_ok rs;
  rs_labels : NoDup (Label <$> rs) }.

Lemma Validate_Ret r r' : Config_Validate r = (r', Ret tt) → Config_ok r' ∧ identity r' =
  (if decide (Label r = "") then Config_DefaultLabel r else Label r, Listen r, ListenType r, TransportType r, Remotes r).
Proof.
  intros Hv. split; [by apply (Validate_accepts r)|]. unfold Config_Validate, Config_Adjust in Hv. by injection Hv as <- _.
Qed.

Lemma validate_all_Ret rs rs' : validate_all rs = (rs', Ret tt) → Forall Config_ok rs'.
Proof.
  revert rs'. induction rs as [|r rs IH]; intros rs'; cbn [validate_all]; [intros [= <-]; constructor|].
  destruct (Config_Validate r) as [r1 [[]| |]] eqn:Hv; [|done..].
  destruct (validate_all rs) as [rest res]. intros [= <- ->].
  constructor; [by apply (Validate_Ret r)|by apply IH].
Qed.

Lemma check_labels_None seen rs :
  check_labels seen rs = None ↔ NoDup (Label <$> rs) ∧ ∀ l, l ∈ seen → l ∉ Label <$> rs.
Proof.
  revert seen. induction rs as [|r rs IH]; intros seen; csimpl.
  - split; [|done]. intros _. split; [constructor|]. intros. apply not_elem_of_nil.
  - rewrite NoDup_cons. case_decide as Hin.
    + split; [done|]. intros [_ Hs]. exfalso. apply (Hs _ Hin). by left.
    + rewrite IH. setoid_rewrite elem_of_cons. naive_solver.
Qed.

Lemma AppConfig_Adjust_Ret tls c c' :
  AppConfig_Adjust tls c = (c', Ret tt) → relays_ok (RelayConfigs c').
Proof.
  unfold AppConfig_Adjust. destruct (validate_all (RelayConfigs c)) as [rs res] eqn:Hv.
  intros [= <- Hres]. apply outcome_bind_Ret in Hres as ([] & -> & Hres). simpl.
  split; [by eapply validate_all_Ret|].
  apply outcome_bind_Ret in Hres as ([] & Hl%check_err_Ret & _). by apply check_labels_None in Hl as [? _].
Qed.

(** ** Theorem *)

(** [C25] A load that is not skipped and succeeds leaves only runnable relay configurations
    with pairwise different labels and restarts the rate limit; a skipped load changes
    nothing and reports success; and a load whose source fails has already dropped the
    relay and xray configurations it had. *)
Theorem LoadConfig_spec (now : Z) (force : bool) (src : source) (tls : option error) (c : AppConfig) :
  let (c', res) := AppConfig_LoadConfig now force src tls c in
  (skips_load now force c = true → c' = c ∧ res = Ret tt) ∧
  (skips_load now force c = false →
     lastLoadTime c' = now ∧
     (res = Ret tt → relays_ok (RelayConfigs c')) ∧
     (∀ err, src = SrcErr err → res = Err err ∧ RelayConfigs c' = [] ∧ XRayConfig c' = None)).
Proof.
  unfold AppConfig_LoadConfig. destruct (skips_load now force c); [done|].
  set (c0 := mkAppConfig _ _ _ _ _ _ _ _ _ _ _ _ _ _ _).
  destruct (AppConfig_read src c0) as [c1 [err|]] eqn:Hr.
  - split; [done|]. intros _. split_and!.
    + destruct src; by simplify_eq/=.
    + done.
    + intros e ->. by simplify_eq/=.
  - destruct (AppConfig_Adjust tls c1) as [c2 res] eqn:Ha. split; [done|]. intros _. split_and!.
    + unfold AppConfig_Adjust in Ha. destruct (validate_all _). destruct src; by simplify_eq/=.
    + intros ->. by eapply AppConfig_Adjust_Ret.
    + intros e ->. by simplify_eq/=.
Qed.
