(* ===== verification/Tls.v ===== *)
(** * internal/tls/tls.go: the certificate of wss relays

    [InitTlsCfg] makes the process-wide TLS configuration on first need.  Keys, certificates
    and their encodings are the crypto packages and encoding/pem: a generated pair is known by a
    number, and each call of a library or of the file system is an argument with its result.
    [zap.S().Fatalf] ends the process.  The users of the configuration, [newWssClient] and
    [WssServer.ListenAndServe] (internal/transporter/wss.go), are here too. *)

From S2P Require Import Prelude GoStd Conf Config.

(** [DefaultTLSConfig] (nil at first) with the pair it serves, and the two byte variables. *)
Record tls_state := mkTls {
  DefaultTLSConfig : option nat; DefaultTLSConfigCertBytes : option nat; DefaultTLSConfigKeyBytes : option nat }.

Definition tls_start : tls_state := mkTls None None None.

(** What the libraries and the file system answer: the names come from the environment
    variables; [os.OpenFile] of the key returns a nil file with its error. *)
Record tls_env := mkTlsEnv {
  te_pair : nat;
  te_generate : option error; te_create : option error; te_keypair : option error;
  CertFileName : string; te_cert_create : option error; te_cert_close : option error;
  KeyFileName : string; te_key_open : option error; te_key_close : option error }.

(** A call returns, with its error, or the process exits. *)
Inductive tls_result := TlsReturns (err : option error) | TlsExits (msg : string).

(** The error of [Close] on a nil file. *)
Definition os_ErrInvalid : error := Sentinel "invalid argument".

Definition write_cert (env : tls_env) : tls_result :=
  if decide (CertFileName env = "") then TlsReturns None
  else match te_cert_create env with
       | Some err => TlsExits ("failed to open cert.pem for writing: " +:+ error_text err)
       | None => TlsReturns (te_cert_close env)
       end.

(** A key file that cannot be opened is only logged; closing the nil file is the error. *)
Definition write_key (env : tls_env) : tls_result :=
  if decide (KeyFileName env = "") then TlsReturns None
  else match te_key_open env with
       | Some _ => TlsReturns (Some os_ErrInvalid)
       | None => TlsReturns (te_key_close env)
       end.

Definition generateKeyPair (env : tls_env) (st : tls_state) : tls_result * tls_state :=
  match te_generate env with
  | Some err => (TlsReturns (Some err), st)
  | None =>
      match te_create env with
      | Some err => (TlsReturns (Some err), st)
      | None =>
          let st := mkTls (DefaultTLSConfig st) (Some (te_pair env)) (Some (te_pair env)) in
          match write_cert env with
          | TlsReturns None => (write_key env, st)
          | r => (r, st)
          end
      end
  end.

Definition genCertificate (env : tls_env) (st : tls_state) : tls_result * tls_state :=
  match generateKeyPair env st with
  | (TlsReturns None, st) => (TlsReturns (te_keypair env), st)
  | r => r
  end.

Definition InitTlsCfg (env : tls_env) (st : tls_state) : tls_result * tls_state :=
  match DefaultTLSConfig st with
  | Some _ => (TlsReturns None, st)
  | None =>
      match genCertificate env st with
      | (TlsReturns None, st) =>
          (TlsReturns None,
           mkTls (Some (te_pair env)) (DefaultTLSConfigCertBytes st) (DefaultTLSConfigKeyBytes st))
      | r => r
      end
  end.

(** [newWssClient] and the start of [WssServer.ListenAndServe] set a field through the
    shared pointer. *)
Definition newWssClient_tls (st : tls_state) : outcome nat :=
  match DefaultTLSConfig st with Some c => Ret c | None => Panic NilDereference end.
Definition WssServer_tls (st : tls_state) : outcome nat :=
  match DefaultTLSConfig st with Some c => Ret c | None => Panic NilDereference end.

(** ** Lemmas *)

Lemma InitTlsCfg_cases env st r st' :
  InitTlsCfg env st = (r, st') →
  (r = TlsReturns None ↔ is_Some (DefaultTLSConfig st')) ∧
  (is_Some (DefaultTLSConfig st) → r = TlsReturns None ∧ st' = st).
Proof.
  unfold InitTlsCfg. destruct (DefaultTLSConfig st) as [k|] eqn:Hk.
  - intros [= <- <-]. rewrite Hk. split; [split; [by eexists|done]|done].
  - assert (Hgen : DefaultTLSConfig (genCertificate env st).2 = None).
    { unfold genCertificate, generateKeyPair. destruct (te_generate env); [done|].
      destruct (te_create env); [done|]. destruct (write_cert env) as [[e|]|m]; [done| |done].
      by destruct (write_key env) as [[e|]|m]. }
    destruct (genCertificate env st) as [[[e|]|m] st1]; cbn in Hgen; intros [= <- <-]; cbn; rewrite ?Hgen;
      (split; [split; [try done|by intros [??]]|by intros [??]]); by eexists.
Qed.

(** When [InitTlsCfg] is the only obstacle, its error is the load's, and the list stays. *)
Lemma Adjust_tls_error e c c' :
  AppConfig_Adjust None c = (c', Ret tt) → existsb uses_wss (RelayConfigs c') = true →
  AppConfig_Adjust (Some e) c = (c', Err e).
Proof.
  unfold AppConfig_Adjust. destruct (validate_all (RelayConfigs c)) as [rs res].
  intros [= <- Hres]. cbn. intros Hw. f_equal. apply outcome_bind_Ret in Hres as ([] & -> & Hres). cbn.
  apply outcome_bind_Ret in Hres as ([] & -> & _). cbn. by rewrite Hw.
Qed.

Lemma Adjust_tls_ok err c c' :
  AppConfig_Adjust err c = (c', Ret tt) → existsb uses_wss (RelayConfigs c') = true → err = None.
Proof.
  unfold AppConfig_Adjust. destruct (validate_all (RelayConfigs c)) as [rs res].
  intros [= <- Hres]. cbn. intros Hw. apply outcome_bind_Ret in Hres as ([] & -> & Hres).
  apply outcome_bind_Ret in Hres as ([] & _ & Hres). rewrite Hw in Hres. by destruct err.
Qed.

(** ** Theorems *)

(** A wss relay always finds its certificate.  If a load that was not skipped succeeds,
    with [InitTlsCfg] called as the code calls it, and some relay listens or dials with
    wss, then the shared configuration exists, so neither the client's constructor nor the
    server dereferences nil; and once it exists it is never replaced, whatever the files
    and libraries would answer to another call. *)
Theorem wss_has_certificate (now : Z) (force : bool) (src : source) (env : tls_env) (st st' : tls_state)
    (c c' : AppConfig) (err : option error)
    (Hinit : InitTlsCfg env st = (TlsReturns err, st'))
    (Hload : AppConfig_LoadConfig now force src err c = (c', Ret tt))
    (Hns : skips_load now force c = false) (Hwss : existsb uses_wss (RelayConfigs c') = true) :
  ∃ k, newWssClient_tls st' = Ret k ∧ WssServer_tls st' = Ret k ∧
    ∀ env', InitTlsCfg env' st' = (TlsReturns None, st').
Proof.
  assert (err = None) as ->.
  { unfold AppConfig_LoadConfig in Hload. rewrite Hns in Hload.
    destruct (AppConfig_read src _) as [c1 [e|]]; [done|]. by eapply Adjust_tls_ok. }
  apply InitTlsCfg_cases in Hinit as [[Hs _] _]. destruct (Hs eq_refl) as [k Hk]. exists k.
  unfold newWssClient_tls, WssServer_tls, InitTlsCfg. by rewrite Hk.
Qed.

(** A certificate that cannot be made poisons the next reload.  When a reload brings the
    first wss relay and [InitTlsCfg] fails (a key file that cannot be opened is enough), the
    load reports the error but keeps the new relay list; a reload within the interval then
    skips its load and reports success, and the relays it starts from that list dereference
    the nil configuration. *)
Theorem failed_certificate_poisons (now now' : Z) (force : bool) (src src' : source) (env : tls_env)
    (st st' : tls_state) (c c' : AppConfig) (e : error) (tls' : option error)
    (Hinit : InitTlsCfg env st = (TlsReturns (Some e), st'))
    (Hotherwise : AppConfig_LoadConfig now force src None c = (c', Ret tt))
    (Hns : skips_load now force c = false) (Hwss : existsb uses_wss (RelayConfigs c') = true)
    (Hskip : skips_load now' false c' = true) :
  AppConfig_LoadConfig now force src (Some e) c = (c', Err e) ∧
  AppConfig_LoadConfig now' false src' tls' c' = (c', Ret tt) ∧
  newWssClient_tls st' = Panic NilDereference ∧ WssServer_tls st' = Panic NilDereference.
Proof.
  split_and!.
  - unfold AppConfig_LoadConfig in *. rewrite Hns in *. destruct (AppConfig_read src _) as [c1 [e1|]]; [done|].
    by apply Adjust_tls_error.
  - unfold AppConfig_LoadConfig. by rewrite Hskip.
  - apply InitTlsCfg_cases in Hinit as [[_ Hs] _]. unfold newWssClient_tls.
    destruct (DefaultTLSConfig st'); [|done]. specialize (Hs (mk_is_Some _ _ eq_refl)). done.
  - apply InitTlsCfg_cases in Hinit as [[_ Hs] _]. unfold WssServer_tls.
    destruct (DefaultTLSConfig st'); [|done]. specialize (Hs (mk_is_Some _ _ eq_refl)). done.
Qed.

Definition tls_env_ok : tls_env := mkTlsEnv 1 None None None "" None None "" None None.
Definition tls_env_no_key : tls_env :=
  mkTlsEnv 1 None None None "" None None "/nowhere/key.pem" (Some (Errorf "no such file")) None.

Definition wss_doc : source :=
  SrcDoc (mkDocument None None None None None None None (Some 60)
    (Some [mkConfig "a" ":1" "wss" "raw" ["10.0.0.9:22"] None]) None None None None) None.

Lemma wss_has_certificate_witness :
  ∃ k, newWssClient_tls (InitTlsCfg tls_env_ok tls_start).2 = Ret k.
Proof.
  destruct (wss_has_certificate (100 * Second) true wss_doc tls_env_ok tls_start
    (InitTlsCfg tls_env_ok tls_start).2 (NewConfig "/etc/ehco.json")
    (AppConfig_LoadConfig (100 * Second) true wss_doc None (NewConfig "/etc/ehco.json")).1 None
    eq_refl ltac:(vm_compute; reflexivity) ltac:(vm_compute; reflexivity) ltac:(vm_compute; reflexivity)) as (k & H & _).
  exists k. exact H.
Defined.

Lemma failed_certificate_poisons_witness :
  newWssClient_tls (InitTlsCfg tls_env_no_key tls_start).2 = Panic NilDereference.
Proof.
  destruct (failed_certificate_poisons (100 * Second) (110 * Second) true wss_doc wss_doc tls_env_no_key tls_start
    (InitTlsCfg tls_env_no_key tls_start).2 (NewConfig "/etc/ehco.json")
    (AppConfig_LoadConfig (100 * Second) true wss_doc None (NewConfig "/etc/ehco.json")).1 os_ErrInvalid None
    eq_refl ltac:(vm_compute; reflexivity) ltac:(vm_compute; reflexivity) ltac:(vm_compute; reflexivity)
    ltac:(vm_compute; reflexivity)) as (_ & _ & H & _).
  exact H.
Defined.
