(* ===== verification/Metrics.v ===== *)
(** * internal/metrics: registration and the ping group

    [metrics.go] and [ping.go].  The default Prometheus registry is the list of what has
    been registered; [extractHost] (net/url) and the resolver of a pinger are arguments.
    The sampling of the registered vectors by the relays is in [Transporter]. *)

From S2P Require Import Prelude GoStd Lb Conf Config.

(** ** metrics.go *)

Inductive collector := EhcoAlive | CurConnectionCount | NetWorkTransmitBytes | HandShakeDuration | PingResponseDuration.

#[global] Instance collector_eq_dec : EqDecision collector.
Proof. solve_decision. Defined.

Definition EhcoAliveStateInit : Z := 0.
Definition EhcoAliveStateRunning : Z := 1.
Definition pingInterval : Z := 30 * Second.

(** [prometheus.MustRegister] of one collector. *)
Definition MustRegister (c : collector) (reg : list collector) : outcome (list collector) :=
  if decide (c ∈ reg) then Panic (ExplicitPanic "duplicate metrics collector registration attempted")
  else Ret (reg ++ [c]).

(** ** ping.go *)

Record Pinger := mkPinger { pg_label : string; pg_remote : string; pg_addr : string }.

Section Ping.
Variable GetAddrHost : string → string + error.
Variable Resolve : string → option error.

(** [None]: the address does not resolve. *)
Definition newPinger (ruleLabel remote addr : string) : Pinger + error :=
  match Resolve addr with Some err => inr err | None => inl (mkPinger ruleLabel remote addr) end.

Definition ping_remote (label : string) (remote : Node) : option Pinger :=
  match GetAddrHost (Address remote) with
  | inr _ => None
  | inl addr => match newPinger label (Address remote) addr with inl p => Some p | inr _ => None end
  end.

Definition NewPingGroup (cfg : AppConfig) : list Pinger :=
  mbind (λ relayCfg, omap (ping_remote (Label relayCfg)) (Config_GetAllRemotes relayCfg)) (RelayConfigs cfg).

(** When each pinger is started, counted from the call of [Run]; the goroutine of [Run]
    sleeps after each. *)
Fixpoint start_times (splay t : Z) (ps : list Pinger) : list (Z * Pinger) :=
  match ps with [] => [] | p :: ps => (t, p) :: start_times splay (t + splay) ps end.

Definition PingGroup_Run (ps : list Pinger) : outcome (list (Z * Pinger)) :=
  match ps with
  | [] => Ret []
  | _ =>
      let n := Z.of_nat (length ps) in
      if decide (n = 0) then Panic DivideByZero
      else Ret (start_times (go_div pingInterval n) 0 ps)
  end.

(** The registry, the alive gauge, and the ping group that was started, if any. *)
Definition RegisterEhcoMetrics (cfg : AppConfig) (reg : list collector) :
    outcome (list collector * Z * option (list Pinger)) :=
  reg ← MustRegister EhcoAlive reg;
  reg ← MustRegister CurConnectionCount reg;
  reg ← MustRegister NetWorkTransmitBytes reg;
  reg ← MustRegister HandShakeDuration reg;
  if EnablePing cfg then
    let pg := NewPingGroup cfg in
    reg ← MustRegister PingResponseDuration reg; Ret (reg, EhcoAliveStateInit, Some pg)
  else Ret (reg, EhcoAliveStateInit, None).

(** ** Theorems *)

Lemma start_times_lookup splay t ps i :
  start_times splay t ps !! i = (λ p, (t + Z.of_nat i * splay, p)) <$> ps !! i.
Proof.
  revert t i. induction ps as [|p ps IH]; intros t [|i]; [done..| |]; cbn [start_times].
  - cbn. do 2 f_equal. lia.
  - cbn [lookup list_lookup]. change ((start_times splay (t + splay) ps) !! i = (λ p0, (t + Z.of_nat (S i) * splay, p0)) <$> ps !! i).
    rewrite IH. destruct (ps !! i); cbn; [|done]. do 2 f_equal. lia.
Qed.

Lemma start_times_snd splay t ps : (start_times splay t ps).*2 = ps.
Proof. revert t. induction ps as [|p ps IH]; intros t; [done|]. csimpl. by rewrite IH. Qed.

(** The ping group: there is one pinger for each remote of each relay, in their order,
    except for the ones whose host cannot be extracted or resolved; and [Run] starts each
    of them exactly once, in that order, evenly spread and all within one ping interval,
    without dividing by zero when there is none. *)
Theorem ping_group_splay (cfg : AppConfig) :
  ∃ sched, PingGroup_Run (NewPingGroup cfg) = Ret sched ∧ sched.*2 = NewPingGroup cfg ∧
    (∀ i t p, sched !! i = Some (t, p) →
       t = Z.of_nat i * (pingInterval / Z.of_nat (length (NewPingGroup cfg))) ∧ 0 ≤ t < pingInterval) ∧
    ∀ p, p ∈ NewPingGroup cfg ↔ ∃ c n, c ∈ RelayConfigs cfg ∧ n ∈ Config_GetAllRemotes c ∧
      pg_label p = Label c ∧ pg_remote p = Address n ∧ GetAddrHost (Address n) = inl (pg_addr p) ∧ Resolve (pg_addr p) = None.
Proof.
  assert (Hmem : ∀ p, p ∈ NewPingGroup cfg ↔ ∃ c n, c ∈ RelayConfigs cfg ∧ n ∈ Config_GetAllRemotes c ∧
      pg_label p = Label c ∧ pg_remote p = Address n ∧ GetAddrHost (Address n) = inl (pg_addr p) ∧ Resolve (pg_addr p) = None).
  { intros p. unfold NewPingGroup. rewrite list_elem_of_bind. setoid_rewrite list_elem_of_omap. split.
    - intros (c & (n & Hn & Hp) & Hc). exists c, n. unfold ping_remote, newPinger in Hp.
      destruct (GetAddrHost (Address n)) as [a|] eqn:Ha; [|done]. destruct (Resolve a) eqn:Hr; [done|].
      injection Hp as <-. done.
    - intros (c & n & Hc & Hn & Hl & Hr & Ha & Hres). exists c. split; [|done]. exists n. split; [done|].
      unfold ping_remote, newPinger. rewrite Ha, Hres. destruct p; cbn in *. by rewrite Hl, Hr. }
  set (ps := NewPingGroup cfg) in *. destruct ps as [|p0 ps0] eqn:Hps.
  - exists []. split_and!; [done|done|by intros i t p Hi; rewrite lookup_nil in Hi|exact Hmem].
  - set (n := Z.of_nat (length (p0 :: ps0))). assert (Hn : 0 < n) by (unfold n; cbn; lia).
    assert (Hdiv : go_div pingInterval n = pingInterval / n).
    { unfold go_div. rewrite Z.quot_div_nonneg by (unfold pingInterval, Second; lia). apply wrap64_id.
      unfold in_int64, min_int64, max_int64. change pingInterval with 30000000000.
      pose proof (Z.div_le_upper_bound 30000000000 n 30000000000 Hn ltac:(lia)).
      pose proof (Z.div_pos 30000000000 n ltac:(lia) Hn). lia. }
    exists (start_times (pingInterval / n) 0 (p0 :: ps0)). split_and!.
    + unfold PingGroup_Run. fold n. rewrite decide_False by lia. by rewrite Hdiv.
    + apply start_times_snd.
    + intros i t p Hi. rewrite start_times_lookup in Hi. destruct ((p0 :: ps0) !! i) as [q|] eqn:Hq; [|done].
      cbn in Hi. injection Hi as <- _. apply lookup_lt_Some in Hq.
      assert (Hin : Z.of_nat i < n) by (unfold n; lia).
      pose proof (Z.div_pos pingInterval n ltac:(unfold pingInterval, Second; lia) Hn).
      pose proof (Z.mul_div_le pingInterval n Hn).
      split; [lia|]. split; [nia|].
      assert (Z.of_nat i * (pingInterval / n) < pingInterval); [|lia].
      destruct (Z.eq_dec (pingInterval / n) 0) as [->|]; [unfold pingInterval, Second; lia|nia].
    + exact Hmem.
Qed.

(** Registering twice panics: a second dashboard in one process is impossible. *)
Lemma RegisterEhcoMetrics_once cfg cfg' reg r :
  RegisterEhcoMetrics cfg [] = Ret (reg, EhcoAliveStateInit, r) →
  is_Panic (RegisterEhcoMetrics cfg' reg).
Proof.
  unfold RegisterEhcoMetrics, MustRegister. intros H. cbn in H.
  destruct (EnablePing cfg); cbn in H; injection H as <- _; eexists; by rewrite decide_True by (by left).
Qed.
End Ping.
