(* ===== verification/Watch.v ===== *)
(** * internal/relay/server.go: the goroutines that ask for reloads

    [WatchAndReload] with [triggerReloadByTicker], [TriggerReloadBySignal] and
    [TriggerReload] as threads around channels of capacity one (the ticker's, the signal's
    and [reloadCH]); and the clock of the loads they cause: [LoadConfig] reads it twice,
    to decide whether to skip and to stamp the load.  What a reload does is in [Relay] and
    [Lifecycle]. *)

From S2P Require Import Prelude GoStd Conf Config.

(** ** Threads and channels *)

(** The ticker's and the signal's goroutine: in their [select], in [TriggerReload] (a send
    that nothing but a receiver ends), or returned. *)
Inductive sender_pc := Waiting | Sending | Gone.
Inductive watcher_pc := Listening | Reloading | WatcherGone.

#[global] Instance sender_pc_eq_dec : EqDecision sender_pc.
Proof. solve_decision. Defined.
#[global] Instance watcher_pc_eq_dec : EqDecision watcher_pc.
Proof. solve_decision. Defined.

(** A channel of capacity one holds a value or not.  [reloads] counts the calls of
    [s.Reload(false)]. *)
Record watch := mkWatch {
  tickC : bool; sigHubCH : bool; reloadCH : bool;
  ticker : sender_pc; signaler : sender_pc; watcher : watcher_pc; ctx_done : bool; reloads : nat }.

Definition watch_start : watch := mkWatch false false false Waiting Waiting Listening false 0.

(** What comes from outside, and the steps of the goroutines. *)
Inductive watch_move :=
  | Tick | Hup | Cancel
  | TickerRecv | TickerSend | TickerExit
  | SignalRecv | SignalSend | SignalExit
  | WatcherRecv | WatcherReturn | WatcherExit.

#[global] Instance watch_move_eq_dec : EqDecision watch_move.
Proof. solve_decision. Defined.

Definition set_channels (t h r : bool) (s : watch) : watch :=
  mkWatch t h r (ticker s) (signaler s) (watcher s) (ctx_done s) (reloads s).
Definition set_ticker (pc : sender_pc) (s : watch) : watch :=
  mkWatch (tickC s) (sigHubCH s) (reloadCH s) pc (signaler s) (watcher s) (ctx_done s) (reloads s).
Definition set_signaler (pc : sender_pc) (s : watch) : watch :=
  mkWatch (tickC s) (sigHubCH s) (reloadCH s) (ticker s) pc (watcher s) (ctx_done s) (reloads s).
Definition set_watcher (pc : watcher_pc) (n : nat) (s : watch) : watch :=
  mkWatch (tickC s) (sigHubCH s) (reloadCH s) (ticker s) (signaler s) pc (ctx_done s) n.

(** The timer and [signal.Notify] drop what does not fit into the channel. *)
Definition outside (m : watch_move) (s : watch) : option watch :=
  match m with
  | Tick => Some (set_channels true (sigHubCH s) (reloadCH s) s)
  | Hup => Some (set_channels (tickC s) true (reloadCH s) s)
  | Cancel => Some (mkWatch (tickC s) (sigHubCH s) (reloadCH s) (ticker s) (signaler s) (watcher s) true (reloads s))
  | _ => None
  end.

Definition triggerReloadByTicker (m : watch_move) (s : watch) : option watch :=
  match m, ticker s with
  | TickerRecv, Waiting => if tickC s then Some (set_ticker Sending (set_channels false (sigHubCH s) (reloadCH s) s)) else None
  | TickerExit, Waiting => if ctx_done s then Some (set_ticker Gone s) else None
  | TickerSend, Sending => if reloadCH s then None else Some (set_ticker Waiting (set_channels (tickC s) (sigHubCH s) true s))
  | _, _ => None
  end.

Definition TriggerReloadBySignal (m : watch_move) (s : watch) : option watch :=
  match m, signaler s with
  | SignalRecv, Waiting => if sigHubCH s then Some (set_signaler Sending (set_channels (tickC s) false (reloadCH s) s)) else None
  | SignalExit, Waiting => if ctx_done s then Some (set_signaler Gone s) else None
  | SignalSend, Sending => if reloadCH s then None else Some (set_signaler Waiting (set_channels (tickC s) (sigHubCH s) true s))
  | _, _ => None
  end.

Definition WatchAndReload (m : watch_move) (s : watch) : option watch :=
  match m, watcher s with
  | WatcherRecv, Listening =>
      if reloadCH s then Some (set_watcher Reloading (S (reloads s)) (set_channels (tickC s) (sigHubCH s) false s)) else None
  | WatcherExit, Listening => if ctx_done s then Some (set_watcher WatcherGone (reloads s) s) else None
  | WatcherReturn, Reloading => Some (set_watcher Listening (reloads s) s)
  | _, _ => None
  end.

Definition watch_exec (m : watch_move) (s : watch) : option watch :=
  match m with
  | Tick | Hup | Cancel => outside m s
  | TickerRecv | TickerSend | TickerExit => triggerReloadByTicker m s
  | SignalRecv | SignalSend | SignalExit => TriggerReloadBySignal m s
  | WatcherRecv | WatcherReturn | WatcherExit => WatchAndReload m s
  end.

Fixpoint watch_run (ms : list watch_move) (s : watch) : option watch :=
  match ms with [] => Some s | m :: ms => s ← watch_exec m s; watch_run ms s end.

Definition is_request (m : watch_move) : Prop := m = Tick ∨ m = Hup.
Definition is_outside (m : watch_move) : Prop := m = Tick ∨ m = Hup ∨ m = Cancel.

#[global] Instance is_request_dec m : Decision (is_request m).
Proof. unfold is_request. apply _. Defined.
#[global] Instance is_outside_dec m : Decision (is_outside m).
Proof. unfold is_outside. apply _. Defined.

(** ** The clock of the loads *)

(** [LoadConfig] with the clock at its guard and at its stamp. *)
Definition LoadConfig_clock (check stamp : Z) (force : bool) (src : source) (tls : option error) (c : AppConfig) :
    AppConfig * outcome unit :=
  if skips_load check force c then (c, Ret tt) else AppConfig_LoadConfig stamp true src tls c.

(** The unforced loads at successive readings of the clock; [true] for each that is not skipped. *)
Fixpoint ticked_loads (tls : option error) (readings : list (Z * Z * source)) (c : AppConfig) : list bool * AppConfig :=
  match readings with
  | [] => ([], c)
  | (check, stamp, src) :: readings =>
      let loads := negb (skips_load check false c) in
      let (bs, c) := ticked_loads tls readings (fst (LoadConfig_clock check stamp false src tls c)) in (loads :: bs, c)
  end.

(** ** Lemmas *)

(** Case analysis on one step: a record of constants is left, so that both states compute. *)
Ltac watch_cases H :=
  match type of H with watch_exec ?m ?s = Some _ =>
    destruct s as [t h r tk sg w d n]; destruct m; cbn in H;
    repeat match type of H with context [match ?x with _ => _ end] => destruct x; try discriminate H end;
    injection H as <-; cbn
  end.

Definition sending (pc : sender_pc) : nat := match pc with Sending => 1 | _ => 0 end.

(** The requests on their way, with the reloads already begun. *)
Definition asked (s : watch) : nat :=
  Nat.b2n (tickC s) + Nat.b2n (sigHubCH s) + Nat.b2n (reloadCH s) + sending (ticker s) + sending (signaler s) + reloads s.

Definition request (m : watch_move) : nat := match m with Tick | Hup => 1 | _ => 0 end.

(** An upper bound for the steps without anything from outside. *)
Definition work (s : watch) : nat :=
  5 * Nat.b2n (tickC s) + 5 * Nat.b2n (sigHubCH s) + 3 * Nat.b2n (reloadCH s) +
  4 * sending (ticker s) + 4 * sending (signaler s) +
  match watcher s with Reloading => 2 | Listening => 1 | WatcherGone => 0 end +
  match ticker s with Gone => 0 | _ => 1 end + match signaler s with Gone => 0 | _ => 1 end.

Lemma watch_exec_asked m s s' : watch_exec m s = Some s' → (asked s' ≤ asked s + request m)%nat.
Proof. unfold asked. intros H. watch_cases H; lia. Qed.

Lemma watch_exec_work m s s' : watch_exec m s = Some s' → ¬ is_outside m → (work s' < work s)%nat.
Proof.
  unfold work, is_outside. intros H Hm.
  watch_cases H; try (exfalso; apply Hm; tauto); 
    repeat match goal with b : bool |- _ => destruct b | pc : watcher_pc |- _ => destruct pc
                         | pc : sender_pc |- _ => destruct pc end; cbn; lia.
Qed.

(** A goroutine returns only when the context is done. *)
Definition watch_ok (s : watch) : Prop :=
  ctx_done s = false → ticker s ≠ Gone ∧ signaler s ≠ Gone ∧ watcher s ≠ WatcherGone.

Lemma watch_exec_ok m s s' : watch_exec m s = Some s' → watch_ok s → watch_ok s'.
Proof. intros H. unfold watch_ok. watch_cases H; intuition congruence. Qed.

(** A request, from the signal or the ticker, is somewhere on its way. *)
Definition underway (s : watch) : Prop :=
  sigHubCH s = true ∨ tickC s = true ∨ signaler s = Sending ∨ ticker s = Sending ∨ reloadCH s = true.

Lemma watch_exec_underway m s s' :
  watch_exec m s = Some s' → underway s → underway s' ∨ (reloads s < reloads s')%nat.
Proof. intros H. unfold underway. watch_cases H; intuition (congruence || lia). Qed.

Lemma watch_exec_reloads m s s' : watch_exec m s = Some s' → (reloads s ≤ reloads s')%nat.
Proof. intros H. watch_cases H; lia. Qed.

(** While the context is alive, a request under way always has a next step. *)
Lemma underway_moves s :
  watch_ok s → ctx_done s = false → underway s → ∃ m, ¬ is_outside m ∧ is_Some (watch_exec m s).
Proof.
  unfold watch_ok, underway, is_outside. destruct s as [t h r tk sg w d n]. cbn. intros Hok -> Hu.
  destruct (Hok eq_refl) as (Ht & Hs & Hw). clear Hok.
  destruct w; [|by exists WatcherReturn; split; [naive_solver|eexists]|done].
  destruct r; [by exists WatcherRecv; split; [naive_solver|eexists]|].
  destruct sg; [|by exists SignalSend; split; [naive_solver|eexists]|done].
  destruct tk; [|by exists TickerSend; split; [naive_solver|eexists]|done].
  destruct h; [by exists SignalRecv; split; [naive_solver|eexists]|].
  destruct t; [by exists TickerRecv; split; [naive_solver|eexists]|]. naive_solver.
Qed.

Lemma watch_exec_done m s s' : watch_exec m s = Some s' → m ≠ Cancel → ctx_done s' = ctx_done s.
Proof. intros H Hm. watch_cases H; done. Qed.

Lemma watch_run_app ms1 ms2 s : watch_run (ms1 ++ ms2) s = (watch_run ms1 s ≫= watch_run ms2).
Proof. revert s. induction ms1 as [|m ms1 IH]; intros s; cbn; [done|]. by destruct (watch_exec m s); cbn. Qed.

Lemma watch_run_cons m ms s s' :
  watch_run (m :: ms) s = Some s' → ∃ s1, watch_exec m s = Some s1 ∧ watch_run ms s1 = Some s'.
Proof. cbn. destruct (watch_exec m s) as [s1|]; cbn; [eauto|done]. Qed.

(** What the goroutines keep over a run. *)
Lemma watch_run_keeps ms s s' :
  watch_run ms s = Some s' → watch_ok s →
  watch_ok s' ∧ (asked s' ≤ asked s + sum_list_with request ms)%nat ∧ (reloads s ≤ reloads s')%nat ∧
  (Cancel ∉ ms → ctx_done s' = ctx_done s) ∧ (underway s → underway s' ∨ (reloads s < reloads s')%nat) ∧
  (Forall (λ m, ¬ is_outside m) ms → (length ms + work s' ≤ work s)%nat).
Proof.
  revert s. induction ms as [|m ms IH]; intros s.
  - intros [= <-] Hok. cbn [sum_list_with length]. do 5 (split; [first [done | lia | auto]|]). lia.
  - intros H Hok. apply watch_run_cons in H as (s1 & Hs & H).
    destruct (IH s1 H (watch_exec_ok _ _ _ Hs Hok)) as (Hok' & Ha & Hr & Hd & Hu & Hw).
    pose proof (watch_exec_asked _ _ _ Hs). pose proof (watch_exec_reloads _ _ _ Hs). cbn [sum_list_with length].
    split; [done|]. split; [lia|]. split; [lia|]. split; [|split].
    + intros Hc. apply not_elem_of_cons in Hc as [Hc Hcs].
      rewrite (Hd Hcs). by apply (watch_exec_done _ _ _ Hs).
    + intros Hun. destruct (watch_exec_underway _ _ _ Hs Hun) as [Hun'|]; [|right; lia].
      destruct (Hu Hun'); [by left|right; lia].
    + intros Hf. apply Forall_cons in Hf as [Hm Hf]. pose proof (watch_exec_work _ _ _ Hs Hm). specialize (Hw Hf). lia.
Qed.

(** ** Theorems *)

(** [C40] No request for a reload is lost, whatever the scheduling: when nothing can move any more
    without a further event and the context is alive, a reload has begun after every tick and
    every SIGHUP (several may have been served by one); there is never more than one reload per
    request; and after at most 25 steps nothing can move without a further event. *)
Theorem reload_requests_served ms s :
  watch_run ms watch_start = Some s →
  (reloads s ≤ sum_list_with request ms)%nat ∧
  (∀ m1 m m2 s1, ms = m1 ++ m :: m2 → is_request m → Cancel ∉ ms → watch_run (m1 ++ [m]) watch_start = Some s1 →
     (reloads s1 < reloads s)%nat ∨ ∃ m', ¬ is_outside m' ∧ is_Some (watch_exec m' s)) ∧
  (∀ ms' s', Forall (λ m, ¬ is_outside m) ms' → watch_run ms' s = Some s' → (length ms' ≤ 25)%nat).
Proof.
  intros H. assert (Hok0 : watch_ok watch_start) by (intros _; done).
  destruct (watch_run_keeps _ _ _ H Hok0) as (Hok & Ha & _ & Hd & _). split; [|split].
  - unfold asked in Ha. cbn in Ha. lia.
  - intros m1 m m2 s1 -> Hm Hc H1. rewrite cons_middle, app_assoc, watch_run_app, H1 in H. cbn in H.
    rewrite watch_run_app in H1. destruct (watch_run m1 watch_start) as [s0|] eqn:H0; [|done].
    destruct (watch_run_keeps _ _ _ H0 Hok0) as (Hok1 & _).
    apply watch_run_cons in H1 as (s1' & Hs & [= ->]). pose proof (watch_exec_ok _ _ _ Hs Hok1) as Hok2.
    assert (Hu : underway s1). { unfold underway. destruct Hm as [-> | ->]; cbn in Hs; injection Hs as <-; cbn; tauto. }
    destruct (watch_run_keeps _ _ _ H Hok2) as (_ & _ & _ & _ & Hun & _).
    destruct (Hun Hu) as [Hu'|]; [right|by left]. apply underway_moves; [done|by apply Hd|done].
  - intros ms' s' Hf Hr. destruct (watch_run_keeps _ _ _ Hr Hok) as (_ & _ & _ & _ & _ & Hw). specialize (Hw Hf).
    assert (work s ≤ 25)%nat; [|lia]. destruct s as [t h r tk sg w d n]. unfold work. cbn.
    destruct t, h, r, tk, sg, w; cbn; lia.
Qed.

(** A tick while a reload runs, and two signals that one further reload serves. *)
Definition sample_watch_run : list watch_move :=
  [Tick; TickerRecv; TickerSend; WatcherRecv; Hup; Hup; SignalRecv; SignalSend; WatcherReturn; WatcherRecv; WatcherReturn].

Definition sample_watch_end : watch := mkWatch false false false Waiting Waiting Listening false 2.

Lemma reload_requests_served_witness : (1 < reloads sample_watch_end)%nat.
Proof.
  destruct (reload_requests_served sample_watch_run sample_watch_end eq_refl) as (_ & H & _).
  assert (Hc : Cancel ∉ sample_watch_run) by (apply (bool_decide_unpack _); vm_compute; exact I).
  destruct (H (take 5 sample_watch_run) Hup (drop 6 sample_watch_run) (mkWatch false true false Waiting Waiting Reloading false 1)
    eq_refl (or_intror eq_refl) Hc eq_refl) as [Hr|(m & Hm & Hs)]; [exact Hr|exfalso].
  unfold is_outside in Hm. destruct m; cbn in Hs; destruct Hs as [? Hs]; first [discriminate Hs|tauto].
Defined.

(** A request that arrives once the watcher has seen the end of the context is never served: its
    goroutine can block in the send for good. *)
Lemma request_after_cancel_blocks :
  ∃ s, watch_run [Hup; SignalRecv; SignalSend; Hup; SignalRecv; Cancel; WatcherExit; TickerExit] watch_start = Some s ∧
    signaler s = Sending ∧ ∀ m, ¬ is_outside m → watch_exec m s = None.
Proof.
  eexists. split; [reflexivity|]. split; [done|]. intros m Hm. unfold is_outside in Hm. destruct m; cbn; try done; tauto.
Qed.

(** ** How often the ticker's reloads load

    The ticker of a server whose interval is [n] seconds ticks at [t0 + k * n]; the guard reads
    the clock [a] after the tick and the stamp [b] later. *)

(** The document leaves the interval as it is. *)
Definition keeps_interval (n : Z) (src : source) : Prop :=
  match src with SrcErr _ => True | SrcDoc d _ => d_ReloadInterval d = None ∨ d_ReloadInterval d = Some n end.

Lemma LoadConfig_stamp stamp src tls c n :
  ReloadInterval c = n → keeps_interval n src →
  let c' := fst (AppConfig_LoadConfig stamp true src tls c) in ReloadInterval c' = n ∧ lastLoadTime c' = stamp.
Proof.
  unfold AppConfig_LoadConfig, skips_load. rewrite andb_false_r. intros Hn Hk.
  destruct src as [e|d [e|]]; cbn in *; [done|by destruct Hk as [-> | ->]|].
  unfold AppConfig_Adjust. destruct (validate_all _) as [rs res]. cbn. by destruct Hk as [-> | ->].
Qed.

Fixpoint tick_readings (n a b t : Z) (srcs : list source) : list (Z * Z * source) :=
  match srcs with
  | [] => []
  | src :: srcs => (t + n * Second + a, t + n * Second + a + b, src) :: tick_readings n a b (t + n * Second) srcs
  end.

(** [true; false; true; ...], of the given length. *)
Fixpoint alternate (first : bool) (k : nat) : list bool :=
  match k with O => [] | S k => first :: alternate (negb first) k end.

Lemma skips_load_iff now c n :
  ReloadInterval c = n → 0 < n → n * Second ≤ max_int64 →
  skips_load now false c = bool_decide (now - lastLoadTime c < n * Second).
Proof.
  intros <- Hn Hm. unfold skips_load, time_Sub. rewrite bool_decide_eq_true_2 by done. rewrite andb_true_r. cbn.
  apply bool_decide_ext. unfold min_int64, max_int64, Second in *. lia.
Qed.

Lemma ticked_alternate tls n a b srcs :
  0 < n → n * Second ≤ max_int64 → 0 ≤ a → 0 < b → b ≤ n * Second → Forall (keeps_interval n) srcs →
  ∀ t c (first : bool), ReloadInterval c = n →
    (if first then lastLoadTime c ≤ t + a else lastLoadTime c = t + a + b) →
    fst (ticked_loads tls (tick_readings n a b t srcs) c) = alternate first (length srcs).
Proof.
  intros Hn Hm Ha Hb Hbn Hsrcs. induction Hsrcs as [|src srcs Hsrc Hsrcs IH]; intros t c first Hc Hl; cbn; [done|].
  pose proof (skips_load_iff (t + n * Second + a) c n Hc Hn Hm) as Hs. unfold LoadConfig_clock.
  destruct first.
  - rewrite bool_decide_eq_false_2 in Hs by lia. rewrite Hs.
    destruct (LoadConfig_stamp (t + n * Second + a + b) src tls c n Hc Hsrc) as [Hc' Hl'].
    specialize (IH (t + n * Second) _ false Hc'). rewrite Hl' in IH.
    destruct (ticked_loads tls _ _) as [bs c''] eqn:E. cbn in *. f_equal. apply IH. lia.
  - rewrite bool_decide_eq_true_2 in Hs by lia. rewrite Hs. cbn.
    specialize (IH (t + n * Second) c true Hc). destruct (ticked_loads tls _ c) as [bs c''] eqn:E. cbn in *.
    f_equal. apply IH. lia.
Qed.

(** A ticker with the interval that the guard of [LoadConfig] also uses loads only at every
    second tick: the stamp of a load is a little later than its tick, so at the next tick,
    after the same latency, less than an interval has passed and the load is skipped.  With a
    reload interval of n seconds the configuration is read every 2n seconds. *)
Theorem ticker_loads_alternate tls c n a b t0 srcs :
  ReloadInterval c = n → 0 < n → n * Second ≤ max_int64 →
  lastLoadTime c ≤ t0 → 0 ≤ a → 0 < b → b ≤ n * Second → Forall (keeps_interval n) srcs →
  fst (ticked_loads tls (tick_readings n a b t0 srcs) c) = alternate true (length srcs).
Proof. intros. eapply ticked_alternate; try done. lia. Qed.

Definition sample_ticked_cfg : AppConfig :=
  mkAppConfig "/etc/ehco.json" "" "" 0 "" "" "info" true 60 [] "" 0 None "" 0.

Lemma ticker_loads_alternate_witness :
  fst (ticked_loads None (tick_readings 60 1000 200 5 [SrcErr io_EOF; SrcErr io_EOF; SrcErr io_EOF]) sample_ticked_cfg) =
  [true; false; true].
Proof.
  apply (ticker_loads_alternate None sample_ticked_cfg 60 1000 200 5 [SrcErr io_EOF; SrcErr io_EOF; SrcErr io_EOF]);
    [done|lia|by vm_compute|done|lia|lia|by vm_compute|by repeat constructor].
Defined.
