(* ===== verification/Relay.v ===== *)
(** * internal/relay: the set of running relays and its reloading

    [server.go], [server_reloader.go], [relay.go], [utils.go] and [health_check.go].  A
    [*Relay] is modelled by its configuration, kind and pointer ([rl_id]).  [go
    s.startOneRelay] stores the relay into [relayM] from a new goroutine: the relays whose
    goroutine has not run yet are in [pending], and [settle] lets them all run.  [stopped]
    records the relays whose [Stop] was called; its error is ignored by the code.  The
    signal and ticker goroutines only send on [reloadCH] and are left out. *)

From S2P Require Import Prelude GoStd Lb Conf Cmgr Transporter Config.

(** ** relay.go *)

Record Relay := mkRelay { rl_cfg : Config; rl_server : relay_server; rl_base : BaseRelayServer;
                          rl_remotes : roundrobin; rl_id : nat }.

Definition Relay_UniqueID (r : Relay) : string := Label (rl_cfg r).

Definition NewRelay (cfg : Config) (id : nat) : outcome Relay :=
  '(s, base, rr) ← NewRelayServer cfg true;
  Ret {| rl_cfg := cfg; rl_server := s; rl_base := base; rl_remotes := rr; rl_id := id |}.

(** ** utils.go *)

Definition inArray (ele : string) (array : list string) : bool := existsb (λ v, bool_decide (v = ele)) array.

(** ** server.go *)

Record Server := mkServerState {
  s_cfg : AppConfig; relayM : gmap string Relay; pending : list Relay; stopped : list Relay; next_id : nat }.

(** [NewServer]: the manager's configuration is adjusted first; [open_err] is the result of
    opening its store. *)
Definition NewServer (cfg : AppConfig) (open_err : option error) : outcome (Server * cmgrImpl) :=
  cm ← NewCmgr (CmgrConfig_Adjust {| SyncURL := RelaySyncURL cfg; SyncInterval := RelaySyncInterval cfg;
                                     EnableMetrics := AppConfig_NeedStartWebServer cfg |}) open_err;
  Ret ({| s_cfg := cfg; relayM := ∅; pending := []; stopped := []; next_id := 0 |}, cm).

Definition set_relayM (s : Server) (m : gmap string Relay) : Server :=
  {| s_cfg := s_cfg s; relayM := m; pending := pending s; stopped := stopped s; next_id := next_id s |}.

(** [NewRelay] followed by [go s.startOneRelay(...)]. *)
Definition spawn (s : Server) (cfg : Config) : outcome Server :=
  r ← NewRelay cfg (next_id s);
  Ret {| s_cfg := s_cfg s; relayM := relayM s; pending := pending s ++ [r]; stopped := stopped s;
         next_id := S (next_id s) |}.

(** The first statement of [startOneRelay], for every goroutine that is due, oldest first. *)
Definition store_all (m : gmap string Relay) (rs : list Relay) : gmap string Relay :=
  foldl (λ m r, <[Relay_UniqueID r := r]> m) m rs.

Definition settle (s : Server) : Server :=
  {| s_cfg := s_cfg s; relayM := store_all (relayM s) (pending s); pending := []; stopped := stopped s;
     next_id := next_id s |}.

(** The rest of [startOneRelay]: the errors that reach [errCH] and end the server. *)
Definition http_ErrServerClosed : error := Sentinel "http: Server closed".

Definition startOneRelay_error (listen_err : option error) : option error :=
  match listen_err with
  | Some err => if errors_Is err Net.net_ErrClosed || errors_Is err http_ErrServerClosed then None else Some err
  | None => None
  end.

Definition stopOneRelay (s : Server) (r : Relay) : Server :=
  {| s_cfg := s_cfg s; relayM := delete (Relay_UniqueID r) (relayM s); pending := pending s;
     stopped := stopped s ++ [r]; next_id := next_id s |}.

(** The loop of [Start]: the first [NewRelay] error ends it. *)
Fixpoint start_relays (s : Server) (cfgs : list Config) : outcome Server :=
  match cfgs with
  | [] => Ret s
  | cfg :: rest => s ← spawn s cfg; start_relays s rest
  end.

Definition Server_Start (s : Server) : outcome Server := start_relays s (RelayConfigs (s_cfg s)).

(** Whether [Start] watches for reloads and starts the connection manager. *)
Definition Start_watches (s : Server) : bool :=
  bool_decide (PATH (s_cfg s) ≠ "" ∧ 0 < ReloadInterval (s_cfg s)).

Definition Start_runs_cmgr (s : Server) : bool := AppConfig_NeedStartCmgr (s_cfg s).

(** [Stop]: [stop_err] is what each relay's [Stop] returns; the map is left as it is. *)
Definition Server_Stop (s : Server) (order : list Relay) (stop_err : Relay → option error) : option error :=
  foldl (λ err r, match stop_err r with Some e => errors_Join err (Some e) | None => err end) None order.

(** ** health_check.go: a check of an unknown label is an error *)

Definition Server_HealthCheck (s : Server) (relayID : string) (check : Relay → Z * option error) : Z * option error :=
  match relayM s !! relayID with
  | None => (0, Some (Errorf ("label for relay: " +:+ relayID +:+ " not found,can not health check")))
  | Some r => check r
  end.

(** ** server_reloader.go *)

(** [oldRelayCfgM[v.Label] = v.Clone()], in order: a later label overwrites. *)
Fixpoint clone_all (m : gmap string Config) (cfgs : list Config) : outcome (gmap string Config) :=
  match cfgs with
  | [] => Ret m
  | v :: rest => c ← Config_Clone v; clone_all (<[Label v := c]> m) rest
  end.

(** The [Range]: every relay whose key is not in the new list is stopped. *)
Definition close_removed (labels : list string) (order : list (string * Relay)) (s : Server) : Server :=
  foldl (λ s kv, if inArray (fst kv) labels then s else stopOneRelay s (snd kv)) s order.

(** A [NewRelay] error is logged and the loop continues. *)
Definition spawn_or_continue (s : Server) (cfg : Config) : outcome Server :=
  match spawn s cfg with Err _ => Ret s | r => r end.

Definition reload_one (old : gmap string Config) (s : Server) (newCfg : Config) : outcome Server :=
  match relayM s !! Label newCfg with
  | None => spawn_or_continue s newCfg
  | Some oldR =>
      match old !! Label newCfg with
      | None => Ret s
      | Some oldCfg =>
          if Config_Different oldCfg newCfg then spawn_or_continue (stopOneRelay s oldR) newCfg else Ret s
      end
  end.

Fixpoint reload_loop (old : gmap string Config) (s : Server) (cfgs : list Config) : outcome Server :=
  match cfgs with
  | [] => Ret s
  | cfg :: rest => s ← reload_one old s cfg; reload_loop old s rest
  end.

(** [order]: the relays in the order [relayM.Range] visits them.  The state is returned
    beside the result because a failed load has changed the configuration. *)
Definition Server_Reload (now : Z) (force : bool) (src : source) (tls : option error)
    (order : list (string * Relay)) (s : Server) : Server * outcome unit :=
  match clone_all ∅ (RelayConfigs (s_cfg s)) with
  | Panic p => (s, Panic p)
  | Err e => (s, Err e)
  | Ret old =>
      let (cfg, res) := AppConfig_LoadConfig now force src tls (s_cfg s) in
      let s := {| s_cfg := cfg; relayM := relayM s; pending := pending s; stopped := stopped s;
                  next_id := next_id s |} in
      match res with
      | Err e => (s, Err e)
      | Panic p => (s, Panic p)
      | Ret _ =>
          let s := close_removed (Label <$> RelayConfigs cfg) order s in
          match reload_loop old s (RelayConfigs cfg) with
          | Ret s => (s, Ret tt)
          | Err e => (s, Err e)
          | Panic p => (s, Panic p)
          end
      end
  end.

(** ** The abstract specification

    What should run is determined by the configuration list: for every label its identity
    (addresses, kinds and remotes). *)
Definition ident : Type := string * string * string * string * list string.

Definition desired (cfgs : list Config) : gmap string ident :=
  list_to_map ((λ c, (Label c, identity c)) <$> cfgs).

Definition running (s : Server) : gmap string ident := (λ r, identity (rl_cfg r)) <$> relayM s.

(** The server runs what its configuration asks for, and nothing is in flight. *)
Record consistent (s : Server) : Prop := {
  con_running : running s = desired (RelayConfigs (s_cfg s));
  con_cfgs : relays_ok (RelayConfigs (s_cfg s));
  con_keys : map_Forall (λ l r, Relay_UniqueID r = l) (relayM s);
  con_pending : pending s = [] }.

(** ** Lemmas *)

Lemma inArray_spec ele array : inArray ele array = true ↔ ele ∈ array.
Proof.
  unfold inArray. rewrite existsb_exists. setoid_rewrite <- list_elem_of_In.
  setoid_rewrite bool_decide_eq_true. naive_solver.
Qed.

Lemma store_all_snoc m rs r : store_all m (rs ++ [r]) = <[Relay_UniqueID r := r]> (store_all m rs).
Proof. unfold store_all. by rewrite foldl_app. Qed.

Lemma store_all_delete m rs l l' : l' ≠ l → store_all (delete l m) rs !! l' = store_all m rs !! l'.
Proof.
  intros Hne. induction rs as [|r rs IH] using rev_ind; [simpl; by rewrite lookup_delete_ne|].
  rewrite !store_all_snoc. destruct (decide (Relay_UniqueID r = l')) as [->|];
    [by rewrite !lookup_insert_eq|by rewrite !lookup_insert_ne].
Qed.

Lemma store_all_notin m rs l : l ∉ Relay_UniqueID <$> rs → store_all m rs !! l = m !! l.
Proof.
  induction rs as [|r rs IH] using rev_ind; [done|]. rewrite store_all_snoc, fmap_app. csimpl.
  intros [Hn Hr]%not_elem_of_app. rewrite lookup_insert_ne by set_solver. by apply IH.
Qed.

Lemma clone_all_ok m cfgs :
  Forall Config_ok cfgs →
  ∃ old, clone_all m cfgs = Ret old ∧
    (∀ l, l ∉ Label <$> cfgs → old !! l = m !! l) ∧
    (NoDup (Label <$> cfgs) → ∀ c, c ∈ cfgs → ∃ oc, old !! Label c = Some oc ∧ identity oc = identity c).
Proof.
  intros Hok. revert m. induction Hok as [|c cfgs Hc _ IH]; intros m; [exists m; split_and!; set_solver|].
  destruct (ok_options _ Hc) as (o & Ho & _). cbn [clone_all].
  destruct (Config_Clone c) as [c'| |] eqn:Hcl; [|by unfold Config_Clone in Hcl; rewrite Ho in Hcl..].
  destruct (IH (<[Label c := c']> m)) as (old & Hold & Hout & Hin). exists old. cbn. split_and!; [done| |].
  - intros l [? ?]%not_elem_of_cons. rewrite Hout by done. by rewrite lookup_insert_ne.
  - intros [Hn Hnd]%NoDup_cons c0 [->|Hc0]%elem_of_cons; [|by apply Hin].
    exists c'. rewrite Hout by done. rewrite lookup_insert_eq. split; [done|by apply Clone_identity].
Qed.

Lemma NewRelay_ok cfg id :
  Config_ok cfg → ∃ r, NewRelay cfg id = Ret r ∧ rl_cfg r = cfg ∧ rl_id r = id.
Proof.
  intros [_ Hlt Htt _ _ (o & Ho & _)]. unfold NewRelay.
  destruct (relay_kinds cfg true o Ho Hlt Htt) as (srv & cl & -> & _). eexists. split; [reflexivity|done].
Qed.

(** The relays once every started goroutine has stored its own. *)
Definition settled (s : Server) : gmap string Relay := store_all (relayM s) (pending s).

(** What the loop needs: nothing pending for the labels to come, and the old configuration
    of every running relay. *)
Record loop_pre (old : gmap string Config) (s : Server) (cfgs : list Config) : Prop := {
  lp_ok : Forall Config_ok cfgs;
  lp_labels : NoDup (Label <$> cfgs);
  lp_pending : ∀ c, c ∈ cfgs → Label c ∉ Relay_UniqueID <$> pending s;
  lp_keys : map_Forall (λ l r, Relay_UniqueID r = l) (relayM s);
  lp_old : ∀ c r, c ∈ cfgs → relayM s !! Label c = Some r →
    ∃ oc, old !! Label c = Some oc ∧ identity oc = identity (rl_cfg r) }.

(** What it achieves: the labels of [cfgs] run what they ask for, an unchanged relay is the
    same object, exactly the changed ones are stopped, and no other label is touched. *)
Record loop_post (s : Server) (cfgs : list Config) (s' : Server) : Prop := {
  lq_cfg : s_cfg s' = s_cfg s;
  lq_other : ∀ l, l ∉ Label <$> cfgs → settled s' !! l = settled s !! l ∧ relayM s' !! l = relayM s !! l;
  lq_running : ∀ c, c ∈ cfgs → ∃ r, settled s' !! Label c = Some r ∧ identity (rl_cfg r) = identity c ∧
    ∀ r0, relayM s !! Label c = Some r0 → identity (rl_cfg r0) = identity c → r = r0;
  lq_pending : ∃ news, pending s' = pending s ++ news ∧ Forall (λ r, Relay_UniqueID r ∈ Label <$> cfgs) news;
  lq_keys : map_Forall (λ l r, Relay_UniqueID r = l) (relayM s');
  lq_stopped : ∃ extra, stopped s' = stopped s ++ extra ∧
    ∀ r, r ∈ extra ↔ ∃ c, c ∈ cfgs ∧ relayM s !! Label c = Some r ∧ identity (rl_cfg r) ≠ identity c }.

Lemma identity_label c c' : identity c = identity c' → Label c = Label c'.
Proof. unfold identity. congruence. Qed.

Lemma spawn_ok s cfg :
  Config_ok cfg →
  ∃ r, rl_cfg r = cfg ∧
    spawn_or_continue s cfg = Ret {| s_cfg := s_cfg s; relayM := relayM s; pending := pending s ++ [r];
                                     stopped := stopped s; next_id := S (next_id s) |}.
Proof.
  intros Hok. destruct (NewRelay_ok cfg (next_id s) Hok) as (r & Hr & Hcfg & _).
  exists r. split; [done|]. unfold spawn_or_continue, spawn. by rewrite Hr.
Qed.

Lemma loop_pre_fresh old s c cfgs : loop_pre old s (c :: cfgs) → ∀ c', c' ∈ cfgs → Label c' ≠ Label c.
Proof.
  intros [_ Hnd _ _ _] c' Hc' He. apply NoDup_cons in Hnd as [Hn _]. apply Hn. rewrite <- He.
  by apply list_elem_of_fmap_2.
Qed.

(** One round that starts a relay for [c], after stopping the one that ran, if any. *)
Lemma replaced_ok old s c cfgs rn extra nid :
  loop_pre old s (c :: cfgs) → rl_cfg rn = c →
  (∀ r, r ∈ extra ↔ relayM s !! Label c = Some r) →
  (∀ r, relayM s !! Label c = Some r → identity (rl_cfg r) ≠ identity c) →
  let s1 := {| s_cfg := s_cfg s; relayM := delete (Label c) (relayM s); pending := pending s ++ [rn];
               stopped := stopped s ++ extra; next_id := nid |} in
  loop_post s [c] s1 ∧ loop_pre old s1 cfgs.
Proof.
  intros Hpre Hrn Hextra Hdiff. pose proof (loop_pre_fresh _ _ _ _ Hpre) as Hlab.
  destruct Hpre as [Hok Hnd Hpend Hkeys Hold]. apply Forall_cons in Hok as [Hc Hok]. apply NoDup_cons in Hnd as [_ Hnd].
  assert (Hrid : Relay_UniqueID rn = Label c) by (unfold Relay_UniqueID; by rewrite Hrn).
  split; split; cbn [s_cfg relayM pending stopped].
  - done.
  - intros l Hl. assert (l ≠ Label c) by (intros ->; apply Hl; by left). unfold settled. cbn [relayM pending].
    by rewrite store_all_snoc, Hrid, lookup_insert_ne, store_all_delete, lookup_delete_ne by done.
  - intros c' ->%list_elem_of_singleton. exists rn. unfold settled. cbn [relayM pending].
    rewrite store_all_snoc, Hrid, lookup_insert_eq, Hrn. split_and!; [done..|].
    intros r0 Hr0 Hi. by apply Hdiff in Hr0.
  - exists [rn]. split; [done|]. apply Forall_singleton. rewrite Hrid. by left.
  - by apply map_Forall_delete.
  - exists extra. split; [done|]. intros r. rewrite Hextra. split.
    + intros Hr. exists c. split_and!; [by left|done|by apply Hdiff].
    + by intros (c' & ->%list_elem_of_singleton & Hr & _).
  - done.
  - done.
  - intros c' Hc'. rewrite fmap_app, not_elem_of_app. split; [apply Hpend; by right|].
    csimpl. rewrite Hrid. apply not_elem_of_cons. split; [by apply Hlab|apply not_elem_of_nil].
  - by apply map_Forall_delete.
  - intros c' r' Hc' Hr'. rewrite lookup_delete_ne in Hr' by (intros He; by apply (Hlab c')).
    apply Hold; [by right|done].
Qed.

(** One round that leaves an unchanged relay alone. *)
Lemma unchanged_ok old s c cfgs r :
  loop_pre old s (c :: cfgs) → relayM s !! Label c = Some r → identity (rl_cfg r) = identity c →
  loop_post s [c] s ∧ loop_pre old s cfgs.
Proof.
  intros [Hok Hnd Hpend Hkeys Hold] Hr Hi. apply Forall_cons in Hok as [Hc Hok]. apply NoDup_cons in Hnd as [_ Hnd].
  assert (Label c ∉ Relay_UniqueID <$> pending s) by (apply Hpend; by left).
  split; split; try done.
  - intros c' ->%list_elem_of_singleton. exists r. unfold settled.
    rewrite store_all_notin by done. split_and!; [done..|]. intros r0 Hr0 _. congruence.
  - exists []. by rewrite app_nil_r.
  - exists []. rewrite app_nil_r. split; [done|]. intros r0. split; [by intros ?%elem_of_nil|].
    intros (c' & ->%list_elem_of_singleton & Hr0 & Hne). congruence.
  - intros c' Hc'. apply Hpend. by right.
  - intros c' r' Hc'. apply Hold. by right.
Qed.

Lemma reload_one_ok old s c cfgs :
  loop_pre old s (c :: cfgs) →
  ∃ s1, reload_one old s c = Ret s1 ∧ loop_post s [c] s1 ∧ loop_pre old s1 cfgs.
Proof.
  intros Hpre. pose proof Hpre as [[Hc _]%Forall_cons _ _ Hkeys Hold]. unfold reload_one.
  destruct (relayM s !! Label c) as [r|] eqn:Hr.
  - destruct (Hold c r ltac:(by left) Hr) as (oc & -> & Hoc). destruct (Config_Different oc c) eqn:Hd.
    + apply Different_true in Hd. assert (Relay_UniqueID r = Label c) as Hrl by by apply Hkeys.
      destruct (spawn_ok (stopOneRelay s r) c Hc) as (rn & Hrn & Hsp). eexists. split; [exact Hsp|].
      unfold stopOneRelay. cbn [s_cfg relayM pending stopped next_id]. rewrite Hrl. apply replaced_ok; [done|done| |].
      * intros r0. rewrite list_elem_of_singleton, Hr. split; congruence.
      * intros r0 Hr0. congruence.
    + apply Different_false in Hd. exists s. split; [done|]. apply (unchanged_ok _ _ _ _ r); congruence.
  - destruct (spawn_ok s c Hc) as (rn & Hrn & Hsp). eexists. split; [exact Hsp|].
    destruct (replaced_ok old s c cfgs rn [] (S (next_id s)) Hpre Hrn) as [Hpost Hpre1];
      [intros r0; rewrite Hr; split; [by intros ?%elem_of_nil|done]|intros r0; by rewrite Hr|].
    rewrite delete_id, app_nil_r in Hpost, Hpre1 by done. done.
Qed.

Lemma loop_post_trans s s1 s' c cfgs :
  Label c ∉ Label <$> cfgs → loop_post s [c] s1 → loop_post s1 cfgs s' → loop_post s (c :: cfgs) s'.
Proof.
  intros Hn [Hcfg1 Hoth1 Hrun1 (news1 & Hp1 & Hnews1) Hk1 (ex1 & Hs1 & Hex1)]
    [Hcfg2 Hoth2 Hrun2 (news2 & Hp2 & Hnews2) Hk2 (ex2 & Hs2 & Hex2)].
  assert (Hsame : ∀ c', c' ∈ cfgs → relayM s1 !! Label c' = relayM s !! Label c').
  { intros c' Hc'. apply Hoth1. intros He%list_elem_of_singleton. apply Hn. rewrite <- He.
    by apply list_elem_of_fmap_2. }
  split.
  - congruence.
  - intros l [Hl1 Hl2]%not_elem_of_cons. destruct (Hoth2 l Hl2) as [-> ->].
    apply Hoth1. by apply not_elem_of_cons; split; [|apply not_elem_of_nil].
  - intros c' [->|Hc']%elem_of_cons.
    + destruct (Hoth2 _ Hn) as [-> _]. apply Hrun1. by left.
    + destruct (Hrun2 c' Hc') as (r & Hr & Hi & Hkeep). exists r. split_and!; [done..|].
      by rewrite <- Hsame.
  - exists (news1 ++ news2). rewrite Hp2, Hp1, <- (assoc app). split; [done|]. apply Forall_app. split.
    + eapply Forall_impl; [done|]. intros r ->%list_elem_of_singleton. by left.
    + eapply Forall_impl; [done|]. intros r Hr. by right.
  - done.
  - exists (ex1 ++ ex2). rewrite Hs2, Hs1, <- (assoc app). split; [done|]. intros r.
    rewrite elem_of_app, Hex1, Hex2. split.
    + intros [(c' & ->%list_elem_of_singleton & ? & ?)|(c' & Hc' & Hr & ?)].
      * exists c. split_and!; [by left|done..].
      * exists c'. rewrite <- Hsame by done. split_and!; [by right|done..].
    + intros (c' & [->|Hc']%elem_of_cons & Hr & Hi); [left; exists c; split_and!; [by left|done..]|].
      right. exists c'. by rewrite Hsame.
Qed.

Lemma reload_loop_ok old s cfgs :
  loop_pre old s cfgs → ∃ s', reload_loop old s cfgs = Ret s' ∧ loop_post s cfgs s'.
Proof.
  revert s. induction cfgs as [|c cfgs IH]; intros s Hpre.
  - exists s. split; [done|]. destruct Hpre. split; try done.
    + by intros c ?%elem_of_nil.
    + exists []. rewrite app_nil_r. split; [done|constructor].
    + exists []. rewrite app_nil_r. split; [done|]. intros r. split; [by intros ?%elem_of_nil|].
      by intros (? & ?%elem_of_nil & _).
  - destruct (reload_one_ok _ _ _ _ Hpre) as (s1 & Hone & Hpost & Hpre1).
    destruct (IH s1 Hpre1) as (s' & Hloop & Hpost2). exists s'. cbn [reload_loop]. rewrite Hone. cbn.
    split; [exact Hloop|]. eapply loop_post_trans; [|done..].
    pose proof (lp_labels _ _ _ Hpre) as [? _]%NoDup_cons. done.
Qed.

Lemma close_removed_ok labels order s :
  Forall (λ kv, Relay_UniqueID (snd kv) = fst kv) order →
  let s' := close_removed labels order s in
  (∀ l, relayM s' !! l = if decide (l ∈ order.*1 ∧ l ∉ labels) then None else relayM s !! l) ∧
  stopped s' = stopped s ++ (filter (λ kv, fst kv ∉ labels) order).*2 ∧
  s_cfg s' = s_cfg s ∧ pending s' = pending s ∧ next_id s' = next_id s.
Proof.
  intros Hkeys. revert s. induction Hkeys as [|[k r] order Hk _ IH]; intros s; simpl.
  - split_and!; [done|by rewrite app_nil_r|done..].
  - unfold close_removed in *. simpl in *. destruct (inArray k labels) eqn:Hin.
    + apply inArray_spec in Hin. destruct (IH s) as (Hm & Hst & Hrest). split_and!; [| |apply Hrest..].
      * intros l. rewrite Hm. destruct (decide (l = k)) as [->|].
        -- rewrite !decide_False by tauto. done.
        -- apply decide_ext. rewrite elem_of_cons. tauto.
      * rewrite Hst, filter_cons_False by tauto. done.
    + assert (k ∉ labels) as Hnin by (rewrite <- inArray_spec; congruence).
      destruct (IH (stopOneRelay s r)) as (Hm & Hst & Hrest). split_and!; [| |apply Hrest..].
      * intros l. rewrite Hm. simpl. rewrite Hk. destruct (decide (l = k)) as [->|].
        -- rewrite lookup_delete_eq. case_decide; case_decide as HB; try done;
             (exfalso; apply HB; split; [by left|done]).
        -- rewrite lookup_delete_ne by done. apply decide_ext. rewrite elem_of_cons. tauto.
      * rewrite Hst, filter_cons_True by done. csimpl. by rewrite <- (assoc app).
Qed.

Lemma desired_lookup cfgs l i :
  NoDup (Label <$> cfgs) → desired cfgs !! l = Some i ↔ ∃ c, c ∈ cfgs ∧ Label c = l ∧ identity c = i.
Proof.
  intros Hnd. unfold desired. rewrite <- elem_of_list_to_map.
  - rewrite list_elem_of_fmap. naive_solver.
  - rewrite <- list_fmap_compose. exact Hnd.
Qed.

Lemma desired_lookup_None cfgs l : desired cfgs !! l = None ↔ l ∉ Label <$> cfgs.
Proof. unfold desired. rewrite <- not_elem_of_list_to_map, <- list_fmap_compose. done. Qed.

(** The relays of a consistent server, by label. *)
Lemma consistent_lookup s l r :
  consistent s → relayM s !! l = Some r →
  ∃ c, c ∈ RelayConfigs (s_cfg s) ∧ Label c = l ∧ identity c = identity (rl_cfg r).
Proof.
  intros [Hrun [_ Hnd] _ _] Hr. apply desired_lookup; [done|]. rewrite <- Hrun. unfold running.
  by rewrite lookup_fmap, Hr.
Qed.

Lemma store_all_keys m rs :
  map_Forall (λ l r, Relay_UniqueID r = l) m → map_Forall (λ l r, Relay_UniqueID r = l) (store_all m rs).
Proof.
  intros Hm. induction rs as [|r rs IH] using rev_ind; [done|].
  rewrite store_all_snoc. by apply map_Forall_insert_2.
Qed.

(** [LoadConfig] keeps a good list good: either it was skipped or it validated a new one. *)
Lemma LoadConfig_relays_ok now force src tls c c' :
  relays_ok (RelayConfigs c) → AppConfig_LoadConfig now force src tls c = (c', Ret tt) → relays_ok (RelayConfigs c').
Proof.
  intros Hok. unfold AppConfig_LoadConfig. destruct (skips_load now force c); [by intros [= <-]|].
  destruct (AppConfig_read src _) as [c1 [err|]]; [done|]. apply AppConfig_Adjust_Ret.
Qed.

(** The state between the removal and the loop of a reload. *)
Lemma close_removed_settled s cfgs order :
  map_Forall (λ l r, Relay_UniqueID r = l) (relayM s) → order ≡ₚ map_to_list (relayM s) →
  let s1 := close_removed (Label <$> cfgs) order s in
  (∀ l, relayM s1 !! l = if decide (l ∈ Label <$> cfgs) then relayM s !! l else None) ∧
  s_cfg s1 = s_cfg s ∧ pending s1 = pending s ∧
  ∃ extra, stopped s1 = stopped s ++ extra ∧
    ∀ r, r ∈ extra ↔ ∃ l, relayM s !! l = Some r ∧ l ∉ Label <$> cfgs.
Proof.
  intros Hkeys Hord.
  assert (Hin : ∀ l r, (l, r) ∈ order ↔ relayM s !! l = Some r).
  { intros l r. by rewrite Hord, elem_of_map_to_list. }
  destruct (close_removed_ok (Label <$> cfgs) order s) as (Hm & Hst & Hcfg & Hp & _).
  { apply Forall_forall. intros [l r] Hlr%Hin. by apply Hkeys. }
  split_and!; [|done..|].
  - intros l. rewrite Hm. destruct (decide (l ∈ Label <$> cfgs)); [by rewrite decide_False by tauto|].
    case_decide as Hd; [done|]. destruct (relayM s !! l) as [r|] eqn:E; [|done].
    exfalso. apply Hd. split; [|done]. apply list_elem_of_fmap. exists (l, r). split; [done|by apply Hin].
  - eexists. split; [exact Hst|]. intros r. rewrite list_elem_of_fmap. split.
    + intros ([l r'] & -> & [Hl Hlr%Hin]%list_elem_of_filter). eauto.
    + intros (l & Hlr%Hin & Hl). exists (l, r). split; [done|]. by apply list_elem_of_filter.
Qed.

Lemma desired_of cfgs c i :
  NoDup (Label <$> cfgs) → c ∈ cfgs → desired cfgs !! Label c = Some i ↔ i = identity c.
Proof.
  intros Hnd Hc. rewrite desired_lookup by done. split; [|intros ->; by exists c].
  intros (c' & Hc' & Hl & <-). f_equal.
  apply list_elem_of_lookup in Hc as [k Hck], Hc' as [j Hcj].
  assert (k = j) as <-; [|congruence].
  eapply NoDup_lookup; [exact Hnd| |]; rewrite list_lookup_fmap; [by rewrite Hck|by rewrite Hcj; simpl; rewrite Hl].
Qed.

(** A finished loop over the whole configuration settles into a consistent server. *)
Lemma loop_post_consistent s1 s' cfgs :
  loop_post s1 cfgs s' → RelayConfigs (s_cfg s1) = cfgs → relays_ok cfgs → pending s1 = [] →
  (∀ l, l ∉ Label <$> cfgs → relayM s1 !! l = None) → consistent (settle s').
Proof.
  intros [Hcfg Hoth Hrun _ Hk _] Hc1 [Hval Hnd] Hp1 Hnone.
  split; simpl; [|by rewrite Hcfg, Hc1|by apply store_all_keys|done].
  apply map_eq. intros l. unfold running. rewrite lookup_fmap. simpl.
  change (store_all (relayM s') (pending s')) with (settled s'). rewrite Hcfg, Hc1.
  destruct (decide (l ∈ Label <$> cfgs)) as [(c & -> & Hc)%list_elem_of_fmap|Hl].
  - destruct (Hrun c Hc) as (r & -> & Hi & _). simpl. symmetry. by apply desired_of; [..|rewrite Hi].
  - destruct (Hoth l Hl) as [-> _]. unfold settled. rewrite Hp1. simpl. rewrite (Hnone l Hl). symmetry.
    by apply desired_lookup_None.
Qed.

Lemma Reload_refines_aux now force src tls order s cfg' :
  consistent s → order ≡ₚ map_to_list (relayM s) →
  AppConfig_LoadConfig now force src tls (s_cfg s) = (cfg', Ret tt) →
  ∃ s' extra, Server_Reload now force src tls order s = (s', Ret tt) ∧
    s_cfg s' = cfg' ∧ consistent (settle s') ∧
    (∀ l r, relayM s !! l = Some r → desired (RelayConfigs cfg') !! l = Some (identity (rl_cfg r)) →
       relayM (settle s') !! l = Some r) ∧
    stopped s' = stopped s ++ extra ∧
    ∀ r, r ∈ extra ↔ ∃ l, relayM s !! l = Some r ∧
      desired (RelayConfigs cfg') !! l ≠ Some (identity (rl_cfg r)).
Proof.
  intros Hcon Hord Hload. pose proof Hcon as [_ [Hval Hnd] Hkeys Hpend].
  pose proof (LoadConfig_relays_ok _ _ _ _ _ _ (con_cfgs _ Hcon) Hload) as Hok'. pose proof Hok' as [Hval' Hnd'].
  unfold Server_Reload. destruct (clone_all_ok ∅ _ Hval) as (old & -> & _ & Hold). specialize (Hold Hnd).
  rewrite Hload. set (s0 := mkServerState cfg' _ _ _ _).
  destruct (close_removed_settled s0 (RelayConfigs cfg') order Hkeys Hord) as (Hm & Hc1 & Hp1 & ex1 & Hst1 & Hex1).
  set (s1 := close_removed _ order s0) in *. simpl in Hm, Hc1, Hp1, Hst1, Hex1. rewrite Hpend in Hp1.
  assert (Hpre : loop_pre old s1 (RelayConfigs cfg')).
  { split; [done|done| | |].
    - intros c _. rewrite Hp1. apply not_elem_of_nil.
    - intros l r Hr. rewrite Hm in Hr. case_decide; [by apply Hkeys|done].
    - intros c r Hc Hr. rewrite Hm, decide_True in Hr by by apply list_elem_of_fmap_2.
      destruct (consistent_lookup _ _ _ Hcon Hr) as (c0 & Hc0 & Hl0 & Hi0).
      destruct (Hold c0 Hc0) as (oc & Hoc & Hi). exists oc. rewrite <- Hl0. split; [done|congruence]. }
  destruct (reload_loop_ok old s1 _ Hpre) as (s' & -> & Hpost).
  pose proof Hpost as [Hcfg _ Hrun _ _ (ex2 & Hst2 & Hex2)].
  assert (Hin1 : ∀ c, c ∈ RelayConfigs cfg' → relayM s1 !! Label c = relayM s !! Label c).
  { intros c Hc. by rewrite Hm, decide_True by by apply list_elem_of_fmap_2. }
  exists s', (ex1 ++ ex2). split_and!; [done|by rewrite Hcfg| | |by rewrite Hst2, Hst1, <- (assoc app)|].
  - eapply loop_post_consistent; [exact Hpost|by rewrite Hc1|done|done|]. intros l Hl. by rewrite Hm, decide_False.
  - intros l r Hr (c & Hc & <- & Hi)%desired_lookup; [|done].
    destruct (Hrun c Hc) as (r' & Hr' & _ & Hkeep). simpl. change (settled s' !! Label c = Some r).
    rewrite Hr'. f_equal. apply Hkeep; [by rewrite Hin1|done].
  - intros r. rewrite elem_of_app, Hex1, Hex2. split.
    + intros [(l & Hr & Hl)|(c & Hc & Hr & Hi)].
      * exists l. split; [done|]. intros (c & Hc & <- & _)%desired_lookup; [|done]. by apply Hl, list_elem_of_fmap_2.
      * exists (Label c). rewrite <- Hin1, desired_of by done. done.
    + intros (l & Hr & Hne). destruct (decide (l ∈ Label <$> RelayConfigs cfg')) as [(c & -> & Hc)%list_elem_of_fmap|Hl].
      * right. exists c. rewrite desired_of in Hne by done. by rewrite Hin1.
      * left. eauto.
Qed.

(** Starting is the reload loop over an empty set of relays. *)
Lemma start_relays_loop s cfgs :
  relayM s = ∅ → Forall Config_ok cfgs → start_relays s cfgs = reload_loop ∅ s cfgs.
Proof.
  intros Hs Hok. revert s Hs. induction Hok as [|c cfgs Hc _ IH]; intros s Hs; [done|].
  cbn [start_relays reload_loop]. unfold reload_one. rewrite Hs, lookup_empty.
  destruct (spawn_ok s c Hc) as (r & _ & Hsp). rewrite Hsp. unfold spawn_or_continue in Hsp.
  destruct (spawn s c) as [s1| |] eqn:E; [|exfalso; destruct (NewRelay_ok c (next_id s) Hc) as (? & Hn & _);
    unfold spawn in E; by rewrite Hn in E|done].
  injection Hsp as ->. cbn. by apply IH.
Qed.

(** Without old configurations the loop keeps every relay it finds. *)
Lemma reload_loop_no_old s cfgs :
  Forall Config_ok cfgs →
  ∃ s' news, reload_loop ∅ s cfgs = Ret s' ∧ s_cfg s' = s_cfg s ∧ relayM s' = relayM s ∧ stopped s' = stopped s ∧
    pending s' = pending s ++ news ∧ Forall (λ r, relayM s !! Relay_UniqueID r = None) news.
Proof.
  intros Hok. revert s. induction Hok as [|c cfgs Hc _ IH]; intros s.
  - exists s, []. rewrite app_nil_r. split_and!; [done..|constructor].
  - cbn [reload_loop]. unfold reload_one. destruct (relayM s !! Label c) as [r|] eqn:Hr.
    + rewrite lookup_empty. cbn. apply IH.
    + destruct (spawn_ok s c Hc) as (rn & Hrn & ->). cbn.
      destruct (IH (mkServerState (s_cfg s) (relayM s) (pending s ++ [rn]) (stopped s) (S (next_id s))))
        as (s' & news & Hl & Hc' & Hm & Hst & Hp & Hnews). simpl in *.
      exists s', (rn :: news). split_and!; [done..|by rewrite Hp, <- (assoc app)|].
      constructor; [|done]. unfold Relay_UniqueID. by rewrite Hrn.
Qed.

Lemma Start_consistent_aux s :
  relays_ok (RelayConfigs (s_cfg s)) → relayM s = ∅ → pending s = [] →
  ∃ s', Server_Start s = Ret s' ∧ consistent (settle s') ∧ stopped s' = stopped s.
Proof.
  intros Hok Hm Hp. pose proof Hok as [Hval Hnd]. unfold Server_Start. rewrite start_relays_loop by done.
  destruct (reload_loop_ok ∅ s (RelayConfigs (s_cfg s))) as (s' & -> & [Hcfg Hoth Hrun _ Hk (ex & Hst & Hex)]).
  { split; [done|done| | |].
    - intros c _. rewrite Hp. apply not_elem_of_nil.
    - rewrite Hm. apply map_Forall_empty.
    - intros c r _. by rewrite Hm. }
  exists s'. split_and!; [done| |].
  - split; simpl.
    + apply map_eq. intros l. unfold running. rewrite lookup_fmap. simpl.
      change (store_all (relayM s') (pending s')) with (settled s'). rewrite Hcfg.
      destruct (decide (l ∈ Label <$> RelayConfigs (s_cfg s))) as [(c & -> & Hc)%list_elem_of_fmap|Hl].
      * destruct (Hrun c Hc) as (r & -> & Hi & _). simpl. rewrite Hi. symmetry. apply desired_lookup; [done|eauto].
      * destruct (Hoth l Hl) as [-> _]. unfold settled. rewrite Hm, Hp. simpl. rewrite lookup_empty. symmetry.
        by apply desired_lookup_None.
    + by rewrite Hcfg.
    + by apply store_all_keys.
    + done.
  - assert (ex = []) as ->; [|by rewrite Hst, app_nil_r].
    destruct ex as [|r ex]; [done|]. exfalso. destruct (proj1 (Hex r) ltac:(by left)) as (c & _ & Hr & _).
    by rewrite Hm in Hr.
Qed.

(** ** Theorems *)

(** [C2] Refinement: from a server that runs what its configuration asks for, a reload whose
    load succeeds (or is skipped) ends, once the goroutines it started have run, in a
    server that runs exactly what the new configuration asks for; a relay whose label,
    addresses, kinds and remotes did not change is the same object, never restarted, and
    the relays stopped are exactly the others. *)
Theorem Reload_refines (now : Z) (force : bool) (src : source) (tls : option error)
    (order : list (string * Relay)) (s : Server) (cfg' : AppConfig)
    (Hcon : consistent s) (Hord : order ≡ₚ map_to_list (relayM s))
    (Hload : AppConfig_LoadConfig now force src tls (s_cfg s) = (cfg', Ret tt)) :
  ∃ s' extra, Server_Reload now force src tls order s = (s', Ret tt) ∧
    s_cfg s' = cfg' ∧ consistent (settle s') ∧
    (∀ l r, relayM s !! l = Some r → desired (RelayConfigs cfg') !! l = Some (identity (rl_cfg r)) →
       relayM (settle s') !! l = Some r) ∧
    stopped s' = stopped s ++ extra ∧
    ∀ r, r ∈ extra ↔ ∃ l, relayM s !! l = Some r ∧
      desired (RelayConfigs cfg') !! l ≠ Some (identity (rl_cfg r)).
Proof. by apply Reload_refines_aux. Qed.

(** A relay configuration as it appears in a document, before validation. *)
Definition sample_relay_cfg (label listen : string) : Config :=
  mkConfig label listen "raw" "raw" ["10.0.0.9:22"] None.

Definition sample_doc (rs : list Config) : document :=
  mkDocument None None None None None None None None (Some rs) None None None None.

Definition empty_server : Server := mkServerState (NewConfig "/etc/ehco.json") ∅ [] [] 0.

Lemma empty_server_consistent : consistent empty_server.
Proof.
  split; [|split; simpl; constructor|apply map_Forall_empty|done].
  unfold running, desired. simpl. by rewrite fmap_empty.
Qed.

Lemma empty_server_order : [] ≡ₚ map_to_list (relayM empty_server).
Proof. simpl. by rewrite map_to_list_empty. Qed.

Lemma Reload_refines_witness :
  ∃ s', Server_Reload 5 true (SrcDoc (sample_doc [sample_relay_cfg "a" ":1"; sample_relay_cfg "b" ":2"]) None)
          None [] empty_server = (s', Ret tt) ∧ consistent (settle s').
Proof.
  destruct (Reload_refines 5 true
    (SrcDoc (sample_doc [sample_relay_cfg "a" ":1"; sample_relay_cfg "b" ":2"]) None) None [] empty_server _
    empty_server_consistent empty_server_order eq_refl) as (s' & extra & H & _ & Hc & _).
  exists s'. split; [exact H|exact Hc].
Defined.

(** Starting the server spawns one relay per configuration: once the goroutines have
    run, the server is consistent, the state from which reloads refine the specification. *)
Theorem Start_consistent (s : Server) (Hok : relays_ok (RelayConfigs (s_cfg s)))
    (Hm : relayM s = ∅) (Hp : pending s = []) :
  ∃ s', Server_Start s = Ret s' ∧ consistent (settle s') ∧ stopped s' = stopped s.
Proof. by apply Start_consistent_aux. Qed.

Definition started_sample : Server :=
  mkServerState (mkAppConfig "/etc/ehco.json" "" "0.0.0.0" 0 "" "" "info" false 60
    [fst (Config_Validate (sample_relay_cfg "a" ":1"))]
    "" 0 None "" 0) ∅ [] [] 0.

Lemma started_sample_ok : relays_ok (RelayConfigs (s_cfg started_sample)).
Proof.
  split; [|apply NoDup_singleton]. apply Forall_singleton.
  apply (Validate_Ret (sample_relay_cfg "a" ":1")). reflexivity.
Qed.

Lemma Start_consistent_witness :
  ∃ s', Server_Start started_sample = Ret s' ∧ consistent (settle s').
Proof.
  destruct (Start_consistent started_sample started_sample_ok eq_refl eq_refl) as (s' & H & Hc & _).
  exists s'. split; [exact H|exact Hc].
Defined.

(** A failed load forgets the relay list while the relays go on running, and the next
    reload acts on that empty list: if it comes within the reload interval its load is
    skipped, it reports success and stops every relay; if it loads a new list, a running
    relay whose configuration changed is kept as it was (the "should not happen" branch),
    so the server no longer runs what its configuration says. *)
Theorem failed_load_forgets (now now' : Z) (force : bool) (err : error) (src' : source) (tls tls' : option error)
    (order order' : list (string * Relay)) (s : Server) (cfg' : AppConfig)
    (Hcon : consistent s) (Hns : skips_load now force (s_cfg s) = false)
    (Hord : order' ≡ₚ map_to_list (relayM s)) :
  let (s1, res) := Server_Reload now force (SrcErr err) tls order s in
  res = Err err ∧ relayM s1 = relayM s ∧ RelayConfigs (s_cfg s1) = [] ∧
  (skips_load now' false (s_cfg s1) = true →
     let (s2, res2) := Server_Reload now' false src' tls' order' s1 in
     res2 = Ret tt ∧ relayM (settle s2) = ∅ ∧ ∀ l r, relayM s !! l = Some r → r ∈ stopped s2) ∧
  (AppConfig_LoadConfig now' true src' tls' (s_cfg s1) = (cfg', Ret tt) →
     skips_load now' true (s_cfg s1) = false →
     let (s2, res2) := Server_Reload now' true src' tls' order' s1 in
     res2 = Ret tt ∧ s_cfg s2 = cfg' ∧
     ∀ c r, c ∈ RelayConfigs cfg' → relayM s !! Label c = Some r → relayM (settle s2) !! Label c = Some r).
Proof.
  destruct Hcon as [_ [Hval Hnd] Hkeys Hpend]. unfold Server_Reload at 1.
  destruct (clone_all_ok ∅ _ Hval) as (old & -> & _). unfold AppConfig_LoadConfig at 1. rewrite Hns.
  cbn [AppConfig_read]. set (s1 := mkServerState _ (relayM s) _ _ _). split_and!; [done..| |].
  - intros Hskip. unfold Server_Reload. simpl (clone_all _ _). unfold AppConfig_LoadConfig. rewrite Hskip.
    cbn [RelayConfigs s_cfg s1]. set (s2 := mkServerState _ _ _ _ _).
    destruct (close_removed_settled s2 [] order' Hkeys Hord) as (Hm & _ & Hp & ex & Hst & Hex). cbn [reload_loop].
    change (Label <$> s1.(s_cfg).(RelayConfigs)) with (Label <$> ([] : list Config)).
    set (s3 := close_removed _ order' s2) in *. split_and!; [done| |].
    + cbn [settle relayM]. rewrite Hp. cbn [pending s2 s1]. rewrite Hpend. apply map_eq. intros l.
      cbn [store_all foldl]. rewrite Hm, decide_False; [done|]. apply not_elem_of_nil.
    + intros l r Hr. rewrite Hst. apply elem_of_app. right. apply Hex. exists l. split; [done|apply not_elem_of_nil].
  - intros Hload Hns'. unfold Server_Reload. simpl (clone_all _ _). rewrite Hload.
    set (s2 := mkServerState cfg' _ _ _ _).
    destruct (close_removed_settled s2 (RelayConfigs cfg') order' Hkeys Hord) as (Hm & Hc & Hp & _).
    assert (relays_ok (RelayConfigs cfg')) as [Hval' _].
    { eapply LoadConfig_relays_ok; [|exact Hload]. split; simpl; constructor. }
    destruct (reload_loop_no_old (close_removed (Label <$> RelayConfigs cfg') order' s2) _ Hval')
      as (s3 & news & -> & Hc3 & Hm3 & _ & Hp3 & Hnews).
    split_and!; [done|by rewrite Hc3, Hc|]. intros c r Hin Hr. simpl. rewrite Hp3, Hp. simpl. rewrite Hpend. simpl.
    assert (relayM s3 !! Label c = Some r) as Hr3.
    { by rewrite Hm3, Hm, decide_True by by apply list_elem_of_fmap_2. }
    rewrite store_all_notin; [done|]. intros (r' & Hl & Hin')%list_elem_of_fmap.
    rewrite Forall_forall in Hnews. specialize (Hnews r' Hin'). rewrite <- Hl, <- Hm3, Hr3 in Hnews. done.
Qed.

(** Options are not part of what a reload compares: a relay whose configuration changed
    in nothing but its options (limits, blocked protocols, timeouts, UDP, WebSocket
    settings) is reported as reloaded and goes on running with the options it was started
    with, although the server's configuration holds the new ones; and reloading the same
    document again does not help. *)
Theorem reload_keeps_old_options (now : Z) (force : bool) (src : source) (tls : option error)
    (order : list (string * Relay)) (s : Server) (cfg' : AppConfig) (c : Config) (r : Relay)
    (Hcon : consistent s) (Hord : order ≡ₚ map_to_list (relayM s))
    (Hload : AppConfig_LoadConfig now force src tls (s_cfg s) = (cfg', Ret tt))
    (Hc : c ∈ RelayConfigs cfg') (Hr : relayM s !! Label c = Some r)
    (Hsame : identity (rl_cfg r) = identity c) (Hopts : Config_Options (rl_cfg r) ≠ Config_Options c) :
  ∃ s', Server_Reload now force src tls order s = (s', Ret tt) ∧
    c ∈ RelayConfigs (s_cfg s') ∧ relayM (settle s') !! Label c = Some r ∧ consistent (settle s') ∧
    ∀ now2 force2 order2 cfg2, order2 ≡ₚ map_to_list (relayM (settle s')) →
      AppConfig_LoadConfig now2 force2 src tls (s_cfg (settle s')) = (cfg2, Ret tt) →
      c ∈ RelayConfigs cfg2 →
      ∃ s2, Server_Reload now2 force2 src tls order2 (settle s') = (s2, Ret tt) ∧
        relayM (settle s2) !! Label c = Some r.
Proof.
  destruct (Reload_refines_aux now force src tls order s cfg' Hcon Hord Hload)
    as (s' & extra & Hrun & Hcfg & Hcon' & Hkeep & _).
  assert (Hdes : ∀ cfg, relays_ok (RelayConfigs cfg) → c ∈ RelayConfigs cfg →
    desired (RelayConfigs cfg) !! Label c = Some (identity (rl_cfg r))).
  { intros cfg [_ Hnd] Hin. by apply desired_of. }
  assert (Hok' : relays_ok (RelayConfigs cfg')) by (rewrite <- Hcfg; apply (con_cfgs _ Hcon')).
  assert (Hr' : relayM (settle s') !! Label c = Some r) by auto.
  exists s'. split_and!; [done|by rewrite Hcfg|done|done|]. intros now2 force2 order2 cfg2 Hord2 Hload2 Hc2.
  destruct (Reload_refines_aux now2 force2 src tls order2 (settle s') cfg2 Hcon' Hord2 Hload2)
    as (s2 & extra2 & Hrun2 & Hcfg2 & Hcon2 & Hkeep2 & _).
  exists s2. split; [done|]. apply Hkeep2; [done|]. apply Hdes; [|done].
  rewrite <- Hcfg2. apply (con_cfgs _ Hcon2).
Qed.

(** The sample server after its goroutines have run. *)
Definition running_sample : Server :=
  match Server_Start started_sample with Ret s => settle s | _ => started_sample end.

Lemma running_sample_consistent : consistent running_sample.
Proof.
  unfold running_sample.
  destruct (Start_consistent_aux started_sample started_sample_ok eq_refl eq_refl) as (s' & -> & Hc & _). exact Hc.
Qed.

(** The sample relay with a limit on its connections. *)
Definition limited_cfg : Config :=
  mkConfig "a" ":1" "raw" "raw" ["10.0.0.9:22"]
    (Some (mkOptions false false 1 [] 0 None 0 0 0 0 0 0 0 0)).

Lemma reload_keeps_old_options_witness :
  ∃ s' r, Server_Reload 100 true (SrcDoc (sample_doc [limited_cfg]) None) None (map_to_list (relayM running_sample))
      running_sample = (s', Ret tt) ∧
    relayM (settle s') !! "a" = Some r ∧ (MaxConnection <$> Config_Options (rl_cfg r)) = Some 0.
Proof.
  destruct (relayM running_sample !! "a") as [r|] eqn:Er; [|vm_compute in Er; discriminate].
  assert (rl_cfg r = (Config_Validate (sample_relay_cfg "a" ":1")).1) as Hr by (vm_compute in Er; injection Er as <-; vm_compute; reflexivity).
  destruct (reload_keeps_old_options 100 true (SrcDoc (sample_doc [limited_cfg]) None) None
    (map_to_list (relayM running_sample)) running_sample
    (AppConfig_LoadConfig 100 true (SrcDoc (sample_doc [limited_cfg]) None) None (s_cfg running_sample)).1
    (Config_Validate limited_cfg).1 r running_sample_consistent (reflexivity _))
    as (s' & H & _ & Hs & _); [vm_compute; reflexivity|by left|exact Er|rewrite Hr; reflexivity|rewrite Hr; discriminate|].
  exists s', r. split; [exact H|]. split; [exact Hs|]. rewrite Hr. reflexivity.
Defined.

Lemma failed_load_forgets_witness :
  let (s1, res) := Server_Reload 100 true (SrcErr (Errorf "503")) None [] running_sample in
  res = Err (Errorf "503") ∧
  let (s2, res2) := Server_Reload 200 false (SrcErr (Errorf "503")) None (map_to_list (relayM running_sample)) s1 in
  res2 = Ret tt ∧ relayM (settle s2) = ∅.
Proof.
  pose proof (failed_load_forgets 100 200 true (Errorf "503") (SrcErr (Errorf "503")) None None []
    (map_to_list (relayM running_sample)) running_sample (NewConfig "") running_sample_consistent
    eq_refl (reflexivity _)) as H.
  destruct (Server_Reload 100 true (SrcErr (Errorf "503")) None [] running_sample) as [s1 res] eqn:E1.
  destruct H as (Hres & _ & _ & Hskip & _). split; [exact Hres|].
  assert (skips_load 200 false (s_cfg s1) = true) as Hs.
  { assert (s1 = fst (Server_Reload 100 true (SrcErr (Errorf "503")) None [] running_sample)) as -> by (rewrite E1; reflexivity).
    vm_compute. reflexivity. }
  specialize (Hskip Hs). destruct (Server_Reload 200 false _ None _ s1) as [s2 res2].
  destruct Hskip as (H1 & H2 & _). split; [exact H1|exact H2].
Defined.

Lemma clone_all_None m cfgs :
  Exists (λ c, Config_Options c = None) cfgs → clone_all m cfgs = Panic NilDereference.
Proof.
  intros Hex. revert m. induction cfgs as [|c cfgs IH]; intros m; [by apply Exists_nil in Hex|].
  cbn [clone_all]. unfold Config_Clone at 1. destruct (Config_Options c) eqn:Ho; [|done]. cbn.
  apply IH. apply Exists_cons in Hex as [Hc|Hex]; [congruence|done].
Qed.

Lemma validate_all_bad good bad rest e :
  snd (validate_all good) = Ret tt → snd (Config_Validate bad) = Err e →
  validate_all (good ++ bad :: rest) = (fst (validate_all good) ++ fst (Config_Validate bad) :: rest, Err e).
Proof.
  intros Hgood Hbad. induction good as [|g good IH].
  - cbn [validate_all app fst]. destruct (Config_Validate bad) as [b r]. cbn [fst snd] in *. by subst.
  - cbn [validate_all app] in *. destruct (Config_Validate g) as [g' [[]| |]]; [|done..].
    destruct (validate_all good) as [gs res]. cbn [fst snd] in *. by rewrite IH.
Qed.

Lemma LoadConfig_rejected now doc tls c good bad rest e :
  d_RelayConfigs doc = Some (good ++ bad :: rest) →
  snd (validate_all good) = Ret tt → snd (Config_Validate bad) = Err e →
  ∃ c', AppConfig_LoadConfig now true (SrcDoc doc None) tls c = (c', Err e) ∧
    RelayConfigs c' = fst (validate_all good) ++ fst (Config_Validate bad) :: rest.
Proof.
  intros Hdoc Hgood Hbad. unfold AppConfig_LoadConfig, skips_load. rewrite andb_false_r.
  cbn [AppConfig_read]. unfold AppConfig_Adjust. rewrite Hdoc.
  pose proof (validate_all_bad good bad rest e Hgood Hbad) as Hv.
  cbn [RelayConfigs default]. unfold default, id. rewrite Hv. eexists. split; reflexivity.
Qed.

(** A reload that rejects a document because of one relay leaves the ones after it
    unadjusted; if one of them has no options, every later reload, whatever it would load,
    panics on cloning it, in a goroutine nobody recovers. *)
Theorem rejected_reload_panics (now : Z) (doc : document) (tls : option error)
    (order : list (string * Relay)) (s : Server) (e : error) (good : list Config) (bad : Config) (rest : list Config)
    (Hdoc : d_RelayConfigs doc = Some (good ++ bad :: rest))
    (Hgood : snd (validate_all good) = Ret tt) (Hbad : snd (Config_Validate bad) = Err e)
    (Hrest : Exists (λ c, Config_Options c = None) rest)
    (Hcon : consistent s) :
  let (s1, res) := Server_Reload now true (SrcDoc doc None) tls order s in
  res = Err e ∧
  ∀ now' force' src' tls' order', Server_Reload now' force' src' tls' order' s1 = (s1, Panic NilDereference).
Proof.
  destruct Hcon as [_ [Hval _] _ _]. unfold Server_Reload at 1.
  destruct (clone_all_ok ∅ _ Hval) as (old & -> & _).
  destruct (LoadConfig_rejected now doc tls (s_cfg s) good bad rest e Hdoc Hgood Hbad) as (c' & -> & Hrs).
  split; [done|]. intros. unfold Server_Reload. cbn [s_cfg]. rewrite Hrs.
  rewrite clone_all_None; [done|]. apply Exists_app. right. by right.
Qed.

Lemma rejected_reload_panics_witness :
  let (s1, res) := Server_Reload 5 true
    (SrcDoc (sample_doc [sample_relay_cfg "a" ""; sample_relay_cfg "b" ":2"]) None) None [] running_sample in
  res = Err (Errorf "invalid listen: ") ∧
  ∀ now' force' src' tls' order', Server_Reload now' force' src' tls' order' s1 = (s1, Panic NilDereference).
Proof.
  apply (rejected_reload_panics 5 (sample_doc [sample_relay_cfg "a" ""; sample_relay_cfg "b" ":2"]) None []
    running_sample (Errorf "invalid listen: ") [] (sample_relay_cfg "a" "") [sample_relay_cfg "b" ":2"]);
    [reflexivity..| |exact running_sample_consistent].
  apply Exists_cons_hd. reflexivity.
Defined.
