(* ===== verification/Serve.v ===== *)
(** * Dialers and HTTP servers of the transports (internal/transporter/base.go, raw.go, ws.go, wss.go)

    What [newRawClient], [newWsClient] and [newWssClient] make of the options, and the life
    of a WebSocket server: [ListenAndServe] (listen, then serve) beside [Close], over the
    documented behaviour of [http.Server]. *)

From S2P Require Import Prelude GoStd Conf Lb Cmgr Transporter Tls Relay.

(** ** Dialers *)

Record net_Dialer := mkNetDialer { nd_Timeout : Z; nd_Multipath : bool }.

Definition NewNetDialer (cfg : Config) : outcome net_Dialer :=
  o ← deref (Config_Options cfg); Ret (mkNetDialer DefaultDialTimeOut (EnableMultipathTCP o)).

Definition newRawClient (cfg : Config) : outcome net_Dialer := NewNetDialer cfg.

(** [NewTCPListener]: [resolve] is [net.ResolveTCPAddr], [listen] the call of [ListenConfig.Listen],
    told whether multipath TCP was asked for. *)
Definition NewTCPListener (resolve : string → string + error) (listen : bool → string → nat + error) (cfg : Config) :
    outcome nat :=
  match resolve (Listen cfg) with
  | inr err => Err err
  | inl addr =>
      o ← deref (Config_Options cfg);
      match listen (EnableMultipathTCP o) addr with inl l => Ret l | inr err => Err err end
  end.

(** [ws.Dialer]: the fields that are set ([NetDial] never is, so it dials without MPTCP). *)
Record ws_Dialer := mkWsDialer { wd_Timeout : Z; wd_TLSConfig : option nat }.

Definition newWsClient (cfg : Config) : outcome ws_Dialer :=
  o ← deref (Config_Options cfg); Ret (mkWsDialer (DialTimeout o) None).

Definition newWssClient (st : tls_state) (cfg : Config) : outcome ws_Dialer :=
  d ← newWsClient cfg; c ← newWssClient_tls st; Ret (mkWsDialer (wd_Timeout d) (Some c)).

(** How long a connection attempt may take, and whether it may use several paths. *)
Definition dial_options (st : tls_state) (cfg : Config) : outcome (Z * bool) :=
  kind ← newRelayClient cfg;
  match kind with
  | RawClient => d ← newRawClient cfg; Ret (nd_Timeout d, nd_Multipath d)
  | WsClient => d ← newWsClient cfg; Ret (wd_Timeout d, false)
  | WssClient => d ← newWssClient st cfg; Ret (wd_Timeout d, false)
  end.

(** ** http.Server

    [hs_down]: [Close] was called.  [hs_open]: listeners that are open, [hs_tracked]: those
    [Serve] has been given and [Close] will close. *)
Record http_server := mkHttp { hs_down : bool; hs_open : list nat; hs_tracked : list nat }.

(** A call of [ListenAndServe]: before [NewTCPListener], before [Serve], serving, returned. *)
Inductive serve_pc :=
  | ServeListen
  | ServeServe (l : nat)
  | ServeAccept (l : nat)
  | ServeReturned (err : error).

Definition close_listener (l : nat) (s : http_server) : http_server :=
  mkHttp (hs_down s) (filter (λ l', l' ≠ l) (hs_open s)) (filter (λ l', l' ≠ l) (hs_tracked s)).

(** One step of [WsServer.ListenAndServe]: [listen] is what [NewTCPListener] returns, [accept]
    an error of the listener while it is served.  [tls]: the wss server reads
    [DefaultTLSConfig] between the two calls. *)
Definition serve_step (tls : option (outcome nat)) (listen : nat + error) (accept : option error)
    (pc : serve_pc) (s : http_server) : outcome (serve_pc * http_server) :=
  match pc with
  | ServeListen =>
      match listen with
      | inr err => Ret (ServeReturned err, s)
      | inl l =>
          let s := mkHttp (hs_down s) (l :: hs_open s) (hs_tracked s) in
          match tls with
          | Some (Panic p) => Panic p
          | _ => Ret (ServeServe l, s)
          end
      end
  | ServeServe l =>
      if hs_down s then Ret (ServeReturned http_ErrServerClosed, close_listener l s)
      else Ret (ServeAccept l, mkHttp (hs_down s) (hs_open s) (l :: hs_tracked s))
  | ServeAccept l =>
      if hs_down s then Ret (ServeReturned http_ErrServerClosed, close_listener l s)
      else match accept with
           | Some err => Ret (ServeReturned err, close_listener l s)
           | None => Ret (ServeAccept l, s)
           end
  | ServeReturned err => Ret (pc, s)
  end.

Definition WsServer_Close (s : http_server) : http_server :=
  mkHttp true (filter (λ l, l ∉ hs_tracked s) (hs_open s)) [].

(** The goroutine of the relay and whoever stops it. *)
Inductive ws_step (listen : nat + error) : serve_pc * http_server → serve_pc * http_server → Prop :=
  | ws_serve accept pc s pc' s' :
      serve_step None listen accept pc s = Ret (pc', s') → ws_step listen (pc, s) (pc', s')
  | ws_close pc s : ws_step listen (pc, s) (pc, WsServer_Close s).

Definition ws_start : serve_pc * http_server := (ServeListen, mkHttp false [] []).

(** ** Lemmas *)

(** Where the listener is at each point. *)
Definition ws_inv (st : serve_pc * http_server) : Prop :=
  let (pc, s) := st in
  match pc with
  | ServeListen => hs_open s = [] ∧ hs_tracked s = []
  | ServeServe l => hs_open s = [l] ∧ hs_tracked s = []
  | ServeAccept l => if hs_down s then hs_open s = [] ∧ hs_tracked s = [] else hs_open s = [l] ∧ hs_tracked s = [l]
  | ServeReturned err => hs_open s = [] ∧ hs_tracked s = []
  end.

Lemma filter_ne_self (l : nat) : filter (λ l', l' ≠ l) [l] = [].
Proof. by rewrite filter_cons_False by naive_solver. Qed.

Lemma ws_inv_step listen st st' : ws_inv st → ws_step listen st st' → ws_inv st'.
Proof.
  intros Hi Hst. revert Hi. destruct Hst as [accept pc [d op tr] pc' s' Hs|pc [d op tr]]; intros Hi.
  - destruct pc as [|l|l|err]; cbn in Hs, Hi.
    + destruct listen as [l|e]; injection Hs as <- <-; [|done]. by destruct Hi as [-> ->].
    + destruct Hi as [-> ->], d; injection Hs as <- <-; cbn -[filter]; [split; [apply filter_ne_self|done]|done].
    + destruct d; [|destruct accept]; injection Hs as <- <-; destruct Hi as [-> ->]; cbn -[filter]; try done;
        split; try done; apply filter_ne_self.
    + by injection Hs as <- <-.
  - destruct pc as [|l|l|err]; cbn in Hi |- *.
    + by destruct Hi as [-> _].
    + destruct Hi as [-> ->]. rewrite filter_cons_True by set_solver. done.
    + destruct d; destruct Hi as [-> ->]; [done|]. rewrite filter_cons_False by set_solver. done.
    + by destruct Hi as [-> _].
Qed.

Lemma ws_inv_reachable listen st : reachable (λ s, s = ws_start) (ws_step listen) st → ws_inv st.
Proof.
  apply reachable_invariant; [by intros ? ->|]. intros. by eapply ws_inv_step.
Qed.

(** ** Theorems *)

(** A WebSocket server can be closed at any time, also before it listens or between its
    listening and serving: [ListenAndServe] then returns [http.ErrServerClosed], which
    [startOneRelay] mutes, after at most two more steps, and once it has returned no listener
    is left open.  (A raw server panics when it is closed before it listens:
    [Transporter.RawServer_lifecycle].) *)
Theorem WsServer_close_any_time (l : nat) (st : serve_pc * http_server) (accept : option error)
    (Hr : reachable (λ s, s = ws_start) (ws_step (inl l)) st) :
  (∀ err, fst st = ServeReturned err → hs_open (snd st) = []) ∧
  (hs_down (snd st) = true → (∀ err, fst st ≠ ServeReturned err) →
   ∃ s', ('(pc, s) ← serve_step None (inl l) accept (fst st) (snd st); serve_step None (inl l) accept pc s) =
           Ret (ServeReturned http_ErrServerClosed, s') ∧ hs_open s' = [] ∧
         startOneRelay_error (Some http_ErrServerClosed) = None).
Proof.
  apply ws_inv_reachable in Hr as Hi. destruct st as [pc s]. cbn [fst snd]. split.
  - intros err ->. apply Hi.
  - intros Hd Hpc. destruct s as [d op tr]. cbn in Hd. subst d. cbn in Hi.
    destruct pc as [|l'|l'|err]; [| | |by destruct (Hpc err)]; destruct Hi as [-> _]; eexists; (split; [reflexivity|]);
      (split; [|done]); cbn -[filter]; try apply filter_ne_self; done.
Qed.

(** The options of a validated relay as the transports apply them: the WebSocket transports
    dial with the configured timeout and without multipath TCP, whatever the option says; the
    raw transport honours the multipath option and dials with three seconds, whatever
    [dial_timeout_sec] says. *)
Theorem dial_options_by_transport (st : tls_state) (r cfg : Config) (o : Options) (c : nat)
    (Hv : Config_Validate r = (cfg, Ret tt)) (Ho : Config_Options cfg = Some o)
    (Htls : DefaultTLSConfig st = Some c) :
  dial_options st cfg =
    Ret (if decide (TransportType cfg = RelayTypeRaw) then (3 * Second, EnableMultipathTCP o)
         else (getDuration (DialTimeoutSec o) (3 * Second), false)).
Proof.
  apply Validate_accepts in Hv as Hok. destruct (ok_options _ Hok) as (o' & Ho' & _ & Hd & _).
  rewrite Ho in Ho'. injection Ho' as <-. pose proof (ok_transport_type _ Hok) as Ht. unfold is_relay_type in Ht.
  unfold dial_options, newRelayClient, newRawClient, newWssClient, newWsClient, NewNetDialer, newWssClient_tls. rewrite Ho, Htls. cbn.
  repeat case_decide; cbn; rewrite ?Hd; try done; tauto.
Qed.

(** ** Witnesses *)

(** Closed between listening and serving. *)
Lemma WsServer_close_any_time_witness :
  hs_open (snd (ServeReturned http_ErrServerClosed, close_listener 4 (WsServer_Close (mkHttp false [4%nat] [])))) = [] ∧
  ∃ s', ('(pc, s) ← serve_step None (inl 4%nat) None (ServeServe 4) (WsServer_Close (mkHttp false [4%nat] []));
         serve_step None (inl 4%nat) None pc s) = Ret (ServeReturned http_ErrServerClosed, s').
Proof.
  split; [reflexivity|].
  destruct (WsServer_close_any_time 4 (ServeServe 4, WsServer_Close (mkHttp false [4%nat] [])) None) as [_ H].
  - eapply reach_step; [eapply reach_step; [by apply reach_init|]|apply ws_close].
    apply (ws_serve _ None). reflexivity.
  - destruct (H eq_refl ltac:(discriminate)) as (s' & Hs & _). by exists s'.
Defined.

(** A relay of either transport that asks for ten seconds and multipath TCP. *)
Definition slow_relay (transport : string) : Config :=
  mkConfig "slow" "0.0.0.0:1234" "raw" transport ["10.0.0.9:22"]
    (Some (mkOptions false true 0 [] 0 None 10 0 0 0 0 0 0 0)).

Lemma dial_options_by_transport_witness :
  dial_options (mkTls (Some 1%nat) None None) (fst (Config_Validate (slow_relay "raw"))) = Ret (3 * Second, true) ∧
  dial_options (mkTls (Some 1%nat) None None) (fst (Config_Validate (slow_relay "wss"))) = Ret (10 * Second, false).
Proof.
  split.
  - apply (dial_options_by_transport (mkTls (Some 1%nat) None None) (slow_relay "raw")
      (fst (Config_Validate (slow_relay "raw"))) (mkOptions false true 0 [] 0 None 10 0 0 0 (10 * Second) (30 * Second) (5 * Second) (300 * Millisecond)) 1);
      vm_compute; reflexivity.
  - apply (dial_options_by_transport (mkTls (Some 1%nat) None None) (slow_relay "wss")
      (fst (Config_Validate (slow_relay "wss"))) (mkOptions false true 0 [] 0 None 10 0 0 0 (10 * Second) (30 * Second) (5 * Second) (300 * Millisecond)) 1);
      vm_compute; reflexivity.
Defined.
