(* ===== verification/Lifecycle.v ===== *)
(** * The lifetime of relays, with reloads running beside them

    [Relay] treats a reload as one step.  Here its effects on listening sockets are added
    and everything that runs in its own goroutine is a thread of its own: the goroutine of
    each relay ([startOneRelay]: store into [relayM], then bind, then serve) and each
    reload ([Server.Reload], called without a lock by the watcher of [server.go] and by the
    web handler [HandleReload]).  A reload interleaves with them at its accesses to
    [relayM].  Bind failures reach [errCH], which ends the server; a panic in the watcher
    ends the process, a panic in a web handler ends the request (net/http recovers it).
    Only the TCP listener of a relay is modelled; that two addresses cannot be bound at the
    same time is the relation [clash]. *)

From S2P Require Import Prelude GoStd Lb Conf Cmgr Transporter Config Relay.

Inductive ending := Exited (e : error) | Crashed (p : panic).

(** Who called [Reload]. *)
Inductive origin := FromWatcher | FromWeb.

#[global] Instance origin_eq_dec : EqDecision origin.
Proof. solve_decision. Defined.

(** Where a reload is: in [relayM.Range] with the keys still to visit; inside its callback
    for a key that is to be removed; in the loop over the new configurations; in that loop,
    having stopped the old relay of [c]. *)
Inductive reload_pc :=
  | Ranging (old : gmap string Config) (labels : list string) (keys : list string)
  | InRange (old : gmap string Config) (labels : list string) (k : string) (keys : list string)
  | Looping (old : gmap string Config) (cfgs : list Config)
  | Replacing (old : gmap string Config) (c : Config) (cfgs : list Config).

Record thread := mkThread { th_origin : origin; th_pc : reload_pc }.

(** [lf_starting]: relays that are stored but have not bound their address;
    [lf_bound]: relays with an open listener. *)
Record life := mkLife {
  lf_srv : Server; lf_starting : list Relay; lf_bound : list Relay;
  lf_threads : list thread; lf_end : option ending }.

Definition addr (r : Relay) : string := Listen (rl_cfg r).
Definition same_relay (r r' : Relay) : bool := bool_decide (rl_id r = rl_id r').

Definition set_srv (s : Server) (st : life) : life :=
  {| lf_srv := s; lf_starting := lf_starting st; lf_bound := lf_bound st; lf_threads := lf_threads st; lf_end := lf_end st |}.
Definition set_threads (ths : list thread) (st : life) : life :=
  {| lf_srv := lf_srv st; lf_starting := lf_starting st; lf_bound := lf_bound st; lf_threads := ths; lf_end := lf_end st |}.
Definition set_end (e : ending) (st : life) : life :=
  {| lf_srv := lf_srv st; lf_starting := lf_starting st; lf_bound := lf_bound st; lf_threads := lf_threads st; lf_end := Some e |}.

Definition bind_error (a : string) : error := Errorf ("listen tcp " +:+ a +:+ ": bind: address already in use").

Section Life.
Variable clash : string → string → bool.

(** The first statement of [startOneRelay], in the goroutine of the [i]-th pending relay. *)
Definition store_relay (i : nat) (st : life) : option life :=
  r ← pending (lf_srv st) !! i;
  let s := lf_srv st in
  Some {| lf_srv := {| s_cfg := s_cfg s; relayM := <[Relay_UniqueID r := r]> (relayM s);
                       pending := delete i (pending s); stopped := stopped s; next_id := next_id s |};
          lf_starting := lf_starting st ++ [r]; lf_bound := lf_bound st;
          lf_threads := lf_threads st; lf_end := lf_end st |}.

(** [ListenAndServe]: the listener is opened, or its error ends the server unless it is a
    muted one.  An HTTP server that was closed before it served gives the listener up. *)
Definition bind_relay (i : nat) (st : life) : option life :=
  r ← lf_starting st !! i;
  let st := {| lf_srv := lf_srv st; lf_starting := delete i (lf_starting st); lf_bound := lf_bound st;
               lf_threads := lf_threads st; lf_end := lf_end st |} in
  if existsb (λ r', clash (addr r) (addr r')) (lf_bound st) then
    Some match startOneRelay_error (Some (bind_error (addr r))) with Some e => set_end (Exited e) st | None => st end
  else if existsb (same_relay r) (stopped (lf_srv st)) then Some st
  else Some {| lf_srv := lf_srv st; lf_starting := lf_starting st; lf_bound := lf_bound st ++ [r];
               lf_threads := lf_threads st; lf_end := lf_end st |}.

(** [stopOneRelay]: the [Close] of a raw server that has not bound dereferences its nil
    listener; otherwise the listener is closed before [Close] returns. *)
Definition stop_relay (r : Relay) (st : life) : outcome life :=
  if existsb (same_relay r) (lf_starting st) && bool_decide (rl_server r = RawServer) then Panic NilDereference
  else Ret {| lf_srv := stopOneRelay (lf_srv st) r; lf_starting := lf_starting st;
              lf_bound := filter (λ r', rl_id r' ≠ rl_id r) (lf_bound st);
              lf_threads := lf_threads st; lf_end := lf_end st |}.

(** One step of a reload; [None] when it returns. *)
Definition reload_step (pc : reload_pc) (st : life) : outcome (life * option reload_pc) :=
  match pc with
  | Ranging old labels [] => Ret (st, Some (Looping old (RelayConfigs (s_cfg (lf_srv st)))))
  | Ranging old labels (k :: keys) =>
      match relayM (lf_srv st) !! k with
      | None => Ret (st, Some (Ranging old labels keys))
      | Some _ => Ret (st, Some (if inArray k labels then Ranging old labels keys else InRange old labels k keys))
      end
  | InRange old labels k keys =>
      match relayM (lf_srv st) !! k with
      | None => Panic (ExplicitPanic "interface conversion: interface {} is nil, not *relay.Relay")
      | Some oldR => st ← stop_relay oldR st; Ret (st, Some (Ranging old labels keys))
      end
  | Looping old [] => Ret (st, None)
  | Looping old (newCfg :: cfgs) =>
      match relayM (lf_srv st) !! Label newCfg with
      | None => s ← spawn_or_continue (lf_srv st) newCfg; Ret (set_srv s st, Some (Looping old cfgs))
      | Some oldR =>
          match old !! Label newCfg with
          | None => Ret (st, Some (Looping old cfgs))
          | Some oldCfg =>
              if Config_Different oldCfg newCfg
              then st ← stop_relay oldR st; Ret (st, Some (Replacing old newCfg cfgs))
              else Ret (st, Some (Looping old cfgs))
          end
      end
  | Replacing old newCfg cfgs =>
      s ← spawn_or_continue (lf_srv st) newCfg; Ret (set_srv s st, Some (Looping old cfgs))
  end.

(** A panic of the calling goroutine. *)
Definition goroutine_panics (o : origin) (p : panic) (st : life) : life :=
  match o with FromWatcher => set_end (Crashed p) st | FromWeb => st end.

Definition run_thread (i : nat) (st : life) : option life :=
  th ← lf_threads st !! i;
  Some match reload_step (th_pc th) st with
       | Ret (st, Some pc) => set_threads (<[i := mkThread (th_origin th) pc]> (lf_threads st)) st
       | Ret (st, None) => set_threads (delete i (lf_threads st)) st
       | Err _ => set_threads (delete i (lf_threads st)) st
       | Panic p => goroutine_panics (th_origin th) p (set_threads (delete i (lf_threads st)) st)
       end.

(** A call of [Reload], up to the start of its [Range]; the watcher makes one at a time.
    [keys]: the labels in the order in which [Range] visits them. *)
Definition call_Reload (o : origin) (now : Z) (force : bool) (src : source) (tls : option error)
    (keys : list string) (st : life) : option life :=
  let s := lf_srv st in
  if existsb (λ th, bool_decide (o = FromWatcher ∧ th_origin th = FromWatcher)) (lf_threads st) then None
  else match clone_all ∅ (RelayConfigs (s_cfg s)) with
       | Panic p => Some (goroutine_panics o p st)
       | Err _ => Some st
       | Ret old =>
           let (cfg, res) := AppConfig_LoadConfig now force src tls (s_cfg s) in
           let st := set_srv {| s_cfg := cfg; relayM := relayM s; pending := pending s; stopped := stopped s;
                                next_id := next_id s |} st in
           match res with
           | Ret _ => Some (set_threads (lf_threads st ++ [mkThread o (Ranging old (Label <$> RelayConfigs cfg) keys)]) st)
           | Err _ => Some st
           | Panic p => Some (goroutine_panics o p st)
           end
       end.

Inductive move :=
  | MStore (i : nat)
  | MBind (i : nat)
  | MReload (i : nat)
  | MCall (o : origin) (now : Z) (force : bool) (src : source) (tls : option error) (keys : list string).

Definition exec (m : move) (st : life) : option life :=
  match lf_end st with
  | Some _ => None
  | None => match m with
            | MStore i => store_relay i st
            | MBind i => bind_relay i st
            | MReload i => run_thread i st
            | MCall o now force src tls keys =>
                if decide (keys ≡ₚ (map_to_list (relayM (lf_srv st))).*1)
                then call_Reload o now force src tls keys st else None
            end
  end.

Definition is_call (m : move) : bool := match m with MCall _ _ _ _ _ _ => true | _ => false end.

(** What happens without a further call of [Reload], and everything that can happen. *)
Definition progress (st st' : life) : Prop := ∃ m, is_call m = false ∧ exec m st = Some st'.
Definition life_step (st st' : life) : Prop := ∃ m, exec m st = Some st'.

Fixpoint exec_all (ms : list move) (st : life) : option life :=
  match ms with [] => Some st | m :: ms => st ← exec m st; exec_all ms st end.

Lemma exec_all_rtc ms st st' : exec_all ms st = Some st' → rtc life_step st st'.
Proof.
  revert st. induction ms as [|m ms IH]; intros st; cbn; [by intros [= ->]|].
  destruct (exec m st) as [st1|] eqn:E; [|done]. intros H. eapply rtc_l; [by exists m|by apply IH].
Qed.

Lemma exec_all_progress ms st st' :
  Forall (λ m, is_call m = false) ms → exec_all ms st = Some st' → rtc progress st st'.
Proof.
  intros Hms. revert st. induction Hms as [|m ms Hm _ IH]; intros st; cbn; [by intros [= ->]|].
  destruct (exec m st) as [st1|] eqn:E; [|done]. intros H. eapply rtc_l; [by exists m|by apply IH].
Qed.
End Life.

(** ** The invariant of one reload at a time *)

(** Nothing is in flight, and the open listeners are those of the relays of the map. *)
Record idle (st : life) : Prop := {
  idle_srv : consistent (lf_srv st);
  idle_starting : lf_starting st = [];
  idle_threads : lf_threads st = [];
  idle_end : lf_end st = None;
  idle_bound : ∀ r, relayM (lf_srv st) !! Relay_UniqueID r = Some r ↔ r ∈ lf_bound st;
  idle_labels : NoDup (Relay_UniqueID <$> lf_bound st);
  idle_ids : NoDup (rl_id <$> lf_bound st);
  idle_stopped : ∀ r, r ∈ lf_bound st → rl_id r ∉ rl_id <$> stopped (lf_srv st);
  idle_fresh : ∀ r, r ∈ lf_bound st ++ stopped (lf_srv st) → (rl_id r < next_id (lf_srv st))%nat }.

(** Every relay that has been started and not been stopped. *)
Definition live (st : life) : list Relay := pending (lf_srv st) ++ lf_starting st ++ lf_bound st.

(** [r] runs one of the configurations [news] that are not among the labels [rem] still to
    be dealt with. *)
Definition runs_new (news : list Config) (rem : list string) (r : Relay) : Prop :=
  ∃ c, c ∈ news ∧ Label c ∉ rem ∧ identity c = identity (rl_cfg r).

(** [olds]: the relays at the call; [news]: the new configurations; [rem]: the labels that
    the reload has not dealt with yet. *)
Record reloading (olds : gmap string Relay) (news : list Config) (rem : list string) (st : life) : Prop := {
  rl_end : lf_end st = None;
  rl_cfgs : RelayConfigs (s_cfg (lf_srv st)) = news;
  rl_keys : map_Forall (λ l r, Relay_UniqueID r = l) (relayM (lf_srv st));
  rl_labels : NoDup (Relay_UniqueID <$> live st);
  rl_ids : NoDup (rl_id <$> live st);
  rl_fresh : ∀ r, r ∈ live st ++ stopped (lf_srv st) → (rl_id r < next_id (lf_srv st))%nat;
  rl_stopped : ∀ r, r ∈ live st → rl_id r ∉ rl_id <$> stopped (lf_srv st);
  rl_map : ∀ r, relayM (lf_srv st) !! Relay_UniqueID r = Some r ↔ r ∈ lf_starting st ++ lf_bound st;
  rl_new : ∀ r, r ∈ pending (lf_srv st) ++ lf_starting st → runs_new news rem r;
  rl_bound : ∀ r, r ∈ lf_bound st →
    runs_new news rem r ∨ olds !! Relay_UniqueID r = Some r ∧ Relay_UniqueID r ∈ rem;
  rl_done : ∀ c, c ∈ news → Label c ∉ rem → ∃ r, r ∈ live st ∧ identity (rl_cfg r) = identity c;
  rl_phase : rem ⊆ Label <$> news ∨ pending (lf_srv st) = [] ∧ lf_starting st = [] }.

(** Which labels are left at each point of a reload. *)
Definition pc_rem (old : gmap string Config) (news : list Config) (pc : reload_pc) (rem : list string) (st : life) : Prop :=
  match pc with
  | Ranging old' labels keys =>
      old' = old ∧ labels = Label <$> news ∧ rem = keys ++ (Label <$> news) ∧ NoDup keys ∧
      pending (lf_srv st) = [] ∧ lf_starting st = []
  | InRange old' labels k keys =>
      old' = old ∧ labels = Label <$> news ∧ rem = (k :: keys) ++ (Label <$> news) ∧ NoDup (k :: keys) ∧
      k ∉ Label <$> news ∧ is_Some (relayM (lf_srv st) !! k) ∧ pending (lf_srv st) = [] ∧ lf_starting st = []
  | Looping old' cfgs => old' = old ∧ rem = Label <$> cfgs ∧ NoDup rem ∧ cfgs ⊆ news
  | Replacing old' c cfgs => old' = old ∧ rem = Label <$> c :: cfgs ∧ NoDup rem ∧ c :: cfgs ⊆ news ∧
      relayM (lf_srv st) !! Label c = None
  end.

Lemma identity_addr c r : identity c = identity (rl_cfg r) → Listen c = addr r ∧ Label c = Relay_UniqueID r.
Proof. unfold identity, addr, Relay_UniqueID. intros [=]. done. Qed.

Section Safe.
Variable clash : string → string → bool.
Variable olds : gmap string Relay.
Variable news : list Config.
Variable old : gmap string Config.
Hypothesis news_ok : relays_ok news.
Hypothesis old_known : ∀ l r, olds !! l = Some r → ∃ oc, old !! l = Some oc ∧ identity oc = identity (rl_cfg r).
(** Two of the new addresses never clash, nor does a new address with one that another
    relay, which also stays, had before. *)
Hypothesis new_new : ∀ c c', c ∈ news → c' ∈ news → Label c ≠ Label c' → clash (Listen c) (Listen c') = false.
Hypothesis new_old : ∀ c l r, c ∈ news → olds !! l = Some r → l ≠ Label c → l ∈ Label <$> news →
  clash (Listen c) (addr r) = false.

Lemma news_label_inj c c' : c ∈ news → c' ∈ news → Label c = Label c' → c = c'.
Proof.
  intros Hc Hc' He. apply list_elem_of_lookup in Hc as [i Hi], Hc' as [j Hj].
  assert (i = j) as <-; [|congruence]. destruct news_ok as [_ Hnd].
  eapply NoDup_lookup; [exact Hnd| |]; rewrite list_lookup_fmap; [by rewrite Hi|].
  rewrite Hj. simpl. by rewrite He.
Qed.

Lemma live_store st i r :
  pending (lf_srv st) !! i = Some r →
  pending (lf_srv st) ++ lf_starting st ++ lf_bound st ≡ₚ
  delete i (pending (lf_srv st)) ++ (lf_starting st ++ [r]) ++ lf_bound st.
Proof. intros Hi. rewrite (delete_Permutation _ _ _ Hi) at 1. simpl. by rewrite <- !app_assoc, !Permutation_middle. Qed.

Lemma live_labels_inj rem st r r' :
  reloading olds news rem st → r ∈ live st → r' ∈ live st → Relay_UniqueID r = Relay_UniqueID r' → r = r'.
Proof.
  intros HI Hr Hr' He. apply list_elem_of_lookup in Hr as [i Hi], Hr' as [j Hj].
  assert (i = j) as <-; [|congruence].
  eapply NoDup_lookup; [exact (rl_labels _ _ _ _ HI)| |]; rewrite list_lookup_fmap; [by rewrite Hi|].
  rewrite Hj. simpl. by rewrite He.
Qed.

Lemma no_clash rem st r r' :
  reloading olds news rem st → r ∈ lf_starting st → r' ∈ lf_bound st → clash (addr r) (addr r') = false.
Proof.
  intros HI Hr Hr'. assert (Hne : Relay_UniqueID r ≠ Relay_UniqueID r').
  { intros He. pose proof (rl_labels _ _ _ _ HI) as Hnd. unfold live in Hnd. rewrite !fmap_app in Hnd.
    apply NoDup_app in Hnd as (_ & _ & Hnd). apply NoDup_app in Hnd as (_ & Hd & _).
    apply (Hd (Relay_UniqueID r)); [by apply list_elem_of_fmap_2|]. rewrite He. by apply list_elem_of_fmap_2. }
  destruct (rl_new _ _ _ _ HI r ltac:(apply elem_of_app; by right)) as (c & Hc & _ & [Ha Hl]%identity_addr).
  rewrite <- Ha. destruct (rl_bound _ _ _ _ HI r' Hr') as [(c' & Hc' & _ & [Ha' Hl']%identity_addr)|[Ho Hrem]].
  - rewrite <- Ha'. apply new_new; congruence.
  - apply (new_old c (Relay_UniqueID r') r'); [done..|congruence|].
    destruct (rl_phase _ _ _ _ HI) as [Hs|[_ Hs]]; [by apply Hs|]. rewrite Hs in Hr. by apply elem_of_nil in Hr.
Qed.

(** A goroutine stores its relay. *)
Lemma reloading_store rem st i st' :
  reloading olds news rem st → store_relay i st = Some st' →
  reloading olds news rem st' ∧ lf_threads st' = lf_threads st ∧
  (pending (lf_srv st) = [] → lf_starting st = [] → False).
Proof.
  intros HI. unfold store_relay. destruct (pending (lf_srv st) !! i) as [r|] eqn:Hi; [|done]. intros [= <-].
  pose proof (live_store _ _ _ Hi) as Hlive.
  assert (Hr : r ∈ pending (lf_srv st)) by by apply list_elem_of_lookup_2 in Hi.
  assert (Hrl : r ∈ live st) by (apply elem_of_app; by left).
  split; [|split; [done|intros Hn _; rewrite Hn in Hr; by apply elem_of_nil in Hr]].
  assert (Hnone : ∀ r0, r0 ∈ lf_starting st ++ lf_bound st → Relay_UniqueID r0 ≠ Relay_UniqueID r).
  { intros r0 Hr0 He. pose proof (rl_labels _ _ _ _ HI) as Hnd. unfold live in Hnd. rewrite fmap_app in Hnd.
    apply NoDup_app in Hnd as (_ & Hd & _). apply (Hd (Relay_UniqueID r)); [by apply list_elem_of_fmap_2|].
    rewrite <- He. by apply list_elem_of_fmap_2. }
  destruct HI as [He Hc Hk Hl Hids Hf Hs Hm Hn Hb Hd Hp].
  unfold live in *. split; unfold live; cbn [lf_srv lf_starting lf_bound lf_end pending relayM s_cfg stopped next_id].
  - done.
  - done.
  - by apply map_Forall_insert_2.
  - by rewrite <- Hlive.
  - by rewrite <- Hlive.
  - intros r0. rewrite <- Hlive. apply Hf.
  - intros r0. rewrite <- Hlive. apply Hs.
  - intros r0. rewrite !elem_of_app, list_elem_of_singleton.
    destruct (decide (Relay_UniqueID r = Relay_UniqueID r0)) as [Heq|Hne].
    + rewrite Heq, lookup_insert_eq. split; [intros [= ->]; tauto|].
      intros [[Hr0| ->]|Hr0]; [|done|]; exfalso; (eapply Hnone; [|symmetry; exact Heq]); apply elem_of_app; tauto.
    + rewrite lookup_insert_ne, Hm, elem_of_app by done. split; [tauto|].
      intros [[?| ->]|?]; [tauto|done|tauto].
  - intros r0 Hr0. apply Hn. rewrite (delete_Permutation _ _ _ Hi).
    revert Hr0. rewrite !elem_of_app, list_elem_of_singleton, elem_of_cons. tauto.
  - done.
  - intros c Hc1 Hc2. destruct (Hd c Hc1 Hc2) as (r0 & Hr0 & Hi0). exists r0. by rewrite <- Hlive.
  - destruct Hp as [Hp|[Hp _]]; [by left|]. rewrite Hp in Hr. by apply elem_of_nil in Hr.
Qed.

(** A goroutine binds: never an error. *)
Lemma reloading_bind rem st i st' :
  reloading olds news rem st → bind_relay clash i st = Some st' →
  reloading olds news rem st' ∧ lf_threads st' = lf_threads st ∧
  (pending (lf_srv st) = [] → lf_starting st = [] → False).
Proof.
  intros HI. unfold bind_relay. destruct (lf_starting st !! i) as [r|] eqn:Hi; [|done].
  assert (Hr : r ∈ lf_starting st) by by apply list_elem_of_lookup_2 in Hi.
  assert (Hperm : lf_starting st ++ lf_bound st ≡ₚ delete i (lf_starting st) ++ lf_bound st ++ [r]).
  { rewrite (delete_Permutation _ _ _ Hi) at 1. simpl. by rewrite app_assoc, <- Permutation_cons_append. }
  cbn [option_bind mbind lf_bound lf_srv lf_starting lf_threads lf_end].
  destruct (existsb _ (lf_bound st)) eqn:Ec.
  { exfalso. apply existsb_exists in Ec as (r' & Hr'%list_elem_of_In & Hc). by rewrite (no_clash _ _ _ _ HI Hr Hr') in Hc. }
  assert (Hlive : r ∈ live st) by (unfold live; rewrite !elem_of_app; tauto).
  destruct (existsb _ (stopped _)) eqn:Es.
  { exfalso. apply existsb_exists in Es as (r' & Hr'%list_elem_of_In & Hc%bool_decide_eq_true).
    apply (rl_stopped _ _ _ _ HI r Hlive). rewrite Hc. by apply list_elem_of_fmap_2. }
  intros [= <-]. split; [|split; [done|intros _ Hn; rewrite Hn in Hr; by apply elem_of_nil in Hr]].
  assert (Hlp : live st ≡ₚ pending (lf_srv st) ++ delete i (lf_starting st) ++ lf_bound st ++ [r]).
  { unfold live. by rewrite Hperm. }
  destruct HI as [He Hc Hk Hl Hids Hf Hs Hm Hn Hb Hd Hp].
  split; unfold live; cbn [lf_srv lf_starting lf_bound lf_end].
  - done.
  - done.
  - done.
  - by rewrite <- Hlp.
  - by rewrite <- Hlp.
  - intros r0. rewrite <- Hlp. apply Hf.
  - intros r0. rewrite <- Hlp. apply Hs.
  - intros r0. by rewrite <- Hperm.
  - intros r0 Hr0. apply Hn. rewrite (delete_Permutation _ _ _ Hi).
    revert Hr0. rewrite !elem_of_app, elem_of_cons. tauto.
  - intros r0 [Hr0|Hr0%list_elem_of_singleton]%elem_of_app; [by apply Hb|]. subst r0. left.
    apply Hn. apply elem_of_app. by right.
  - intros c Hc1 Hc2. destruct (Hd c Hc1 Hc2) as (r0 & Hr0 & Hi0). exists r0. by rewrite <- Hlp.
  - destruct Hp as [Hp|[_ Hp]]; [by left|]. rewrite Hp in Hr. by apply elem_of_nil in Hr.
Qed.

Lemma live_ids_inj rem st r r' :
  reloading olds news rem st → r ∈ live st → r' ∈ live st → rl_id r' = rl_id r → r' = r.
Proof.
  intros HI [j Hj]%list_elem_of_lookup [i Hi]%list_elem_of_lookup He. assert (i = j) as <-; [|congruence].
  eapply NoDup_lookup; [exact (rl_ids _ _ _ _ HI)| |]; rewrite list_lookup_fmap; [by rewrite Hi|].
  rewrite Hj. simpl. by rewrite He.
Qed.

(** A running relay that the reload has not dealt with is an old one, and bound. *)
Lemma stop_target rem st l r :
  reloading olds news rem st → relayM (lf_srv st) !! l = Some r → l ∈ rem →
  Relay_UniqueID r = l ∧ r ∈ lf_bound st ∧ olds !! l = Some r ∧
  (∀ r', r' ∈ pending (lf_srv st) ++ lf_starting st → Relay_UniqueID r' ≠ l).
Proof.
  intros HI Hr Hrem. assert (Hl : Relay_UniqueID r = l) by by apply (rl_keys _ _ _ _ HI). subst l.
  assert (Hnn : ∀ r', runs_new news rem r' → Relay_UniqueID r' ≠ Relay_UniqueID r).
  { intros r' (c & _ & Hnc & [_ Hlc]%identity_addr) He. apply Hnc. by rewrite Hlc, He. }
  assert (Hold : ∀ r', r' ∈ pending (lf_srv st) ++ lf_starting st → Relay_UniqueID r' ≠ Relay_UniqueID r)
    by (intros r' Hr'; apply Hnn; by apply (rl_new _ _ _ _ HI)).
  assert (Hb : r ∈ lf_bound st).
  { apply (rl_map _ _ _ _ HI) in Hr as [Hs|?]%elem_of_app; [|done].
    exfalso. apply (Hold r); [apply elem_of_app; by right|done]. }
  split_and!; [done|done|by destruct (rl_bound _ _ _ _ HI r Hb) as [?%Hnn|[? _]]|done].
Qed.

(** The reload stops a relay it has not dealt with: it is bound, so its [Close] returns. *)
Lemma reloading_stop rem st l r :
  reloading olds news rem st → relayM (lf_srv st) !! l = Some r → l ∈ rem →
  olds !! l = Some r ∧
  ∃ st', stop_relay r st = Ret st' ∧ reloading olds news rem st' ∧ lf_threads st' = lf_threads st ∧
    pending (lf_srv st') = pending (lf_srv st) ∧ lf_starting st' = lf_starting st ∧
    relayM (lf_srv st') = delete l (relayM (lf_srv st)).
Proof.
  intros HI Hr Hrem. destruct (stop_target _ _ _ _ HI Hr Hrem) as (<- & Hb & Hold & Hnn). split; [done|].
  assert (Hids : ∀ r', r' ∈ live st → rl_id r' = rl_id r → r' = r).
  { intros r' Hr'. apply (live_ids_inj _ _ _ _ HI); [unfold live; rewrite !elem_of_app; tauto|done]. }
  unfold stop_relay. destruct (existsb _ (lf_starting st)) eqn:Es.
  { exfalso. apply existsb_exists in Es as (r' & Hr'%list_elem_of_In & He%bool_decide_eq_true).
    apply (Hnn r'); [apply elem_of_app; by right|]. rewrite (Hids r'); [done|unfold live; rewrite !elem_of_app; tauto|done]. }
  cbn [andb]. eexists. split; [reflexivity|]. split; [|done].
  assert (Hsub : filter (λ r', rl_id r' ≠ rl_id r) (lf_bound st) `sublist_of` lf_bound st) by apply sublist_filter.
  assert (Hsub' : pending (lf_srv st) ++ lf_starting st ++ filter (λ r', rl_id r' ≠ rl_id r) (lf_bound st) `sublist_of` live st)
    by (unfold live; apply sublist_app; [done|by apply sublist_app]).
  assert (Hgone : ∀ r', r' ∈ pending (lf_srv st) ++ lf_starting st ++ filter (λ r', rl_id r' ≠ rl_id r) (lf_bound st) → rl_id r' ≠ rl_id r).
  { intros r' Hr' He. assert (r' = r) as ->.
    { apply Hids; [|done]. by eapply elem_of_sublist. }
    revert Hr'. rewrite app_assoc, elem_of_app. intros [Hr'|[? _]%list_elem_of_filter]; [|done].
    by apply (Hnn r). }
  pose proof (λ r' H1 H2 H3, live_labels_inj _ _ r' r HI H1 H2 H3) as Hinj.
  destruct HI as [He Hc Hk Hl' Hids' Hf Hs Hm Hn Hbd Hd Hp].
  split; unfold live; cbn [stopOneRelay lf_srv lf_starting lf_bound lf_end pending relayM s_cfg stopped next_id].
  - done.
  - done.
  - by apply map_Forall_delete.
  - eapply sublist_NoDup; [exact Hl'|by apply fmap_sublist].
  - eapply sublist_NoDup; [exact Hids'|by apply fmap_sublist].
  - intros r' [Hr'|[Hr'|Hr'%list_elem_of_singleton]%elem_of_app]%elem_of_app; apply Hf; apply elem_of_app; [|by right|].
    + left. by eapply elem_of_sublist.
    + subst. left. unfold live. rewrite !elem_of_app. tauto.
  - intros r' Hr'. rewrite fmap_app, not_elem_of_app. split; [apply Hs; by eapply elem_of_sublist|].
    intros He'%list_elem_of_singleton. by apply (Hgone r').
  - intros r'. destruct (decide (Relay_UniqueID r' = Relay_UniqueID r)) as [Heq|Hne].
    + rewrite Heq, lookup_delete_eq. split; [done|]. intros Hr'. exfalso.
      assert (r' = r) as ->; [|by apply (Hgone r); [apply elem_of_app; right|]].
      apply Hinj; [eapply elem_of_sublist; [|exact Hsub']; apply elem_of_app; by right|..|done].
      unfold live. rewrite !elem_of_app. tauto.
    + rewrite lookup_delete_ne, Hm, !elem_of_app, list_elem_of_filter by done. split; [|tauto].
      intros [?|Hr']; [by left|]. right. split; [|done]. intros Hid. apply Hne.
      rewrite (Hids r'); [done|unfold live; rewrite !elem_of_app; tauto|done].
  - done.
  - intros r' [_ Hr']%list_elem_of_filter. by apply Hbd.
  - intros c Hc1 Hc2. destruct (Hd c Hc1 Hc2) as (r0 & Hr0 & Hi0). exists r0. split; [|done].
    assert (Hne0 : rl_id r0 ≠ rl_id r).
    { intros Hid. rewrite (Hids r0 Hr0 Hid) in Hi0. symmetry in Hi0. apply identity_addr in Hi0 as [_ Hi0].
      apply Hc2. by rewrite Hi0. }
    revert Hr0. unfold live. rewrite !elem_of_app, list_elem_of_filter. tauto.
  - done.
Qed.

Lemma spawn_fresh s c :
  Config_ok c →
  ∃ r, rl_cfg r = c ∧ rl_id r = next_id s ∧
    spawn_or_continue s c = Ret {| s_cfg := s_cfg s; relayM := relayM s; pending := pending s ++ [r];
                                   stopped := stopped s; next_id := S (next_id s) |}.
Proof.
  intros Hok. destruct (NewRelay_ok c (next_id s) Hok) as (r & Hr & Hc & Hi). exists r.
  unfold spawn_or_continue, spawn. by rewrite Hr.
Qed.

Lemma runs_new_weaken rem rem' r : rem' ⊆ rem → runs_new news rem r → runs_new news rem' r.
Proof. intros Hs (c & Hc & Hn & Hi). exists c. split_and!; [done| |done]. intros ?. by apply Hn, Hs. Qed.

(** A label is dealt with by starting a relay for it. *)
Lemma reloading_spawn rem c st :
  reloading olds news (Label c :: rem) st → c ∈ news → Label c ∉ rem → rem ⊆ Label <$> news →
  relayM (lf_srv st) !! Label c = None →
  ∃ s', spawn_or_continue (lf_srv st) c = Ret s' ∧ reloading olds news rem (set_srv s' st) ∧ relayM s' = relayM (lf_srv st).
Proof.
  intros HI Hc Hrem Hsub Hnone. destruct news_ok as [Hval _]. rewrite Forall_forall in Hval.
  destruct (spawn_fresh (lf_srv st) c (Hval c Hc)) as (r & Hrc & Hrid & ->). eexists. split; [reflexivity|]. split; [|done].
  assert (Hlab : Relay_UniqueID r = Label c) by (unfold Relay_UniqueID; by rewrite Hrc).
  assert (Hlp : live (set_srv (mkServerState (s_cfg (lf_srv st)) (relayM (lf_srv st)) (pending (lf_srv st) ++ [r])
    (stopped (lf_srv st)) (S (next_id (lf_srv st)))) st) ≡ₚ r :: live st).
  { unfold live. cbn. rewrite <- app_assoc. cbn. by rewrite <- Permutation_middle. }
  assert (Hfl : ∀ r', r' ∈ live st → Relay_UniqueID r' ≠ Label c).
  { intros r'. unfold live. rewrite app_assoc, elem_of_app. intros [Hr'|Hr'] He.
    - destruct (rl_new _ _ _ _ HI r' Hr') as (c' & _ & Hn & [_ Hl]%identity_addr). apply Hn. rewrite Hl, He. by left.
    - assert (relayM (lf_srv st) !! Relay_UniqueID r' = Some r') as Hm
        by (apply (rl_map _ _ _ _ HI), elem_of_app; by right). rewrite He in Hm. congruence. }
  assert (Hnew : runs_new news rem r) by (exists c; by rewrite Hrc).
  assert (Hw : ∀ r', runs_new news (Label c :: rem) r' → runs_new news rem r')
    by (intros r'; apply runs_new_weaken; by right).
  destruct HI as [He Hcf Hk Hl Hids Hf Hs Hm Hn Hb Hd Hp]. split; rewrite ?Hlp; cbn.
  - done.
  - done.
  - done.
  - rewrite Hlab. apply NoDup_cons. split; [|done]. intros (r' & Hlr & Hr')%list_elem_of_fmap. by apply (Hfl r').
  - rewrite Hrid. apply NoDup_cons. split; [|done]. intros (r' & Hlr & Hr')%list_elem_of_fmap.
    assert (rl_id r' < next_id (lf_srv st))%nat by (apply Hf, elem_of_app; by left). lia.
  - intros r'. rewrite Hlp. cbn. intros [->|Hr']%elem_of_cons; [lia|]. specialize (Hf r' Hr'). lia.
  - intros r'. rewrite Hlp. intros [->|Hr']%elem_of_cons; [|by apply Hs].
    rewrite Hrid. intros (r' & Hlr & Hr')%list_elem_of_fmap.
    assert (rl_id r' < next_id (lf_srv st))%nat by (apply Hf, elem_of_app; by right). lia.
  - done.
  - intros r'. rewrite <- app_assoc. cbn. rewrite elem_of_app, elem_of_cons. intros [Hr'|[->|Hr']]; [|done|];
      apply Hw, Hn, elem_of_app; tauto.
  - intros r' Hr'. destruct (Hb r' Hr') as [?|[Ho [He'|Hin]%elem_of_cons]]; [left; by apply Hw| |by right].
    exfalso. apply (Hfl r'); [unfold live; rewrite !elem_of_app; tauto|done].
  - intros c' Hc' Hn'. destruct (decide (Label c' = Label c)) as [Heq|Hne].
    + exists r. rewrite Hlp. split; [by left|]. by rewrite Hrc, (news_label_inj c' c).
    + destruct (Hd c' Hc') as (r' & Hr' & Hi'); [by intros [?|?]%elem_of_cons|]. exists r'. rewrite Hlp. split; [by right|done].
  - by left.
Qed.

(** A label is dealt with by leaving its relay alone. *)
Lemma reloading_keep rem c r st :
  reloading olds news (Label c :: rem) st → c ∈ news → Label c ∉ rem → rem ⊆ Label <$> news →
  relayM (lf_srv st) !! Label c = Some r → identity c = identity (rl_cfg r) →
  reloading olds news rem st.
Proof.
  intros HI Hc Hrem Hsub Hr Hi. assert (Hl : Relay_UniqueID r = Label c) by by apply (rl_keys _ _ _ _ HI).
  assert (Hlive : r ∈ live st).
  { rewrite <- Hl in Hr. apply (rl_map _ _ _ _ HI) in Hr. unfold live. rewrite elem_of_app. by right. }
  assert (Hw : ∀ r', runs_new news (Label c :: rem) r' → runs_new news rem r')
    by (intros r'; apply runs_new_weaken; by right).
  pose proof (λ r' H1 H2, live_labels_inj _ _ r' r HI H1 Hlive H2) as Hinj.
  destruct HI as [He Hcf Hk Hlb Hids Hf Hs Hm Hn Hb Hd Hp]. split; try done.
  - intros r' Hr'. by apply Hw, Hn.
  - intros r' Hr'. destruct (Hb r' Hr') as [?|[Ho [He'|Hin]%elem_of_cons]]; [left; by apply Hw| |by right].
    left. exists c. split_and!; [done..|]. assert (r' = r) as ->; [|done].
    apply Hinj; [unfold live; rewrite !elem_of_app; tauto|congruence].
  - intros c' Hc' Hn'. destruct (decide (Label c' = Label c)) as [Heq|Hne].
    + exists r. split; [done|]. by rewrite <- Hi, (news_label_inj c' c).
    + destruct (Hd c' Hc') as (r' & Hr' & Hi'); [by intros [?|?]%elem_of_cons|]. by exists r'.
  - by left.
Qed.

(** A key of the [Range] is dealt with: it is also a new label, or it has no relay any more. *)
Lemma reloading_visit rem k st :
  reloading olds news (k :: rem) st → (k ∈ rem ∨ k ∉ Label <$> news ∧ relayM (lf_srv st) !! k = None) →
  reloading olds news rem st.
Proof.
  intros HI Hk. assert (Hw : ∀ r', runs_new news (k :: rem) r' → runs_new news rem r')
    by (intros r'; apply runs_new_weaken; by right).
  pose proof (rl_map _ _ _ _ HI) as Hmap.
  destruct HI as [He Hcf Hks Hlb Hids Hf Hs Hm Hn Hb Hd Hp]. split; try done.
  - intros r' Hr'. by apply Hw, Hn.
  - intros r' Hr'. destruct (Hb r' Hr') as [?|[Ho [He'|Hin]%elem_of_cons]]; [left; by apply Hw| |by right].
    destruct Hk as [Hk|[_ Hnone]]; [right; split; [done|by rewrite He']|]. exfalso.
    assert (relayM (lf_srv st) !! Relay_UniqueID r' = Some r') as Hr'' by (apply Hmap, elem_of_app; by right).
    rewrite He' in Hr''. congruence.
  - intros c Hc Hn'. apply Hd; [done|]. intros [He'|?]%elem_of_cons; [|done].
    destruct Hk as [Hk|[Hk _]]; [apply Hn'; by rewrite He'|]. apply Hk. rewrite <- He'. by apply list_elem_of_fmap_2.
  - destruct Hp as [Hp|Hp]; [left|by right]. intros l Hl. apply Hp. by right.
Qed.

(** No step of the reload panics or fails, and it keeps the invariant. *)
Lemma reloading_step pc rem st :
  reloading olds news rem st → pc_rem old news pc rem st →
  ∃ st' opc, reload_step pc st = Ret (st', opc) ∧ lf_threads st' = lf_threads st ∧
    match opc with
    | Some pc' => ∃ rem', reloading olds news rem' st' ∧ pc_rem old news pc' rem' st'
    | None => reloading olds news [] st'
    end.
Proof.
  intros HI. destruct pc as [old' labels [|k keys]|old' labels k keys|old' [|c cfgs]|old' c cfgs]; cbn [pc_rem reload_step].
  - intros (-> & -> & -> & _ & Hp & Hs). do 2 eexists. split_and!; [done..|]. exists (Label <$> news).
    split; [exact HI|]. rewrite (rl_cfgs _ _ _ _ HI). split_and!; [done..| |done]. apply news_ok.
  - intros (-> & -> & -> & [Hk Hnd]%NoDup_cons & Hp & Hs).
    destruct (relayM (lf_srv st) !! k) as [r|] eqn:Hr.
    + destruct (inArray k (Label <$> news)) eqn:Hin; do 2 eexists; (split; [reflexivity|split; [done|]]).
      * apply inArray_spec in Hin. exists (keys ++ (Label <$> news)). split; [|done].
        eapply reloading_visit; [exact HI|]. left. apply elem_of_app. by right.
      * assert (k ∉ Label <$> news) by (rewrite <- inArray_spec; congruence).
        eexists. split; [exact HI|]. split_and!; try done. by apply NoDup_cons.
    + do 2 eexists. split_and!; [done..|]. exists (keys ++ (Label <$> news)). split; [|done].
      eapply reloading_visit; [exact HI|]. destruct (decide (k ∈ Label <$> news)); [left; apply elem_of_app; by right|by right].
  - intros (-> & -> & -> & [Hk Hnd]%NoDup_cons & Hkn & [r Hr] & Hp & Hs). rewrite Hr.
    destruct (reloading_stop _ _ k r HI Hr ltac:(by left)) as (_ & st' & -> & HI' & Ht & Hp' & Hs' & Hm').
    do 2 eexists. split_and!; [done..|]. exists (keys ++ (Label <$> news)).
    cbn [pc_rem]. rewrite Hp', Hs'. split; [|done].
    eapply reloading_visit; [exact HI'|]. right. by rewrite Hm', lookup_delete_eq.
  - intros (-> & -> & _). do 2 eexists. split_and!; done.
  - intros (-> & -> & [Hc Hnd]%NoDup_cons & Hsub).
    assert (Hcn : c ∈ news) by (apply Hsub; by left). assert (Hsub' : cfgs ⊆ news) by (intros x Hx; apply Hsub; by right).
    assert (Hlsub : Label <$> cfgs ⊆ Label <$> news).
    { intros l (x & -> & Hx)%list_elem_of_fmap. by apply list_elem_of_fmap_2, Hsub'. }
    destruct (relayM (lf_srv st) !! Label c) as [r|] eqn:Hr.
    + destruct (reloading_stop _ _ (Label c) r HI Hr ltac:(by left)) as (Ho & st' & Hst & HI' & Ht & Hp' & Hs' & Hm').
      destruct (old_known _ _ Ho) as (oc & -> & Hoc). destruct (Config_Different oc c) eqn:Hd.
      * rewrite Hst. do 2 eexists. split_and!; [done..|]. exists (Label <$> c :: cfgs).
        cbn [pc_rem]. rewrite Hm', lookup_delete_eq. split_and!; try done. by apply NoDup_cons.
      * apply Different_false in Hd. do 2 eexists. split_and!; [done..|]. exists (Label <$> cfgs).
        split; [|done]. eapply reloading_keep; try done. congruence.
    + destruct (reloading_spawn _ _ _ HI Hcn Hc Hlsub Hr) as (s' & -> & HI' & _).
      do 2 eexists. split_and!; [done..|]. by exists (Label <$> cfgs).
  - intros (-> & -> & [Hc Hnd]%NoDup_cons & Hsub & Hr).
    assert (Hcn : c ∈ news) by (apply Hsub; by left). assert (Hsub' : cfgs ⊆ news) by (intros x Hx; apply Hsub; by right).
    assert (Hlsub : Label <$> cfgs ⊆ Label <$> news).
    { intros l (x & -> & Hx)%list_elem_of_fmap. by apply list_elem_of_fmap_2, Hsub'. }
    destruct (reloading_spawn _ _ _ HI Hcn Hc Hlsub Hr) as (s' & -> & HI' & _).
    do 2 eexists. split_and!; [done..|]. by exists (Label <$> cfgs).
Qed.

(** Between a call of [Reload] and its last effect. *)
Definition safe (st : life) : Prop :=
  ∃ rem, reloading olds news rem st ∧
    (lf_threads st = [] ∧ rem = [] ∨ ∃ o pc, lf_threads st = [mkThread o pc] ∧ pc_rem old news pc rem st).

(** The other goroutines do not disturb the reload. *)
Lemma pc_rem_store i pc rem st st' :
  reloading olds news rem st → store_relay i st = Some st' → pc_rem old news pc rem st → pc_rem old news pc rem st'.
Proof.
  intros HI Hst. destruct (reloading_store _ _ _ _ HI Hst) as (_ & _ & Hbusy). unfold store_relay in Hst.
  destruct (pending (lf_srv st) !! i) as [r|] eqn:Hi; [|done]. injection Hst as <-.
  destruct pc; cbn; [naive_solver|naive_solver|done|].
  intros (-> & -> & Hnd & Hsub & Hn). split_and!; try done. rewrite lookup_insert_ne; [done|].
  destruct (rl_new _ _ _ _ HI r) as (c' & _ & Hc' & [_ Hl]%identity_addr);
    [apply elem_of_app; left; by apply list_elem_of_lookup_2 in Hi|].
  intros He. apply Hc'. rewrite Hl, He. by left.
Qed.

Lemma pc_rem_bind i pc rem st st' :
  reloading olds news rem st → bind_relay clash i st = Some st' → pc_rem old news pc rem st → pc_rem old news pc rem st'.
Proof.
  intros HI Hst. destruct (reloading_bind _ _ _ _ HI Hst) as (_ & _ & Hbusy).
  assert (Hm : lf_srv st' = lf_srv st).
  { unfold bind_relay in Hst. destruct (lf_starting st !! i); [|done]. cbn in Hst.
    destruct (existsb _ (lf_bound st)); [by injection Hst as <-|]. by destruct (existsb _ _); injection Hst as <-. }
  destruct pc; cbn; rewrite ?Hm; [naive_solver|naive_solver|done|done].
Qed.

Lemma safe_progress st st' : safe st → progress clash st st' → safe st'.
Proof.
  intros (rem & HI & Hth) (m & Hm & He). unfold exec in He. rewrite (rl_end _ _ _ _ HI) in He.
  destruct m as [i|i|i|]; [| | |done].
  - destruct (reloading_store _ _ _ _ HI He) as (HI' & Ht & _). exists rem. split; [done|]. rewrite Ht.
    destruct Hth as [?|(o & pc & ? & Hpc)]; [by left|right]. exists o, pc. split; [done|]. exact (pc_rem_store _ _ _ _ _ HI He Hpc).
  - destruct (reloading_bind _ _ _ _ HI He) as (HI' & Ht & _). exists rem. split; [done|]. rewrite Ht.
    destruct Hth as [?|(o & pc & ? & Hpc)]; [by left|right]. exists o, pc. split; [done|]. exact (pc_rem_bind _ _ _ _ _ HI He Hpc).
  - unfold run_thread in He. destruct Hth as [[Ht _]|(o & pc & Ht & Hpc)]; rewrite Ht in He; [done|].
    destruct i as [|i]; [|done]. cbn in He.
    destruct (reloading_step _ _ _ HI Hpc) as (st1 & opc & Hs & Ht1 & Hopc). rewrite Hs, ?Ht1, ?Ht in He.
    destruct opc as [pc'|]; injection He as <-.
    + destruct Hopc as (rem' & HI' & Hpc'). exists rem'. split; [by destruct HI'|].
      right. exists o, pc'. split; [done|]. by destruct pc'.
    + exists []. split; [by destruct Hopc|by left].
Qed.

(** When everything has run, the server is idle again and runs the new configuration. *)
Lemma safe_idle st :
  safe st → lf_threads st = [] → pending (lf_srv st) = [] → lf_starting st = [] →
  idle st ∧ RelayConfigs (s_cfg (lf_srv st)) = news.
Proof.
  intros (rem & HI & Hth) Ht Hp Hs. assert (rem = []) as ->.
  { destruct Hth as [[_ ->]|(o & pc & Ht' & _)]; [done|]. rewrite Ht in Ht'. done. }
  destruct news_ok as [Hval Hnd]. destruct HI as [He Hc Hk Hl Hids Hf Hst Hm _ Hb Hd _].
  unfold live in *. rewrite Hp, Hs in *. cbn [app] in *.
  split; [|done]. split; try done. split; [|by rewrite Hc|done|done]. rewrite Hc.
  apply map_eq. intros l. unfold running. rewrite lookup_fmap.
  destruct (decide (l ∈ Label <$> news)) as [(c & -> & Hcn)%list_elem_of_fmap|Hl'].
  - destruct (Hd c Hcn ltac:(apply not_elem_of_nil)) as (r & Hr & Hi). symmetry in Hi.
    pose proof (identity_addr _ _ Hi) as [_ Hlc].
    assert (relayM (lf_srv st) !! Label c = Some r) as -> by (rewrite Hlc; by apply Hm).
    cbn. symmetry. by apply desired_of.
  - rewrite (proj2 (desired_lookup_None news l) Hl'). destruct (relayM (lf_srv st) !! l) as [r|] eqn:Hr; [|done]. exfalso.
    assert (Relay_UniqueID r = l) as <- by by apply Hk.
    apply Hm, Hb in Hr as [(c & Hcn & _ & [_ Hlc]%identity_addr)|[_ ?%elem_of_nil]]; [|done].
    apply Hl'. rewrite <- Hlc. by apply list_elem_of_fmap_2.
Qed.
End Safe.

(** ** A call of [Reload] on an idle server *)

Lemma call_safe clash o now force src tls keys st cfg' :
  idle st → keys ≡ₚ (map_to_list (relayM (lf_srv st))).*1 →
  AppConfig_LoadConfig now force src tls (s_cfg (lf_srv st)) = (cfg', Ret tt) →
  ∃ old st1, exec clash (MCall o now force src tls keys) st = Some st1 ∧
    safe (relayM (lf_srv st)) (RelayConfigs cfg') old st1 ∧
    ∀ l r, relayM (lf_srv st) !! l = Some r → ∃ oc, old !! l = Some oc ∧ identity oc = identity (rl_cfg r).
Proof.
  intros [Hcon Hs Ht He Hb Hlab Hids Hst Hf] Hkeys Hload.
  pose proof Hcon as [_ [Hval Hnd] Hk Hp]. destruct (clone_all_ok ∅ _ Hval) as (old & Hold & _ & Hin).
  exists old. unfold exec, call_Reload. rewrite He, decide_True, Ht, Hold, Hload by done. cbn [existsb].
  eexists. split; [reflexivity|]. split.
  - exists (keys ++ (Label <$> RelayConfigs cfg')). split; [|right; exists o, (Ranging old (Label <$> RelayConfigs cfg') keys); split; [cbn; by rewrite Ht|]].
    + split; unfold live; cbn; rewrite ?Hp, ?Hs; cbn; try done.
      * intros r ?%elem_of_nil. done.
      * intros r Hr. right. apply Hb in Hr. split; [done|]. apply elem_of_app. left. rewrite Hkeys.
        apply list_elem_of_fmap. exists (Relay_UniqueID r, r). split; [done|]. by apply elem_of_map_to_list.
      * intros c Hc Hn. exfalso. apply Hn, elem_of_app. right. by apply list_elem_of_fmap_2.
      * by right.
    + cbn. split_and!; try done. rewrite Hkeys. apply NoDup_fst_map_to_list.
  - intros l r Hr. destruct (consistent_lookup _ _ _ Hcon Hr) as (c0 & Hc0 & <- & Hi0).
    destruct (Hin Hnd c0 Hc0) as (oc & Hoc & Hi). exists oc. split; [done|congruence].
Qed.

(** ** Termination *)

(** An upper bound on the steps that are left. *)
Definition pc_weight (n : nat) (pc : reload_pc) : nat :=
  match pc with
  | Ranging _ _ keys => 2 * length keys + 4 * n + 3
  | InRange _ _ _ keys => 2 * length keys + 4 * n + 4
  | Looping _ cfgs => 4 * length cfgs + 1
  | Replacing _ _ cfgs => 4 * length cfgs + 4
  end.

Definition weight (st : life) : nat :=
  2 * length (pending (lf_srv st)) + length (lf_starting st) +
  sum_list (pc_weight (length (RelayConfigs (s_cfg (lf_srv st)))) ∘ th_pc <$> lf_threads st).

Lemma spawn_or_continue_weight s c s' :
  spawn_or_continue s c = Ret s' → s_cfg s' = s_cfg s ∧ (length (pending s') ≤ S (length (pending s)))%nat.
Proof.
  unfold spawn_or_continue, spawn. destruct (NewRelay c (next_id s)) as [r| |]; cbn; [|by intros [= <-]; auto|done].
  intros [= <-]. cbn. rewrite length_app. cbn. split; [done|lia].
Qed.

Lemma stop_relay_weight r st st' :
  stop_relay r st = Ret st' →
  s_cfg (lf_srv st') = s_cfg (lf_srv st) ∧ pending (lf_srv st') = pending (lf_srv st) ∧
  lf_starting st' = lf_starting st ∧ lf_threads st' = lf_threads st.
Proof. unfold stop_relay. by destruct (_ && _); intros [= <-]. Qed.

Definition opt_weight (n : nat) (opc : option reload_pc) : nat :=
  match opc with Some pc => pc_weight n pc | None => 0 end.

Lemma reload_step_weight pc st st' opc :
  reload_step pc st = Ret (st', opc) →
  let n := length (RelayConfigs (s_cfg (lf_srv st))) in
  s_cfg (lf_srv st') = s_cfg (lf_srv st) ∧ lf_starting st' = lf_starting st ∧ lf_threads st' = lf_threads st ∧
  (2 * length (pending (lf_srv st')) + opt_weight n opc < 2 * length (pending (lf_srv st)) + pc_weight n pc)%nat.
Proof.
  cbn zeta. destruct pc as [old labels [|k keys]|old labels k keys|old [|c cfgs]|old c cfgs]; cbn [reload_step].
  - intros [= <- <-]. cbn. split_and!; [done..|lia].
  - destruct (relayM _ !! k); [destruct (inArray _ _)|]; intros [= <- <-]; cbn; (split_and!; [done..|lia]).
  - destruct (relayM _ !! k) as [r|]; [|done]. intros (st1 & (Hc & Hp & Hs & Ht)%stop_relay_weight & [= <- <-])%outcome_bind_Ret.
    rewrite Hp. cbn. split_and!; [done..|lia].
  - intros [= <- <-]. cbn. split_and!; [done..|lia].
  - destruct (relayM _ !! Label c) as [r|].
    + destruct (old !! Label c) as [oc|]; [destruct (Config_Different oc c)|].
      * intros (st1 & (Hc & Hp & Hs & Ht)%stop_relay_weight & [= <- <-])%outcome_bind_Ret.
        rewrite Hp. cbn. split_and!; [done..|lia].
      * intros [= <- <-]. cbn. split_and!; [done..|lia].
      * intros [= <- <-]. cbn. split_and!; [done..|lia].
    + intros (s1 & [Hc Hp]%spawn_or_continue_weight & [= <- <-])%outcome_bind_Ret. cbn. split_and!; [done..|lia].
  - intros (s1 & [Hc Hp]%spawn_or_continue_weight & [= <- <-])%outcome_bind_Ret. cbn. split_and!; [done..|lia].
Qed.

Lemma sum_list_delete (l : list nat) i x : l !! i = Some x → (sum_list (delete i l) + x = sum_list l)%nat.
Proof. revert i. induction l as [|y l IH]; intros [|i] H; try done; simpl in *; [injection H as ->; lia|]. specialize (IH i H). lia. Qed.

Lemma sum_list_insert (l : list nat) i x y :
  l !! i = Some x → (sum_list (<[i := y]> l) + x = sum_list l + y)%nat.
Proof. revert i. induction l as [|z l IH]; intros [|i] H; try done; simpl in *; [injection H as ->; lia|]. specialize (IH i H). lia. Qed.

Lemma list_fmap_delete {A B} (f : A → B) (l : list A) i : f <$> delete i l = delete i (f <$> l).
Proof. revert i. induction l as [|x l IH]; intros [|i]; csimpl; [done..|]. by rewrite IH. Qed.

(** Every step uses up some of the bound. *)
Lemma progress_weight clash st st' : progress clash st st' → (weight st' < weight st)%nat.
Proof.
  intros (m & Hm & He). unfold exec in He. destruct (lf_end st); [done|]. destruct m as [i|i|i|]; [| | |done].
  - unfold store_relay in He. destruct (pending (lf_srv st) !! i) as [r|] eqn:Hi; [|done]. injection He as <-.
    unfold weight. cbn. pose proof (length_delete (pending (lf_srv st)) i (mk_is_Some _ _ Hi)) as Hd.
    apply lookup_lt_Some in Hi. rewrite length_app. cbn. lia.
  - unfold bind_relay in He. destruct (lf_starting st !! i) as [r|] eqn:Hi; [|done]. cbn in He.
    pose proof (length_delete (lf_starting st) i (mk_is_Some _ _ Hi)) as Hd. apply lookup_lt_Some in Hi.
    destruct (existsb _ (lf_bound st)); [|destruct (existsb _ _)]; injection He as <-; unfold weight; cbn; lia.
  - unfold run_thread in He. destruct (lf_threads st !! i) as [th|] eqn:Hi; [|done]. cbn in He.
    set (n := length (RelayConfigs (s_cfg (lf_srv st)))).
    assert (Hw : (pc_weight n ∘ th_pc <$> lf_threads st) !! i = Some (pc_weight n (th_pc th))) by by rewrite list_lookup_fmap, Hi.
    pose proof (sum_list_delete _ _ _ Hw) as Hd.
    assert (0 < pc_weight n (th_pc th))%nat by (destruct (th_pc th); cbn; lia).
    destruct (reload_step (th_pc th) st) as [[st1 [pc'|]]|e|p] eqn:Hs.
    + apply reload_step_weight in Hs as (Hc & Hst & Ht & Hlt). injection He as <-.
      pose proof (sum_list_insert _ _ _ (pc_weight n pc') Hw) as Hins.
      unfold weight. cbn. rewrite Hc, Hst, Ht, list_fmap_insert. fold n. cbn. cbn in Hlt. fold n in Hlt. lia.
    + apply reload_step_weight in Hs as (Hc & Hst & Ht & Hlt). injection He as <-.
      unfold weight. cbn. rewrite Hc, Hst, Ht, list_fmap_delete. fold n. cbn in Hlt. fold n in Hlt. lia.
    + injection He as <-. unfold weight. cbn. rewrite list_fmap_delete. fold n. lia.
    + injection He as <-. destruct (th_origin th); unfold weight; cbn; rewrite list_fmap_delete; fold n; lia.
Qed.

Lemma progress_bounded clash k st st' : nsteps (progress clash) k st st' → (k ≤ weight st)%nat.
Proof. induction 1 as [|k st st1 st2 H1%progress_weight _ IH]; lia. Qed.

(** Whatever is in flight can go on. *)
Lemma progress_enabled clash st :
  lf_end st = None → nf (progress clash) st →
  pending (lf_srv st) = [] ∧ lf_starting st = [] ∧ lf_threads st = [].
Proof.
  intros He Hnf. assert (Hno : ∀ m, is_call m = false → exec clash m st = None).
  { intros m Hm. destruct (exec clash m st) as [st'|] eqn:E; [|done]. exfalso. apply Hnf. by exists st', m. }
  split_and!.
  - specialize (Hno (MStore 0) eq_refl). unfold exec in Hno. rewrite He in Hno. unfold store_relay in Hno.
    by destruct (pending (lf_srv st)).
  - specialize (Hno (MBind 0) eq_refl). unfold exec in Hno. rewrite He in Hno. unfold bind_relay in Hno.
    destruct (lf_starting st); [done|]. cbn in Hno. destruct (existsb _ _); [done|]. by destruct (existsb _ _).
  - specialize (Hno (MReload 0) eq_refl). unfold exec in Hno. rewrite He in Hno. unfold run_thread in Hno.
    by destruct (lf_threads st).
Qed.

Lemma safe_rtc clash olds news old st st' :
  relays_ok news → (∀ l r, olds !! l = Some r → ∃ oc, old !! l = Some oc ∧ identity oc = identity (rl_cfg r)) →
  (∀ c c', c ∈ news → c' ∈ news → Label c ≠ Label c' → clash (Listen c) (Listen c') = false) →
  (∀ c l r, c ∈ news → olds !! l = Some r → l ≠ Label c → l ∈ Label <$> news → clash (Listen c) (addr r) = false) →
  safe olds news old st → rtc (progress clash) st st' → safe olds news old st'.
Proof. intros ? ? ? ? Hs Hr. induction Hr as [|st st1 st2 Hstep _ IH]; [done|]. apply IH. by eapply safe_progress. Qed.

Lemma serial_reload_aux clash o now force src tls keys st cfg' :
  idle st → keys ≡ₚ (map_to_list (relayM (lf_srv st))).*1 →
  AppConfig_LoadConfig now force src tls (s_cfg (lf_srv st)) = (cfg', Ret tt) →
  (∀ c c', c ∈ RelayConfigs cfg' → c' ∈ RelayConfigs cfg' → Label c ≠ Label c' → clash (Listen c) (Listen c') = false) →
  (∀ c r, c ∈ RelayConfigs cfg' → r ∈ lf_bound st → Relay_UniqueID r ≠ Label c →
     Relay_UniqueID r ∈ Label <$> RelayConfigs cfg' → clash (Listen c) (addr r) = false) →
  ∃ st1, exec clash (MCall o now force src tls keys) st = Some st1 ∧
    ∀ st2, rtc (progress clash) st1 st2 →
      lf_end st2 = None ∧
      (lf_threads st2 = [] → pending (lf_srv st2) = [] → lf_starting st2 = [] →
       idle st2 ∧ RelayConfigs (s_cfg (lf_srv st2)) = RelayConfigs cfg').
Proof.
  intros Hidle Hkeys Hload Hnn Hno.
  pose proof (LoadConfig_relays_ok _ _ _ _ _ _ (con_cfgs _ (idle_srv _ Hidle)) Hload) as Hok.
  destruct (call_safe clash o now force src tls keys st cfg' Hidle Hkeys Hload) as (old & st1 & Hex & Hsafe & Hold).
  exists st1. split; [done|]. intros st2 Hr.
  assert (Hsafe2 : safe (relayM (lf_srv st)) (RelayConfigs cfg') old st2).
  { eapply safe_rtc; try done. intros c l r Hc Hl Hne Hin.
    assert (Relay_UniqueID r = l) as <- by by apply (con_keys _ (idle_srv _ Hidle)).
    apply Hno; try done. by apply (idle_bound _ Hidle). }
  split; [destruct Hsafe2 as (rem & HI & _); apply HI|]. intros. by eapply safe_idle.
Qed.

(** ** Theorems *)

(** [C3] One reload at a time cannot hurt.  Call [Reload] on an idle server with a
    configuration whose addresses can be bound together and in which no relay takes over an
    address that another relay, which also stays, was using.  Then, however the reload and
    the goroutines of the relays interleave, nobody fails to bind and nothing panics;
    every interleaving ends after a bounded number of steps; and where it ends, the server
    is idle again, runs exactly the new configuration, and each of its relays listens. *)
Theorem serial_reload_safe (clash : string → string → bool) (o : origin) (now : Z) (force : bool)
    (src : source) (tls : option error) (keys : list string) (st : life) (cfg' : AppConfig)
    (Hidle : idle st) (Hkeys : keys ≡ₚ (map_to_list (relayM (lf_srv st))).*1)
    (Hload : AppConfig_LoadConfig now force src tls (s_cfg (lf_srv st)) = (cfg', Ret tt))
    (Hnew : ∀ c c', c ∈ RelayConfigs cfg' → c' ∈ RelayConfigs cfg' → Label c ≠ Label c' →
       clash (Listen c) (Listen c') = false)
    (Hmove : ∀ c r, c ∈ RelayConfigs cfg' → r ∈ lf_bound st → Relay_UniqueID r ≠ Label c →
       Relay_UniqueID r ∈ Label <$> RelayConfigs cfg' → clash (Listen c) (addr r) = false) :
  ∃ st1, exec clash (MCall o now force src tls keys) st = Some st1 ∧
    (∀ st2, rtc (progress clash) st1 st2 → lf_end st2 = None) ∧
    (∀ k st2, nsteps (progress clash) k st1 st2 → (k ≤ weight st1)%nat) ∧
    (∀ st2, rtc (progress clash) st1 st2 → nf (progress clash) st2 →
       idle st2 ∧ RelayConfigs (s_cfg (lf_srv st2)) = RelayConfigs cfg').
Proof.
  destruct (serial_reload_aux clash o now force src tls keys st cfg' Hidle Hkeys Hload Hnew Hmove) as (st1 & Hex & H).
  exists st1. split_and!; [done| |by intros k st2; apply progress_bounded|].
  - intros st2 Hr. exact (proj1 (H st2 Hr)).
  - intros st2 Hr Hnf. destruct (H st2 Hr) as [He Hi].
    destruct (progress_enabled clash st2 He Hnf) as (Hp & Hs & Ht). by apply Hi.
Qed.

(** ** Concrete runs *)

Definition eq_clash (a b : string) : bool := bool_decide (a = b).

(** Documents with a reload interval of a minute. *)
Definition relays_doc (rs : list Config) : source :=
  SrcDoc (mkDocument None None None None None None None (Some 60) (Some rs) None None None None) None.
Definition one_relay (a : string) : source := relays_doc [sample_relay_cfg "a" a].
Definition two_relays (a b : string) : source := relays_doc [sample_relay_cfg "a" a; sample_relay_cfg "b" b].
Definition three_relays (a b c : string) : source :=
  relays_doc [sample_relay_cfg "a" a; sample_relay_cfg "b" b; sample_relay_cfg "c" c].

Definition boot : life := mkLife empty_server [] [] [] None.

Lemma boot_idle : idle boot.
Proof.
  split; try done.
  - apply empty_server_consistent.
  - intros r. split; [done|by intros ?%elem_of_nil].
  - constructor.
  - constructor.
  - by intros r ?%elem_of_nil.
  - by intros r ?%elem_of_nil.
Qed.

Lemma boot_keys : [] ≡ₚ (map_to_list (relayM (lf_srv boot))).*1.
Proof. vm_compute. constructor. Qed.

(** Case analysis over the relays of a computed configuration. *)
Ltac compute_relays H :=
  vm_compute in H; repeat (apply elem_of_cons in H as [->|H]); try (by apply elem_of_nil in H).

Lemma serial_reload_safe_witness :
  ∃ st1, exec eq_clash (MCall FromWeb 5 true (two_relays ":1" ":2") None []) boot = Some st1 ∧
    ∀ st2, rtc (progress eq_clash) st1 st2 → lf_end st2 = None.
Proof.
  destruct (serial_reload_safe eq_clash FromWeb 5 true (two_relays ":1" ":2") None [] boot
    (fst (AppConfig_LoadConfig 5 true (two_relays ":1" ":2") None (s_cfg empty_server)))
    boot_idle boot_keys ltac:(vm_compute; reflexivity)) as (st1 & H1 & H2 & _).
  - intros c c' Hc Hc'. compute_relays Hc; compute_relays Hc'; vm_compute; congruence.
  - intros c r _ Hr. apply elem_of_nil in Hr. destruct Hr.
  - exists st1. split; [exact H1|exact H2].
Defined.

(** The server after its first load of two relays, everything having run. *)
Definition boot_call : move := MCall FromWeb 5 true (two_relays ":1" ":2") None [].
Definition boot_rest : list move := [MReload 0; MReload 0; MReload 0; MReload 0; MStore 0; MStore 0; MBind 0; MBind 0].
Definition serving : life := default boot (exec_all eq_clash (boot_call :: boot_rest) boot).

Lemma serving_idle : idle serving.
Proof.
  destruct (serial_reload_aux eq_clash FromWeb 5 true (two_relays ":1" ":2") None [] boot
    (fst (AppConfig_LoadConfig 5 true (two_relays ":1" ":2") None (s_cfg empty_server)))
    boot_idle boot_keys ltac:(vm_compute; reflexivity)) as (st1 & H1 & H2).
  - intros c c' Hc Hc'. compute_relays Hc; compute_relays Hc'; vm_compute; congruence.
  - intros c r _ Hr. apply elem_of_nil in Hr. destruct Hr.
  - assert (Hr : rtc (progress eq_clash) st1 serving).
    { apply (exec_all_progress eq_clash boot_rest); [by repeat constructor|].
      vm_compute in H1. injection H1 as <-. vm_compute. reflexivity. }
    by apply (H2 serving Hr); vm_compute.
Qed.

(** One reload alone can end the server.  When two relays that stay exchange their
    ports, the first one's replacement is started before the second one is stopped: if its
    goroutine binds at once, the address is still in use, the error reaches [errCH], and
    the whole server exits; if it binds later, the same reload succeeds. *)
Theorem port_swap_kills :
  idle serving ∧ addr <$> lf_bound serving = [":1"; ":2"] ∧
  ∃ st1, exec eq_clash (MCall FromWeb 9 true (two_relays ":2" ":1") None ["a"; "b"]) serving = Some st1 ∧
    (∃ st2, rtc (progress eq_clash) st1 st2 ∧ lf_end st2 = Some (Exited (bind_error ":2"))) ∧
    (∃ st3, rtc (progress eq_clash) st1 st3 ∧ lf_end st3 = None ∧ addr <$> lf_bound st3 = [":2"; ":1"] ∧
       lf_threads st3 = [] ∧ pending (lf_srv st3) = [] ∧ lf_starting st3 = []).
Proof.
  split; [apply serving_idle|]. split; [by vm_compute|].
  eexists. split; [vm_compute; reflexivity|]. split.
  - eexists. split.
    + apply (exec_all_progress eq_clash
        [MReload 0; MReload 0; MReload 0; MReload 0; MReload 0; MStore 0; MBind 0]); [by repeat constructor|].
      vm_compute. reflexivity.
    + by vm_compute.
  - eexists. split.
    + apply (exec_all_progress eq_clash
        [MReload 0; MReload 0; MReload 0; MReload 0; MReload 0; MReload 0; MReload 0; MReload 0;
         MStore 0; MStore 0; MBind 0; MBind 0]); [by repeat constructor|].
      vm_compute. reflexivity.
    + by vm_compute.
Qed.

(** Reloads that overlap do harm, from an idle server a minute and more after its last
    load.  The watcher and the web handler, both adding relay c, both find it missing and
    both start it: the second bind fails and ends the server.  Both removing relay b, the
    watcher's callback finds it gone after its check and panics on the nil interface, which
    ends the process.  And a web reload that is to replace a relay which the watcher's
    reload has only just started closes its nil listener: the request panics, and when all
    is quiet the server does not run its configuration. *)
Theorem concurrent_reloads_kill :
  idle serving ∧
  (∃ st, rtc (life_step eq_clash) serving st ∧ lf_end st = Some (Exited (bind_error ":3"))) ∧
  (∃ st, rtc (life_step eq_clash) serving st ∧
     lf_end st = Some (Crashed (ExplicitPanic "interface conversion: interface {} is nil, not *relay.Relay"))) ∧
  (∃ st, rtc (life_step eq_clash) serving st ∧ lf_end st = None ∧
     lf_threads st = [] ∧ pending (lf_srv st) = [] ∧ lf_starting st = [] ∧
     addr <$> lf_bound st = [":1"; ":5"] ∧ Listen <$> RelayConfigs (s_cfg (lf_srv st)) = [":1"; ":6"]).
Proof.
  split; [apply serving_idle|]. split_and!; eexists; split.
  - apply (exec_all_rtc eq_clash
      [MCall FromWatcher (100 * Second) false (three_relays ":1" ":2" ":3") None ["a"; "b"];
       MCall FromWeb (100 * Second) true (three_relays ":1" ":2" ":3") None ["a"; "b"];
       MReload 0; MReload 0; MReload 0; MReload 0; MReload 0; MReload 0;
       MReload 1; MReload 1; MReload 1; MReload 1; MReload 1; MReload 1;
       MStore 0; MStore 0; MBind 0; MBind 0]). vm_compute. reflexivity.
  - by vm_compute.
  - apply (exec_all_rtc eq_clash
      [MCall FromWatcher (100 * Second) false (one_relay ":1") None ["a"; "b"]; MReload 0; MReload 0;
       MCall FromWeb (100 * Second) true (one_relay ":1") None ["a"; "b"]; MReload 1; MReload 1; MReload 1; MReload 0]).
    vm_compute. reflexivity.
  - by vm_compute.
  - apply (exec_all_rtc eq_clash
      [MCall FromWatcher (100 * Second) false (two_relays ":1" ":5") None ["a"; "b"];
       MReload 0; MReload 0; MReload 0; MReload 0; MReload 0; MReload 0; MStore 0; MReload 0;
       MCall FromWeb (100 * Second) true (two_relays ":1" ":6") None ["a"; "b"];
       MReload 0; MReload 0; MReload 0; MReload 0; MReload 0; MBind 0]). vm_compute. reflexivity.
  - by vm_compute.
Qed.
