(* ===== verification/ConnTracker.v ===== *)
(** * pkg/xray/conn_tracker.go: the registry of live proxied connections

    The session structures of xray are third-party types: an inbound is modelled by what the
    tracker reads of it, its user's email and its source address, an outbound by its target
    and whether it is UDP.  [cancel] and [conn] are handles; [killed] records the handles
    that [killEntry] cancelled and closed.  The id counter is a uint64. *)

From S2P Require Import Prelude GoStd.

Record Inbound := mkInbound { in_email : option string; in_source : option string }.
Record Outbound := mkOutbound { out_target : string; out_udp : bool }.

Record connEntry := mkConnEntry {
  ce_id : Z; ce_userID : Z; ce_since : Z; ce_cancel : option nat; ce_conn : option nat;
  ce_inbound : option Inbound; ce_outbound : option Outbound }.

Definition connEntry_email (e : connEntry) : string := default "" (ce_inbound e ≫= in_email).

Definition sourceIPFromInbound (inb : option Inbound) : string := default "" (inb ≫= in_source).

Definition connEntry_sourceIP (e : connEntry) : string := sourceIPFromInbound (ce_inbound e).

Definition connEntry_target (e : connEntry) : string :=
  match ce_outbound e with Some o => out_target o | None => "" end.

Definition connEntry_network (e : connEntry) : string :=
  match ce_outbound e with
  | None => ""
  | Some o => if out_udp o then "udp" else "tcp"
  end.

(** A missing user or an email that is not a number gives 0. *)
Definition userIDFromInbound (inb : option Inbound) : Z :=
  match inb ≫= in_email with
  | None => 0
  | Some email => default 0 (Atoi email)
  end.

Record ConnInfo := mkConnInfo {
  ci_ID : Z; ci_UserID : Z; ci_Email : string; ci_Network : string; ci_Target : string;
  ci_SourceIP : string; ci_Since : Z }.

Definition connEntry_info (e : connEntry) : ConnInfo :=
  {| ci_ID := ce_id e; ci_UserID := ce_userID e; ci_Email := connEntry_email e; ci_Network := connEntry_network e;
     ci_Target := connEntry_target e; ci_SourceIP := connEntry_sourceIP e; ci_Since := ce_since e |}.

Record connTracker := mkTracker {
  nextID : Z; entries : gmap Z connEntry; byUser : gmap Z (gset Z); killed : list connEntry }.

Definition newConnTracker : connTracker := {| nextID := 0; entries := ∅; byUser := ∅; killed := [] |}.

Definition connTracker_Register (now : Z) (inbound : option Inbound) (outbound : option Outbound)
    (conn cancel : option nat) (t : connTracker) : Z * connTracker :=
  let userID := userIDFromInbound inbound in
  let id := wrapu64 (nextID t + 1) in
  let e := {| ce_id := id; ce_userID := userID; ce_since := now; ce_cancel := cancel; ce_conn := conn;
              ce_inbound := inbound; ce_outbound := outbound |} in
  let bucket := default ∅ (byUser t !! userID) in
  (id, {| nextID := id; entries := <[id := e]> (entries t);
          byUser := <[userID := {[id]} ∪ bucket]> (byUser t); killed := killed t |}).

Definition connTracker_Unregister (id : Z) (t : connTracker) : connTracker :=
  match entries t !! id with
  | None => t
  | Some e =>
      {| nextID := nextID t; entries := delete id (entries t);
         byUser := match byUser t !! ce_userID e with
                   | None => byUser t
                   | Some bucket =>
                       let bucket := bucket ∖ {[id]} in
                       if decide (bucket = ∅) then delete (ce_userID e) (byUser t)
                       else <[ce_userID e := bucket]> (byUser t)
                   end;
         killed := killed t |}
  end.

(** [killEntry] on each victim; the entries stay registered until [Dispatch] unregisters them. *)
Definition killEntries (victims : list connEntry) (t : connTracker) : connTracker :=
  {| nextID := nextID t; entries := entries t; byUser := byUser t; killed := killed t ++ victims |}.

Definition connTracker_Kill (id : Z) (t : connTracker) : bool * connTracker :=
  match entries t !! id with
  | None => (false, t)
  | Some e => (true, killEntries [e] t)
  end.

(** The entries of a user's bucket, in the order the map is visited. *)
Definition bucket_entries (userID : Z) (t : connTracker) : list connEntry :=
  omap (λ id, entries t !! id) (elements (default ∅ (byUser t !! userID))).

Definition connTracker_KillByUser (userID : Z) (t : connTracker) : Z * connTracker :=
  let victims := bucket_entries userID t in (Z.of_nat (length victims), killEntries victims t).

Definition connTracker_KillAll (t : connTracker) : Z * connTracker :=
  let victims := (map_to_list (entries t)).*2 in (Z.of_nat (length victims), killEntries victims t).

Definition connTracker_List (userID : Z) (t : connTracker) : list ConnInfo :=
  if decide (userID = 0) then connEntry_info <$> (map_to_list (entries t)).*2
  else connEntry_info <$> bucket_entries userID t.

Definition connTracker_Count (t : connTracker) : Z := Z.of_nat (size (entries t)).

Definition connTracker_CountTCPByUser (userID : Z) (t : connTracker) : Z :=
  Z.of_nat (length (filter (λ e, connEntry_network e = "tcp") (bucket_entries userID t))).

(** ** The index invariant *)

(** The ids of a user's live connections, computed from the entries alone. *)
Definition ids_of (u : Z) (m : gmap Z connEntry) : gset Z := dom (filter (λ kv, ce_userID (snd kv) = u) m).

Record tracker_inv (t : connTracker) : Prop := {
  ti_next : 0 ≤ nextID t;
  ti_ids : map_Forall (λ id e, ce_id e = id ∧ 0 < id ≤ nextID t) (entries t);
  ti_index : ∀ u, default ∅ (byUser t !! u) = ids_of u (entries t);
  ti_nonempty : map_Forall (λ _ b, b ≠ ∅) (byUser t) }.

Inductive tracker_step : connTracker → connTracker → Prop :=
  | ts_register now inb out conn cancel t :
      nextID t + 1 < 2 ^ 64 →
      tracker_step t (snd (connTracker_Register now inb out conn cancel t))
  | ts_unregister id t : tracker_step t (connTracker_Unregister id t)
  | ts_kill id t : tracker_step t (snd (connTracker_Kill id t))
  | ts_kill_user u t : tracker_step t (snd (connTracker_KillByUser u t))
  | ts_kill_all t : tracker_step t (snd (connTracker_KillAll t)).

Lemma elem_of_ids_of u m id : id ∈ ids_of u m ↔ ∃ e, m !! id = Some e ∧ ce_userID e = u.
Proof.
  unfold ids_of. rewrite elem_of_dom. split.
  - intros [e [He Hu]%map_lookup_filter_Some]. eauto.
  - intros (e & He & Hu). exists e. by apply map_lookup_filter_Some.
Qed.

Lemma tracker_inv_new : tracker_inv newConnTracker.
Proof.
  split; simpl; [done|apply map_Forall_empty| |apply map_Forall_empty].
  intros u. rewrite lookup_empty. simpl. apply set_eq. intros id. rewrite elem_of_ids_of.
  split; [set_solver|]. intros (e & He & _). by rewrite lookup_empty in He.
Qed.

Lemma tracker_inv_register now inb out conn cancel t :
  nextID t + 1 < 2 ^ 64 → tracker_inv t → tracker_inv (snd (connTracker_Register now inb out conn cancel t)).
Proof.
  intros Hmax [Hn Hids Hidx Hne]. unfold connTracker_Register.
  assert (wrapu64 (nextID t + 1) = nextID t + 1) as -> by (unfold wrapu64; rewrite Z.mod_small; lia).
  assert (entries t !! (nextID t + 1) = None) as Hfresh.
  { destruct (entries t !! (nextID t + 1)) as [e|] eqn:E; [|done]. apply Hids in E. lia. }
  split; simpl.
  - lia.
  - apply map_Forall_insert_2; [simpl; lia|]. eapply map_Forall_impl; [done|]. simpl. lia.
  - intros u. set (u0 := userIDFromInbound inb). apply set_eq. intros id. rewrite elem_of_ids_of.
    destruct (decide (u = u0)) as [->|Hu].
    + rewrite lookup_insert_eq. simpl. rewrite elem_of_union, elem_of_singleton, Hidx, elem_of_ids_of.
      destruct (decide (id = nextID t + 1)) as [->|Hid].
      * rewrite lookup_insert_eq. split; [eauto|by left].
      * rewrite lookup_insert_ne by done. split; [naive_solver|by right].
    + rewrite lookup_insert_ne, Hidx, elem_of_ids_of by done.
      destruct (decide (id = nextID t + 1)) as [->|Hid].
      * rewrite lookup_insert_eq, Hfresh. split; [naive_solver|]. intros (e & [= <-] & He). done.
      * by rewrite lookup_insert_ne by done.
  - apply map_Forall_insert_2; [set_solver|done].
Qed.

Lemma tracker_inv_unregister id t : tracker_inv t → tracker_inv (connTracker_Unregister id t).
Proof.
  intros [Hn Hids Hidx Hne]. unfold connTracker_Unregister.
  destruct (entries t !! id) as [e|] eqn:He; [|by split].
  assert (Hin : id ∈ ids_of (ce_userID e) (entries t)) by (apply elem_of_ids_of; eauto).
  rewrite <- Hidx in Hin. destruct (byUser t !! ce_userID e) as [b|] eqn:Hb; [|simpl in Hin; set_solver].
  simpl in Hin.
  assert (Hidx' : ∀ u, ids_of u (delete id (entries t)) = ids_of u (entries t) ∖ {[id]}).
  { intros u. apply set_eq. intros i. rewrite elem_of_difference, elem_of_singleton, !elem_of_ids_of.
    destruct (decide (i = id)) as [->|]; [rewrite lookup_delete_eq|rewrite lookup_delete_ne by done]; naive_solver. }
  assert (Hother : ∀ u, u ≠ ce_userID e → id ∉ ids_of u (entries t)).
  { intros u Hu (e' & He' & <-)%elem_of_ids_of. congruence. }
  split; simpl.
  - done.
  - by apply map_Forall_delete.
  - intros u. rewrite Hidx'. destruct (decide (u = ce_userID e)) as [->|Hu].
    + rewrite <- Hidx, Hb. simpl. case_decide as Hempty.
      * rewrite lookup_delete_eq. by rewrite Hempty.
      * by rewrite lookup_insert_eq.
    + specialize (Hother u Hu). rewrite <- Hidx in *.
      case_decide; [rewrite lookup_delete_ne by done|rewrite lookup_insert_ne by done]; set_solver.
  - case_decide; [by apply map_Forall_delete|by apply map_Forall_insert_2].
Qed.

Lemma tracker_inv_step t t' : tracker_inv t → tracker_step t t' → tracker_inv t'.
Proof.
  intros Hinv Hs. destruct Hs.
  - by apply tracker_inv_register.
  - by apply tracker_inv_unregister.
  - unfold connTracker_Kill. case_match; [|done]. by destruct Hinv.
  - by destruct Hinv.
  - by destruct Hinv.
Qed.

Lemma filtered_list (P : Z * connEntry → Prop) `{∀ kv, Decision (P kv)} (m : gmap Z connEntry) :
  map_to_list (filter P m) ≡ₚ filter P (map_to_list m).
Proof.
  apply NoDup_Permutation; [apply NoDup_map_to_list|by apply NoDup_filter, NoDup_map_to_list|].
  intros [id e]. rewrite list_elem_of_filter, !elem_of_map_to_list, map_lookup_filter_Some. tauto.
Qed.

(** A bucket yields exactly the user's entries, each once. *)
Lemma bucket_entries_spec u t :
  tracker_inv t →
  bucket_entries u t ≡ₚ filter (λ e, ce_userID e = u) (map_to_list (entries t)).*2.
Proof.
  intros [_ Hids Hidx _]. unfold bucket_entries. rewrite Hidx. unfold ids_of.
  assert (elements (dom (filter (λ kv, ce_userID (snd kv) = u) (entries t))) ≡ₚ
    (map_to_list (filter (λ kv : Z * connEntry, ce_userID (snd kv) = u) (entries t))).*1) as ->.
  { apply NoDup_Permutation; [apply NoDup_elements|apply NoDup_fst_map_to_list|].
    intros id. rewrite elem_of_elements, elem_of_dom, list_elem_of_fmap. split.
    - intros [e He]. exists (id, e). split; [done|]. by apply elem_of_map_to_list.
    - intros ([id' e] & -> & He%elem_of_map_to_list). by eexists. }
  assert (∀ kvs, (∀ kv, kv ∈ kvs → entries t !! fst kv = Some (snd kv)) →
    omap (λ id, entries t !! id) kvs.*1 = kvs.*2) as Hom.
  { induction kvs as [|[id e] kvs IH]; intros H; csimpl; [done|].
    pose proof (H (id, e) ltac:(by left)) as He. simpl in He. rewrite He. f_equal. apply IH. intros. apply H. by right. }
  rewrite Hom.
  - rewrite filtered_list. induction (map_to_list (entries t)) as [|[id e] kvs IH]; csimpl; [done|].
    rewrite !filter_cons. simpl. case_decide; csimpl; by rewrite IH.
  - intros [id e] [He _]%elem_of_map_to_list%map_lookup_filter_Some. done.
Qed.

Lemma tracker_reachable_inv t : reachable (λ t, t = newConnTracker) tracker_step t → tracker_inv t.
Proof. apply reachable_invariant; [intros ? ->; apply tracker_inv_new|apply tracker_inv_step]. Qed.

Lemma unregister_register now inb out conn cancel t :
  tracker_inv t → nextID t + 1 < 2 ^ 64 →
  let (id, t') := connTracker_Register now inb out conn cancel t in
  id = nextID t + 1 ∧ entries t !! id = None ∧
  entries t' = <[id := mkConnEntry id (userIDFromInbound inb) now cancel conn inb out]> (entries t) ∧
  entries (connTracker_Unregister id t') = entries t ∧ byUser (connTracker_Unregister id t') = byUser t.
Proof.
  intros Hinv Hmax. pose proof (tracker_inv_register now inb out conn cancel t Hmax Hinv) as Hinv'.
  unfold connTracker_Register in *. simpl in Hinv'.
  assert (wrapu64 (nextID t + 1) = nextID t + 1) as -> by (unfold wrapu64; destruct Hinv; rewrite Z.mod_small; lia).
  set (u := userIDFromInbound inb) in *. destruct Hinv as [Hn Hids Hidx Hne].
  assert (entries t !! (nextID t + 1) = None) as Hfresh.
  { destruct (entries t !! (nextID t + 1)) as [e|] eqn:E; [|done]. apply Hids in E. lia. }
  split_and!; [done..| |]; unfold connTracker_Unregister; cbn [entries]; rewrite lookup_insert_eq;
    cbn [entries byUser ce_userID].
  - by rewrite delete_insert_eq, delete_id.
  - rewrite lookup_insert_eq.
    assert ((nextID t + 1) ∉ default ∅ (byUser t !! u)) as Hnin.
    { rewrite Hidx, elem_of_ids_of. intros (e & He & _). congruence. }
    assert ((({[nextID t + 1]} ∪ default ∅ (byUser t !! u)) ∖ {[nextID t + 1]} : gset Z) = default ∅ (byUser t !! u)) as ->
      by set_solver.
    case_decide as Hb.
    + rewrite delete_insert_eq. destruct (byUser t !! u) as [b|] eqn:E; simpl in Hb; [|by rewrite delete_id].
      exfalso. by apply (Hne _ _ E).
    + rewrite insert_insert_eq. destruct (byUser t !! u) as [b|] eqn:E; simpl in *; [by rewrite insert_id|done].
Qed.

(** ** Theorems *)

(** [C19] The per-user index never lies: in every state reached by registering,
    unregistering and killing, listing or killing by user finds exactly that user's live
    connections, each once, the counters agree, killing removes nothing by itself, and no
    empty bucket is left behind. *)
Theorem tracker_queries (t : connTracker) (Hr : reachable (λ t, t = newConnTracker) tracker_step t) (u : Z) :
  let mine := filter (λ e, ce_userID e = u) (map_to_list (entries t)).*2 in
  connTracker_List 0 t = connEntry_info <$> (map_to_list (entries t)).*2 ∧
  (u ≠ 0 → connTracker_List u t ≡ₚ connEntry_info <$> mine) ∧
  connTracker_Count t = Z.of_nat (length (connTracker_List 0 t)) ∧
  connTracker_CountTCPByUser u t = Z.of_nat (length (filter (λ e, connEntry_network e = "tcp") mine)) ∧
  (let (n, t') := connTracker_KillByUser u t in
   n = Z.of_nat (length mine) ∧ entries t' = entries t ∧
   ∃ victims, killed t' = killed t ++ victims ∧ victims ≡ₚ mine) ∧
  (is_Some (byUser t !! u) ↔ mine ≠ []).
Proof.
  apply tracker_reachable_inv in Hr. intros mine. pose proof (bucket_entries_spec u t Hr) as Hb.
  fold mine in Hb. split_and!.
  - done.
  - intros Hu. unfold connTracker_List. rewrite decide_False by done. by rewrite Hb.
  - unfold connTracker_Count, connTracker_List. simpl. by rewrite !length_fmap, length_map_to_list.
  - unfold connTracker_CountTCPByUser. by rewrite Hb.
  - simpl. split_and!; [by rewrite Hb|done|]. by eexists.
  - destruct Hr as [_ _ Hidx Hne]. split.
    + intros [b E]. pose proof (Hne _ _ E) as Hb0. pose proof (Hidx u) as Hu. rewrite E in Hu. simpl in Hu. subst b.
      apply set_choose_L in Hb0 as [id (e & He & Hue)%elem_of_ids_of]. intros Hnil.
      assert (e ∈ mine) as Hin; [|rewrite Hnil in Hin; by apply elem_of_nil in Hin].
      apply list_elem_of_filter. split; [done|]. apply list_elem_of_fmap. exists (id, e).
      split; [done|by apply elem_of_map_to_list].
    + intros Hm. destruct (byUser t !! u) as [b|] eqn:E; [by eexists|]. exfalso. apply Hm.
      destruct mine as [|e es] eqn:Em; [done|]. exfalso.
      assert (e ∈ mine) as Hin by (rewrite Em; by left). subst mine.
      apply list_elem_of_filter in Hin as [Hue ([id e'] & -> & He%elem_of_map_to_list)%list_elem_of_fmap].
      assert (id ∈ ids_of u (entries t)) as Hid by (apply elem_of_ids_of; eauto).
      rewrite <- Hidx, E in Hid. simpl in Hid. set_solver.
Qed.

Definition alice : Inbound := mkInbound (Some "42") (Some "198.51.100.7").

Lemma tracker_queries_witness :
  connTracker_CountTCPByUser 42
    (snd (connTracker_Register 5 (Some alice) (Some (mkOutbound "example.com:443" false)) (Some 3%nat) None newConnTracker)) = 1.
Proof.
  assert (reachable (λ t, t = newConnTracker) tracker_step
    (snd (connTracker_Register 5 (Some alice) (Some (mkOutbound "example.com:443" false)) (Some 3%nat) None newConnTracker))) as Hr.
  { eapply reach_step; [apply reach_init; reflexivity|]. apply ts_register. reflexivity. }
  destruct (tracker_queries _ Hr 42) as (_ & _ & _ & H & _). rewrite H. vm_compute. reflexivity.
Defined.

(** A connection's registration is undone exactly by its unregistration: [Register]
    returns a new id under which the connection is listed, and unregistering it gives
    back the same entries and the same index, empty buckets included. *)
Theorem register_unregister (now : Z) (inb : option Inbound) (out : option Outbound) (conn cancel : option nat)
    (t : connTracker) (Hr : reachable (λ t, t = newConnTracker) tracker_step t) (Hmax : nextID t + 1 < 2 ^ 64) :
  let (id, t') := connTracker_Register now inb out conn cancel t in
  id = nextID t + 1 ∧ entries t !! id = None ∧
  entries t' = <[id := mkConnEntry id (userIDFromInbound inb) now cancel conn inb out]> (entries t) ∧
  entries (connTracker_Unregister id t') = entries t ∧ byUser (connTracker_Unregister id t') = byUser t.
Proof. apply unregister_register; [by apply tracker_reachable_inv|done]. Qed.

Lemma register_unregister_witness :
  let (id, t') := connTracker_Register 5 (Some alice) None None None newConnTracker in
  id = 1 ∧ entries (connTracker_Unregister id t') = ∅.
Proof.
  pose proof (register_unregister 5 (Some alice) None None None newConnTracker
    (reach_init _ _ _ eq_refl) ltac:(reflexivity)) as H.
  destruct (connTracker_Register 5 (Some alice) None None None newConnTracker) as [id t'].
  destruct H as (H1 & _ & _ & H2 & _). split; [exact H1|exact H2].
Defined.
