(* ===== verification/UserPool.v ===== *)
(** * pkg/xray/user.go and const.go: users, their counters, and the synchronisation with the panel

    xray's [inbound.Manager] is third-party: it is the class [InboundManager], whose state
    says which emails each inbound serves, with the laws of its [AddUser] and [RemoveUser]
    (an "already exists" or "not found" error changes nothing, any other error neither).
    [build_ok] says whether xray accepts a user's account.  A [*User] of the pool is reached
    through the pool's map.  The panel's answer, the result of the POST and the map
    iteration order are arguments. *)

From S2P Require Import Prelude GoStd ConnTracker.

(** ** const.go *)

Definition XrayAPITag : string := "api".
Definition XraySSProxyTag : string := "ss_proxy".
Definition XrayTrojanProxyTag : string := "trojan_proxy".
Definition XrayVmessProxyTag : string := "vmess_proxy".
Definition XrayVlessProxyTag : string := "vless_proxy".
Definition XraySSRProxyTag : string := "ssr_proxy".
Definition ProtocolSS : string := "ss".
Definition ProtocolTrojan : string := "trojan".
Definition ProtocolVless : string := "vless".

Definition InProxyTags (tag : string) : bool :=
  bool_decide (tag = XraySSProxyTag ∨ tag = XrayTrojanProxyTag ∨ tag = XrayVmessProxyTag ∨
               tag = XrayVlessProxyTag ∨ tag = XraySSRProxyTag).

(** ** User *)

Definition maxRecentIPsPerUser : nat := 10.

(** A nil [recentIPSet] is the empty set. *)
Record User := mkUser {
  u_running : bool; u_ID : Z; u_Method : string; u_Password : string; u_Flow : string; u_Level : Z;
  u_Enable : bool; UploadTraffic : Z; DownloadTraffic : Z; UploadTotal : Z; DownloadTotal : Z;
  u_Protocol : string; recentIPs : list string; recentIPSet : gset string }.

Definition set_running (b : bool) (u : User) : User :=
  mkUser b (u_ID u) (u_Method u) (u_Password u) (u_Flow u) (u_Level u) (u_Enable u) (UploadTraffic u)
    (DownloadTraffic u) (UploadTotal u) (DownloadTotal u) (u_Protocol u) (recentIPs u) (recentIPSet u).

Definition set_counters (up down uptot downtot : Z) (u : User) : User :=
  mkUser (u_running u) (u_ID u) (u_Method u) (u_Password u) (u_Flow u) (u_Level u) (u_Enable u) up
    down uptot downtot (u_Protocol u) (recentIPs u) (recentIPSet u).

Definition set_ips (ips : list string) (ipset : gset string) (u : User) : User :=
  mkUser (u_running u) (u_ID u) (u_Method u) (u_Password u) (u_Flow u) (u_Level u) (u_Enable u) (UploadTraffic u)
    (DownloadTraffic u) (UploadTotal u) (DownloadTotal u) (u_Protocol u) ips ipset.

Definition User_GetEmail (u : User) : string := fmt_d (u_ID u).

Definition User_AddUploadTraffic (n : Z) (u : User) : User :=
  set_counters (wrap64 (UploadTraffic u + n)) (DownloadTraffic u) (wrap64 (UploadTotal u + n)) (DownloadTotal u) u.

Definition User_AddDownloadTraffic (n : Z) (u : User) : User :=
  set_counters (UploadTraffic u) (wrap64 (DownloadTraffic u + n)) (UploadTotal u) (wrap64 (DownloadTotal u + n)) u.

Definition User_RecordIP (ip : string) (u : User) : User :=
  if decide (ip = "") then u
  else if decide (ip ∈ recentIPSet u) then u
  else
    let ips := recentIPs u ++ [ip] in
    let ipset := {[ip]} ∪ recentIPSet u in
    if decide (maxRecentIPsPerUser < length ips)%nat
    then match ips with
         | oldest :: rest => set_ips rest (ipset ∖ {[oldest]}) u
         | [] => set_ips ips ipset u
         end
    else set_ips ips ipset u.

Definition User_snapshotAndReset (u : User) : (Z * Z * list string) * User :=
  ((UploadTraffic u, DownloadTraffic u, recentIPs u),
   set_ips [] ∅ (set_counters 0 0 (UploadTotal u) (DownloadTotal u) u)).

Definition User_UpdateFromServer (serverSideUser u : User) : User :=
  mkUser (u_running u) (u_ID u) (u_Method serverSideUser) (u_Password serverSideUser) (u_Flow serverSideUser)
    (u_Level u) (u_Enable serverSideUser) (UploadTraffic u) (DownloadTraffic u) (UploadTotal u) (DownloadTotal u)
    (u_Protocol u) (recentIPs u) (recentIPSet u).

Definition User_Equal (u new : User) : bool :=
  bool_decide (u_Method u = u_Method new) && bool_decide (u_Enable u = u_Enable new) &&
  bool_decide (u_Password u = u_Password new) && bool_decide (u_Flow u = u_Flow new).

Inductive account :=
  | TrojanAccount (password : string)
  | SSAccount (key : string)
  | VlessAccount (id flow : string).

Record MemoryUser := mkMemoryUser { mu_Level : Z; mu_Email : string; mu_Account : account }.

(** [uint32(u.Level)]; [build_ok] is whether [ToMemoryUser] succeeds.  An unknown protocol
    is logged at DPanic level, which only panics in a development logger. *)
Definition User_toMemoryUser (build_ok : MemoryUser → bool) (u : User) : option MemoryUser :=
  acc ← (if decide (u_Protocol u = ProtocolTrojan) then Some (TrojanAccount (u_Password u))
         else if decide (u_Protocol u = ProtocolSS) then Some (SSAccount (u_Password u))
         else if decide (u_Protocol u = ProtocolVless) then Some (VlessAccount (u_Password u) (u_Flow u))
         else None);
  let mu := {| mu_Level := u_Level u mod 2 ^ 32; mu_Email := User_GetEmail u; mu_Account := acc |} in
  if build_ok mu then Some mu else None.

(** ** The inbound manager *)

Definition isAlreadyExists (err : error) : bool := Contains (ToLower (error_text err)) "already exists".
Definition isNotFound (err : error) : bool := Contains (ToLower (error_text err)) "not found".

(** [im_handler]: the error of [userManagerFor]'s lookups, if any. *)
Class InboundManager (IM : Type) := {
  im_emails : IM → string → gset string;
  im_handler : IM → string → option error;
  im_AddUser : IM → string → MemoryUser → IM * option error;
  im_RemoveUser : IM → string → string → IM * option error }.

(** What the pool relies on: the two calls touch one inbound and one email. *)
Class InboundManagerLaws (IM : Type) `{InboundManager IM} := {
  add_spec : ∀ im tag mu,
    let (im', err) := im_AddUser im tag mu in
    (∀ tag', tag' ≠ tag → im_emails im' tag' = im_emails im tag') ∧
    match err with
    | None => im_emails im' tag = {[mu_Email mu]} ∪ im_emails im tag
    | Some e => im_emails im' tag = im_emails im tag ∧ (isAlreadyExists e = true → mu_Email mu ∈ im_emails im tag)
    end;
  remove_spec : ∀ im tag email,
    let (im', err) := im_RemoveUser im tag email in
    (∀ tag', tag' ≠ tag → im_emails im' tag' = im_emails im tag') ∧
    match err with
    | None => im_emails im' tag = im_emails im tag ∖ {[email]}
    | Some e => im_emails im' tag = im_emails im tag ∧ (isNotFound e = true → email ∉ im_emails im tag)
    end }.

(** ** UserPool *)

(** [up_tracker]: nil until [SetConnTracker]; [up_im_set]: whether [SetInboundManager] was called. *)
Record UserPool := mkPool {
  users : gmap Z User; up_proxyTags : list string; up_tracker : option connTracker; up_im_set : bool }.

Definition NewUserPool (proxyTags : list string) : UserPool :=
  {| users := ∅; up_proxyTags := proxyTags; up_tracker := None; up_im_set := false |}.

Definition set_users (m : gmap Z User) (up : UserPool) : UserPool :=
  {| users := m; up_proxyTags := up_proxyTags up; up_tracker := up_tracker up; up_im_set := up_im_set up |}.

Definition UserPool_SetInboundManager (up : UserPool) : UserPool :=
  {| users := users up; up_proxyTags := up_proxyTags up; up_tracker := up_tracker up; up_im_set := true |}.

Definition UserPool_SetConnTracker (t : connTracker) (up : UserPool) : UserPool :=
  {| users := users up; up_proxyTags := up_proxyTags up; up_tracker := Some t; up_im_set := up_im_set up |}.

Definition UserPool_CreateUser (userId level : Z) (password method protocol flow : string) (enable : bool)
    (up : UserPool) : User * UserPool :=
  let u := mkUser false userId method password flow level enable 0 0 0 0 protocol [] ∅ in
  (u, set_users (<[userId := u]> (users up)) up).

Definition UserPool_GetUser (id : Z) (up : UserPool) : option User := users up !! id.

Definition UserPool_RemoveUser (id : Z) (up : UserPool) : UserPool := set_users (delete id (users up)) up.

(** Writing through a [*User] of the pool. *)
Definition store_user (u : User) (up : UserPool) : UserPool := set_users (<[u_ID u := u]> (users up)) up.

Section Sync.
Context {IM : Type} `{InboundManager IM}.
Variable build_ok : MemoryUser → bool.

Definition userManagerFor (up : UserPool) (im : IM) (tag : string) : option error :=
  if negb (up_im_set up) then Some (Errorf "inbound manager not set")
  else Wrapf "get inbound handler: " <$> im_handler im tag.

(** The returned user has its [running] flag set on success. *)
Definition addInboundUser (up : UserPool) (tag : string) (user : User) (im : IM) : User * IM * option error :=
  match userManagerFor up im tag with
  | Some err => (user, im, Some err)
  | None =>
      match User_toMemoryUser build_ok user with
      | None => (user, im, Some (Errorf ("build memory user for " +:+ fmt_d (u_ID user))))
      | Some mu =>
          match im_AddUser im tag mu with
          | (im, Some err) =>
              if isAlreadyExists err then (set_running true user, im, None)
              else (user, im, Some (Wrapf "add user to inbound: " err))
          | (im, None) => (set_running true user, im, None)
          end
      end
  end.

Definition removeInboundUser (up : UserPool) (tag : string) (user : User) (im : IM) : User * IM * option error :=
  match userManagerFor up im tag with
  | Some err => (user, im, Some err)
  | None =>
      match im_RemoveUser im tag (User_GetEmail user) with
      | (im, Some err) =>
          if isNotFound err then (set_running false user, im, None)
          else (user, im, Some (Wrapf "remove user from inbound: " err))
      | (im, None) => (set_running false user, im, None)
      end
  end.

(** The body of the loop over the panel's users. *)
Definition sync_user (tag : string) (newUser : User) (up : UserPool) (im : IM) : UserPool * IM * option error :=
  match UserPool_GetUser (u_ID newUser) up with
  | None =>
      let (created, up) := UserPool_CreateUser (u_ID newUser) (u_Level newUser) (u_Password newUser)
                             (u_Method newUser) (u_Protocol newUser) (u_Flow newUser) (u_Enable newUser) up in
      if u_Enable created then
        let '(created, im, err) := addInboundUser up tag created im in (store_user created up, im, err)
      else (up, im, None)
  | Some oldUser =>
      let '(oldUser, im, err) :=
        if negb (User_Equal oldUser newUser) then
          let oldUser := User_UpdateFromServer newUser oldUser in
          if u_running oldUser then removeInboundUser up tag oldUser im else (oldUser, im, None)
        else (oldUser, im, None) in
      match err with
      | Some err => (store_user oldUser up, im, Some err)
      | None =>
          if u_Enable oldUser && negb (u_running oldUser) then
            let '(oldUser, im, err) := addInboundUser up tag oldUser im in (store_user oldUser up, im, err)
          else (store_user oldUser up, im, None)
      end
  end.

Fixpoint sync_users (tag : string) (resp : list User) (up : UserPool) (im : IM) : UserPool * IM * option error :=
  match resp with
  | [] => (up, im, None)
  | newUser :: rest =>
      match sync_user tag newUser up im with
      | (up, im, Some err) => (up, im, Some err)
      | (up, im, None) => sync_users tag rest up im
      end
  end.

(** The loop over [GetAllUsers] that drops the users the panel no longer lists. *)
Fixpoint drop_users (tag : string) (userM : list Z) (order : list User) (up : UserPool) (im : IM) :
    UserPool * IM * option error :=
  match order with
  | [] => (up, im, None)
  | user :: rest =>
      if decide (u_ID user ∈ userM) then drop_users tag userM rest up im
      else match removeInboundUser up tag user im with
           | (user, im, Some err) => (store_user user up, im, Some err)
           | (user, im, None) => drop_users tag userM rest (UserPool_RemoveUser (u_ID user) up) im
           end
  end.

(** [resp]: the panel's answer; [order]: how [GetAllUsers] enumerates the pool's map. *)
Definition UserPool_syncUserConfigsFromServer (tag : string) (resp : list User + error)
    (order : gmap Z User → list User) (up : UserPool) (im : IM) : UserPool * IM * option error :=
  match resp with
  | inr err => (up, im, Some err)
  | inl resp =>
      match sync_users tag resp up im with
      | (up, im, Some err) => (up, im, Some err)
      | (up, im, None) => drop_users tag (u_ID <$> resp) (order (users up)) up im
      end
  end.

(** The first half of [syncOnce]: every tag in turn, each with its own request. *)
Fixpoint sync_tags (tags : list string) (resp : string → list User + error) (order : gmap Z User → list User)
    (up : UserPool) (im : IM) : UserPool * IM * option error :=
  match tags with
  | [] => (up, im, None)
  | tag :: rest =>
      match UserPool_syncUserConfigsFromServer tag (resp tag) order up im with
      | (up, im, Some err) => (up, im, Some err)
      | (up, im, None) => sync_tags rest resp order up im
      end
  end.
End Sync.

(** ** syncTrafficToServer *)

Record UserTraffic := mkUserTraffic {
  ut_ID : Z; ut_Upload : Z; ut_Download : Z; ut_IPList : list string; ut_TcpCount : Z }.

(** Live sources not seen yet are appended, in order. *)
Fixpoint merge_loop (seen : gset string) (ips : list string) (live : list ConnInfo) : list string :=
  match live with
  | [] => ips
  | c :: live =>
      if decide (ci_SourceIP c = "") then merge_loop seen ips live
      else if decide (ci_SourceIP c ∈ seen) then merge_loop seen ips live
      else merge_loop ({[ci_SourceIP c]} ∪ seen) (ips ++ [ci_SourceIP c]) live
  end.

Definition mergeLiveIPs (ips : list string) (live : list ConnInfo) : list string :=
  merge_loop (list_to_set ips) ips live.

(** One user of the loop: what is reported for it, if anything, and the user afterwards. *)
Definition user_traffic (tracker : option connTracker) (user : User) : option UserTraffic * User :=
  let '((up, down, ips), user') := User_snapshotAndReset user in
  if decide (up = 0 ∧ down = 0) then (None, user')
  else
    let '(ips, tcpCount) :=
      match tracker with
      | Some t => (mergeLiveIPs ips (connTracker_List (u_ID user) t), connTracker_CountTCPByUser (u_ID user) t)
      | None => (ips, 0)
      end in
    (Some {| ut_ID := u_ID user; ut_Upload := up; ut_Download := down; ut_IPList := ips; ut_TcpCount := tcpCount |}, user').

(** [order]: the users in the order of [GetAllUsers]; [post]: the result of the request.
    The request's data is the second component; the bandwidth is added in [UserSync]. *)
Definition UserPool_syncTrafficToServer (order : list User) (post : option error) (up : UserPool) :
    UserPool * list UserTraffic * option error :=
  let res := user_traffic (up_tracker up) <$> order in
  (foldl (λ up u, store_user u up) up res.*2, omap id res.*1, post).

(** ** Lemmas: emails *)

Lemma fmt_d_inj a b : in_int64 a → in_int64 b → fmt_d a = fmt_d b → a = b.
Proof. intros Ha Hb He. pose proof (Atoi_fmt_d a Ha) as H1. rewrite He, Atoi_fmt_d in H1 by done. congruence. Qed.

Lemma Equal_iff u v :
  User_Equal u v = true ↔
  u_Method u = u_Method v ∧ u_Enable u = u_Enable v ∧ u_Password u = u_Password v ∧ u_Flow u = u_Flow v.
Proof. unfold User_Equal. rewrite !andb_true_iff, !bool_decide_eq_true. tauto. Qed.

Lemma Equal_UpdateFromServer s u : User_Equal (User_UpdateFromServer s u) s = true.
Proof. by apply Equal_iff. Qed.

(** ** Lemmas: the inbound side, from the laws *)

Section SyncLemmas.
Context {IM : Type} `{InboundManagerLaws IM}.
Variable build_ok : MemoryUser → bool.

Lemma toMemoryUser_email u mu : User_toMemoryUser build_ok u = Some mu → mu_Email mu = User_GetEmail u.
Proof.
  unfold User_toMemoryUser. intros (acc & _ & Hmu)%bind_Some. by destruct (build_ok _); simplify_eq/=.
Qed.

Lemma add_ok up tag u im u' im' :
  addInboundUser build_ok up tag u im = (u', im', None) →
  u' = set_running true u ∧ im_emails im' tag = {[User_GetEmail u]} ∪ im_emails im tag.
Proof.
  unfold addInboundUser. destruct (userManagerFor up im tag); [done|].
  destruct (User_toMemoryUser build_ok u) as [mu|] eqn:Hmu; [|done].
  apply toMemoryUser_email in Hmu. pose proof (add_spec im tag mu) as Hs.
  destruct (im_AddUser im tag mu) as [im1 [e|]]; destruct Hs as [_ Hs]; rewrite <- Hmu.
  - destruct Hs as [He Hin]. destruct (isAlreadyExists e); intros [= <- <-]. split; [done|].
    specialize (Hin eq_refl). rewrite He. set_solver.
  - by intros [= <- <-].
Qed.

Lemma add_err up tag u im u' im' e :
  addInboundUser build_ok up tag u im = (u', im', Some e) → u' = u ∧ im_emails im' tag = im_emails im tag.
Proof.
  unfold addInboundUser. destruct (userManagerFor up im tag); [by intros [= <- <- _]|].
  destruct (User_toMemoryUser build_ok u) as [mu|]; [|by intros [= <- <- _]].
  pose proof (add_spec im tag mu) as Hs.
  destruct (im_AddUser im tag mu) as [im1 [e'|]]; destruct Hs as [_ Hs]; [|done].
  destruct (isAlreadyExists e'); intros [= <- <- _]. split; [done|apply Hs].
Qed.

Lemma remove_ok up tag u im u' im' :
  removeInboundUser up tag u im = (u', im', None) →
  u' = set_running false u ∧ im_emails im' tag = im_emails im tag ∖ {[User_GetEmail u]}.
Proof.
  unfold removeInboundUser. destruct (userManagerFor up im tag); [done|].
  pose proof (remove_spec im tag (User_GetEmail u)) as Hs.
  destruct (im_RemoveUser im tag (User_GetEmail u)) as [im1 [e|]]; destruct Hs as [_ Hs].
  - destruct Hs as [He Hin]. destruct (isNotFound e); intros [= <- <-]. split; [done|].
    specialize (Hin eq_refl). rewrite He. set_solver.
  - by intros [= <- <-].
Qed.

Lemma remove_err up tag u im u' im' e :
  removeInboundUser up tag u im = (u', im', Some e) → u' = u ∧ im_emails im' tag = im_emails im tag.
Proof.
  unfold removeInboundUser. destruct (userManagerFor up im tag); [by intros [= <- <- _]|].
  pose proof (remove_spec im tag (User_GetEmail u)) as Hs.
  destruct (im_RemoveUser im tag (User_GetEmail u)) as [im1 [e'|]]; destruct Hs as [_ Hs]; [|done].
  destruct (isNotFound e'); intros [= <- <- _]. split; [done|apply Hs].
Qed.

(** The pool and one inbound agree: [running] means served, only enabled users are running,
    and nobody else is served. *)
Record pool_ok (tag : string) (up : UserPool) (im : IM) : Prop := {
  pk_users : map_Forall (λ id u, u_ID u = id ∧ in_int64 id ∧
    (u_running u = true ↔ fmt_d id ∈ im_emails im tag) ∧ (u_running u = true → u_Enable u = true)) (users up);
  pk_served : ∀ em, em ∈ im_emails im tag → ∃ id, is_Some (users up !! id) ∧ em = fmt_d id }.

Lemma pool_ok_store tag up im im' u :
  pool_ok tag up im → in_int64 (u_ID u) →
  (∀ em, em ≠ User_GetEmail u → em ∈ im_emails im' tag ↔ em ∈ im_emails im tag) →
  (u_running u = true ↔ User_GetEmail u ∈ im_emails im' tag) → (u_running u = true → u_Enable u = true) →
  pool_ok tag (store_user u up) im'.
Proof.
  intros [Hu Hs] Hid Hoth Hrun Hen. split; simpl.
  - intros id v [[<- <-]|[Hne Hv]]%lookup_insert_Some; [done|].
    destruct (Hu _ _ Hv) as (Hvid & Hi & Hr & He). split_and!; [done..| |done]. rewrite Hoth; [done|].
    intros Hem. apply Hne. symmetry. by apply fmt_d_inj.
  - intros em Hem. destruct (decide (em = User_GetEmail u)) as [->|Hne].
    + exists (u_ID u). rewrite lookup_insert_eq. split; [by eexists|done].
    + apply Hoth, Hs in Hem as (id & Hsome & ->); [|done]. exists id. split; [|done].
      destruct (decide (id = u_ID u)) as [->|]; [rewrite lookup_insert_eq; by eexists|by rewrite lookup_insert_ne].
Qed.

(** What a processed user looks like. *)
Definition user_synced (nu u : User) : Prop :=
  u_ID u = u_ID nu ∧ User_Equal u nu = true ∧ u_running u = u_Enable nu.

(** The first half of the step for a known user: update, and remove from the inbound if the
    update changed a running user. *)
Lemma update_step tag nu u up im u1 im1 :
  pool_ok tag up im → users up !! u_ID nu = Some u →
  (if negb (User_Equal u nu) then
     let u := User_UpdateFromServer nu u in
     if u_running u then removeInboundUser up tag u im else (u, im, None)
   else (u, im, None)) = (u1, im1, None) →
  u_ID u1 = u_ID nu ∧ User_Equal u1 nu = true ∧
  (∀ em, em ≠ fmt_d (u_ID nu) → em ∈ im_emails im1 tag ↔ em ∈ im_emails im tag) ∧
  (u_running u1 = true ↔ fmt_d (u_ID nu) ∈ im_emails im1 tag) ∧
  (u_running u1 = true → u_Enable nu = true).
Proof.
  intros Hok Hu. destruct (pk_users _ _ _ Hok _ _ Hu) as (Huid & _ & Hrun & Hen).
  destruct (User_Equal u nu) eqn:Heq; simpl.
  - intros [= <- <-]. pose proof Heq as (_ & He & _)%Equal_iff. split_and!; [done..|]. rewrite <- He. done.
  - destruct (u_running u) eqn:Hr.
    + intros [-> He]%remove_ok. split_and!; try done.
      * by apply Equal_iff.
      * intros em Hne. rewrite He. unfold User_GetEmail. simpl. rewrite Huid. set_solver.
      * rewrite He. unfold User_GetEmail. simpl. rewrite Huid. set_solver.
    + intros [= <- <-]. split_and!; try done; [by apply Equal_iff|by simpl; rewrite Hr|by simpl; rewrite Hr].
Qed.

Lemma sync_user_ok tag nu up im up' im' :
  pool_ok tag up im → in_int64 (u_ID nu) →
  sync_user build_ok tag nu up im = (up', im', None) →
  pool_ok tag up' im' ∧ ∃ u, user_synced nu u ∧ users up' = <[u_ID nu := u]> (users up).
Proof.
  intros Hok Hid. unfold sync_user, UserPool_GetUser.
  destruct (users up !! u_ID nu) as [u|] eqn:Hu.
  - pose proof (update_step tag nu u up im) as Hstep.
    destruct (if negb (User_Equal u nu) then _ else _) as [[u1 im1] [e|]]; [done|].
    destruct (Hstep u1 im1 Hok Hu eq_refl) as (Hu1 & Heq & Hoth & Hrun & Hen). clear Hstep.
    pose proof Heq as (_ & Hen1 & _)%Equal_iff.
    destruct (u_Enable u1 && negb (u_running u1)) eqn:Hadd.
    + apply andb_true_iff in Hadd as [He Hnr%negb_true_iff].
      destruct (addInboundUser build_ok up tag u1 im1) as [[u2 im2] [e|]] eqn:Ha; [done|].
      apply add_ok in Ha as [-> Hem]. intros [= <- <-]. unfold User_GetEmail in Hem. rewrite Hu1 in Hem. split.
      * apply (pool_ok_store tag up im); simpl; rewrite ?Hu1; try done.
        -- intros em Hne. unfold User_GetEmail in Hne. simpl in Hne. rewrite Hu1 in Hne.
           rewrite Hem, <- Hoth by done. set_solver.
        -- unfold User_GetEmail. simpl. rewrite Hu1, Hem. set_solver.
      * exists (set_running true u1). split; [|by unfold store_user; simpl; rewrite Hu1].
        split_and!; [done| |simpl; congruence]. apply Equal_iff. by apply Equal_iff in Heq.
    + intros [= <- <-]. split.
      * apply (pool_ok_store tag up im); unfold User_GetEmail; rewrite ?Hu1; try done. intros Hr. rewrite Hen1. by apply Hen.
      * exists u1. split; [|by unfold store_user; simpl; rewrite Hu1]. split_and!; [done..|].
        rewrite <- Hen1. rewrite <- Hen1 in Hen. destruct (u_Enable u1), (u_running u1); try done. by specialize (Hen eq_refl).
  - assert (Hfresh : fmt_d (u_ID nu) ∉ im_emails im tag).
    { intros (id & [v Hv] & He)%(pk_served _ _ _ Hok).
      destruct (pk_users _ _ _ Hok _ _ Hv) as (_ & Hi & _). apply fmt_d_inj in He; [congruence|done..]. }
    simpl. destruct (u_Enable nu) eqn:He.
    + set (u0 := mkUser false _ _ _ _ _ _ _ _ _ _ _ _ _). set (up0 := set_users _ up).
      destruct (addInboundUser build_ok up0 tag u0 im) as [[u2 im2] [e|]] eqn:Ha; [done|].
      apply add_ok in Ha as [-> Hem]. intros [= <- <-]. unfold User_GetEmail in Hem. simpl in Hem. split.
      * replace (store_user (set_running true u0) up0) with (store_user (set_running true u0) up)
          by (unfold store_user, set_users, up0; simpl; by rewrite insert_insert_eq).
        apply (pool_ok_store tag up im); simpl; try done; unfold User_GetEmail; simpl; rewrite Hem; set_solver.
      * exists (set_running true u0). unfold store_user, up0. simpl. rewrite insert_insert_eq. split; [|done].
        split_and!; [done| |by simpl]. apply Equal_iff. simpl. by rewrite He.
    + intros [= <- <-]. set (u0 := mkUser false _ _ _ _ _ _ _ _ _ _ _ _ _). split.
      * apply (pool_ok_store tag up im im u0); simpl; try done; unfold User_GetEmail; simpl; (split; [done|set_solver]).
      * exists u0. split; [|done]. split_and!; [done| |by simpl]. apply Equal_iff. simpl. by rewrite He.
Qed.

Lemma sync_users_ok tag resp up im up' im' :
  pool_ok tag up im → Forall (λ nu, in_int64 (u_ID nu)) resp → NoDup (u_ID <$> resp) →
  sync_users build_ok tag resp up im = (up', im', None) →
  pool_ok tag up' im' ∧
  (∀ nu, nu ∈ resp → ∃ u, users up' !! u_ID nu = Some u ∧ user_synced nu u) ∧
  (∀ id, id ∉ u_ID <$> resp → users up' !! id = users up !! id).
Proof.
  revert up im. induction resp as [|nu resp IH]; intros up im Hok Hids Hnd; simpl.
  - intros [= <- <-]. split_and!; [done|by intros ? ?%elem_of_nil|done].
  - apply Forall_cons in Hids as [Hid Hids]. apply NoDup_cons in Hnd as [Hn Hnd].
    destruct (sync_user build_ok tag nu up im) as [[up1 im1] [e|]] eqn:Hs; [done|].
    apply sync_user_ok in Hs as (Hok1 & u & Hsync & Hus); [|done..]. intros Hrest.
    destruct (IH up1 im1 Hok1 Hids Hnd Hrest) as (Hok' & Hin & Hout). split_and!; [done| |].
    + intros nu' [->|Hnu]%elem_of_cons; [|by apply Hin]. exists u. rewrite Hout, Hus by done.
      by rewrite lookup_insert_eq.
    + intros id [Hne Hid']%not_elem_of_cons. rewrite Hout, Hus by done. by rewrite lookup_insert_ne.
Qed.

Lemma drop_users_ok tag userM order up im up' im' :
  pool_ok tag up im → NoDup (u_ID <$> order) → (∀ u, u ∈ order → users up !! u_ID u = Some u) →
  drop_users tag userM order up im = (up', im', None) →
  pool_ok tag up' im' ∧
  ∀ id, users up' !! id = if decide (id ∈ u_ID <$> order ∧ id ∉ userM) then None else users up !! id.
Proof.
  revert up im. induction order as [|u order IH]; intros up im Hok Hnd Hin; cbn [drop_users].
  - intros [= <- <-]. split; [done|]. intros id. rewrite decide_False; [done|]. by intros [?%elem_of_nil _].
  - apply NoDup_cons in Hnd as [Hn Hnd]. pose proof (Hin u ltac:(by left)) as Hu. case_decide as Hd.
    + intros Hrest. apply IH in Hrest as [Hok' Hus]; [|done..|]; [|intros; apply Hin; by right].
      split; [done|]. intros id. rewrite Hus. apply decide_ext. csimpl. rewrite elem_of_cons. naive_solver.
    + destruct (removeInboundUser up tag u im) as [[u1 im1] [e|]] eqn:Hr; [done|].
      apply remove_ok in Hr as [-> Hem]. intros Hrest. unfold UserPool_RemoveUser in Hrest. simpl in Hrest.
      apply IH in Hrest as [Hok' Hus]; [|clear Hrest|done|].
      * split; [done|]. intros id. rewrite Hus. simpl. csimpl. destruct (decide (id = u_ID u)) as [->|Hne].
        -- rewrite lookup_delete_eq. rewrite (decide_True (P := u_ID u ∈ _ :: _ ∧ _)) by (split; [by left|done]).
           by case_decide.
        -- rewrite lookup_delete_ne by done. apply decide_ext. rewrite elem_of_cons. naive_solver.
      * destruct Hok as [Hus Hsv]. unfold User_GetEmail in Hem. split; simpl.
        -- intros id v [Hne Hv]%lookup_delete_Some. destruct (Hus _ _ Hv) as (Hi & Hr & Hs & He).
           split_and!; [done..| |done]. rewrite Hs, Hem, elem_of_difference, elem_of_singleton.
           split; [|tauto]. intros ?. split; [done|]. intros He'. apply Hne. symmetry. apply fmt_d_inj; [done| |done].
           by destruct (Hus _ _ Hu) as (_ & ? & _).
        -- intros em. rewrite Hem, elem_of_difference, elem_of_singleton. intros [Hs Hne].
           destruct (Hsv _ Hs) as (id & Hsome & ->). exists id. split; [|done].
           rewrite lookup_delete_ne; [done|]. by intros <-.
      * intros v Hv. simpl. rewrite lookup_delete_ne; [apply Hin; by right|]. intros He. apply Hn. rewrite He.
        by apply list_elem_of_fmap_2.
Qed.

(** *** A pool already synchronised makes no call, and calls for one tag leave the others alone *)

Lemma store_same u up : users up !! u_ID u = Some u → store_user u up = up.
Proof. intros Hu. destruct up. unfold store_user, set_users. simpl in *. by rewrite insert_id. Qed.

Lemma sync_user_noop tag nu u up im :
  users up !! u_ID nu = Some u → user_synced nu u → sync_user build_ok tag nu up im = (up, im, None).
Proof.
  intros Hu (Hid & Heq & Hr). unfold sync_user, UserPool_GetUser. rewrite Hu, Heq. simpl.
  pose proof Heq as (_ & He & _)%Equal_iff. rewrite He, Hr. destruct (u_Enable nu); simpl; by rewrite store_same by by rewrite Hid.
Qed.

Lemma sync_users_noop tag resp up im :
  (∀ nu, nu ∈ resp → ∃ u, users up !! u_ID nu = Some u ∧ user_synced nu u) →
  sync_users build_ok tag resp up im = (up, im, None).
Proof.
  induction resp as [|nu resp IH]; intros Hin; [done|]. cbn [sync_users].
  destruct (Hin nu ltac:(by left)) as (u & Hu & Hs). rewrite (sync_user_noop tag nu u) by done.
  apply IH. intros nu' Hnu'. apply Hin. by right.
Qed.

Lemma drop_users_noop tag userM order up im :
  Forall (λ u, u_ID u ∈ userM) order → drop_users tag userM order up im = (up, im, None).
Proof. induction 1 as [|u order Hu _ IH]; [done|]. cbn [drop_users]. by rewrite decide_True. Qed.

Lemma add_other up tag tag' u im :
  tag' ≠ tag → im_emails (snd (fst (addInboundUser build_ok up tag u im))) tag' = im_emails im tag'.
Proof.
  intros Hne. unfold addInboundUser. destruct (userManagerFor up im tag); [done|].
  destruct (User_toMemoryUser build_ok u) as [mu|]; [|done]. pose proof (add_spec im tag mu) as Hs.
  destruct (im_AddUser im tag mu) as [im1 [e|]]; destruct Hs as [Hs _]; [destruct (isAlreadyExists e)|]; simpl; auto.
Qed.

Lemma remove_other up tag tag' u im :
  tag' ≠ tag → im_emails (snd (fst (removeInboundUser up tag u im))) tag' = im_emails im tag'.
Proof.
  intros Hne. unfold removeInboundUser. destruct (userManagerFor up im tag); [done|].
  pose proof (remove_spec im tag (User_GetEmail u)) as Hs.
  destruct (im_RemoveUser im tag _) as [im1 [e|]]; destruct Hs as [Hs _]; [destruct (isNotFound e)|]; simpl; auto.
Qed.

Lemma sync_user_other tag tag' nu up im :
  tag' ≠ tag → im_emails (snd (fst (sync_user build_ok tag nu up im))) tag' = im_emails im tag'.
Proof.
  intros Hne. unfold sync_user, UserPool_GetUser. destruct (users up !! u_ID nu) as [u|].
  - set (st := if negb (User_Equal u nu) then _ else _).
    assert (im_emails (snd (fst st)) tag' = im_emails im tag') as Hst.
    { subst st. destruct (negb (User_Equal u nu)); [|done]. cbv zeta. destruct (u_running _); [|done].
      by apply remove_other. }
    destruct st as [[u1 im1] [e|]]; simpl in *; [done|]. destruct (u_Enable u1 && negb (u_running u1)); [|done].
    pose proof (add_other up tag tag' u1 im1 Hne) as Ha.
    destruct (addInboundUser build_ok up tag u1 im1) as [[u2 im2] e2]. simpl in *. congruence.
  - simpl. destruct (u_Enable nu); [|done]. set (up0 := set_users _ up). set (u0 := mkUser _ _ _ _ _ _ _ _ _ _ _ _ _ _).
    pose proof (add_other up0 tag tag' u0 im Hne) as Ha.
    destruct (addInboundUser build_ok up0 tag u0 im) as [[u2 im2] e2]. simpl in *. congruence.
Qed.

Lemma sync_users_other tag tag' resp up im :
  tag' ≠ tag → im_emails (snd (fst (sync_users build_ok tag resp up im))) tag' = im_emails im tag'.
Proof.
  intros Hne. revert up im. induction resp as [|nu resp IH]; intros up im; cbn [sync_users]; [done|].
  pose proof (sync_user_other tag tag' nu up im Hne) as Hs.
  destruct (sync_user build_ok tag nu up im) as [[up1 im1] [e|]]; simpl in *; [done|]. by rewrite IH.
Qed.

Lemma drop_users_other tag tag' userM order up im :
  tag' ≠ tag → im_emails (snd (fst (drop_users tag userM order up im))) tag' = im_emails im tag'.
Proof.
  intros Hne. revert up im. induction order as [|u order IH]; intros up im; cbn [drop_users]; [done|].
  case_decide; [apply IH|]. pose proof (remove_other up tag tag' u im Hne) as Hr.
  destruct (removeInboundUser up tag u im) as [[u1 im1] [e|]]; simpl in *; [done|]. by rewrite IH.
Qed.

(** The enumeration [GetAllUsers] gives of a pool. *)
Definition enumerates (order : gmap Z User → list User) : Prop := ∀ m, order m ≡ₚ (map_to_list m).*2.

Lemma enumerates_users order tag up im :
  enumerates order → pool_ok tag up im →
  NoDup (u_ID <$> order (users up)) ∧ ∀ u, u ∈ order (users up) ↔ users up !! u_ID u = Some u.
Proof.
  intros Hord [Hu _].
  assert (Hids : u_ID <$> (map_to_list (users up)).*2 = (map_to_list (users up)).*1).
  { rewrite <- list_fmap_compose. apply list_fmap_ext. intros i [id u] Hi%list_elem_of_lookup_2%elem_of_map_to_list.
    simpl. by destruct (Hu _ _ Hi). }
  split.
  - rewrite (Hord (users up)), Hids. apply NoDup_fst_map_to_list.
  - intros u. rewrite (Hord (users up)), list_elem_of_fmap. split.
    + intros ([id v] & -> & Hv%elem_of_map_to_list). simpl. by destruct (Hu _ _ Hv) as [-> _].
    + intros Hv. exists (u_ID u, u). split; [done|]. by apply elem_of_map_to_list.
Qed.

Lemma sync_ok tag resp order up im up' im' :
  pool_ok tag up im → Forall (λ nu, in_int64 (u_ID nu)) resp → NoDup (u_ID <$> resp) → enumerates order →
  UserPool_syncUserConfigsFromServer build_ok tag (inl resp) order up im = (up', im', None) →
  pool_ok tag up' im' ∧ dom (users up') = list_to_set (u_ID <$> resp) ∧
  (∀ nu, nu ∈ resp → ∃ u, users up' !! u_ID nu = Some u ∧ user_synced nu u).
Proof.
  intros Hok Hids Hnd Hord. unfold UserPool_syncUserConfigsFromServer.
  destruct (sync_users build_ok tag resp up im) as [[up1 im1] [e|]] eqn:Hs; [done|].
  apply sync_users_ok in Hs as (Hok1 & Hin & Hout); [|done..].
  destruct (enumerates_users order tag up1 im1 Hord Hok1) as [Hnd1 Hel].
  intros Hd. apply drop_users_ok in Hd as [Hok' Hus]; [|done..|]; [|intros; by apply Hel].
  assert (Hkeep : ∀ nu, nu ∈ resp → users up' !! u_ID nu = users up1 !! u_ID nu).
  { intros nu Hnu. rewrite Hus, decide_False; [done|]. intros [_ Hn]. apply Hn. by apply list_elem_of_fmap_2. }
  split_and!; [done| |].
  - apply set_eq. intros id. rewrite elem_of_dom, elem_of_list_to_set. split.
    + intros [u Hu]. rewrite Hus in Hu. case_decide as Hd; [done|]. apply dec_stable. intros Hn. apply Hd.
      split; [|done]. destruct (pk_users _ _ _ Hok1 _ _ Hu) as (Hid & _). rewrite <- Hid.
      apply list_elem_of_fmap_2, Hel. by rewrite Hid.
    + intros (nu & -> & Hnu)%list_elem_of_fmap. destruct (Hin nu Hnu) as (u & Hu & _). rewrite Hkeep by done. by eexists.
  - intros nu Hnu. rewrite Hkeep by done. by apply Hin.
Qed.

(** ** Theorems *)


(** A removal that fails is never retried: the pool has already taken over the panel's
    data, so the next synchronisation finds the user unchanged; it succeeds without touching
    the inbound, and the user the panel disabled stays running for good. *)
Theorem failed_remove_sticks (tag : string) (nu u u1 : User) (up : UserPool) (im im1 : IM) (e : error)
    (Hu : users up !! u_ID nu = Some u) (Hid : u_ID u = u_ID nu) (Hrunning : u_running u = true)
    (Hdisabled : u_Enable nu = false) (Hchanged : u_Enable u = true)
    (Hfail : removeInboundUser up tag (User_UpdateFromServer nu u) im = (u1, im1, Some e)) :
  ∃ up1, sync_users build_ok tag [nu] up im = (up1, im1, Some e) ∧
    ∀ im2, sync_users build_ok tag [nu] up1 im2 = (up1, im2, None) ∧
      ∃ u', users up1 !! u_ID nu = Some u' ∧ u_running u' = true ∧ u_Enable u' = false.
Proof.
  pose proof Hfail as [-> _]%remove_err. set (u' := User_UpdateFromServer nu u) in *.
  assert (u_ID u' = u_ID nu) as Hid' by done.
  exists (store_user u' up). split.
  - cbn [sync_users]. unfold sync_user, UserPool_GetUser. rewrite Hu.
    assert (User_Equal u nu = false) as ->.
    { apply not_true_is_false. rewrite Equal_iff. intros (_ & He & _). congruence. }
    simpl (negb _). cbv iota zeta. fold u'. assert (u_running u' = true) as -> by done. by rewrite Hfail.
  - intros im2. assert (users (store_user u' up) !! u_ID nu = Some u') as Hlk.
    { unfold store_user. simpl. rewrite Hid. by rewrite lookup_insert_eq. }
    split; [|exists u'; split_and!; [exact Hlk|exact Hrunning|exact Hdisabled]].
    cbn [sync_users]. unfold sync_user, UserPool_GetUser. rewrite Hlk.
    rewrite (Equal_UpdateFromServer nu u : User_Equal u' nu = true). simpl (negb true). cbv iota.
    assert (u_Enable u' = false) as -> by exact Hdisabled. simpl (false && _). cbv iota.
    by rewrite store_same by by rewrite Hid'.
Qed.

(** With two proxy inbounds only the first is ever fed: after the first tag's pass every
    listed user is in the pool with its final flags, so the second tag's pass makes no call
    at all and the second inbound serves whom it served before, namely nobody new. *)
Theorem second_tag_unserved (tag tag2 : string) (resp : list User) (order : gmap Z User → list User)
    (up up' : UserPool) (im im' : IM)
    (Hok : pool_ok tag up im) (Hids : Forall (λ nu, in_int64 (u_ID nu)) resp) (Hnd : NoDup (u_ID <$> resp))
    (Hord : enumerates order) (Hne : tag2 ≠ tag)
    (Hrun : sync_tags build_ok [tag; tag2] (λ _, inl resp) order up im = (up', im', None)) :
  im_emails im' tag2 = im_emails im tag2.
Proof.
  cbn [sync_tags] in Hrun.
  destruct (UserPool_syncUserConfigsFromServer build_ok tag (inl resp) order up im) as [[up1 im1] [e|]] eqn:H1; [done|].
  assert (im_emails im1 tag2 = im_emails im tag2) as <-.
  { unfold UserPool_syncUserConfigsFromServer in H1. pose proof (sync_users_other tag tag2 resp up im Hne) as Hs.
    destruct (sync_users build_ok tag resp up im) as [[up0 im0] [e|]]; [done|].
    pose proof (drop_users_other tag tag2 (u_ID <$> resp) (order (users up0)) up0 im0 Hne) as Hd.
    rewrite H1 in Hd. simpl in *. congruence. }
  apply sync_ok in H1 as (Hok1 & Hdom & Hin); [|done..].
  unfold UserPool_syncUserConfigsFromServer in Hrun. rewrite sync_users_noop in Hrun by done.
  rewrite drop_users_noop in Hrun; [by injection Hrun as _ ->|].
  apply Forall_forall. intros u Hu%(enumerates_users order tag up1 im1 Hord Hok1).
  assert (u_ID u ∈ dom (users up1)) as Hd by (apply elem_of_dom; by eexists).
  by rewrite Hdom, elem_of_list_to_set in Hd.
Qed.
End SyncLemmas.

(** ** A concrete inbound manager

    It keeps a set of emails per tag; while [down] it refuses every call. *)
Record table_im := mkTable { table : gmap string (gset string); down : bool }.

Definition table_emails (im : table_im) (tag : string) : gset string := default ∅ (table im !! tag).

#[global] Instance table_manager : InboundManager table_im := {
  im_emails := table_emails;
  im_handler := λ _ _, None;
  im_AddUser := λ im tag mu,
    if down im then (im, Some (Errorf "inbound closed"))
    else if decide (mu_Email mu ∈ table_emails im tag) then (im, Some (Errorf "User already exists."))
    else (mkTable (<[tag := {[mu_Email mu]} ∪ table_emails im tag]> (table im)) false, None);
  im_RemoveUser := λ im tag email,
    if down im then (im, Some (Errorf "inbound closed"))
    else if decide (email ∈ table_emails im tag)
    then (mkTable (<[tag := table_emails im tag ∖ {[email]}]> (table im)) false, None)
    else (im, Some (Errorf "User not found.")) }.

#[global] Instance table_manager_laws : InboundManagerLaws table_im.
Proof.
  split.
  - intros [m []] tag mu; simpl; [by split|]. case_decide as Hin; simpl; [by split|].
    split; [|by unfold table_emails; simpl; rewrite lookup_insert_eq].
    intros tag' Hne. unfold table_emails. simpl. by rewrite lookup_insert_ne.
  - intros [m []] tag email; simpl; [by split|]. case_decide as Hin; simpl; [|by split].
    split; [|by unfold table_emails; simpl; rewrite lookup_insert_eq].
    intros tag' Hne. unfold table_emails. simpl. by rewrite lookup_insert_ne.
Qed.

Definition panel_user (id : Z) (enable : bool) : User :=
  mkUser false id "" "secret" "" 0 enable 0 0 0 0 ProtocolTrojan [] ∅.

Definition empty_pool : UserPool := mkPool ∅ [XrayTrojanProxyTag; XrayVlessProxyTag] None true.
Definition empty_table : table_im := mkTable ∅ false.
Definition all_users (m : gmap Z User) : list User := (map_to_list m).*2.

Lemma empty_pool_ok tag : pool_ok tag empty_pool empty_table.
Proof. split; [apply map_Forall_empty|]. intros em Hem. simpl in Hem. unfold table_emails in Hem. simpl in Hem. rewrite lookup_empty in Hem. simpl in Hem. set_solver. Qed.

Lemma all_users_enumerates : enumerates all_users.
Proof. intros m. done. Qed.

Lemma panel_ids_ok : Forall (λ nu, in_int64 (u_ID nu)) [panel_user 7 true; panel_user 8 false].
Proof. repeat constructor; vm_compute; discriminate. Qed.

Lemma panel_ids_nodup : NoDup (u_ID <$> [panel_user 7 true; panel_user 8 false]).
Proof. apply (bool_decide_unpack _). vm_compute. done. Qed.


Definition served_pool : UserPool := set_users {[7 := set_running true (panel_user 7 true)]} empty_pool.
Definition down_table : table_im := mkTable {[XrayTrojanProxyTag := {["7"]}]} true.

Lemma failed_remove_sticks_witness :
  ∃ up1, sync_users (λ _, true) XrayTrojanProxyTag [panel_user 7 false] served_pool down_table =
      (up1, down_table, Some (Wrapf "remove user from inbound: " (Errorf "inbound closed"))) ∧
    ∀ im2, sync_users (λ _, true) XrayTrojanProxyTag [panel_user 7 false] up1 im2 = (up1, im2, None) ∧
      ∃ u', users up1 !! u_ID (panel_user 7 false) = Some u' ∧ u_running u' = true ∧ u_Enable u' = false.
Proof.
  apply (failed_remove_sticks (λ _, true) XrayTrojanProxyTag (panel_user 7 false)
    (set_running true (panel_user 7 true)) (set_running true (panel_user 7 false)));
    [reflexivity|reflexivity|reflexivity|reflexivity|reflexivity|vm_compute; reflexivity].
Defined.

Lemma second_tag_unserved_witness :
  let '(_, im', err) := sync_tags (λ _, true) [XrayTrojanProxyTag; XrayVlessProxyTag]
    (λ _, inl [panel_user 7 true; panel_user 8 false]) all_users empty_pool empty_table in
  err = None ∧ im_emails im' XrayVlessProxyTag = ∅.
Proof.
  destruct (sync_tags (λ _, true) [XrayTrojanProxyTag; XrayVlessProxyTag]
    (λ _, inl [panel_user 7 true; panel_user 8 false]) all_users empty_pool empty_table) as [[up' im'] err] eqn:E.
  assert (err = None) as -> by (change err with (snd (up', im', err)); rewrite <- E; vm_compute; reflexivity).
  split; [reflexivity|].
  apply (second_tag_unserved (λ _, true) XrayTrojanProxyTag XrayVlessProxyTag _ all_users empty_pool up' empty_table im'
    (empty_pool_ok _) panel_ids_ok panel_ids_nodup all_users_enumerates ltac:(discriminate) E).
Defined.

(** ** Counters and recent addresses, over any history of a user *)

Inductive user_event := EvUpload (n : Z) | EvDownload (n : Z) | EvIP (ip : string) | EvSnapshot.

(** The snapshots taken, oldest first, and the user afterwards. *)
Fixpoint run_events (evs : list user_event) (u : User) : list (Z * Z * list string) * User :=
  match evs with
  | [] => ([], u)
  | EvUpload n :: evs => run_events evs (User_AddUploadTraffic n u)
  | EvDownload n :: evs => run_events evs (User_AddDownloadTraffic n u)
  | EvIP ip :: evs => run_events evs (User_RecordIP ip u)
  | EvSnapshot :: evs =>
      let (snap, u) := User_snapshotAndReset u in
      let (snaps, u) := run_events evs u in (snap :: snaps, u)
  end.

Definition uploaded (evs : list user_event) : Z :=
  sum_Z ((λ e, match e with EvUpload n => n | _ => 0 end) <$> evs).
Definition downloaded (evs : list user_event) : Z :=
  sum_Z ((λ e, match e with EvDownload n => n | _ => 0 end) <$> evs).

(** The list and its membership index agree, within the cap, without empty entries. *)
Record ips_ok (u : User) : Prop := {
  io_nodup : NoDup (recentIPs u);
  io_index : recentIPSet u = list_to_set (recentIPs u);
  io_cap : (length (recentIPs u) ≤ maxRecentIPsPerUser)%nat;
  io_nonempty : "" ∉ recentIPs u }.

Lemma RecordIP_ok ip u : ips_ok u → ips_ok (User_RecordIP ip u).
Proof.
  intros [Hnd Hidx Hcap Hne]. unfold User_RecordIP. case_decide as He; [done|]. case_decide as Hin; [done|].
  rewrite Hidx, elem_of_list_to_set in Hin.
  assert (Hnd' : NoDup (recentIPs u ++ [ip])).
  { apply NoDup_app. split_and!; [done| |apply NoDup_singleton]. intros x Hx ->%list_elem_of_singleton. done. }
  assert (Hne' : "" ∉ recentIPs u ++ [ip]).
  { rewrite not_elem_of_app, list_elem_of_singleton. split; [done|congruence]. }
  case_decide as Hlen.
  - destruct (recentIPs u) as [|old rest] eqn:Eq; [simpl in Hlen; unfold maxRecentIPsPerUser in Hlen; lia|].
    cbn [app] in *. apply NoDup_cons in Hnd' as [Hold Hnd'].
    split; simpl.
    + done.
    + rewrite Hidx. apply not_elem_of_app in Hold as [Ho1 Ho2]. rewrite list_to_set_app_L. simpl.
      apply set_eq. intros x. rewrite elem_of_difference, !elem_of_union, !elem_of_singleton, elem_of_list_to_set.
      rewrite list_elem_of_singleton in Ho2. set_solver.
    + rewrite length_app in *. simpl in *. lia.
    + set_solver.
  - split; simpl; [done| |lia|done]. rewrite Hidx, list_to_set_app_L. simpl. set_solver.
Qed.

(** One recording, as the FIFO of the comment on [maxRecentIPsPerUser]. *)
Lemma RecordIP_fifo ip u :
  ips_ok u → ip ≠ "" → ip ∉ recentIPs u →
  recentIPs (User_RecordIP ip u) =
    drop (S (length (recentIPs u)) - maxRecentIPsPerUser) (recentIPs u ++ [ip]).
Proof.
  intros [Hnd Hidx Hcap _] He Hin. unfold User_RecordIP. rewrite decide_False by done.
  rewrite decide_False by by rewrite Hidx, elem_of_list_to_set. unfold maxRecentIPsPerUser in *.
  case_decide as Hlen; rewrite length_app in Hlen; simpl in Hlen.
  - replace (S (length (recentIPs u)) - 10)%nat with 1%nat by lia. destruct (recentIPs u); [simpl in Hlen; lia|done].
  - replace (S (length (recentIPs u)) - 10)%nat with 0%nat by lia. done.
Qed.

Lemma RecordIP_counters ip u :
  UploadTraffic (User_RecordIP ip u) = UploadTraffic u ∧ UploadTotal (User_RecordIP ip u) = UploadTotal u ∧
  DownloadTraffic (User_RecordIP ip u) = DownloadTraffic u ∧ DownloadTotal (User_RecordIP ip u) = DownloadTotal u.
Proof. unfold User_RecordIP. repeat case_match; done. Qed.

Lemma run_events_traffic evs u :
  let (snaps, u') := run_events evs u in
  (in_int64 (UploadTotal u) → UploadTotal u' = wrap64 (UploadTotal u + uploaded evs)) ∧
  (in_int64 (DownloadTotal u) → DownloadTotal u' = wrap64 (DownloadTotal u + downloaded evs)) ∧
  wrap64 (sum_Z ((λ s, fst (fst s)) <$> snaps) + UploadTraffic u') = wrap64 (UploadTraffic u + uploaded evs) ∧
  wrap64 (sum_Z ((λ s, snd (fst s)) <$> snaps) + DownloadTraffic u') = wrap64 (DownloadTraffic u + downloaded evs) ∧
  (ips_ok u → ips_ok u' ∧ Forall (λ s, NoDup (snd s) ∧ (length (snd s) ≤ maxRecentIPsPerUser)%nat) snaps).
Proof.
  revert u. induction evs as [|e evs IH]; intros u; cbn [run_events].
  - unfold uploaded, downloaded. csimpl. rewrite !Z.add_0_r.
    split_and!; try done; intros; by rewrite wrap64_id.
  - unfold uploaded, downloaded. csimpl. fold (uploaded evs) (downloaded evs).
    destruct e as [n|n|ip|]; cbn -[User_RecordIP].
    + specialize (IH (User_AddUploadTraffic n u)). destruct (run_events evs _) as [snaps u'].
      destruct IH as (H1 & H2 & H3 & H4 & H5). simpl in *. split_and!.
      * intros _. rewrite H1 by apply wrap64_range. by rewrite wrap64_wrap64_add, Z.add_assoc.
      * done.
      * by rewrite H3, wrap64_wrap64_add, Z.add_assoc.
      * done.
      * intros Hok. apply H5. by destruct Hok.
    + specialize (IH (User_AddDownloadTraffic n u)). destruct (run_events evs _) as [snaps u'].
      destruct IH as (H1 & H2 & H3 & H4 & H5). simpl in *. split_and!.
      * done.
      * intros _. rewrite H2 by apply wrap64_range. by rewrite wrap64_wrap64_add, Z.add_assoc.
      * done.
      * by rewrite H4, wrap64_wrap64_add, Z.add_assoc.
      * intros Hok. apply H5. by destruct Hok.
    + specialize (IH (User_RecordIP ip u)). destruct (RecordIP_counters ip u) as (E1 & E2 & E3 & E4).
      destruct (run_events evs _) as [snaps u']. rewrite E1, E2, E3, E4 in IH.
      destruct IH as (H1 & H2 & H3 & H4 & H5). split_and!; [done..|]. intros Hok. by apply H5, RecordIP_ok.
    + set (u0 := set_ips _ _ _). specialize (IH u0). destruct (run_events evs u0) as [snaps u'].
      destruct IH as (H1 & H2 & H3 & H4 & H5). csimpl. subst u0. simpl in *. split_and!.
      * done.
      * done.
      * rewrite <- Z.add_assoc, Z.add_comm, <- (wrap64_wrap64_add _ (UploadTraffic u)), H3, wrap64_wrap64_add.
        f_equal. lia.
      * rewrite <- Z.add_assoc, Z.add_comm, <- (wrap64_wrap64_add _ (DownloadTraffic u)), H4, wrap64_wrap64_add.
        f_equal. lia.
      * intros [Hnd Hidx Hcap Hne]. destruct H5 as [Hok Hall].
        { split; simpl; [constructor|done|lia|apply not_elem_of_nil]. }
        split; [done|]. by constructor.
Qed.

(** [C20] No byte is lost or counted twice between synchronisations: for any history of a new
    user, the snapshots and what is still in the counter add up to the bytes recorded,
    which is also what the since-boot totals show (as int64); and every snapshot's address
    list is duplicate-free and within the cap. *)
Theorem traffic_conserved (evs : list user_event) (u : User)
    (Hnew : UploadTraffic u = 0 ∧ DownloadTraffic u = 0 ∧ UploadTotal u = 0 ∧ DownloadTotal u = 0)
    (Hips : recentIPs u = [] ∧ recentIPSet u = ∅) :
  let (snaps, u') := run_events evs u in
  UploadTotal u' = wrap64 (uploaded evs) ∧
  wrap64 (sum_Z ((λ s, fst (fst s)) <$> snaps) + UploadTraffic u') = UploadTotal u' ∧
  DownloadTotal u' = wrap64 (downloaded evs) ∧
  wrap64 (sum_Z ((λ s, snd (fst s)) <$> snaps) + DownloadTraffic u') = DownloadTotal u' ∧
  ips_ok u' ∧ Forall (λ s, NoDup (snd s) ∧ (length (snd s) ≤ maxRecentIPsPerUser)%nat) snaps.
Proof.
  pose proof (run_events_traffic evs u) as H. destruct (run_events evs u) as [snaps u'].
  destruct Hnew as (E1 & E2 & E3 & E4), Hips as [E5 E6]. rewrite E1, E2, E3, E4 in H.
  destruct H as (H1 & H2 & H3 & H4 & H5). rewrite !Z.add_0_l in *.
  rewrite H1, H2 by apply in_int64_0. split_and!; [done..| |]; apply H5;
    (split; rewrite ?E5, ?E6; simpl; [constructor|done|lia|apply not_elem_of_nil]).
Qed.

Lemma traffic_conserved_witness :
  let (snaps, u') := run_events [EvUpload 5; EvIP "a"; EvSnapshot; EvUpload 7; EvIP "a"; EvDownload 1] (panel_user 7 true) in
  UploadTotal u' = 12 ∧ sum_Z ((λ s, fst (fst s)) <$> snaps) = 5 ∧ recentIPs u' = ["a"].
Proof.
  pose proof (traffic_conserved [EvUpload 5; EvIP "a"; EvSnapshot; EvUpload 7; EvIP "a"; EvDownload 1] (panel_user 7 true)
    ltac:(repeat split) ltac:(split; reflexivity)) as H.
  destruct (run_events _ (panel_user 7 true)) as [snaps u'] eqn:E.
  destruct H as (H & _). split; [rewrite H; reflexivity|].
  vm_compute in E. injection E as <- <-. split; reflexivity.
Defined.

(** ** The traffic report *)

Lemma merge_loop_spec seen ips live :
  seen = list_to_set ips → NoDup ips →
  NoDup (merge_loop seen ips live) ∧
  (∃ more, merge_loop seen ips live = ips ++ more) ∧
  ∀ ip, ip ∈ merge_loop seen ips live ↔ ip ∈ ips ∨ ip ≠ "" ∧ ip ∈ ci_SourceIP <$> live.
Proof.
  revert seen ips. induction live as [|c live IH]; intros seen ips -> Hnd; csimpl; cbn [merge_loop].
  - split_and!; [done|exists []; by rewrite app_nil_r|]. intros ip. split; [by left|].
    intros [|[_ ?%elem_of_nil]]; done.
  - case_decide as He; [|case_decide as Hin].
    + destruct (IH _ ips eq_refl Hnd) as (H1 & H2 & H3). split_and!; [done..|]. intros ip.
      rewrite H3, elem_of_cons. rewrite He. naive_solver.
    + destruct (IH _ ips eq_refl Hnd) as (H1 & H2 & H3). split_and!; [done..|]. intros ip.
      rewrite H3, elem_of_cons. rewrite elem_of_list_to_set in Hin. naive_solver.
    + rewrite elem_of_list_to_set in Hin.
      destruct (IH ({[ci_SourceIP c]} ∪ list_to_set ips) (ips ++ [ci_SourceIP c])) as (H1 & [more H2] & H3).
      * rewrite list_to_set_app_L. simpl. set_solver.
      * apply NoDup_app. split_and!; [done| |apply NoDup_singleton]. intros x Hx ->%list_elem_of_singleton. done.
      * split_and!; [done| |].
        -- exists (ci_SourceIP c :: more). by rewrite H2, <- (assoc app).
        -- intros ip. rewrite H3, elem_of_app, list_elem_of_singleton, elem_of_cons. naive_solver.
Qed.

Lemma store_all_users order up id :
  NoDup (u_ID <$> order) →
  users (foldl (λ up u, store_user u up) up order) !! id =
    match list_find (λ u, u_ID u = id) order with Some (_, u) => Some u | None => users up !! id end.
Proof.
  revert up. induction order as [|u order IH]; intros up; [done|].
  csimpl. intros [Hn Hnd]%NoDup_cons. rewrite IH by done. cbn [list_find]. case_decide as Hu.
  - subst id. destruct (list_find (λ v, u_ID v = u_ID u) order) as [[i v]|] eqn:Hf.
    + apply list_find_Some in Hf as (Hi & Hv & _). exfalso. apply Hn. rewrite <- Hv.
      by apply list_elem_of_fmap_2, list_elem_of_lookup_2 with i.
    + simpl. by rewrite lookup_insert_eq.
  - destruct (list_find (λ v, u_ID v = id) order) as [[i v]|]; simpl; [done|]. by rewrite lookup_insert_ne.
Qed.

Lemma user_traffic_Some tr u ut :
  fst (user_traffic tr u) = Some ut →
  ut_ID ut = u_ID u ∧ (UploadTraffic u ≠ 0 ∨ DownloadTraffic u ≠ 0) ∧
  ut_Upload ut = UploadTraffic u ∧ ut_Download ut = DownloadTraffic u ∧
  match tr with
  | None => ut_IPList ut = recentIPs u ∧ ut_TcpCount ut = 0
  | Some t => ut_TcpCount ut = connTracker_CountTCPByUser (u_ID u) t ∧
              ut_IPList ut = mergeLiveIPs (recentIPs u) (connTracker_List (u_ID u) t)
  end.
Proof.
  unfold user_traffic. simpl. case_decide as Hz; [done|]. destruct tr; intros [= <-]; simpl.
  - split_and!; try done. destruct (decide (UploadTraffic u = 0)); [|by left]. right. tauto.
  - split_and!; try done. destruct (decide (UploadTraffic u = 0)); [|by left]. right. tauto.
Qed.

(** What a traffic synchronisation reports: exactly the users with traffic since the
    last one, with their byte counts, their live TCP connections and a duplicate-free
    address list, the recorded addresses first and then the sources of their live
    connections; every counter and list of the pool is reset, whatever the request's
    result, so a failed request loses the cycle. *)
Theorem syncTraffic_spec (order : list User) (post : option error) (up : UserPool)
    (Hids : map_Forall (λ id u, u_ID u = id ∧ ips_ok u) (users up))
    (Hord : order ≡ₚ (map_to_list (users up)).*2) :
  let '(up', data, err) := UserPool_syncTrafficToServer order post up in
  err = post ∧
  (∀ id u, users up !! id = Some u → users up' !! id = Some (snd (User_snapshotAndReset u))) ∧
  (∀ ut, ut ∈ data → ∃ u, users up !! ut_ID ut = Some u ∧
     (UploadTraffic u ≠ 0 ∨ DownloadTraffic u ≠ 0) ∧
     ut_Upload ut = UploadTraffic u ∧ ut_Download ut = DownloadTraffic u ∧
     match up_tracker up with
     | None => ut_IPList ut = recentIPs u ∧ ut_TcpCount ut = 0
     | Some t =>
         ut_TcpCount ut = connTracker_CountTCPByUser (u_ID u) t ∧ NoDup (ut_IPList ut) ∧
         (∃ more, ut_IPList ut = recentIPs u ++ more) ∧
         ∀ ip, ip ∈ ut_IPList ut ↔
           ip ∈ recentIPs u ∨ ip ≠ "" ∧ ip ∈ ci_SourceIP <$> connTracker_List (u_ID u) t
     end) ∧
  (∀ id u, users up !! id = Some u → UploadTraffic u ≠ 0 ∨ DownloadTraffic u ≠ 0 → id ∈ ut_ID <$> data).
Proof.
  assert (Hin : ∀ u, u ∈ order ↔ users up !! u_ID u = Some u).
  { intros u. rewrite Hord, list_elem_of_fmap. split.
    - intros ([id v] & -> & Hv%elem_of_map_to_list). simpl. by destruct (Hids _ _ Hv) as [-> _].
    - intros Hv. exists (u_ID u, u). split; [done|]. by apply elem_of_map_to_list. }
  assert (Hnd : NoDup (u_ID <$> order)).
  { rewrite Hord. assert (u_ID <$> (map_to_list (users up)).*2 = (map_to_list (users up)).*1) as ->.
    { rewrite <- list_fmap_compose. apply list_fmap_ext. intros i [id u] Hi%list_elem_of_lookup_2%elem_of_map_to_list.
      simpl. by destruct (Hids _ _ Hi). }
    apply NoDup_fst_map_to_list. }
  assert (Hsnd : ∀ u, snd (user_traffic (up_tracker up) u) = snd (User_snapshotAndReset u)).
  { intros u. unfold user_traffic. simpl. case_decide; [done|]. by destruct (up_tracker up). }
  assert (Hdata : ∀ ut, ut ∈ omap id (user_traffic (up_tracker up) <$> order).*1 ↔
    ∃ u, u ∈ order ∧ fst (user_traffic (up_tracker up) u) = Some ut).
  { intros ut. rewrite list_elem_of_omap. split.
    - intros (o & Ho & Heq). apply list_elem_of_fmap in Ho as (p & -> & (u & -> & Hu)%list_elem_of_fmap). eauto.
    - intros (u & Hu & Heq). exists (Some ut). split; [|done]. rewrite <- Heq.
      by do 2 apply list_elem_of_fmap_2. }
  unfold UserPool_syncTrafficToServer. split_and!; [done| |clear Hsnd|].
  - intros id u Hu. pose proof (Hids _ _ Hu) as [Hid _].
    assert (Hids' : u_ID <$> (user_traffic (up_tracker up) <$> order).*2 = u_ID <$> order).
    { rewrite <- !list_fmap_compose. apply list_fmap_ext. intros i v _. simpl. by rewrite Hsnd. }
    rewrite store_all_users by by rewrite Hids'.
    destruct (list_find _ _) as [[i v]|] eqn:Hf.
    + apply list_find_Some in Hf as (Hi & Hv & _).
      rewrite !list_lookup_fmap in Hi. destruct (order !! i) as [w|] eqn:Hw; [|done]. simpl in Hi. injection Hi as <-.
      rewrite Hsnd in *. simpl in Hv. apply list_elem_of_lookup_2, Hin in Hw. congruence.
    + apply list_find_None in Hf. exfalso. rewrite Forall_forall in Hf.
      apply (Hf (snd (user_traffic (up_tracker up) u))); [|by rewrite Hsnd].
      do 2 apply list_elem_of_fmap_2. apply Hin. by rewrite Hid.
  - intros ut (u & Hu%Hin & Hut)%Hdata. destruct (user_traffic_Some _ _ _ Hut) as (Hid & Hnz & Hup & Hdown & Hrest).
    exists u. rewrite Hid. split_and!; [done..|]. destruct (up_tracker up); [|done].
    destruct Hrest as [Hcnt Hlist]. destruct (Hids _ _ Hu) as [_ [Hndi _ _ _]].
    destruct (merge_loop_spec (list_to_set (recentIPs u)) (recentIPs u) (connTracker_List (u_ID u) c) eq_refl Hndi) as (H1 & H2 & H3).
    unfold mergeLiveIPs in Hlist. rewrite <- Hlist in *. done.
  - intros id u Hu Hnz. destruct (Hids _ _ Hu) as [Hid _].
    assert (∃ ut, fst (user_traffic (up_tracker up) u) = Some ut ∧ ut_ID ut = u_ID u) as (ut & Hut & Hutid).
    { unfold user_traffic. simpl. rewrite decide_False by tauto. destruct (up_tracker up); by eexists. }
    apply list_elem_of_fmap. exists ut. split; [congruence|]. apply Hdata. exists u. split; [|done]. apply Hin. by rewrite Hid.
Qed.

Lemma syncTraffic_spec_witness :
  let '(up', data, err) := UserPool_syncTrafficToServer [User_AddUploadTraffic 9 (panel_user 7 true)]
    (Some (Errorf "503")) (set_users {[7 := User_AddUploadTraffic 9 (panel_user 7 true)]} empty_pool) in
  err = Some (Errorf "503") ∧ ∃ u, users up' !! 7 = Some u ∧ UploadTraffic u = 0.
Proof.
  pose proof (syncTraffic_spec [User_AddUploadTraffic 9 (panel_user 7 true)] (Some (Errorf "503"))
    (set_users {[7 := User_AddUploadTraffic 9 (panel_user 7 true)]} empty_pool)) as H.
  destruct (UserPool_syncTrafficToServer [User_AddUploadTraffic 9 (panel_user 7 true)] (Some (Errorf "503")) _)
    as [[up' data] err].
  destruct H as (H1 & H2 & _).
  - simpl. apply map_Forall_singleton. split; [done|]. split; simpl; [constructor|done|lia|apply not_elem_of_nil].
  - simpl. by rewrite map_to_list_singleton.
  - split; [exact H1|]. eexists. split; [apply H2; by apply lookup_singleton_eq|done].
Defined.
