(* ===== verification/UserSync.v ===== *)
(** * The user pool's cycle: requests, traffic report, start and stop

    [pkg/http/http.go] and the rest of [pkg/xray/user.go] on top of [UserPool]: the report
    with its bandwidth, [syncOnce], the loop of [Start], [Stop], [GetAllUsers] and
    [GetTotalTraffic].  The retrying client is third-party: it answers a request with an
    error or with a status and a body; a body read into a variable is the decoded value and
    the decoder's error. *)

From S2P Require Import Prelude GoStd Float Sampler ConnTracker UserPool.

(** ** http.go *)

(** What the client returns: [status] is any status the client gives back without retrying. *)
Inductive http_result (A : Type) := Reply (status : Z) (body : A) | RequestFailed (e : error).
Arguments Reply {A} status body.
Arguments RequestFailed {A} e.

(** [body]: the error of reading it to the end. *)
Definition PostJSONWithRetry (encode : option error) (res : http_result (option error)) : option error :=
  match encode with
  | Some err => Some err
  | None => match res with RequestFailed err => Some err | Reply _ read_err => read_err end
  end.

(** The variable that [dataStruct] points to holds [zero] before the call. *)
Definition GetJSONWithRetry {A} (zero : A) (res : http_result (A * option error)) : A * option error :=
  match res with RequestFailed err => (zero, Some err) | Reply _ (v, err) => (v, err) end.

(** ** The traffic report *)

Record SyncTrafficReq := mkTrafficReq {
  Data : list UserTraffic; UploadBandwidth : Z; DownloadBandwidth : Z }.

Definition SyncTrafficReq_GetTotalTraffic (s : SyncTrafficReq) : Z :=
  foldl (λ total u, wrap64 (total + wrap64 (ut_Upload u + ut_Download u))) 0 (Data s).

(** One enumeration of the pool, in the order of the map's iteration. *)
Definition UserPool_GetAllUsers (order : gmap Z User → list User) (up : UserPool) : list User := order (users up).

(** The whole of [syncTrafficToServer]: [io] and [now] are the bandwidth reading. *)
Definition UserPool_pushTraffic (order : gmap Z User → list User) (io : list IOCountersStat + error) (now : Z)
    (post : http_result (option error)) (up : UserPool) (br : bandwidthRecorder) :
    UserPool * bandwidthRecorder * SyncTrafficReq * option error :=
  let '(up, tfs, _) := UserPool_syncTrafficToServer (UserPool_GetAllUsers order up) None up in
  let (sample, br) := bandwidthRecorder_RecordOnce io now br in
  let req := match sample with
             | Ret _ => mkTrafficReq tfs (int64_of_float (bandwidthRecorder_GetUploadBandwidth br))
                                         (int64_of_float (bandwidthRecorder_GetDownloadBandwidth br))
             | _ => mkTrafficReq tfs 0 0
             end in
  (up, br, req, PostJSONWithRetry None post).

Section Cycle.
Context {IM : Type} `{InboundManager IM}.
Variable build_ok : MemoryUser → bool.

(** What the environment answers during one cycle. *)
Record cycle := mkCycle {
  cy_users : string → http_result (list User * option error);
  cy_order : gmap Z User → list User;
  cy_io : list IOCountersStat + error;
  cy_now : Z;
  cy_post : http_result (option error) }.

Definition users_answer (res : http_result (list User * option error)) : list User + error :=
  match GetJSONWithRetry [] res with (_, Some err) => inr err | (us, None) => inl us end.

(** The request is [None] when the cycle ends before it. *)
Definition UserPool_syncOnce (cy : cycle) (up : UserPool) (im : IM) (br : bandwidthRecorder) :
    UserPool * IM * bandwidthRecorder * option SyncTrafficReq * option error :=
  match sync_tags build_ok (up_proxyTags up) (λ tag, users_answer (cy_users cy tag)) (cy_order cy) up im with
  | (up, im, Some err) => (up, im, br, None, Some err)
  | (up, im, None) =>
      let '(up, br, req, err) := UserPool_pushTraffic (cy_order cy) (cy_io cy) (cy_now cy) (cy_post cy) up br in
      (up, im, br, Some req, err)
  end.

(** The goroutine of [Start]: it syncs on every tick until it sees the context that [Stop]
    cancels ([Cancelled]; ticks that are chosen before it in the same [select] still sync).
    The result lists the requests it made. *)
Inductive loop_event := Tick (cy : cycle) | Cancelled.

Fixpoint UserPool_loop (evs : list loop_event) (up : UserPool) (im : IM) (br : bandwidthRecorder) :
    UserPool * IM * bandwidthRecorder * list SyncTrafficReq :=
  match evs with
  | [] | Cancelled :: _ => (up, im, br, [])
  | Tick cy :: evs =>
      let '(up, im, br, req, _) := UserPool_syncOnce cy up im br in
      let '(up, im, br, reqs) := UserPool_loop evs up im br in
      (up, im, br, match req with Some r => r :: reqs | None => reqs end)
  end.

(** [Start] with the cycle it runs itself, and what the goroutine does afterwards. *)
Definition UserPool_Start (first : cycle) (evs : list loop_event) (up : UserPool) (im : IM) (br : bandwidthRecorder) :
    outcome (UserPool * IM * bandwidthRecorder * list SyncTrafficReq) :=
  if negb (up_im_set up) then Err (Errorf "UserPool: inbound manager not set; call SetInboundManager before Start")
  else Ret (UserPool_loop (Tick first :: evs) up im br).

(** [Stop]: the context of the goroutine is cancelled, if [Start] has made one; what is chosen
    after that is up to the goroutine's [select]. *)
Definition UserPool_Stop (started : bool) (before : list loop_event) : list loop_event :=
  if started then before ++ [Cancelled] else before.

(** A stopped pool makes no further request, whatever ticks are still to come. *)
Theorem Stop_ends_cycles (first : cycle) (before after : list loop_event) (up : UserPool) (im : IM) (br : bandwidthRecorder) :
  UserPool_Start first (UserPool_Stop true before ++ after) up im br = UserPool_Start first before up im br.
Proof.
  unfold UserPool_Start, UserPool_Stop. destruct (negb (up_im_set up)); [done|]. f_equal. rewrite <- (assoc app).
  cbn [UserPool_loop]. destruct (UserPool_syncOnce first up im br) as [[[[up1 im1] br1] req] err].
  assert (∀ up im br, UserPool_loop (before ++ [Cancelled] ++ after) up im br = UserPool_loop before up im br) as Heq;
    [|by rewrite Heq].
  clear. induction before as [|[cy|] evs IH]; intros up im br; cbn; [done| |done].
  destruct (UserPool_syncOnce cy up im br) as [[[[up1 im1] br1] req] err]. by rewrite IH.
Qed.

End Cycle.

(** ** Lemmas *)

Lemma total_traffic_sum (l : list UserTraffic) (z : Z) :
  in_int64 z →
  foldl (λ total u, wrap64 (total + wrap64 (ut_Upload u + ut_Download u))) z l =
  wrap64 (z + sum_Z ((λ u, ut_Upload u + ut_Download u) <$> l)).
Proof.
  revert z. induction l as [|u l IH]; intros z Hz; csimpl; [rewrite Z.add_0_r; symmetry; by apply wrap64_id|].
  rewrite IH by apply wrap64_range. rewrite wrap64_wrap64_add, (Z.add_comm z), <- Z.add_assoc, wrap64_wrap64_add.
  f_equal. lia.
Qed.

Definition same_counters (u u' : User) : Prop :=
  u_ID u' = u_ID u ∧ UploadTraffic u' = UploadTraffic u ∧ DownloadTraffic u' = DownloadTraffic u.

(** Every user of [up] has the counters it had in [up0], or none yet. *)
Definition counts_from (up0 up : UserPool) : Prop :=
  map_Forall (λ id u, u_ID u = id ∧
    (UploadTraffic u = 0 ∧ DownloadTraffic u = 0 ∨ ∃ u0, users up0 !! id = Some u0 ∧ same_counters u0 u)) (users up).

Section Counts.
Context {IM : Type} `{InboundManager IM}.
Variable build_ok : MemoryUser → bool.

Lemma same_counters_trans u u1 u2 : same_counters u u1 → same_counters u1 u2 → same_counters u u2.
Proof. unfold same_counters. intuition congruence. Qed.

Lemma add_counters up tag u im u' im' err : addInboundUser build_ok up tag u im = (u', im', err) → same_counters u u'.
Proof.
  unfold addInboundUser. destruct (userManagerFor up im tag); [by intros [= <- _ _]|].
  destruct (User_toMemoryUser build_ok u); [|by intros [= <- _ _]].
  destruct (im_AddUser im tag m) as [im1 [e|]]; [|by intros [= <- _ _]].
  destruct (isAlreadyExists e); by intros [= <- _ _].
Qed.

Lemma remove_counters up tag u im u' im' err : removeInboundUser up tag u im = (u', im', err) → same_counters u u'.
Proof.
  unfold removeInboundUser. destruct (userManagerFor up im tag); [by intros [= <- _ _]|].
  destruct (im_RemoveUser im tag (User_GetEmail u)) as [im1 [e|]]; [|by intros [= <- _ _]].
  destruct (isNotFound e); by intros [= <- _ _].
Qed.

Lemma counts_store up0 up u u1 :
  counts_from up0 up → users up !! u_ID u1 = Some u1 → same_counters u1 u → counts_from up0 (store_user u up).
Proof.
  intros Hc Hu Hs. unfold counts_from, store_user. cbn. apply map_Forall_insert_2; [|done].
  destruct (Hc _ _ Hu) as [_ Hk]. destruct Hs as (Hi & Hup & Hd). split; [done|]. rewrite Hup, Hd, Hi.
  destruct Hk as [?|(u0 & Hu0 & Hs0)]; [by left|right]. exists u0. split; [done|]. by eapply same_counters_trans.
Qed.

Lemma sync_user_counts tag nu up0 up im up' im' err :
  sync_user build_ok tag nu up im = (up', im', err) → counts_from up0 up → counts_from up0 up'.
Proof.
  intros Hs Hc. unfold sync_user, UserPool_GetUser in Hs. destruct (users up !! u_ID nu) as [u|] eqn:Hu.
  - destruct (Hc _ _ Hu) as [Hid _].
    destruct (if negb (User_Equal u nu) then _ else _) as [[u1 im1] err1] eqn:H1.
    assert (Hs1 : same_counters u u1).
    { destruct (negb (User_Equal u nu)); [|by injection H1 as <- _ _]. cbn zeta in H1.
      destruct (u_running (User_UpdateFromServer nu u)); [|by injection H1 as <- _ _].
      apply remove_counters in H1. exact H1. }
    assert (Hst : ∀ u2, same_counters u1 u2 → counts_from up0 (store_user u2 up)).
    { intros u2 Hs2. apply (counts_store up0 up u2 u); [done|by rewrite Hid|by eapply same_counters_trans]. }
    destruct err1; [injection Hs as <- _ _; by apply Hst|].
    destruct (u_Enable u1 && negb (u_running u1)); [|injection Hs as <- _ _; by apply Hst].
    destruct (addInboundUser build_ok up tag u1 im1) as [[u2 im2] err2] eqn:H2.
    injection Hs as <- _ _. apply Hst. by eapply add_counters.
  - cbn in Hs. assert (Hnew : counts_from up0 (snd (UserPool_CreateUser (u_ID nu) (u_Level nu) (u_Password nu) (u_Method nu)
      (u_Protocol nu) (u_Flow nu) (u_Enable nu) up))).
    { unfold counts_from. cbn. apply map_Forall_insert_2; [|done]. split; [done|by left]. }
    destruct (u_Enable nu); [|by injection Hs as <- _ _].
    destruct (addInboundUser build_ok _ tag _ im) as [[u2 im2] err2] eqn:H2. injection Hs as <- _ _.
    eapply counts_store; [exact Hnew| |by eapply add_counters]. cbn. by rewrite lookup_insert_eq.
Qed.

Lemma sync_users_counts tag resp up0 up im up' im' err :
  sync_users build_ok tag resp up im = (up', im', err) → counts_from up0 up → counts_from up0 up'.
Proof.
  revert up im. induction resp as [|nu resp IH]; intros up im; cbn; [by intros [= <- _ _]|].
  destruct (sync_user build_ok tag nu up im) as [[up1 im1] [e|]] eqn:H1; [intros [= <- _ _]|intros H2 Hc];
    [by eapply sync_user_counts|]. eapply IH; [exact H2|]. by eapply sync_user_counts.
Qed.

Lemma drop_users_counts tag userM order up0 up im up' im' err :
  drop_users tag userM order up im = (up', im', err) → counts_from up0 up →
  NoDup (u_ID <$> order) → (∀ u, u ∈ order → users up !! u_ID u = Some u) → counts_from up0 up'.
Proof.
  revert up im. induction order as [|u order IH]; intros up im; cbn; [by intros [= <- _ _]|].
  intros Hd Hc [Hn Hnd]%NoDup_cons Hin. case_decide as Hm.
  - eapply IH; [exact Hd|done..|]. intros v Hv. apply Hin. by right.
  - destruct (removeInboundUser up tag u im) as [[u1 im1] [e|]] eqn:Hr; pose proof (remove_counters _ _ _ _ _ _ _ Hr) as Hs.
    + injection Hd as <- _ _. eapply counts_store; [done|apply Hin; by left|done].
    + eapply IH; [exact Hd| |done|].
      * by apply map_Forall_delete.
      * intros v Hv. unfold UserPool_RemoveUser. cbn. destruct Hs as (-> & _). rewrite lookup_delete_ne; [apply Hin; by right|].
        intros He. apply Hn. rewrite He. by apply list_elem_of_fmap_2.
Qed.

Lemma enumerates_keyed order up0 up :
  enumerates order → counts_from up0 up →
  NoDup (u_ID <$> order (users up)) ∧ ∀ u, u ∈ order (users up) ↔ users up !! u_ID u = Some u.
Proof.
  intros Hord Hc.
  assert (Hids : u_ID <$> (map_to_list (users up)).*2 = (map_to_list (users up)).*1).
  { rewrite <- list_fmap_compose. apply list_fmap_ext. intros i [id u] Hi%list_elem_of_lookup_2%elem_of_map_to_list.
    simpl. by destruct (Hc _ _ Hi). }
  split.
  - rewrite (Hord (users up)), Hids. apply NoDup_fst_map_to_list.
  - intros u. rewrite (Hord (users up)), list_elem_of_fmap. split.
    + intros ([id v] & -> & Hv%elem_of_map_to_list). simpl. by destruct (Hc _ _ Hv) as [-> _].
    + intros Hv. exists (u_ID u, u). split; [done|]. by apply elem_of_map_to_list.
Qed.

Lemma sync_tags_counts tags resp order up0 up im up' im' err :
  enumerates order → sync_tags build_ok tags resp order up im = (up', im', err) →
  counts_from up0 up → counts_from up0 up'.
Proof.
  intros Hord. revert up im. induction tags as [|tag tags IH]; intros up im; cbn; [by intros [= <- _ _]|].
  unfold UserPool_syncUserConfigsFromServer. destruct (resp tag) as [us|e]; [|by intros [= <- _ _]].
  destruct (sync_users build_ok tag us up im) as [[up1 im1] [e|]] eqn:H1.
  - intros [= <- _ _] Hc. by eapply sync_users_counts.
  - intros H2 Hc. pose proof (sync_users_counts _ _ _ _ _ _ _ _ H1 Hc) as Hc1.
    destruct (enumerates_keyed order up0 up1 Hord Hc1) as [Hnd Hel].
    destruct (drop_users tag (u_ID <$> us) (order (users up1)) up1 im1) as [[up2 im2] [e|]] eqn:H3;
      (assert (counts_from up0 up2) as Hc2 by (eapply drop_users_counts; [exact H3|done|done|intros u; apply Hel])).
    + by injection H2 as <- _ _.
    + by eapply IH.
Qed.
End Counts.

(** ** Theorems *)

Definition unsent (u : User) : Z := UploadTraffic u + DownloadTraffic u.

Lemma omap_traffic_sum tr l :
  sum_Z ((λ ut, ut_Upload ut + ut_Download ut) <$> omap id (user_traffic tr <$> l).*1) = sum_Z (unsent <$> l).
Proof.
  induction l as [|u l IH]; [done|]. csimpl. destruct (fst (user_traffic tr u)) as [ut|] eqn:Hu; cbn.
  - apply user_traffic_Some in Hu as (_ & _ & -> & -> & _). csimpl. rewrite IH. done.
  - assert (UploadTraffic u = 0 ∧ DownloadTraffic u = 0) as [Hz1 Hz2].
    { unfold user_traffic in Hu. simpl in Hu. case_decide; [done|]. by destruct tr. }
    rewrite IH. unfold unsent. rewrite Hz1, Hz2. lia.
Qed.

Lemma user_traffic_reset tr u : snd (user_traffic tr u) = snd (User_snapshotAndReset u).
Proof. unfold user_traffic. simpl. case_decide; [done|]. by destruct tr. Qed.

(** The traffic half of a cycle, on a pool whose keys are the users' own. *)
Lemma syncTraffic_resets order up :
  NoDup (u_ID <$> order) → (∀ u, u ∈ order ↔ users up !! u_ID u = Some u) →
  map_Forall (λ id u, u_ID u = id) (users up) →
  let '(up', data, _) := UserPool_syncTrafficToServer order None up in
  (∀ id, users up' !! id = snd ∘ User_snapshotAndReset <$> users up !! id) ∧
  sum_Z ((λ ut, ut_Upload ut + ut_Download ut) <$> data) = sum_Z (unsent <$> order).
Proof.
  intros Hnd Hin Hk. unfold UserPool_syncTrafficToServer. split; [|apply omap_traffic_sum].
  assert (Hids : u_ID <$> (user_traffic (up_tracker up) <$> order).*2 = u_ID <$> order).
  { rewrite <- !list_fmap_compose. apply list_fmap_ext. intros i v _. simpl. by rewrite user_traffic_reset. }
  intros id. rewrite store_all_users by by rewrite Hids.
  destruct (list_find _ _) as [[i v]|] eqn:Hf.
  - apply list_find_Some in Hf as (Hi & Hv & _).
    rewrite !list_lookup_fmap in Hi. destruct (order !! i) as [w|] eqn:Hw; [|done]. simpl in Hi. injection Hi as <-.
    rewrite user_traffic_reset in *. simpl in Hv. apply list_elem_of_lookup_2, Hin in Hw. rewrite Hv in Hw. by rewrite Hw.
  - apply list_find_None in Hf. rewrite Forall_forall in Hf. destruct (users up !! id) as [u|] eqn:Hu; [|done]. exfalso.
    pose proof (Hk _ _ Hu) as Hid. simpl in Hid.
    apply (Hf (snd (user_traffic (up_tracker up) u))); [|by rewrite user_traffic_reset].
    do 2 apply list_elem_of_fmap_2. apply Hin. by rewrite Hid.
Qed.

Section CycleTheorems.
Context {IM : Type} `{InboundManager IM}.
Variable build_ok : MemoryUser → bool.

Lemma keyed_counts up : map_Forall (λ id u, u_ID u = id) (users up) → counts_from up up.
Proof. intros Hk id u Hu. split; [by apply Hk|]. right. exists u. done. Qed.

Lemma syncOnce_accounts_aux (cy : cycle) (up : UserPool) (im : IM) (br : bandwidthRecorder)
    (Hkeyed : map_Forall (λ id u, u_ID u = id) (users up)) (Hord : enumerates (cy_order cy)) :
  match sync_tags build_ok (up_proxyTags up) (λ tag, users_answer (cy_users cy tag)) (cy_order cy) up im with
  | (up1, im1, Some err) =>
      UserPool_syncOnce build_ok cy up im br = (up1, im1, br, None, Some err) ∧ counts_from up up1
  | (up1, im1, None) =>
      ∃ up' br' req, UserPool_syncOnce build_ok cy up im br = (up', im1, br', Some req, PostJSONWithRetry None (cy_post cy)) ∧
        counts_from up up1 ∧
        SyncTrafficReq_GetTotalTraffic req = wrap64 (sum_Z (unsent <$> (map_to_list (users up1)).*2)) ∧
        dom (users up') = dom (users up1) ∧
        map_Forall (λ _ u, unsent u = 0) (users up') ∧
        (∀ err, cy_io cy = inr err → br' = br ∧ UploadBandwidth req = 0 ∧ DownloadBandwidth req = 0)
  end.
Proof.
  unfold UserPool_syncOnce. pose proof (sync_tags_counts build_ok (up_proxyTags up)
    (λ tag, users_answer (cy_users cy tag)) (cy_order cy) up up im) as Hcnt.
  destruct (sync_tags build_ok _ _ _ up im) as [[up1 im1] [err|]]; specialize (Hcnt _ _ _ Hord eq_refl (keyed_counts _ Hkeyed));
    [done|].
  destruct (enumerates_keyed (cy_order cy) up up1 Hord Hcnt) as [Hnd Hin].
  pose proof (syncTraffic_resets (cy_order cy (users up1)) up1 Hnd Hin (λ id u Hu, proj1 (Hcnt id u Hu))) as Hr.
  unfold UserPool_pushTraffic, UserPool_GetAllUsers.
  destruct (UserPool_syncTrafficToServer (cy_order cy (users up1)) None up1) as [[up' data] e']. destruct Hr as [Hlk Hsum].
  destruct (bandwidthRecorder_RecordOnce (cy_io cy) (cy_now cy) br) as [sample br'] eqn:Hb.
  do 3 eexists. split; [reflexivity|]. split; [done|].
  assert (Hdata : Data (match sample with Ret _ => mkTrafficReq data
    (int64_of_float (bandwidthRecorder_GetUploadBandwidth br')) (int64_of_float (bandwidthRecorder_GetDownloadBandwidth br'))
    | _ => mkTrafficReq data 0 0 end) = data) by by destruct sample.
  split_and!.
  - unfold SyncTrafficReq_GetTotalTraffic. rewrite Hdata, total_traffic_sum by apply in_int64_0.
    rewrite Hsum, Z.add_0_l. f_equal. by rewrite (Hord (users up1)).
  - apply set_eq. intros id. rewrite !elem_of_dom, Hlk. by rewrite fmap_is_Some.
  - intros id u Hu. rewrite Hlk in Hu. apply fmap_Some in Hu as (v & _ & ->). done.
  - intros err He. unfold bandwidthRecorder_RecordOnce in Hb. rewrite He in Hb. by injection Hb as <- <-.
Qed.

End CycleTheorems.

Section Wipe.
Context {IM : Type} `{InboundManagerLaws IM}.
Variable build_ok : MemoryUser → bool.

(** The client's status code is never looked at.  If the panel, or a proxy in front of
    it, answers the request for users with any JSON object without a "users" field, an error
    page for instance, the synchronisation takes it for an empty list: when its removals
    succeed, every user is dropped from the pool and from the inbound, and the traffic they
    had not yet been charged for is in no report, this one or a later one. *)
Theorem error_page_wipes_users (tag : string) (status : Z) (cy : cycle) (up up1 : UserPool) (im im1 : IM)
    (br : bandwidthRecorder)
    (Hok : pool_ok tag up im) (Htags : up_proxyTags up = [tag]) (Hord : enumerates (cy_order cy))
    (Hpage : cy_users cy tag = Reply status ([], None))
    (Hrun : sync_tags build_ok [tag] (λ tag, users_answer (cy_users cy tag)) (cy_order cy) up im = (up1, im1, None)) :
  users up1 = ∅ ∧ im_emails im1 tag = ∅ ∧
  ∃ up' br' req err, UserPool_syncOnce build_ok cy up im br = (up', im1, br', Some req, err) ∧
    Data req = [] ∧ users up' = ∅.
Proof.
  unfold UserPool_syncOnce. rewrite Htags, Hrun. cbn [sync_tags] in Hrun.
  destruct (UserPool_syncUserConfigsFromServer build_ok tag (users_answer (cy_users cy tag)) (cy_order cy) up im)
    as [[up2 im2] [e|]] eqn:Hs; [done|]. injection Hrun as <- <-.
  unfold users_answer in Hs. rewrite Hpage in Hs. cbn [GetJSONWithRetry] in Hs.
  apply sync_ok in Hs as (Hok2 & Hdom & _); [|done|constructor|constructor|done].
  assert (He : users up2 = ∅) by by apply dom_empty_iff_L.
  split; [done|]. split.
  - apply elem_of_equiv_empty_L. intros em Hem. apply (pk_served _ _ _ Hok2) in Hem as (id & [u Hu] & _).
    by rewrite He, lookup_empty in Hu.
  - assert (Ho : cy_order cy (users up2) = []).
    { apply Permutation_nil. rewrite (Hord (users up2)), He, map_to_list_empty. done. }
    unfold UserPool_pushTraffic, UserPool_GetAllUsers, UserPool_syncTrafficToServer. rewrite Ho. cbn.
    destruct (bandwidthRecorder_RecordOnce (cy_io cy) (cy_now cy) br) as [sample br'].
    do 4 eexists. split; [reflexivity|]. split; [by destruct sample|done].
Qed.
End Wipe.

(** ** Concrete cycles *)

Definition panel_cycle (us : http_result (list User * option error)) (post : http_result (option error)) : cycle :=
  {| cy_users := λ _, us; cy_order := all_users; cy_io := inr (Errorf "io"); cy_now := 0; cy_post := post |}.

Definition billed_pool : UserPool :=
  mkPool {[7 := User_AddUploadTraffic 900 (set_running true (panel_user 7 true))]} [XrayTrojanProxyTag] None true.
Definition billed_table : table_im := mkTable {[XrayTrojanProxyTag := {["7"]}]} false.

Lemma billed_keyed : map_Forall (λ id u, u_ID u = id) (users billed_pool).
Proof. by apply map_Forall_singleton. Qed.


Lemma billed_pool_ok : pool_ok XrayTrojanProxyTag billed_pool billed_table.
Proof.
  split.
  - apply map_Forall_singleton. split; [done|]. split; [vm_compute; split; congruence|].
    split; [|done]. split; [|done]. intros _. vm_compute. reflexivity.
  - intros em Hem. exists 7. assert (em = "7") as ->; [|split; [by eexists|reflexivity]].
    assert (im_emails billed_table XrayTrojanProxyTag = {["7"]}) as He by (vm_compute; reflexivity).
    rewrite He in Hem. by apply elem_of_singleton in Hem.
Qed.

Lemma error_page_wipes_users_witness :
  ∃ up' im1 br' req err, UserPool_syncOnce (λ _, true) (panel_cycle (Reply 401 ([], None)) (Reply 200 None))
    billed_pool billed_table newBandwidthRecorder = (up', im1, br', Some req, err) ∧
    Data req = [] ∧ users up' = ∅.
Proof.
  destruct (sync_tags (λ _, true) [XrayTrojanProxyTag] (λ tag, users_answer (cy_users (panel_cycle (Reply 401 ([], None)) (Reply 200 None)) tag))
    all_users billed_pool billed_table) as [[up1 im1] err1] eqn:E.
  assert (err1 = None) as -> by (vm_compute in E; by injection E as _ _ <-).
  destruct (error_page_wipes_users (λ _, true) XrayTrojanProxyTag 401 (panel_cycle (Reply 401 ([], None)) (Reply 200 None))
    billed_pool up1 billed_table im1 newBandwidthRecorder billed_pool_ok eq_refl all_users_enumerates eq_refl E)
    as (_ & _ & up' & br' & req & err & H1 & H2 & H3).
  exists up', im1, br', req, err. split; [exact H1|]. split; [exact H2|exact H3].
Defined.
