(* ===== verification/Xray.v ===== *)
(** * pkg/xray: the metered outbound, the server's life cycle and the admin API

    [outbound.go], [server.go] and [admin_api.go].  xray-core is third-party: its dial, copy
    and task results are the environment of a dispatch, its configuration is modelled by
    the fields this code reads and writes, and building, starting and closing an instance
    by the errors they return.  An HTTP handler returns a status and a body. *)

From S2P Require Import Prelude GoStd ConnTracker UserPool.

(** ** outbound.go *)

(** [mb]: the lengths of the buffers of a [buf.MultiBuffer]. *)
Definition mbLen (mb : list Z) : Z := foldl (λ n b, wrap64 (n + b)) 0 mb.

Definition meteringReader_ReadMultiBuffer (mb : list Z) (user : User) : User := User_AddDownloadTraffic (mbLen mb) user.
Definition meteringWriter_WriteMultiBuffer (mb : list Z) (user : User) : User := User_AddUploadTraffic (mbLen mb) user.

(** What happens to one dispatched link: the outbounds of its context (with the validity of
    their targets), the dial, the buffers each direction moves and the error of [task.Run]. *)
Record dispatch_env := mkDispatch {
  de_outbounds : list (Outbound * bool); de_dial : nat + error;
  de_requests : list (list Z); de_responses : list (list Z); de_run : option error; de_now : Z }.

Record link := mkLink { reader_interrupted : bool; writer_interrupted : bool; dialed_closed : option nat }.

(** The error cases [task.Run]'s cause is compared with. *)
Definition io_ErrClosedPipe : error := Sentinel "io: read/write on closed pipe".
Definition context_Canceled : error := Sentinel "context canceled".

Definition benign_end (err : error) : bool :=
  errors_Is err io_EOF || errors_Is err io_ErrClosedPipe || errors_Is err context_Canceled.

(** The user the bytes are charged to: none without a pool or without a positive id. *)
Definition dispatch_user (pool : option UserPool) (inb : option Inbound) : option User :=
  up ← pool;
  let userID := userIDFromInbound inb in
  if decide (0 < userID) then UserPool_GetUser userID up else None.

Definition metered_copy (env : dispatch_env) (user : User) : User :=
  foldl (λ u mb, meteringReader_ReadMultiBuffer mb u)
    (foldl (λ u mb, meteringWriter_WriteMultiBuffer mb u) user (de_requests env)) (de_responses env).

Definition meteredOutbound_Dispatch (inb : option Inbound) (env : dispatch_env)
    (tracker : connTracker) (pool : option UserPool) : link * connTracker * option UserPool :=
  match last (de_outbounds env) with
  | None => (mkLink true true None, tracker, pool)
  | Some (ob, valid) =>
      if negb valid then (mkLink true true None, tracker, pool)
      else match de_dial env with
           | inr err => (mkLink true true None, tracker, pool)
           | inl fd =>
               let user := dispatch_user pool inb in
               let user := User_RecordIP (sourceIPFromInbound inb) <$> user in
               let '(connID, tracker) := connTracker_Register (de_now env) inb (Some ob) (Some fd) (Some fd) tracker in
               let user := metered_copy env <$> user in
               let pool := match user with Some u => store_user u <$> pool | None => pool end in
               let w := match de_run env with Some err => negb (benign_end err) | None => false end in
               (mkLink true w (Some fd), connTracker_Unregister connID tracker, pool)
           end
  end.

(** ** server.go: the xray configuration *)

(** [ss_mptcp]: [SocketSettings] present, with its [TcpMptcp]. *)
Record StreamConfig := mkStream { ss_security : string; ss_certs : option string; ss_mptcp : option bool }.

Record InboundDetour := mkInboundDetour { ib_tag : string; ib_listen : string; ib_stream : option StreamConfig }.

Record XConfig := mkXConfig {
  xc_API : bool; xc_Stats : bool; xc_Policy : bool; xc_Outbounds : list string; xc_Inbounds : list InboundDetour }.

(** [filtered := l[:0]; for _, in := range l { ...; filtered = append(filtered, in) }]: the
    kept elements are written over the front of the array being read.  [i] is the read
    position, [j] the write position, [n] the elements left. *)
Fixpoint compact {A} (skip : A → bool) (arr : list A) (n i j : nat) : list A :=
  match n with
  | O => take j arr
  | S n =>
      match arr !! i with
      | None => take j arr
      | Some x =>
          if skip x then compact skip arr n (S i) j
          else compact skip (<[j := x]> arr) n (S i) (S j)
      end
  end.

Definition stripUnused (cfg : XConfig) : XConfig :=
  {| xc_API := false; xc_Stats := false; xc_Policy := false; xc_Outbounds := [];
     xc_Inbounds :=
       if decide (0 < length (xc_Inbounds cfg))%nat
       then compact (λ b, bool_decide (ib_tag b = XrayAPITag)) (xc_Inbounds cfg) (length (xc_Inbounds cfg)) 0 0
       else xc_Inbounds cfg |}.

(** One round of the loop of [buildXrayInstanceCfg]: MPTCP on the TLS-capable tags, and the
    generated certificate unless the inbound uses Reality.  A nil [StreamSetting] passes
    the Reality test and is then dereferenced. *)
Definition prepare_inbound (tls : option error) (b : InboundDetour) : outcome InboundDetour :=
  if decide (ib_tag b = XrayTrojanProxyTag ∨ ib_tag b = XrayVmessProxyTag ∨ ib_tag b = XrayVlessProxyTag) then
    match ib_stream b with
    | Some s =>
        if decide (ss_security s = "reality")
        then Ret (mkInboundDetour (ib_tag b) (ib_listen b) (Some (mkStream (ss_security s) (ss_certs s) (Some true))))
        else
          _ ← check_err tls;
          Ret (mkInboundDetour (ib_tag b) (ib_listen b) (Some (mkStream (ss_security s) (Some "default") (Some true))))
    | None => _ ← check_err tls; Panic NilDereference
    end
  else Ret b.

Fixpoint prepare_inbounds (tls : option error) (l : list InboundDetour) : outcome (list InboundDetour) :=
  match l with
  | [] => Ret []
  | b :: rest => b ← prepare_inbound tls b; rest ← prepare_inbounds tls rest; Ret (b :: rest)
  end.

(** [build_err]: the error of [cfg.Build()]. *)
Definition buildXrayInstanceCfg (tls build_err : option error) (cfg : XConfig) : outcome XConfig :=
  ins ← prepare_inbounds tls (xc_Inbounds cfg);
  let cfg := stripUnused (mkXConfig (xc_API cfg) (xc_Stats cfg) (xc_Policy cfg) (xc_Outbounds cfg) ins) in
  _ ← check_err build_err;
  Ret cfg.

(** [needReload]: the old proxy inbounds by tag (a later one wins), then the new ones in order. *)
Definition old_by_tag (l : list InboundDetour) : gmap string InboundDetour :=
  foldl (λ m b, if InProxyTags (ib_tag b) then <[ib_tag b := b]> m else m) ∅ l.

Fixpoint any_changed (old : gmap string InboundDetour) (l : list InboundDetour) : bool :=
  match l with
  | [] => false
  | b :: rest =>
      if negb (InProxyTags (ib_tag b)) then any_changed old rest
      else match old !! ib_tag b with
           | None => true
           | Some o => if decide (ib_listen o ≠ ib_listen b) then true else any_changed old rest
           end
  end.

Definition XrayServer_needReload (oldXC newXC : option XConfig) : bool :=
  match oldXC, newXC with
  | Some o, Some n => any_changed (old_by_tag (xc_Inbounds o)) (xc_Inbounds n)
  | _, _ => false
  end.

(** ** server.go: life cycle *)

(** [xs_running]: the instance is started; [xs_watchers]: how many reload tickers run. *)
Record XrayServer := mkXray {
  xs_cfg : option XConfig; xs_sync : bool; xs_reload_interval : Z;
  xs_tracker : connTracker; xs_up : option UserPool; xs_running : bool; xs_watchers : nat }.

(** What the library calls of one [Setup] and one [Start] return. *)
Record xray_env := mkXrayEnv {
  xe_tls : option error; xe_build : option error; xe_new : option error; xe_start : option error;
  xe_up_start : option error }.

Definition proxy_tags (cfg : XConfig) : list string := filter (λ t, InProxyTags t) (ib_tag <$> xc_Inbounds cfg).

Definition XrayServer_Setup (env : xray_env) (xs : XrayServer) : outcome XrayServer :=
  match xs_cfg xs with
  | None => Panic NilDereference
  | Some cfg =>
      cfg ← buildXrayInstanceCfg (xe_tls env) (xe_build env) cfg;
      _ ← check_err (xe_new env);
      up ← (if xs_sync xs then
              if decide (proxy_tags cfg = []) then Err (Errorf "can't find proxy tag in config")
              else Ret (Some (UserPool_SetInboundManager
                                (UserPool_SetConnTracker (xs_tracker xs) (NewUserPool (proxy_tags cfg)))))
            else Ret (xs_up xs));
      Ret {| xs_cfg := Some cfg; xs_sync := xs_sync xs; xs_reload_interval := xs_reload_interval xs;
             xs_tracker := xs_tracker xs; xs_up := up; xs_running := false; xs_watchers := xs_watchers xs |}
  end.

Definition XrayServer_Stop (xs : XrayServer) : XrayServer :=
  {| xs_cfg := xs_cfg xs; xs_sync := xs_sync xs; xs_reload_interval := xs_reload_interval xs;
     xs_tracker := snd (connTracker_KillAll (xs_tracker xs)); xs_up := xs_up xs; xs_running := false;
     xs_watchers := xs_watchers xs |}.

Definition XrayServer_Start (env : xray_env) (xs : XrayServer) : XrayServer * outcome unit :=
  match xe_start env with
  | Some err => (xs, Err err)
  | None =>
      let xs := {| xs_cfg := xs_cfg xs; xs_sync := xs_sync xs; xs_reload_interval := xs_reload_interval xs;
                   xs_tracker := xs_tracker xs; xs_up := xs_up xs; xs_running := true; xs_watchers := xs_watchers xs |} in
      match xs_up xs, xe_up_start env with
      | Some _, Some err => (xs, Err err)
      | _, _ =>
          ({| xs_cfg := xs_cfg xs; xs_sync := xs_sync xs; xs_reload_interval := xs_reload_interval xs;
              xs_tracker := xs_tracker xs; xs_up := xs_up xs; xs_running := true;
              xs_watchers := if decide (0 < xs_reload_interval xs) then S (xs_watchers xs) else xs_watchers xs |}, Ret tt)
      end
  end.

Definition XrayServer_Reload (env : xray_env) (xs : XrayServer) : XrayServer * outcome unit :=
  let xs := XrayServer_Stop xs in
  match XrayServer_Setup env xs with
  | Err err => (xs, Err err)
  | Panic p => (xs, Panic p)
  | Ret xs => XrayServer_Start env xs
  end.

(** What [LoadConfig] of a fresh configuration gives the watcher. *)
Record xray_load := mkLoad { ld_cfg : option XConfig; ld_sync : bool; ld_interval : Z }.

(** [xs.cfg = newCfg] *)
Definition with_cfg (ld : xray_load) (xs : XrayServer) : XrayServer :=
  {| xs_cfg := ld_cfg ld; xs_sync := ld_sync ld; xs_reload_interval := ld_interval ld;
     xs_tracker := xs_tracker xs; xs_up := xs_up xs; xs_running := xs_running xs;
     xs_watchers := xs_watchers xs |}.

(** One tick of a reload watcher.  When a reload is needed the watcher ends after it, whatever
    its result, because a successful [Start] has begun a new one; the error is logged, and so
    is "success". *)
Definition watcher_tick (env : xray_env) (load : xray_load + error) (xs : XrayServer) : XrayServer * outcome unit :=
  match load with
  | inr _ => (xs, Ret tt)
  | inl newCfg =>
      if XrayServer_needReload (xs_cfg xs) (ld_cfg newCfg) then
        let (xs, res) := XrayServer_Reload env (with_cfg newCfg xs) in
        let xs := {| xs_cfg := xs_cfg xs; xs_sync := xs_sync xs; xs_reload_interval := xs_reload_interval xs;
                     xs_tracker := xs_tracker xs; xs_up := xs_up xs; xs_running := xs_running xs;
                     xs_watchers := pred (xs_watchers xs) |} in
        (xs, match res with Panic p => Panic p | _ => Ret tt end)
      else (xs, Ret tt)
  end.

(** ** admin_api.go *)

Record XraySnapshot := mkSnapshot {
  sn_Conns : Z; sn_Users : Z; sn_EnabledUsers : Z; sn_RunningUsers : Z; sn_UploadTotal : Z; sn_DownloadTotal : Z }.

(** One round of the loop of [Snapshot]. *)
Definition snapshot_add (snap : XraySnapshot) (u : User) : XraySnapshot :=
  {| sn_Conns := sn_Conns snap; sn_Users := sn_Users snap;
     sn_EnabledUsers := if u_Enable u then sn_EnabledUsers snap + 1 else sn_EnabledUsers snap;
     sn_RunningUsers := if u_running u then sn_RunningUsers snap + 1 else sn_RunningUsers snap;
     sn_UploadTotal := wrap64 (sn_UploadTotal snap + UploadTotal u);
     sn_DownloadTotal := wrap64 (sn_DownloadTotal snap + DownloadTotal u) |}.

(** [order]: the users in the order of [GetAllUsers]; none without a pool. *)
Definition XrayServer_Snapshot (tracker : connTracker) (order : option (list User)) : XraySnapshot :=
  let snap := mkSnapshot (connTracker_Count tracker) 0 0 0 0 0 in
  match order with
  | None => snap
  | Some us => foldl snapshot_add (mkSnapshot (sn_Conns snap) (Z.of_nat (length us)) 0 0 0 0) us
  end.

Inductive admin_body :=
  | BodyConns (l : list ConnInfo)
  | BodyKilled (n id : Z)
  | BodyMessage (msg : string).

Definition StatusOK : Z := 200.
Definition StatusBadRequest : Z := 400.
Definition StatusNotFound : Z := 404.

(** [GET /xray/conns?user=]: an empty parameter means all users. *)
Definition XrayServer_listConns (user : string) (t : connTracker) : Z * admin_body :=
  if decide (user = "") then (StatusOK, BodyConns (connTracker_List 0 t))
  else match Atoi user with
       | None => (StatusBadRequest, BodyMessage "invalid user id")
       | Some id => (StatusOK, BodyConns (connTracker_List id t))
       end.

Definition XrayServer_killConn (id : string) (t : connTracker) : (Z * admin_body) * connTracker :=
  match ParseUint64 id with
  | None => ((StatusBadRequest, BodyMessage "invalid conn id"), t)
  | Some id =>
      let (found, t) := connTracker_Kill id t in
      if negb found then ((StatusNotFound, BodyMessage "conn not found"), t)
      else ((StatusOK, BodyKilled 1 id), t)
  end.

Definition XrayServer_killUserConns (user : string) (t : connTracker) : (Z * admin_body) * connTracker :=
  if decide (user = "") then ((StatusBadRequest, BodyMessage "missing user query param"), t)
  else match Atoi user with
       | None => ((StatusBadRequest, BodyMessage "invalid user id"), t)
       | Some id => let (n, t) := connTracker_KillByUser id t in ((StatusOK, BodyKilled n id), t)
       end.

Record UserView := mkUserView {
  uv_ID : Z; uv_Level : Z; uv_Protocol : string; uv_Method : string; uv_Enable : bool; uv_Running : bool;
  uv_UploadTotal : Z; uv_DownloadTotal : Z; uv_TcpConnCount : Z; uv_RecentIPs : list string }.

Definition user_view (t : connTracker) (u : User) : UserView :=
  {| uv_ID := u_ID u; uv_Level := u_Level u; uv_Protocol := u_Protocol u; uv_Method := u_Method u;
     uv_Enable := u_Enable u; uv_Running := u_running u; uv_UploadTotal := UploadTotal u;
     uv_DownloadTotal := DownloadTotal u; uv_TcpConnCount := connTracker_CountTCPByUser (u_ID u) t;
     uv_RecentIPs := mergeLiveIPs [] (connTracker_List (u_ID u) t) |}.

Definition id_le (a b : UserView) : Prop := uv_ID a ≤ uv_ID b.
#[global] Instance id_le_dec : RelDecision id_le.
Proof. unfold RelDecision, id_le. apply _. Defined.
#[global] Instance id_le_total : Total id_le.
Proof. intros a b. unfold id_le. lia. Qed.

(** [GET /xray/users], sorted by id. *)
Definition XrayServer_listUsers (t : connTracker) (order : option (list User)) : list UserView :=
  match order with
  | None => []
  | Some us => merge_sort id_le (user_view t <$> us)
  end.

(** ** Lemmas *)

Lemma foldl_wrap_add (l : list Z) z : in_int64 z → foldl (λ n b, wrap64 (n + b)) z l = wrap64 (z + sum_Z l).
Proof.
  revert z. induction l as [|b l IH]; intros z Hz; simpl; [by rewrite Z.add_0_r, wrap64_id|].
  rewrite IH by apply wrap64_range. by rewrite wrap64_wrap64_add, Z.add_assoc.
Qed.

Lemma mbLen_eq mb : mbLen mb = wrap64 (sum_Z mb).
Proof. unfold mbLen. rewrite foldl_wrap_add by apply in_int64_0. done. Qed.

Lemma wrap64_add_wrap64 a b : wrap64 (a + wrap64 b) = wrap64 (a + b).
Proof. rewrite Z.add_comm, wrap64_wrap64_add. f_equal. lia. Qed.

Lemma metered_writes (mbs : list (list Z)) u :
  let u' := foldl (λ u mb, meteringWriter_WriteMultiBuffer mb u) u mbs in
  u_ID u' = u_ID u ∧ recentIPs u' = recentIPs u ∧ DownloadTotal u' = DownloadTotal u ∧
  (in_int64 (UploadTotal u) → UploadTotal u' = wrap64 (UploadTotal u + sum_Z (sum_Z <$> mbs))).
Proof.
  revert u. induction mbs as [|mb mbs IH]; intros u; csimpl.
  - split_and!; [done..|]. intros. by rewrite Z.add_0_r, wrap64_id.
  - destruct (IH (meteringWriter_WriteMultiBuffer mb u)) as (H1 & H2 & H3 & H4). split_and!; [done..|]. intros _.
    rewrite H4 by apply wrap64_range. simpl. rewrite mbLen_eq, wrap64_wrap64_add, (Z.add_comm (UploadTotal u)).
    rewrite <- Z.add_assoc, wrap64_wrap64_add. f_equal. lia.
Qed.

Lemma metered_reads (mbs : list (list Z)) u :
  let u' := foldl (λ u mb, meteringReader_ReadMultiBuffer mb u) u mbs in
  u_ID u' = u_ID u ∧ recentIPs u' = recentIPs u ∧ UploadTotal u' = UploadTotal u ∧
  (in_int64 (DownloadTotal u) → DownloadTotal u' = wrap64 (DownloadTotal u + sum_Z (sum_Z <$> mbs))).
Proof.
  revert u. induction mbs as [|mb mbs IH]; intros u; csimpl.
  - split_and!; [done..|]. intros. by rewrite Z.add_0_r, wrap64_id.
  - destruct (IH (meteringReader_ReadMultiBuffer mb u)) as (H1 & H2 & H3 & H4). split_and!; [done..|]. intros _.
    rewrite H4 by apply wrap64_range. simpl. rewrite mbLen_eq, wrap64_wrap64_add, (Z.add_comm (DownloadTotal u)).
    rewrite <- Z.add_assoc, wrap64_wrap64_add. f_equal. lia.
Qed.

Lemma RecordIP_in ip u : ips_ok u → ip ≠ "" → ip ∈ recentIPs (User_RecordIP ip u).
Proof.
  intros Hok He. destruct (decide (ip ∈ recentIPs u)) as [Hin|Hin].
  - unfold User_RecordIP. rewrite decide_False by done. rewrite decide_True; [done|].
    by rewrite (io_index _ Hok), elem_of_list_to_set.
  - rewrite RecordIP_fifo by done. destruct Hok as [_ _ Hcap _].
    rewrite drop_app_le by (unfold maxRecentIPsPerUser in *; lia). apply elem_of_app. right. by left.
Qed.

Lemma RecordIP_ID ip u : u_ID (User_RecordIP ip u) = u_ID u.
Proof. unfold User_RecordIP. repeat case_match; done. Qed.

(** In-place compaction never overwrites an element before reading it. *)
Lemma compact_filter {A} (skip : A → bool) (arr : list A) n i j :
  (i + n = length arr)%nat → (j ≤ i)%nat →
  compact skip arr n i j = take j arr ++ filter (λ x, skip x = false) (drop i arr).
Proof.
  revert arr i j. induction n as [|n IH]; intros arr i j Hlen Hij; cbn [compact].
  - rewrite drop_ge by lia. simpl. by rewrite app_nil_r.
  - destruct (lookup_lt_is_Some_2 arr i ltac:(lia)) as [x Hx]. rewrite Hx, (drop_S _ x) by done.
    destruct (skip x) eqn:Hs.
    + rewrite IH by lia. by rewrite filter_cons_False by congruence.
    + rewrite IH by (rewrite ?length_insert; lia). rewrite filter_cons_True by done.
      rewrite drop_insert_lt by lia. rewrite (take_S_r _ _ x) by (rewrite list_lookup_insert_eq; [done|lia]).
      rewrite take_insert_ge by lia. by rewrite <- (assoc app).
Qed.

Lemma stripUnused_inbounds cfg :
  xc_Inbounds (stripUnused cfg) = filter (λ b, ib_tag b ≠ XrayAPITag) (xc_Inbounds cfg).
Proof.
  assert (∀ l : list InboundDetour, filter (λ b, bool_decide (ib_tag b = XrayAPITag) = false) l =
    filter (λ b, ib_tag b ≠ XrayAPITag) l) as Hext.
  { intros l. apply list_filter_iff. intros b. by rewrite bool_decide_eq_false. }
  unfold stripUnused. simpl. case_decide as Hl.
  - rewrite compact_filter by lia. simpl. by rewrite drop_0.
  - destruct (xc_Inbounds cfg); [done|simpl in Hl; lia].
Qed.

(** ** Theorems *)



(** The in-place loop that drops the [api] inbound computes exactly the filtered list,
    in order, although it overwrites the array it is reading; nothing else of the
    commander, statistics, policy and outbound configuration is left. *)
Theorem stripUnused_filter (cfg : XConfig) :
  xc_Inbounds (stripUnused cfg) = filter (λ b, ib_tag b ≠ XrayAPITag) (xc_Inbounds cfg) ∧
  xc_API (stripUnused cfg) = false ∧ xc_Stats (stripUnused cfg) = false ∧
  xc_Policy (stripUnused cfg) = false ∧ xc_Outbounds (stripUnused cfg) = [].
Proof. split; [apply stripUnused_inbounds|done]. Qed.

(** A failed reload is final: when the watcher finds a changed inbound and the new
    configuration cannot be set up or the instance cannot start, the old instance is
    already stopped, the only watcher has ended, and the tick itself reports nothing, so
    no later tick retries. *)
Theorem failed_xray_reload_is_final (env : xray_env) (xs : XrayServer) (newCfg : xray_load) (e : error)
    (Hone : xs_watchers xs = 1%nat)
    (Hneed : XrayServer_needReload (xs_cfg xs) (ld_cfg newCfg) = true)
    (Hfail : xe_build env = Some e ∨ xe_new env = Some e ∨ xe_start env = Some e) :
  let (xs', res) := watcher_tick env (inl newCfg) xs in
  is_Panic res ∨ res = Ret tt ∧ xs_running xs' = false ∧ xs_watchers xs' = 0%nat.
Proof.
  unfold watcher_tick. rewrite Hneed. unfold XrayServer_Reload, XrayServer_Stop. cbn -[connTracker_KillAll].
  set (xs1 := mkXray (ld_cfg newCfg) _ _ _ _ false _).
  destruct (XrayServer_Setup env xs1) as [xs2|err|p] eqn:Hs.
  - unfold XrayServer_Setup in Hs. simpl in Hs. destruct (ld_cfg newCfg) as [cfg|]; [|done].
    apply outcome_bind_Ret in Hs as (cfg' & Hb & Hs). apply outcome_bind_Ret in Hs as ([] & Hnew & Hs).
    unfold buildXrayInstanceCfg in Hb. apply outcome_bind_Ret in Hb as (ins & _ & Hb).
    apply outcome_bind_Ret in Hb as ([] & Hbuild & _).
    destruct Hfail as [Hf|[Hf|Hf]]; [by rewrite Hf in Hbuild|by rewrite Hf in Hnew|].
    apply outcome_bind_Ret in Hs as (up & _ & Hs). simplify_eq/=. unfold XrayServer_Start. rewrite Hf. simpl.
    right. split_and!; [done..|]. by rewrite Hone.
  - right. split_and!; [done..|]. simpl. by rewrite Hone.
  - left. by eexists.
Qed.

Definition sample_xconfig (listen : string) : XConfig :=
  mkXConfig true true true ["freedom"] [mkInboundDetour "api" "127.0.0.1,8080" None; mkInboundDetour XraySSProxyTag listen None].

Definition sample_xray : XrayServer :=
  mkXray (Some (sample_xconfig "0.0.0.0,443")) false 60 newConnTracker None true 1.

Lemma failed_xray_reload_is_final_witness :
  let (xs', res) := watcher_tick (mkXrayEnv None None (Some (Errorf "bind")) None None)
    (inl (mkLoad (Some (sample_xconfig "0.0.0.0,444")) false 60)) sample_xray in
  is_Panic res ∨ res = Ret tt ∧ xs_running xs' = false ∧ xs_watchers xs' = 0%nat.
Proof.
  apply (failed_xray_reload_is_final (mkXrayEnv None None (Some (Errorf "bind")) None None) sample_xray
    (mkLoad (Some (sample_xconfig "0.0.0.0,444")) false 60) (Errorf "bind")); [reflexivity|reflexivity|right; left; reflexivity].
Defined.
