(* ===== verification/XrayBilling.v ===== *)
(** * pkg/xray/server.go and user.go together: what a reload does to the accounts

    [Xray] restarts the instance with a fresh user pool; [UserSync] reports what the pool's
    users have moved.  Here the two meet. *)

From S2P Require Import Prelude GoStd Float Sampler ConnTracker UserPool UserSync Xray.

(** ** A reload and the traffic that is still to be reported *)

Lemma Reload_pool env xs xs' :
  xs_sync xs = true → XrayServer_Reload env xs = (xs', Ret tt) →
  ∃ pool, xs_up xs' = Some pool ∧ users pool = ∅.
Proof.
  intros Hs. unfold XrayServer_Reload, XrayServer_Stop. set (xs0 := mkXray _ _ _ _ _ _ _).
  destruct (XrayServer_Setup env xs0) as [xs1|e|p] eqn:Hset; [|done..].
  unfold XrayServer_Setup in Hset. destruct (xs_cfg xs0) as [cfg|]; [|done].
  apply outcome_bind_Ret in Hset as (cfg' & _ & Hset). apply outcome_bind_Ret in Hset as ([] & _ & Hset).
  apply outcome_bind_Ret in Hset as (up & Hup & Hset). cbn [xs_sync xs0] in Hup. rewrite Hs in Hup.
  case_decide; [done|]. simplify_eq. unfold XrayServer_Start.
  destruct (xe_start env); [done|]. cbn [xs_up]. destruct (xe_up_start env); [done|].
  intros [= <-]. eexists. split; [reflexivity|done].
Qed.

Section Owed.
Context {IM : Type} `{InboundManager IM}.
Variable build_ok : MemoryUser → bool.

(** A reload replaces the pool without a last report: whatever traffic the users of the old
    pool had still to be charged for, the new pool knows nothing of it, and the report of
    its first cycle, made by [Start] itself, charges nobody for anything. *)
Theorem reload_forgets_traffic (env : xray_env) (xs xs' : XrayServer) (cy : cycle) (im : IM) (br : bandwidthRecorder)
    (Hsync : xs_sync xs = true) (Hrun : XrayServer_Reload env xs = (xs', Ret tt))
    (Hord : enumerates (cy_order cy)) :
  ∃ pool, xs_up xs' = Some pool ∧ users pool = ∅ ∧
    match UserPool_syncOnce build_ok cy pool im br with
    | (pool', _, _, Some req, _) =>
        SyncTrafficReq_GetTotalTraffic req = 0 ∧ map_Forall (λ _ u, unsent u = 0) (users pool')
    | (pool', _, _, None, _) => map_Forall (λ _ u, unsent u = 0) (users pool')
    end.
Proof.
  destruct (Reload_pool _ _ _ Hsync Hrun) as (pool & Hpool & Hnil). exists pool. split_and!; [done..|].
  assert (Hk : map_Forall (λ id u, u_ID u = id) (users pool)) by (rewrite Hnil; apply map_Forall_empty).
  assert (Hzero : ∀ up1, counts_from pool up1 → map_Forall (λ _ u, unsent u = 0) (users up1)).
  { intros up1 Hc id u Hu. destruct (Hc id u Hu) as [_ [[H1 H2]|(u0 & Hu0 & _)]]; [unfold unsent; lia|].
    by rewrite Hnil in Hu0. }
  pose proof (syncOnce_accounts_aux build_ok cy pool im br Hk Hord) as Ha.
  destruct (sync_tags build_ok (up_proxyTags pool) _ (cy_order cy) pool im) as [[up1 im1] [err|]].
  - destruct Ha as [-> Hc]. by apply Hzero.
  - destruct Ha as (up' & br' & req & -> & Hc & Htot & _ & Hz & _). split; [|done]. rewrite Htot.
    assert (Hs : ∀ l : list User, (∀ u, u ∈ l → unsent u = 0) → sum_Z (unsent <$> l) = 0).
    { induction l as [|u l IH]; intros Hl; csimpl; [done|]. rewrite IH, Hl; [done|by left|].
      intros v Hv. apply Hl. by right. }
    rewrite Hs; [done|]. intros u ([id v] & -> & Hv%elem_of_map_to_list)%list_elem_of_fmap. by apply (Hzero _ Hc id v).
Qed.
End Owed.

Definition billed_xray : XrayServer :=
  mkXray (Some (mkXConfig false false false [] [mkInboundDetour XraySSProxyTag "0.0.0.0,443" None])) true 0
    newConnTracker (Some billed_pool) true 0.

(** Nine hundred bytes are owed before the reload. *)
Lemma reload_forgets_traffic_witness :
  sum_Z (unsent <$> (map_to_list (users billed_pool)).*2) = 900 ∧
  ∃ pool pool' im br req err, xs_up (XrayServer_Reload (mkXrayEnv None None None None None) billed_xray).1 = Some pool ∧
    UserPool_syncOnce (λ _, true) (panel_cycle (Reply 200 ([panel_user 7 true], None)) (Reply 200 None)) pool billed_table
      newBandwidthRecorder = (pool', im, br, Some req, err) ∧ SyncTrafficReq_GetTotalTraffic req = 0.
Proof.
  split; [vm_compute; reflexivity|].
  destruct (reload_forgets_traffic (λ _, true) (mkXrayEnv None None None None None) billed_xray
    (XrayServer_Reload (mkXrayEnv None None None None None) billed_xray).1
    (panel_cycle (Reply 200 ([panel_user 7 true], None)) (Reply 200 None)) billed_table newBandwidthRecorder
    eq_refl ltac:(vm_compute; reflexivity) all_users_enumerates) as (pool & Hp & _ & H).
  exists pool. vm_compute in Hp. injection Hp as <-.
  destruct (UserPool_syncOnce _ _ _ _ _) as [[[[pool' im'] br'] [req|]] err] eqn:E; [|vm_compute in E; discriminate].
  exists pool', im', br', req, err. split; [vm_compute; reflexivity|]. split; [reflexivity|]. exact (proj1 H).
Defined.
