(* ===== verification/Auth.v ===== *)
(** * internal/web/auth.go and the routes of internal/web/server.go it guards

    The in-memory session store with its sliding expiry, the check of a request against
    cookie, bearer and token headers, the middleware, and login and logout.  The clock,
    [crypto/rand] and the decoded request body are arguments; times are nanoseconds.
    Handlers behind the gate are not modelled: [Handled] says that the request reached
    them. *)

From S2P Require Import Prelude GoStd Config.

(** ** encoding/base64

    [base64.RawURLEncoding]: six bits a character, no padding. *)
Definition base64_url : string := "ABCDEFGHIJKLMNOPQRSTUVWXYZabcdefghijklmnopqrstuvwxyz0123456789-_".

Definition base64_char (n : Z) : ascii := default "A"%char (String.get (Z.to_nat n) base64_url).

Fixpoint EncodeToString (l : list Z) : string :=
  match l with
  | a :: b :: c :: rest =>
      String (base64_char (a / 4)) (String (base64_char (a mod 4 * 16 + b / 16))
        (String (base64_char (b mod 16 * 4 + c / 64)) (String (base64_char (c mod 64)) (EncodeToString rest))))
  | [a; b] =>
      String (base64_char (a / 4)) (String (base64_char (a mod 4 * 16 + b / 16))
        (String (base64_char (b mod 16 * 4)) ""))
  | [a] => String (base64_char (a / 4)) (String (base64_char (a mod 4 * 16)) "")
  | [] => ""
  end.

(** ** The session store *)

Definition sessionTTL : Z := 7 * 24 * Hour.
Definition bearerPrefix : string := "Bearer ".

Record sessionStore := mkSessions { sessions : gmap string Z }.

Definition newSessionStore : sessionStore := mkSessions ∅.

(** [rnd]: the 32 bytes [rand.Read] fills, or its error. *)
Definition sessionStore_issue (now : Z) (rnd : list Z + error) (s : sessionStore) :
    outcome (string * Z) * sessionStore :=
  match rnd with
  | inr err => (Err err, s)
  | inl buf =>
      let sid := EncodeToString buf in
      let expiry := now + sessionTTL in
      (Ret (sid, expiry), mkSessions (<[sid := expiry]> (sessions s)))
  end.

Definition sessionStore_validate (now : Z) (sid : string) (s : sessionStore) : (bool * Z) * sessionStore :=
  if decide (sid = "") then ((false, zero_time), s)
  else match sessions s !! sid with
       | None => ((false, zero_time), s)
       | Some exp =>
           if decide (exp < now) then ((false, zero_time), mkSessions (delete sid (sessions s)))
           else let newExp := now + sessionTTL in
                ((true, newExp), mkSessions (<[sid := newExp]> (sessions s)))
       end.

Definition sessionStore_revoke (sid : string) (s : sessionStore) : sessionStore :=
  if decide (sid = "") then s else mkSessions (delete sid (sessions s)).

(** ** The authenticator

    A request: its method and path, the [ehco_sid] cookie if there is one, the
    [Authorization] and [X-Ehco-Token] headers (empty when absent, as [Header.Get] has it)
    and what [json.Decode] makes of its body. *)
Record request := mkRequest {
  r_method : string; r_path : string; r_cookie : option string;
  r_bearer : string; r_token : string; r_password : string + error }.

Record authenticator := mkAuth { a_cfg : AppConfig; a_sessions : sessionStore }.

Definition newAuthenticator (cfg : AppConfig) : authenticator := mkAuth cfg newSessionStore.

Definition authenticator_authRequired (a : authenticator) : bool :=
  bool_decide (DashboardPass (a_cfg a) ≠ "") || bool_decide (ApiToken (a_cfg a) ≠ "").

(** [subtle.ConstantTimeCompare(x, y) == 1] *)
Definition ConstantTimeCompare (x y : string) : bool := bool_decide (x = y).

Definition bearer_ok (cfg : AppConfig) (r : request) : bool :=
  bool_decide (ApiToken cfg ≠ "") &&
  ((HasPrefix (r_bearer r) bearerPrefix && ConstantTimeCompare (TrimPrefix (r_bearer r) bearerPrefix) (ApiToken cfg)) ||
   (bool_decide (r_token r ≠ "") && ConstantTimeCompare (r_token r) (ApiToken cfg))).

Definition authenticator_checkRequest (now : Z) (r : request) (a : authenticator) :
    (bool * string * Z) * authenticator :=
  if negb (authenticator_authRequired a) then ((true, "", zero_time), a)
  else
    let '((ok, exp), st) :=
      match r_cookie r with
      | Some value => sessionStore_validate now value (a_sessions a)
      | None => ((false, zero_time), a_sessions a)
      end in
    let a := mkAuth (a_cfg a) st in
    if ok then ((true, default "" (r_cookie r), exp), a)
    else if bearer_ok (a_cfg a) r then ((true, "", zero_time), a)
    else ((false, "", zero_time), a).

(** ** Replies

    A [Set-Cookie] for the session cookie: value, expiry and [MaxAge]. *)
Record cookie := mkCookie { c_value : string; c_expires : Z; c_maxAge : Z }.

Inductive reply :=
  | JSON (status : Z) (authenticated : bool)
  | InfoJSON (auth_required authenticated : bool)
  | HTTPError (status : Z) (message : string)
  | Handled.

Definition setSessionCookie (sid : string) (expiry : Z) : cookie := mkCookie sid expiry 0.
Definition clearSessionCookie : cookie := mkCookie "" 0 (-1).

(** A handler: the reply, the cookies it sets, and the authenticator afterwards. *)
Definition handler : Type := Z → request → authenticator → (reply * list cookie) * authenticator.

Definition isPublicPath (path : string) : bool :=
  if decide (path ∈ ["/"; "/index.html"; "/favicon.ico"; "/favicon.svg"; "/robots.txt"]) then true
  else if decide (path = "/api/v1/auth/info") then true
  else if decide (path ∈ ["/api/v1/auth/login"; "/api/v1/auth/logout"]) then true
  else HasPrefix path "/assets/".

Definition authenticator_authMiddleware (next : handler) : handler := λ now r a,
  if isPublicPath (r_path r) then next now r a
  else
    let '((ok, sid, exp), a) := authenticator_checkRequest now r a in
    if negb ok then ((HTTPError 401 "authentication required", []), a)
    else
      let set := if decide (sid ≠ "") then [setSessionCookie sid exp] else [] in
      let '((rep, cookies), a) := next now r a in
      ((rep, set ++ cookies), a).

Definition Server_HandleLogin (rnd : list Z + error) : handler := λ now r a,
  if negb (authenticator_authRequired a) then ((JSON 200 true, []), a)
  else if decide (DashboardPass (a_cfg a) = "") then ((HTTPError 403 "dashboard login not configured", []), a)
  else match r_password r with
       | inr _ => ((HTTPError 400 "invalid login body", []), a)
       | inl password =>
           if negb (ConstantTimeCompare password (DashboardPass (a_cfg a)))
           then ((HTTPError 401 "invalid password", []), a)
           else let (res, st) := sessionStore_issue now rnd (a_sessions a) in
                let a := mkAuth (a_cfg a) st in
                match res with
                | Ret (sid, exp) => ((JSON 200 true, [setSessionCookie sid exp]), a)
                | _ => ((HTTPError 500 "failed to issue session", []), a)
                end
       end.

Definition Server_HandleLogout : handler := λ now r a,
  let st := match r_cookie r with
            | Some value => sessionStore_revoke value (a_sessions a)
            | None => a_sessions a
            end in
  ((JSON 200 false, [clearSessionCookie]), mkAuth (a_cfg a) st).

Definition Server_AuthInfo : handler := λ now r a,
  let '((authenticated, _, _), a) := authenticator_checkRequest now r a in
  ((InfoJSON (authenticator_authRequired a) authenticated, []), a).

(** The routes: the three [/auth] endpoints, and every other handler of the server. *)
Definition setupRoutes (rnd : list Z + error) : handler := λ now r a,
  if decide (r_method r = "GET" ∧ r_path r = "/api/v1/auth/info") then Server_AuthInfo now r a
  else if decide (r_method r = "POST" ∧ r_path r = "/api/v1/auth/login") then Server_HandleLogin rnd now r a
  else if decide (r_method r = "POST" ∧ r_path r = "/api/v1/auth/logout") then Server_HandleLogout now r a
  else ((Handled, []), a).

(** [setupMiddleware]: the gate stands before every route. *)
Definition serve (rnd : list Z + error) : handler := authenticator_authMiddleware (setupRoutes rnd).

(** ** Session histories

    What happens to the store, newest first, and the store after it. *)
Inductive session_event :=
  | EvIssue (sid : string)
  | EvValidate (sid : string)
  | EvRevoke (sid : string).

Definition session_step (now : Z) (ev : session_event) (s : sessionStore) : sessionStore :=
  match ev with
  | EvIssue sid => mkSessions (<[sid := now + sessionTTL]> (sessions s))
  | EvValidate sid => snd (sessionStore_validate now sid s)
  | EvRevoke sid => sessionStore_revoke sid s
  end.

Definition session_run (h : list (Z * session_event)) : sessionStore :=
  foldr (λ te s, session_step (fst te) (snd te) s) newSessionStore h.

(** The abstract specification: the times at which [sid] was presented since it was last
    issued, that time included, newest first; nothing if it was revoked since or never
    issued. *)
Fixpoint presented (sid : string) (h : list (Z * session_event)) : option (list Z) :=
  match h with
  | [] => None
  | (t, EvIssue s) :: h => if decide (s = sid) then Some [t] else presented sid h
  | (t, EvValidate s) :: h => if decide (s = sid) then cons t <$> presented sid h else presented sid h
  | (_, EvRevoke s) :: h => if decide (s = sid) then None else presented sid h
  end.

(** No two neighbours are further apart than the time to live. *)
Fixpoint unbroken (ts : list Z) : Prop :=
  match ts with
  | t1 :: ((t2 :: _) as rest) => t1 ≤ t2 + sessionTTL ∧ unbroken rest
  | _ => True
  end.

Definition alive (sid : string) (h : list (Z * session_event)) (now : Z) : Prop :=
  ∃ ts, presented sid h = Some ts ∧ unbroken (now :: ts).

(** ** Lemmas *)

Lemma base64_char_inj m n : 0 ≤ m < 64 → 0 ≤ n < 64 → base64_char m = base64_char n → m = n.
Proof.
  intros Hm Hn Heq.
  assert (∀ i j, i ∈ seqZ 0 64 → j ∈ seqZ 0 64 → base64_char i = base64_char j → i = j) as Hall.
  { intros i j Hi Hj. assert (forallb (λ i, forallb (λ j,
      bool_decide (base64_char i = base64_char j → i = j)) (seqZ 0 64)) (seqZ 0 64) = true) as Hf
      by (vm_compute; reflexivity).
    rewrite forallb_forall in Hf. specialize (Hf i ltac:(by apply list_elem_of_In)).
    rewrite forallb_forall in Hf. specialize (Hf j ltac:(by apply list_elem_of_In)).
    by apply bool_decide_eq_true in Hf. }
  apply Hall; [apply elem_of_seqZ; lia..|done].
Qed.

Definition is_byte (z : Z) : Prop := 0 ≤ z < 256.

Lemma Forall_byte_cons a l : Forall is_byte (a :: l) → 0 ≤ a < 256 ∧ Forall is_byte l.
Proof. intros H. by inversion H. Qed.

Ltac base64_fields :=
  repeat match goal with
  | H : Forall is_byte (_ :: _) |- _ => apply Forall_byte_cons in H as [? H]
  | H : String _ _ = String _ _ |- _ => injection H; clear H; intros
  | H : base64_char _ = base64_char _ |- _ =>
      apply base64_char_inj in H; [|Z.to_euclidean_division_equations; lia..]
  end.

Lemma list_triple_ind {A} (P : list A → Prop) :
  P [] → (∀ a, P [a]) → (∀ a b, P [a; b]) → (∀ a b c l, P l → P (a :: b :: c :: l)) → ∀ l, P l.
Proof.
  intros H0 H1 H2 H3. fix IH 1. intros [|a [|b [|c l]]]; [done|apply H1|apply H2|apply H3, IH].
Qed.

Lemma EncodeToString_inj l1 l2 :
  Forall is_byte l1 → Forall is_byte l2 → EncodeToString l1 = EncodeToString l2 → l1 = l2.
Proof.
  revert l2. induction l1 as [|a|a b|a b c l1 IH] using list_triple_ind;
    intros [|a' [|b' [|c' l2]]] Hl1 Hl2 Heq; cbn [EncodeToString] in Heq; try discriminate Heq; try done.
  - base64_fields. f_equal. Z.to_euclidean_division_equations; lia.
  - base64_fields. assert (a = a') as -> by (Z.to_euclidean_division_equations; lia).
    f_equal. f_equal. Z.to_euclidean_division_equations; lia.
  - base64_fields. match goal with H : EncodeToString _ = _ |- _ => apply IH in H as ->; [|done..] end.
    repeat f_equal; Z.to_euclidean_division_equations; lia.
Qed.

Lemma EncodeToString_nonempty l : l ≠ [] → EncodeToString l ≠ "".
Proof. by destruct l as [|a [|b [|c l]]]. Qed.

Lemma validate_lookup now sid s :
  sid ≠ "" →
  fst (fst (sessionStore_validate now sid s)) = true ↔ ∃ e, sessions s !! sid = Some e ∧ now ≤ e.
Proof.
  intros Hne. unfold sessionStore_validate. rewrite decide_False by done.
  destruct (sessions s !! sid) as [e|]; [|naive_solver].
  case_decide; cbn; naive_solver lia.
Qed.

Lemma validate_sessions now sid s :
  sessions (snd (sessionStore_validate now sid s)) =
  match sessions s !! sid with
  | Some e => if decide (sid = "") then sessions s
              else if decide (e < now) then delete sid (sessions s)
              else <[sid := now + sessionTTL]> (sessions s)
  | None => sessions s
  end.
Proof.
  unfold sessionStore_validate. case_decide; [by destruct (sessions s !! sid)|].
  destruct (sessions s !! sid); [|done]. by case_decide.
Qed.

Lemma validate_other now sid s k :
  k ≠ sid → sessions (snd (sessionStore_validate now sid s)) !! k = sessions s !! k.
Proof.
  intros Hk. rewrite validate_sessions. go_cases; by rewrite ?lookup_delete_ne, ?lookup_insert_ne by done.
Qed.

(** What the store holds for a session is determined by its history. *)
Lemma session_run_lookup sid h :
  sid ≠ "" →
  match sessions (session_run h) !! sid with
  | Some e => ∃ t ts, presented sid h = Some (t :: ts) ∧ e = t + sessionTTL ∧ unbroken (t :: ts)
  | None => ∀ ts, presented sid h = Some ts → ¬ unbroken ts
  end.
Proof.
  intros Hne. induction h as [|[t [s|s|s]] h IH]; cbn [session_run foldr fst snd session_step presented];
    [unfold newSessionStore; cbn [sessions]; by rewrite lookup_empty|fold (session_run h)..].
  - destruct (decide (s = sid)) as [->|Hs]; cbn [sessions];
      [rewrite lookup_insert_eq; by exists t, []|by rewrite lookup_insert_ne].
  - destruct (decide (s = sid)) as [->|Hs]; [|by rewrite validate_other].
    rewrite validate_sessions. destruct (sessions (session_run h) !! sid) as [e|] eqn:He.
    + destruct IH as (t0 & ts & -> & -> & Hu). rewrite decide_False by done.
      change (cons t <$> Some (t0 :: ts)) with (Some (t :: t0 :: ts)). case_decide; [rewrite lookup_delete_eq; intros ? [= <-] [? _]; lia|].
      rewrite lookup_insert_eq. exists t, (t0 :: ts). split_and!; [done..|]. cbn. split; [lia|exact Hu].
    + rewrite He. destruct (presented sid h) as [ts|]; [|done]. csimpl. intros ? [= <-] Hu.
      eapply IH; [done|]. destruct ts; [done|apply Hu].
  - unfold sessionStore_revoke. destruct (decide (s = sid)) as [->|Hs];
      [rewrite decide_False by done; cbn; by rewrite lookup_delete_eq|].
    case_decide; [done|]. cbn [sessions]. by rewrite lookup_delete_ne.
Qed.

(** ** Theorems *)

(** [C16] Sliding expiry, exactly: whatever was issued, presented and revoked, and at whatever
    times, a session is accepted now exactly when it was issued, not revoked since, and
    never left unpresented for longer than seven days, now included; an accepted session
    gets seven days from now, and no other session is touched. *)
Theorem session_refines (sid : string) (h : list (Z * session_event)) (now : Z) (Hne : sid ≠ "") :
  let '((ok, exp), s') := sessionStore_validate now sid (session_run h) in
  (ok = true ↔ alive sid h now) ∧
  (ok = true → exp = now + sessionTTL ∧ sessions s' !! sid = Some exp) ∧
  (ok = false → sessions s' !! sid = None) ∧
  ∀ k, k ≠ sid → sessions s' !! k = sessions (session_run h) !! k.
Proof.
  pose proof (session_run_lookup sid h Hne) as Hlk.
  pose proof (λ k, validate_other now sid (session_run h) k) as Hother.
  unfold sessionStore_validate in *. rewrite decide_False in * by done. unfold alive.
  destruct (sessions (session_run h) !! sid) as [e|] eqn:He.
  - destruct Hlk as (t & ts & Hp & -> & Hu).
    case_decide as Hlt; cbn [snd sessions] in *; rewrite Hp;
      rewrite ?lookup_delete_eq, ?lookup_insert_eq; split_and!; try done.
    + split; [done|]. intros (? & [= <-] & Hu' & _). lia.
    + split; [intros _|done]. exists (t :: ts). split; [done|]. split; [lia|exact Hu].
  - cbn [snd] in *. split_and!; [|done..]. split; [done|]. intros (ts & Hp & Hu).
    exfalso. apply (Hlk _ Hp). destruct ts; [done|apply Hu].
Qed.

Lemma session_refines_witness :
  fst (sessionStore_validate (10 * 24 * Hour) "abc"
    (session_run [(5 * 24 * Hour, EvValidate "abc"); (0, EvIssue "abc")])) = (true, 17 * 24 * Hour).
Proof.
  pose proof (session_refines "abc" [(5 * 24 * Hour, EvValidate "abc"); (0, EvIssue "abc")] (10 * 24 * Hour)
    ltac:(done)) as H.
  destruct (sessionStore_validate _ _ _) as [[ok exp] s'] eqn:E.
  destruct H as (Hok & Hexp & _).
  assert (ok = true) as ->.
  { apply Hok. exists [5 * 24 * Hour; 0]. split; [reflexivity|]. repeat split; vm_compute; discriminate. }
  destruct (Hexp eq_refl) as [-> _]. reflexivity.
Defined.

(** ** The served requests

    The log of what the server answered, newest first, and the authenticator after it. *)
Record served := mkServed { v_now : Z; v_req : request; v_reply : reply; v_cookies : list cookie }.

Inductive web_step : list served * authenticator → list served * authenticator → Prop :=
  | web_serve log a now rnd r rep cookies a' :
      (∀ buf, rnd = inl buf → length buf = 32%nat) →
      serve rnd now r a = ((rep, cookies), a') →
      web_step (log, a) (mkServed now r rep cookies :: log, a').

(** The request logged in with the dashboard's password and was given the session [sid]. *)
Definition logged_in (cfg : AppConfig) (sid : string) (v : served) : Prop :=
  r_method (v_req v) = "POST" ∧ r_path (v_req v) = "/api/v1/auth/login" ∧
  DashboardPass cfg ≠ "" ∧ r_password (v_req v) = inl (DashboardPass cfg) ∧
  v_cookies v = [setSessionCookie sid (v_now v + sessionTTL)].

Definition logged_out (sid : string) (v : served) : Prop :=
  r_method (v_req v) = "POST" ∧ r_path (v_req v) = "/api/v1/auth/logout" ∧ r_cookie (v_req v) = Some sid.

Lemma public_login : isPublicPath "/api/v1/auth/login" = true.
Proof. reflexivity. Qed.
Lemma public_logout : isPublicPath "/api/v1/auth/logout" = true.
Proof. reflexivity. Qed.

Lemma checkRequest_effect now r a res a' :
  authenticator_checkRequest now r a = (res, a') →
  a_cfg a' = a_cfg a ∧
  (a_sessions a' = a_sessions a ∨
   ∃ sid, r_cookie r = Some sid ∧ a_sessions a' = session_step now (EvValidate sid) (a_sessions a)).
Proof.
  unfold authenticator_checkRequest. case_match; [intros [= _ <-]; auto|].
  destruct (r_cookie r) as [value|]; cbn [session_step].
  - destruct (sessionStore_validate now value (a_sessions a)) as [[ok exp] st] eqn:Hv.
    intros Hr. assert (a' = mkAuth (a_cfg a) st) as -> by (repeat case_match; congruence).
    split; [done|]. right. exists value. by rewrite Hv.
  - intros Hr. assert (a' = mkAuth (a_cfg a) (a_sessions a)) as -> by (repeat case_match; congruence). auto.
Qed.

(** What one request does to the sessions. *)
Lemma serve_effect rnd now r a rep cookies a' :
  serve rnd now r a = ((rep, cookies), a') →
  a_cfg a' = a_cfg a ∧
  ∃ ev, a_sessions a' = match ev with Some e => session_step now e (a_sessions a) | None => a_sessions a end ∧
    match ev with
    | Some (EvIssue sid) => logged_in (a_cfg a) sid (mkServed now r rep cookies) ∧
        ∃ buf, rnd = inl buf ∧ sid = EncodeToString buf
    | Some (EvValidate sid) => r_cookie r = Some sid
    | Some (EvRevoke sid) => r_cookie r = Some sid
    | None => True
    end ∧
    ∀ sid, logged_out sid (mkServed now r rep cookies) → ev = Some (EvRevoke sid).
Proof.
  unfold serve, authenticator_authMiddleware. destruct (isPublicPath (r_path r)) eqn:Hpub.
  - unfold setupRoutes. case_decide as Hinfo; [|case_decide as Hin; [|case_decide as Hout]].
    + unfold Server_AuthInfo. destruct (authenticator_checkRequest now r a) as [[[au s] x] a1] eqn:Hc.
      intros [= <- <- <-]. destruct (checkRequest_effect _ _ _ _ _ Hc) as [-> Heff]. split; [done|].
      assert (∀ sid, ¬ logged_out sid (mkServed now r (InfoJSON (authenticator_authRequired a1) au) [])) as Hno
        by (intros sid (_ & Hp & _); cbn in Hp; destruct Hinfo; congruence).
      destruct Heff as [->|(sid & Hck & ->)]; [exists None|exists (Some (EvValidate sid))];
        (split_and!; [done..|]; intros sid' Ho; by destruct (Hno sid')).
    + destruct Hin as [Hm Hp]. intros Hl.
      assert (∀ sid, ¬ logged_out sid (mkServed now r rep cookies)) as Hno
        by (intros sid (_ & Hp' & _); cbn in Hp'; congruence).
      unfold Server_HandleLogin, sessionStore_issue in Hl.
      case_match; [simplify_eq; split; [done|]; exists None; naive_solver|].
      case_decide as Hpass; [simplify_eq; split; [done|]; exists None; naive_solver|].
      destruct (r_password r) as [pw|] eqn:Hpw; [|simplify_eq; split; [done|]; exists None; naive_solver].
      unfold ConstantTimeCompare in Hl. case_bool_decide as Heq; cbn [negb] in Hl;
        [|simplify_eq; split; [done|]; exists None; naive_solver].
      destruct rnd as [buf|]; [|simplify_eq; split; [done|]; exists None; naive_solver].
      simplify_eq. split; [done|]. exists (Some (EvIssue (EncodeToString buf))).
      split; [done|]. split; [|intros sid Ho; by destruct (Hno sid)].
      split; [repeat split; cbn; by rewrite ?Hpw|by eexists].
    + unfold Server_HandleLogout. intros [= <- <- <-]. split; [done|].
      destruct (r_cookie r) as [value|] eqn:Hck; [exists (Some (EvRevoke value))|exists None];
        (split_and!; [done..|]); intros sid (_ & _ & Hs); cbn in Hs; congruence.
    + intros [= <- <- <-]. split; [done|]. exists None. split_and!; [done..|].
      intros sid (Hm & Hp & _). cbn in *. by destruct Hout.
  - destruct (authenticator_checkRequest now r a) as [[[ok s] x] a1] eqn:Hc.
    destruct (checkRequest_effect _ _ _ _ _ Hc) as [Hcfg Heff].
    assert (∀ rep cookies sid, ¬ logged_out sid (mkServed now r rep cookies)) as Hno.
    { intros ?? sid (_ & Hp & _). cbn in Hp. rewrite Hp, public_logout in Hpub. done. }
    intros H. assert (a' = a1) as ->.
    { destruct ok; cbn [negb] in H; [|congruence]. unfold setupRoutes in H.
      rewrite !decide_False in H by (intros [_ Hp]; rewrite Hp in Hpub; vm_compute in Hpub; done). congruence. }
    split; [done|]. destruct Heff as [->|(sid & Hck & ->)]; [exists None|exists (Some (EvValidate sid))];
      (split_and!; [done..|]; intros sid' Ho; by destruct (Hno rep cookies sid')).
Qed.

(** Every session in the store stems from a login with the password, was not logged out
    since, and expires seven days after it was last issued or presented. *)
Definition vouched (cfg : AppConfig) (log : list served) (sid : string) (e : Z) : Prop :=
  ∃ log1 login log2 v, log = log1 ++ login :: log2 ∧ logged_in cfg sid login ∧
    Forall (λ v, ¬ logged_out sid v) log1 ∧
    v ∈ log1 ++ [login] ∧ (v = login ∨ r_cookie (v_req v) = Some sid) ∧ e = v_now v + sessionTTL.

Definition web_inv (cfg : AppConfig) (s : list served * authenticator) : Prop :=
  a_cfg (snd s) = cfg ∧
  ∀ sid e, sessions (a_sessions (snd s)) !! sid = Some e → sid ≠ "" ∧ vouched cfg (fst s) sid e.

Lemma vouched_cons cfg log sid e v :
  ¬ logged_out sid v → vouched cfg log sid e → vouched cfg (v :: log) sid e.
Proof.
  intros Ho (log1 & login & log2 & w & -> & Hin & Hall & Hw & Htouch & He).
  exists (v :: log1), login, log2, w. split_and!; [done..| | | |done]; [by constructor| |done].
  rewrite <- app_comm_cons. by right.
Qed.

Lemma vouched_touch cfg log sid e v :
  ¬ logged_out sid v → vouched cfg log sid e → r_cookie (v_req v) = Some sid →
  vouched cfg (v :: log) sid (v_now v + sessionTTL).
Proof.
  intros Ho (log1 & login & log2 & w & -> & Hin & Hall & Hw & Htouch & He) Hck.
  exists (v :: log1), login, log2, v. split_and!; [done..| | | |done]; [by constructor|by left|by right].
Qed.

Lemma web_inv_reachable cfg s :
  reachable (λ s, s = ([], newAuthenticator cfg)) web_step s → web_inv cfg s.
Proof.
  apply reachable_invariant.
  - intros ? ->. split; [done|]. intros sid e H. cbn in H. by rewrite lookup_empty in H.
  - intros s0 s1 [Hcfg Hinv] Hstep. destruct Hstep as [log a now rnd r rep cookies a' H32 Hs]. cbn [fst snd] in *.
    destruct (serve_effect _ _ _ _ _ _ _ Hs) as (Hcfg' & ev & Hst & Hev & Hout).
    split; [cbn [snd]; congruence|]. intros sid e. cbn [fst snd]. rewrite Hst. set (v := mkServed now r rep cookies) in *.
    destruct ev as [[s2|s2|s2]|]; cbn [session_step].
    + destruct Hev as (Hin & buf & -> & ->). cbn [sessions]. rewrite Hcfg in Hin.
      assert (Hno : ¬ logged_out sid v) by (intros Ho; by apply Hout in Ho).
      destruct (decide (sid = EncodeToString buf)) as [->|Hne].
      * rewrite lookup_insert_eq. intros [= <-].
        split; [apply EncodeToString_nonempty; intros ->; by specialize (H32 [] eq_refl)|].
        exists [], v, log, v. split_and!; [done|done|constructor|by left|by left|done].
      * rewrite lookup_insert_ne by done. intros He. apply Hinv in He as [??]. split; [done|].
        by apply vouched_cons.
    + assert (Hno : ¬ logged_out sid v) by (intros Ho; by apply Hout in Ho).
      destruct (decide (sid = s2)) as [->|Hne].
      * rewrite validate_sessions. destruct (sessions (a_sessions a) !! s2) as [e0|] eqn:He0; [|congruence].
        destruct (Hinv s2 e0 He0) as [Hs0 Hv0]. rewrite decide_False by done. case_decide;
          [by rewrite lookup_delete_eq|rewrite lookup_insert_eq; intros [= <-]].
        split; [done|]. by eapply (vouched_touch _ _ _ _ v).
      * rewrite validate_other by done. intros He. apply Hinv in He as [??]. split; [done|]. by apply vouched_cons.
    + unfold sessionStore_revoke. intros He.
      assert (sid ≠ s2 ∧ sessions (a_sessions a) !! sid = Some e) as [Hne He'].
      { destruct (decide (s2 = "")) as [->|]; [split; [|done]; intros ->; by apply Hinv in He as [? _]|].
        cbn [sessions] in He. by apply lookup_delete_Some in He as [??]. }
      apply Hinv in He' as [??]. split; [done|]. apply vouched_cons; [|done].
      intros Ho. apply Hout in Ho. congruence.
    + intros He. apply Hinv in He as [??]. split; [done|]. apply vouched_cons; [|done].
      intros Ho. by apply Hout in Ho.
Qed.

Lemma bearer_ok_spec cfg r :
  bearer_ok cfg r = true →
  ApiToken cfg ≠ "" ∧ (HasPrefix (r_bearer r) bearerPrefix = true ∧ TrimPrefix (r_bearer r) bearerPrefix = ApiToken cfg ∨
                       r_token r = ApiToken cfg).
Proof.
  unfold bearer_ok, ConstantTimeCompare. rewrite andb_true_iff, orb_true_iff, !andb_true_iff, !bool_decide_eq_true.
  tauto.
Qed.

Lemma cookie_live now value st exp st' :
  sessionStore_validate now value st = ((true, exp), st') →
  exp = now + sessionTTL ∧ ∃ e, sessions st !! value = Some e ∧ now ≤ e.
Proof.
  unfold sessionStore_validate. case_decide; [done|]. destruct (sessions st !! value) as [e|]; [|done].
  case_decide; [done|]. intros [= <- _]. split; [done|]. exists e. split; [done|lia].
Qed.

Lemma serve_protected rnd now r a :
  isPublicPath (r_path r) = false →
  serve rnd now r a =
    let '((ok, sid, exp), a') := authenticator_checkRequest now r a in
    if ok then ((Handled, if decide (sid ≠ "") then [setSessionCookie sid exp] else []), a')
    else ((HTTPError 401 "authentication required", []), a').
Proof.
  intros Hpub. unfold serve, authenticator_authMiddleware, setupRoutes. rewrite Hpub.
  destruct (authenticator_checkRequest now r a) as [[[[] s] x] a']; cbn [negb]; [|done].
  rewrite !decide_False by (intros [_ Hp]; rewrite Hp in Hpub; vm_compute in Hpub; done).
  by rewrite app_nil_r.
Qed.

Lemma serve_login rnd now r a :
  r_method r = "POST" → r_path r = "/api/v1/auth/login" → serve rnd now r a = Server_HandleLogin rnd now r a.
Proof.
  intros Hm Hp. unfold serve, authenticator_authMiddleware, setupRoutes. rewrite Hp, public_login.
  rewrite decide_False by (by intros [_ ?]). by rewrite decide_True.
Qed.

Lemma serve_logout rnd now r a :
  r_method r = "POST" → r_path r = "/api/v1/auth/logout" → serve rnd now r a = Server_HandleLogout now r a.
Proof.
  intros Hm Hp. unfold serve, authenticator_authMiddleware, setupRoutes. rewrite Hp, public_logout.
  do 2 rewrite decide_False by (by intros [_ ?]). by rewrite decide_True.
Qed.

(** [C8] Nobody gets past the gate without credentials: when a password or token is
    configured, every request for a protected path that reaches its handler carries the API
    token, or a session cookie that an earlier login with the dashboard's password was
    given, that was not logged out since, and that was last issued or presented at most
    seven days ago; whatever requests were served before. *)
Theorem access_needs_credentials (cfg : AppConfig) (log : list served) (a a' : authenticator) (now : Z)
    (rnd : list Z + error) (r : request) (cookies : list cookie)
    (Hr : reachable (λ s, s = ([], newAuthenticator cfg)) web_step (log, a))
    (Hreq : authenticator_authRequired (newAuthenticator cfg) = true)
    (Hprot : isPublicPath (r_path r) = false)
    (Hserve : serve rnd now r a = ((Handled, cookies), a')) :
  (ApiToken cfg ≠ "" ∧ (HasPrefix (r_bearer r) bearerPrefix = true ∧
                        TrimPrefix (r_bearer r) bearerPrefix = ApiToken cfg ∨ r_token r = ApiToken cfg)) ∨
  ∃ sid log1 login log2 v, r_cookie r = Some sid ∧ log = log1 ++ login :: log2 ∧ logged_in cfg sid login ∧
    Forall (λ v, ¬ logged_out sid v) log1 ∧
    v ∈ log1 ++ [login] ∧ (v = login ∨ r_cookie (v_req v) = Some sid) ∧ now ≤ v_now v + sessionTTL.
Proof.
  apply web_inv_reachable in Hr as [Hcfg Hinv]. cbn [fst snd] in *.
  rewrite serve_protected in Hserve by done. unfold authenticator_checkRequest in Hserve.
  assert (authenticator_authRequired a = true) as Ha by (unfold authenticator_authRequired in *; by rewrite Hcfg).
  rewrite Ha in Hserve. cbn [negb] in Hserve.
  destruct (r_cookie r) as [value|] eqn:Hck.
  - destruct (sessionStore_validate now value (a_sessions a)) as [[[] exp] st] eqn:Hv.
    + right. apply cookie_live in Hv as (_ & e & He & Hle).
      destruct (Hinv _ _ He) as [_ (log1 & login & log2 & v & ? & ? & ? & ? & ? & ->)].
      by exists value, log1, login, log2, v.
    + left. destruct (bearer_ok _ r) eqn:Hb; [|done]. apply bearer_ok_spec in Hb. by rewrite <- Hcfg.
  - left. destruct (bearer_ok _ r) eqn:Hb; [|done]. apply bearer_ok_spec in Hb. by rewrite <- Hcfg.
Qed.

Definition sample_auth_cfg : AppConfig :=
  fst (AppConfig_read (SrcDoc (mkDocument None None (Some 9000) (Some "secret") None None None None None None None None None)
    None) (NewConfig "/etc/ehco.json")).
Definition sample_login : request := mkRequest "POST" "/api/v1/auth/login" None "" "" (inl "secret").
Definition sample_bytes : list Z := seqZ 0 32.
Definition sample_sid : string := EncodeToString sample_bytes.
Definition sample_overview : request :=
  mkRequest "GET" "/api/v1/overview" (Some sample_sid) "" "" (inr io_EOF).

Lemma access_needs_credentials_witness : ∃ log1 login log2,
  [mkServed 5 sample_login (JSON 200 true) [setSessionCookie sample_sid (5 + sessionTTL)]] = log1 ++ login :: log2 ∧
  logged_in sample_auth_cfg sample_sid login.
Proof.
  destruct (access_needs_credentials sample_auth_cfg
    [mkServed 5 sample_login (JSON 200 true) [setSessionCookie sample_sid (5 + sessionTTL)]]
    (snd (serve (inl sample_bytes) 5 sample_login (newAuthenticator sample_auth_cfg)))
    (snd (serve (inr io_EOF) 9 sample_overview
      (snd (serve (inl sample_bytes) 5 sample_login (newAuthenticator sample_auth_cfg)))))
    9 (inr io_EOF) sample_overview [setSessionCookie sample_sid (9 + sessionTTL)])
    as [[H _]|(sid & log1 & login & log2 & v & Hck & Hlog & Hin & _)].
  - eapply (reach_step _ _ ([], newAuthenticator sample_auth_cfg)); [by apply reach_init|].
    apply (web_serve [] _ 5 (inl sample_bytes) sample_login); [by intros ? [= <-]|vm_compute; reflexivity].
  - reflexivity.
  - reflexivity.
  - vm_compute; reflexivity.
  - by destruct H.
  - assert (sid = sample_sid) as -> by (by injection Hck as <-). by exists log1, login, log2.
Defined.


