(* ===== verification/SharedConfig.v ===== *)
(** * One configuration object, three readers (internal/cli/config.go, pkg/xray/server.go)

    [MustStartComponents] hands the same [*config.Config] to the relay server, to the web
    server with its authenticator, and to the xray server.  [Server.Reload] of the relays loads
    into that object in place; the reload watcher of xray loads into an object of its own and
    compares it with [xs.cfg], which is the shared object until xray has reloaded once.  This
    file is about what the readers see. *)

From S2P Require Import Prelude GoStd Conf Lb Cmgr Transporter Config Relay ConnTracker UserPool Xray Auth.

Section Shared.
(** The xray configuration behind an identity of [XRayConfig]. *)
Variable xconf : nat → XConfig.

(** [nd_shared]: [xs.cfg] is still the object of the relay server; [nd_instance]: what the
    running xray instance was built from. *)
Record node := mkNode {
  nd_relay : Server; nd_xray : XrayServer; nd_shared : bool; nd_instance : option XConfig }.

Definition set_xs_cfg (x : option XConfig) (xs : XrayServer) : XrayServer :=
  with_cfg (mkLoad x (xs_sync xs) (xs_reload_interval xs)) xs.

(** [Server.Reload], asked for by the ticker, by SIGHUP or by the dashboard.  A load that is
    not skipped puts another object (or nil) into [XRayConfig]. *)
Definition node_Reload (now : Z) (force : bool) (src : source) (tls : option error)
    (order : list (string * Relay)) (nd : node) : node * outcome unit :=
  let (rs, res) := Server_Reload now force src tls order (nd_relay nd) in
  let x := XRayConfig (s_cfg rs) in
  ({| nd_relay := rs;
      nd_xray := if decide (nd_shared nd = true ∧ x ≠ XRayConfig (s_cfg (nd_relay nd)))
                 then set_xs_cfg (xconf <$> x) (nd_xray nd) else nd_xray nd;
      nd_shared := nd_shared nd; nd_instance := nd_instance nd |}, res).

(** One tick of the watcher of xray: [NewConfig] with the same path, [LoadConfig(false)],
    [needReload]. *)
Definition node_xray_tick (env : xray_env) (now : Z) (src : source) (tls : option error) (nd : node) : node * outcome unit :=
  let (cfg, res) := AppConfig_LoadConfig now false src tls (NewConfig (PATH (s_cfg (nd_relay nd)))) in
  match res with
  | Err _ => (nd, Ret tt)
  | Panic p => (nd, Panic p)
  | Ret _ =>
      let ld := mkLoad (xconf <$> XRayConfig cfg) (bool_decide (SyncTrafficEndPoint cfg ≠ "")) (ReloadInterval cfg) in
      let needReload := XrayServer_needReload (xs_cfg (nd_xray nd)) (ld_cfg ld) in
      let (xs, res) := watcher_tick env (inl ld) (nd_xray nd) in
      ({| nd_relay := nd_relay nd; nd_xray := xs; nd_shared := nd_shared nd && negb needReload;
          nd_instance := if needReload then (if xs_running xs then xs_cfg xs else None) else nd_instance nd |}, res)
  end.

(** Successive ticks. *)
Fixpoint node_xray_ticks (env : xray_env) (ticks : list (Z * source * option error)) (nd : node) : node :=
  match ticks with
  | [] => nd
  | (now, src, tls) :: ticks => node_xray_ticks env ticks (fst (node_xray_tick env now src tls nd))
  end.

(** Every proxy inbound has a tag of its own. *)
Definition proxies_by_tag (x : XConfig) : Prop := NoDup (proxy_tags x).

(** What clients can connect to. *)
Definition listens (x : XConfig) : list (string * string) :=
  (λ b, (ib_tag b, ib_listen b)) <$> filter (λ b, InProxyTags (ib_tag b)) (xc_Inbounds x).

(** The source has nothing but [x] as its xray section. *)
Definition says (x : XConfig) (src : source) : Prop :=
  match src with SrcErr _ => True | SrcDoc d _ => ∀ i, d_XRayConfig d = Some i → xconf i = x end.

(** ** Lemmas *)

Lemma proxy_tags_listens x : proxy_tags x = fst <$> listens x.
Proof.
  unfold proxy_tags, listens. induction (xc_Inbounds x) as [|b l IH]; [done|].
  rewrite fmap_cons, !filter_cons. by destruct (decide (InProxyTags (ib_tag b))); csimpl; rewrite IH.
Qed.

Lemma old_by_tag_snoc l b :
  old_by_tag (l ++ [b]) = if InProxyTags (ib_tag b) then <[ib_tag b := b]> (old_by_tag l) else old_by_tag l.
Proof. unfold old_by_tag. by rewrite foldl_app. Qed.

Lemma old_by_tag_lookup l b :
  NoDup (filter (λ t, InProxyTags t) (ib_tag <$> l)) → b ∈ l → InProxyTags (ib_tag b) →
  old_by_tag l !! ib_tag b = Some b.
Proof.
  induction l as [|c l IH] using rev_ind; intros Hnd Hin Hp; [by apply not_elem_of_nil in Hin|].
  rewrite fmap_app, filter_app in Hnd. apply NoDup_app in Hnd as (Hnd & Hdis & _).
  rewrite old_by_tag_snoc. apply elem_of_app in Hin as [Hin| ->%list_elem_of_singleton].
  - destruct (InProxyTags (ib_tag c)) eqn:Hc; [|by apply IH]. rewrite lookup_insert_ne; [by apply IH|].
    intros Heq. apply (Hdis (ib_tag b)).
    + apply list_elem_of_filter. split; [done|]. apply list_elem_of_fmap. by exists b.
    + rewrite <- Heq. csimpl. rewrite filter_cons_True by (by rewrite Hc). by left.
  - destruct (InProxyTags (ib_tag c)); [|done]. by rewrite lookup_insert_eq.
Qed.

(** A configuration does not differ from itself, nor from one with the same inbounds. *)
Lemma needReload_self x : proxies_by_tag x → XrayServer_needReload (Some x) (Some x) = false.
Proof.
  intros Hnd. cbn. unfold proxies_by_tag, proxy_tags in Hnd.
  assert (∀ l, (∀ b, b ∈ l → b ∈ xc_Inbounds x) → any_changed (old_by_tag (xc_Inbounds x)) l = false) as H.
  { induction l as [|b l IH]; intros Hl; [done|]. cbn [any_changed].
    destruct (InProxyTags (ib_tag b)) eqn:Hp; cbn [negb]; [|apply IH; intros; apply Hl; by right].
    rewrite (old_by_tag_lookup _ b) by (rewrite ?Hp; try apply Hl; done || by left).
    rewrite decide_False by auto. apply IH. intros; apply Hl; by right. }
  by apply H.
Qed.

Lemma reload_loop_cfg old s cfgs s' : reload_loop old s cfgs = Ret s' → s_cfg s' = s_cfg s.
Proof.
  revert s. induction cfgs as [|c cfgs IH]; intros s H; [by injection H as ->|].
  cbn in H. apply outcome_bind_Ret in H as (s1 & H1 & H). rewrite (IH _ H). clear IH H.
  assert (∀ t t', spawn_or_continue t c = Ret t' → s_cfg t' = s_cfg t) as Hsp.
  { intros t t' Ht. unfold spawn_or_continue, spawn in Ht.
    destruct (NewRelay _ _) as [r|e|p]; [|by injection Ht as <-|done]. by injection Ht as <-. }
  unfold reload_one in H1. destruct (relayM s !! Label c); [|by apply Hsp].
  destruct (old !! Label c); [|by injection H1 as ->]. destruct (Config_Different _ _); [|by injection H1 as ->].
  by apply Hsp in H1.
Qed.

Lemma close_removed_cfg labels order s : s_cfg (close_removed labels order s) = s_cfg s.
Proof.
  revert s. unfold close_removed. induction order as [|[k r] order IH]; intros s; [done|]. cbn [foldl].
  rewrite IH. cbn [fst snd]. by case_match.
Qed.

Lemma Server_Reload_cfg now force src tls order s old :
  clone_all ∅ (RelayConfigs (s_cfg s)) = Ret old →
  s_cfg (fst (Server_Reload now force src tls order s)) = fst (AppConfig_LoadConfig now force src tls (s_cfg s)).
Proof.
  intros Hc. unfold Server_Reload. rewrite Hc. destruct (AppConfig_LoadConfig _ _ _ _ _) as [cfg [[]|e|p]]; [|done..].
  set (s1 := close_removed _ _ _). assert (s_cfg s1 = cfg) as H1 by (subst s1; by rewrite close_removed_cfg).
  destruct (reload_loop old s1 _) as [s2|e|p] eqn:Hl; [|done..]. cbn. by rewrite (reload_loop_cfg _ _ _ _ Hl).
Qed.

Lemma LoadConfig_xray now force d err tls c :
  skips_load now force c = false →
  XRayConfig (fst (AppConfig_LoadConfig now force (SrcDoc d err) tls c)) = d_XRayConfig d.
Proof.
  intros Hs. unfold AppConfig_LoadConfig. rewrite Hs. cbn [AppConfig_read].
  destruct err; [cbn; by destruct (d_XRayConfig d)|]. unfold AppConfig_Adjust.
  destruct (validate_all _). cbn. by destruct (d_XRayConfig d).
Qed.

Lemma NewConfig_never_skips now force path : skips_load now force (NewConfig path) = false.
Proof. unfold skips_load. cbn. by rewrite bool_decide_eq_false_2 by lia. Qed.

(** A watcher that already sees what the source says does nothing. *)
Lemma node_xray_tick_same env now src tls nd x :
  xs_cfg (nd_xray nd) = Some x → proxies_by_tag x → says x src → fst (node_xray_tick env now src tls nd) = nd.
Proof.
  intros Hx Hp Hs. unfold node_xray_tick.
  destruct (AppConfig_LoadConfig _ _ _ _ _) as [cfg [[]|e|p]] eqn:Hl; [|done..].
  destruct src as [e|d err].
  { unfold AppConfig_LoadConfig in Hl. by rewrite NewConfig_never_skips in Hl. }
  pose proof (LoadConfig_xray now false d err tls _ (NewConfig_never_skips now false (PATH (s_cfg (nd_relay nd))))) as Hd.
  rewrite Hl in Hd. cbn in Hd. unfold watcher_tick. cbn [ld_cfg]. rewrite Hx, Hd.
  destruct (d_XRayConfig d) as [i|] eqn:Hi; cbn [fmap option_fmap option_map].
  - rewrite (Hs i Hi), needReload_self by done. cbn. rewrite andb_true_r. by destruct nd.
  - cbn. rewrite andb_true_r. by destruct nd.
Qed.

Lemma prepare_inbounds_same tls l l' :
  prepare_inbounds tls l = Ret l' → (λ b, (ib_tag b, ib_listen b)) <$> l' = (λ b, (ib_tag b, ib_listen b)) <$> l.
Proof.
  revert l'. induction l as [|b l IH]; intros l' H; [by injection H as <-|].
  cbn [prepare_inbounds] in H. apply outcome_bind_Ret in H as (b' & Hb & H).
  apply outcome_bind_Ret in H as (l1 & Hl & H). injection H as <-. csimpl. rewrite (IH _ Hl). f_equal.
  unfold prepare_inbound in Hb. case_decide; [|by injection Hb as <-].
  destruct (ib_stream b) as [st|]; [case_decide; [by injection Hb as <-|]|];
    apply outcome_bind_Ret in Hb as ([] & _ & Hb); [by injection Hb as <-|done].
Qed.

(** [listens] is a function of the addresses in order. *)
Lemma listens_pairs x :
  listens x = filter (λ p, InProxyTags (fst p)) ((λ b, (ib_tag b, ib_listen b)) <$> xc_Inbounds x).
Proof.
  unfold listens. induction (xc_Inbounds x) as [|b l IH]; [done|].
  rewrite fmap_cons, !filter_cons. cbn [fst]. by destruct (decide (InProxyTags (ib_tag b))); csimpl; rewrite IH.
Qed.

(** What is built for the instance listens where the configuration says. *)
Lemma build_listens tls err x x' : buildXrayInstanceCfg tls err x = Ret x' → listens x' = listens x.
Proof.
  unfold buildXrayInstanceCfg. intros H. apply outcome_bind_Ret in H as (ins & Hins & H).
  apply outcome_bind_Ret in H as ([] & _ & H). injection H as <-.
  rewrite (listens_pairs x), <- (prepare_inbounds_same _ _ _ Hins). unfold listens.
  rewrite stripUnused_inbounds. cbn [xc_Inbounds]. clear Hins. induction ins as [|b l IH]; [done|].
  rewrite !fmap_cons, !filter_cons. cbn [fst].
  destruct (decide (InProxyTags (ib_tag b))) as [Hp|Hp]; case_decide as Ha.
  - rewrite filter_cons_True by done. csimpl. by rewrite IH.
  - by rewrite Ha in Hp.
  - by rewrite filter_cons_False by done.
  - done.
Qed.

Lemma Reload_running env xs xs' res :
  XrayServer_Reload env xs = (xs', res) → xs_running xs' = true →
  ∃ x x', xs_cfg xs = Some x ∧ xs_cfg xs' = Some x' ∧ listens x' = listens x.
Proof.
  unfold XrayServer_Reload, XrayServer_Stop. set (xs0 := mkXray _ _ _ _ _ _ _). intros Hr Hrun.
  destruct (XrayServer_Setup env xs0) as [xs1|e|p] eqn:Hset; [|by injection Hr as <- _..].
  assert (xs_cfg xs' = xs_cfg xs1) as ->.
  { unfold XrayServer_Start in Hr. repeat case_match; by injection Hr as <- _. }
  unfold XrayServer_Setup in Hset. cbn [xs_cfg xs0] in Hset. destruct (xs_cfg xs) as [x|]; [|done].
  apply outcome_bind_Ret in Hset as (x' & Hb & Hset). apply outcome_bind_Ret in Hset as ([] & _ & Hset).
  apply outcome_bind_Ret in Hset as (up & _ & Hset). injection Hset as <-.
  exists x, x'. split_and!; [done..|]. by eapply build_listens.
Qed.

(** ** Theorems *)


(** When the watcher of xray reads the change first, the instance it restarts listens exactly
    where the document says, and from then on [xs.cfg] is an object of its own that no load
    of the relay server touches. *)
Theorem xray_tick_applies (env : xray_env) (nd nd' : node) (now : Z) (src : source) (tls : option error)
    (cfg : AppConfig) (i : nat)
    (Hload : AppConfig_LoadConfig now false src tls (NewConfig (PATH (s_cfg (nd_relay nd)))) = (cfg, Ret tt))
    (Hi : XRayConfig cfg = Some i)
    (Hneed : XrayServer_needReload (xs_cfg (nd_xray nd)) (Some (xconf i)) = true)
    (Htick : node_xray_tick env now src tls nd = (nd', Ret tt))
    (Hup : xs_running (nd_xray nd') = true) :
  (∃ inst, nd_instance nd' = Some inst ∧ xs_cfg (nd_xray nd') = Some inst ∧ listens inst = listens (xconf i)) ∧
  ∀ now2 force2 src2 tls2 order2,
    nd_xray (fst (node_Reload now2 force2 src2 tls2 order2 nd')) = nd_xray nd'.
Proof.
  unfold node_xray_tick in Htick. rewrite Hload in Htick. unfold watcher_tick in Htick. cbn [ld_cfg] in Htick.
  rewrite Hi in Htick. cbn [fmap option_fmap option_map] in Htick. rewrite Hneed, andb_false_r in Htick.
  destruct (XrayServer_Reload env _) as [xs res] eqn:Hr. injection Htick as <- Hres. cbn [nd_xray xs_running] in *.
  split.
  - destruct (Reload_running _ _ _ _ Hr Hup) as (x & x' & Hx & Hx' & Hl). injection Hx as <-.
    exists x'. cbn. by rewrite Hup.
  - intros. unfold node_Reload. destruct (Server_Reload _ _ _ _ _ _). cbn [nd_shared]. by rewrite decide_False by naive_solver.
Qed.
End Shared.

(** ** Credentials

    The authenticator reads the shared object at every request; the sessions are its own. *)

Lemma LoadConfig_credentials now force d err tls c :
  skips_load now force c = false →
  let c' := fst (AppConfig_LoadConfig now force (SrcDoc d err) tls c) in
  DashboardPass c' = default (DashboardPass c) (d_DashboardPass d) ∧
  ApiToken c' = default (ApiToken c) (d_ApiToken d).
Proof.
  intros Hs. unfold AppConfig_LoadConfig. rewrite Hs. cbn [AppConfig_read].
  destruct err; [done|]. unfold AppConfig_Adjust. by destruct (validate_all _).
Qed.

(** A load by the relay server, even one that is reported as failed because a relay is
    not valid, changes the credentials of the dashboard from the next request on: only the
    password and the token of the document are accepted (a field the document lacks keeps its
    old value, so credentials cannot be removed this way); but a session that was opened with
    the old password stays valid as long as it is used. *)
Theorem reload_rotates_credentials (s : Server) (now : Z) (force : bool) (d : document) (err tls : option error)
    (order : list (string * Relay)) (old : gmap string Config) (st : sessionStore)
    (Hclone : clone_all ∅ (RelayConfigs (s_cfg s)) = Ret old)
    (Hload : skips_load now force (s_cfg s) = false) :
  let a := mkAuth (s_cfg (fst (Server_Reload now force (SrcDoc d err) tls order s))) st in
  let pass := default (DashboardPass (s_cfg s)) (d_DashboardPass d) in
  let token := default (ApiToken (s_cfg s)) (d_ApiToken d) in
  (pass ≠ "" → ∀ buf t r p, r_password r = inl p →
     (fst (fst (Server_HandleLogin (inl buf) t r a)) = JSON 200 true ↔ p = pass)) ∧
  (pass ≠ "" → ∀ t r, r_cookie r = None →
     (fst (fst (fst (authenticator_checkRequest t r a))) = true ↔
      token ≠ "" ∧ (r_bearer r = bearerPrefix +:+ token ∨ r_token r = token))) ∧
  (∀ t r sid exp, r_cookie r = Some sid → sid ≠ "" → sessions st !! sid = Some exp → t ≤ exp →
     fst (fst (fst (authenticator_checkRequest t r a))) = true).
Proof.
  intros a pass token.
  destruct (LoadConfig_credentials now force d err tls (s_cfg s) Hload) as [Hp Ht].
  rewrite <- (Server_Reload_cfg _ _ _ _ order _ _ Hclone) in Hp, Ht. fold pass in Hp. fold token in Ht.
  assert (pass ≠ "" → authenticator_authRequired a = true) as Hreq.
  { intros Hne. unfold authenticator_authRequired. cbn [a_cfg a]. by rewrite Hp, bool_decide_eq_true_2. }
  split_and!.
  - intros Hne buf t r p Hr. unfold Server_HandleLogin. rewrite (Hreq Hne). cbn [negb a_cfg a].
    rewrite Hp, decide_False by done. rewrite Hr. unfold ConstantTimeCompare.
    case_bool_decide; cbn; [done|]. split; [done|congruence].
  - intros Hne t r Hr. unfold authenticator_checkRequest. rewrite (Hreq Hne), Hr. cbn [negb a_cfg a_sessions a].
    assert (bearer_ok (s_cfg (fst (Server_Reload now force (SrcDoc d err) tls order s))) r = true ↔
      token ≠ "" ∧ (r_bearer r = bearerPrefix +:+ token ∨ r_token r = token)) as <-; [|by destruct (bearer_ok _ r)].
    unfold bearer_ok, ConstantTimeCompare.
    rewrite Ht, andb_true_iff, orb_true_iff, !andb_true_iff, !bool_decide_eq_true. split.
    + intros [Hn [[Hb Heq]|[_ Heq]]]; (split; [done|]); [left|by right]. by rewrite <- Heq, <- HasPrefix_true.
    + intros [Hn [-> | ->]]; (split; [done|]); [left|by right]. by rewrite HasPrefix_app, TrimPrefix_app.
  - intros t r sid exp Hr Hsid Hst Hexp. unfold authenticator_checkRequest.
    destruct (authenticator_authRequired a); [|done]. cbn [negb a_sessions a]. rewrite Hr.
    unfold sessionStore_validate. rewrite decide_False by done. rewrite Hst, decide_False by lia. done.
Qed.

(** ** Witnesses *)

(** Document [i] has the xray configuration [i]: number 1 listens on port 443, the others on 444. *)
Definition sample_xconf (i : nat) : XConfig :=
  sample_xconfig (if decide (i = 1%nat) then "0.0.0.0,443" else "0.0.0.0,444").

Definition xray_doc (i : nat) (pass : option string) : document :=
  mkDocument None None None pass None None None None (Some []) None None (Some i) None.

Definition booted_cfg : AppConfig :=
  fst (AppConfig_LoadConfig 0 true (SrcDoc (xray_doc 1 (Some "old")) None) None (NewConfig "/etc/ehco.json")).

Definition booted_node : node :=
  mkNode (mkServerState booted_cfg ∅ [] [] 0)
    (mkXray (Some (sample_xconf 1)) false 60 newConnTracker None true 1) true (Some (sample_xconf 1)).

Lemma sample_proxies i : proxies_by_tag (sample_xconf i).
Proof.
  unfold proxies_by_tag. assert (proxy_tags (sample_xconf i) = [XraySSProxyTag]) as -> by reflexivity.
  apply NoDup_singleton.
Qed.

Definition new_ticks : list (Z * source * option error) :=
  [(60, SrcDoc (xray_doc 3 None) None, None); (120, SrcErr io_EOF, None); (180, SrcDoc (xray_doc 4 None) None, None)].


(** The other order: the watcher comes first, and the instance moves to port 444. *)
Lemma xray_tick_applies_witness :
  let nd' := fst (node_xray_tick sample_xconf (mkXrayEnv None None None None None) 60
                    (SrcDoc (xray_doc 2 None) None) None booted_node) in
  ∃ inst, nd_instance nd' = Some inst ∧ listens inst = [(XraySSProxyTag, "0.0.0.0,444")].
Proof.
  intros nd'.
  destruct (xray_tick_applies sample_xconf (mkXrayEnv None None None None None) booted_node nd' 60
    (SrcDoc (xray_doc 2 None) None) None
    (fst (AppConfig_LoadConfig 60 false (SrcDoc (xray_doc 2 None) None) None (NewConfig "/etc/ehco.json"))) 2)
    as [(inst & Hi & _ & Hl) _]; [by vm_compute..|].
  exists inst. by rewrite Hi, Hl.
Defined.

(** After the password changed from [old] to [new], the old one is refused, and the session
    opened with it is not. *)
Lemma reload_rotates_credentials_witness :
  let s := mkServerState booted_cfg ∅ [] [] 0 in
  let a := mkAuth (s_cfg (fst (Server_Reload 50 true (SrcDoc (xray_doc 2 (Some "new")) None) None [] s)))
             (mkSessions {["sid" := 1000]}) in
  let login p := mkRequest "POST" "/api/v1/auth/login" None "" "" (inl p) in
  fst (fst (Server_HandleLogin (inl [0; 0; 0]) 60 (login "old") a)) ≠ JSON 200 true ∧
  fst (fst (Server_HandleLogin (inl [0; 0; 0]) 60 (login "new") a)) = JSON 200 true ∧
  fst (fst (fst (authenticator_checkRequest 60
    (mkRequest "GET" "/api/v1/overview" (Some "sid") "" "" (inr io_EOF)) a))) = true.
Proof.
  intros s a login.
  destruct (reload_rotates_credentials s 50 true (xray_doc 2 (Some "new")) None None [] ∅
    (mkSessions {["sid" := 1000]}) eq_refl ltac:(by vm_compute)) as (Hl & _ & Hs).
  assert (Hne : "new" ≠ "") by done. split_and!.
  - intros H%(Hl Hne [0; 0; 0] 60 (login "old") "old" eq_refl). done.
  - by apply (Hl Hne [0; 0; 0] 60 (login "new") "new" eq_refl).
  - apply (Hs 60 (mkRequest "GET" "/api/v1/overview" (Some "sid") "" "" (inr io_EOF)) "sid" 1000); done.
Defined.
