(* ===== verification/MetricsStore.v ===== *)
(** * internal/cmgr/ms: the local store of node metrics

    The SQLite table is used through the interface [NodeTable]: the statements the store
    executes, each with the result SQLite reports; [NodeTableLaws] states what a
    successful statement did (and that a failed one did nothing).  On top of it the store
    keeps a row-count cache and one latency recorder per operation; the recorder's
    concurrent updates are an interleaving step relation.  The float-valued views
    ([OpStatsSnapshot]'s averages, the metric columns) are left out. *)

From S2P Require Import Prelude GoStd.

(** ** Latency recorders *)

Record opStats := mkOpStats { op_count : Z; op_totalNs : Z; op_maxNs : Z; op_lastNs : Z }.

Definition opStats_zero : opStats := mkOpStats 0 0 0 0.

(** [record], when nothing interferes: the compare-and-swap loop ends in its first round. *)
Definition opStats_record (ns : Z) (s : opStats) : opStats :=
  mkOpStats (wrap64 (op_count s + 1)) (wrap64 (op_totalNs s + ns))
            (if decide (ns ≤ op_maxNs s) then op_maxNs s else ns) ns.

Definition opStats_reset (s : opStats) : opStats := mkOpStats 0 0 0 0.

Record Stats := mkStats {
  AddNode : opStats; AddRule : opStats; QueryNode : opStats; QueryRule : opStats;
  Cleanup : opStats; Vacuum : opStats; Truncate : opStats }.

(** The recorders with their names. *)
Definition Stats_all (s : Stats) : list (string * opStats) :=
  [("add_node", AddNode s); ("add_rule", AddRule s); ("query_node", QueryNode s); ("query_rule", QueryRule s);
   ("cleanup", Cleanup s); ("vacuum", Vacuum s); ("truncate", Truncate s)].

Definition Stats_Reset (s : Stats) : Stats :=
  mkStats (opStats_reset (AddNode s)) (opStats_reset (AddRule s)) (opStats_reset (QueryNode s))
          (opStats_reset (QueryRule s)) (opStats_reset (Cleanup s)) (opStats_reset (Vacuum s))
          (opStats_reset (Truncate s)).

(** ** The table

    [affected]: what [RowsAffected] says. *)
Class NodeTable (DB Row : Type) := {
  db_insert : Z → Row → DB → option error * DB;
  db_delete_before : Z → DB → (Z + error) * DB;
  db_delete_all : DB → option error * DB;
  db_vacuum : DB → option error * DB;
  db_count : DB → Z + error;
  db_pragma : string → DB → Z + error }.

Class NodeTableLaws (DB Row : Type) `{NodeTable DB Row} := {
  db_rows : DB → gmap Z Row;
  db_insert_spec ts row db : match db_insert ts row db with
    | (None, db') => db_rows db' = <[ts := row]> (db_rows db)
    | (Some _, db') => db_rows db' = db_rows db end;
  db_delete_before_spec cutoff db : match db_delete_before cutoff db with
    | (inl n, db') => db_rows db' = filter (λ kv, cutoff ≤ fst kv) (db_rows db) ∧
                      n = Z.of_nat (size (filter (λ kv, fst kv < cutoff) (db_rows db)))
    | (inr _, db') => db_rows db' = db_rows db end;
  db_delete_all_spec db : match db_delete_all db with
    | (None, db') => db_rows db' = ∅
    | (Some _, db') => db_rows db' = db_rows db end;
  db_vacuum_spec db : db_rows (snd (db_vacuum db)) = db_rows db;
  db_count_spec db n : db_count db = inl n → n = Z.of_nat (size (db_rows db)) ∧ n ≤ max_int64 }.

(** What one maintenance call measures: the file size before and after (0 if [os.Stat] fails),
    how long it took when the result was made, and when the deferred [track] ran. *)
Record probe := mkProbe { p_before : Z; p_after : Z; p_took : Z; p_tracked : Z }.

Record MaintenanceResult := mkResult { NodeDeleted : Z; BytesBefore : Z; BytesAfter : Z; DurationMs : Z }.

Section store.
Context {DB Row : Type} `{HN : NodeTable DB Row}.

(** [AddDate(0, 0, -days)] depends on the time zone of the machine: the instant [days]
    calendar days before [now], in Unix seconds. *)
Context (days_before : Z → Z → Z).

Record MetricsStore := mkStore { db : DB; stats : Stats; nodeRows : Z }.

Definition with_db (d : DB) (ms : MetricsStore) : MetricsStore := mkStore d (stats ms) (nodeRows ms).
Definition with_stats (s : Stats) (ms : MetricsStore) : MetricsStore := mkStore (db ms) s (nodeRows ms).

(** [defer track(&ms.stats.X)()]: [d] is how long the operation took. *)
Definition track_AddNode (d : Z) (ms : MetricsStore) : MetricsStore :=
  let s := stats ms in
  with_stats (mkStats (opStats_record d (AddNode s)) (AddRule s) (QueryNode s) (QueryRule s) (Cleanup s) (Vacuum s) (Truncate s)) ms.
Definition track_Cleanup (d : Z) (ms : MetricsStore) : MetricsStore :=
  let s := stats ms in
  with_stats (mkStats (AddNode s) (AddRule s) (QueryNode s) (QueryRule s) (opStats_record d (Cleanup s)) (Vacuum s) (Truncate s)) ms.
Definition track_Vacuum (d : Z) (ms : MetricsStore) : MetricsStore :=
  let s := stats ms in
  with_stats (mkStats (AddNode s) (AddRule s) (QueryNode s) (QueryRule s) (Cleanup s) (opStats_record d (Vacuum s)) (Truncate s)) ms.
Definition track_Truncate (d : Z) (ms : MetricsStore) : MetricsStore :=
  let s := stats ms in
  with_stats (mkStats (AddNode s) (AddRule s) (QueryNode s) (QueryRule s) (Cleanup s) (Vacuum s) (opStats_record d (Truncate s))) ms.

Definition MetricsStore_AddNodeMetric (d ts : Z) (row : Row) (ms : MetricsStore) : outcome unit * MetricsStore :=
  let '(err, d') := db_insert ts row (db ms) in
  let ms := with_db d' ms in
  match err with
  | Some err => (Err err, track_AddNode d ms)
  | None => (Ret tt, track_AddNode d (mkStore (db ms) (stats ms) (wrap64 (nodeRows ms + 1))))
  end.

Definition MetricsStore_deleteOlderThan (cutoff : Z) (ms : MetricsStore) : outcome Z * MetricsStore :=
  match db_delete_before cutoff (db ms) with
  | (inr err, d') => (Err err, with_db d' ms)
  | (inl nodeDeleted, d') => (Ret nodeDeleted, mkStore d' (stats ms) (wrap64 (nodeRows ms - nodeDeleted)))
  end.

Definition MetricsStore_recountRows (ms : MetricsStore) : outcome unit * MetricsStore :=
  match db_count (db ms) with
  | inr err => (Err err, ms)
  | inl n => (Ret tt, mkStore (db ms) (stats ms) n)
  end.

Definition defaultRetentionDays : Z := 30.
Definition truncateConfirm : string := "yes I am sure".
Definition ErrTruncateNotConfirmed : error := Sentinel "truncate requires confirm".

Definition MetricsStore_CleanupOlderThan (p : probe) (now days : Z) (ms : MetricsStore) :
    outcome MaintenanceResult * MetricsStore :=
  let days := if decide (days ≤ 0) then defaultRetentionDays else days in
  let (res, ms) := MetricsStore_deleteOlderThan (days_before now days) ms in
  (nodeDel ← res; Ret (mkResult nodeDel 0 0 (Duration_Milliseconds (p_took p))), track_Cleanup (p_tracked p) ms).

Definition MetricsStore_cleanOldData (d now : Z) (ms : MetricsStore) : outcome unit * MetricsStore :=
  let (res, ms) := MetricsStore_deleteOlderThan (days_before now defaultRetentionDays) ms in
  (_ ← res; Ret tt, track_Cleanup d ms).

Definition MetricsStore_Vacuum (p : probe) (ms : MetricsStore) : outcome MaintenanceResult * MetricsStore :=
  let '(err, d') := db_vacuum (db ms) in
  let ms := with_db d' ms in
  match err with
  | Some err => (Err err, track_Vacuum (p_tracked p) ms)
  | None =>
      let (res, ms) := MetricsStore_recountRows ms in
      (_ ← res; Ret (mkResult 0 (p_before p) (p_after p) (Duration_Milliseconds (p_took p))), track_Vacuum (p_tracked p) ms)
  end.

Definition MetricsStore_Truncate (p : probe) (confirm : string) (ms : MetricsStore) :
    outcome MaintenanceResult * MetricsStore :=
  if decide (confirm ≠ truncateConfirm) then (Err ErrTruncateNotConfirmed, ms)
  else
    let nodeBefore := nodeRows ms in
    let '(err, d1) := db_delete_all (db ms) in
    let ms := with_db d1 ms in
    match err with
    | Some err => (Err err, track_Truncate (p_tracked p) ms)
    | None =>
        let '(err, d2) := db_vacuum (db ms) in
        let ms := with_db d2 ms in
        match err with
        | Some err => (Err err, track_Truncate (p_tracked p) ms)
        | None =>
            let (res, ms) := MetricsStore_recountRows ms in
            (_ ← res; Ret (mkResult nodeBefore (p_before p) (p_after p) (Duration_Milliseconds (p_took p))),
             track_Truncate (p_tracked p) ms)
        end
    end.

Definition MetricsStore_ResetStats (ms : MetricsStore) : MetricsStore := with_stats (Stats_Reset (stats ms)) ms.

(** [Stats] holds the recorders themselves: the floats in milliseconds the snapshot makes of
    them are left out. *)
Record DBHealth := mkHealth {
  FileBytes : Z; PageCount : Z; PageSize : Z; FreelistPages : Z; NodeMetricsRows : Z;
  health_Stats : list (string * opStats) }.

(** [size]: the file size, 0 if [os.Stat] fails; the pragmas are asked in this order. *)
Definition MetricsStore_Health (size : Z) (ms : MetricsStore) : outcome DBHealth :=
  let ask q := match db_pragma q (db ms) with inl n => Ret n | inr err => Err err end in
  count ← ask "page_count"; page ← ask "page_size"; free ← ask "freelist_count";
  Ret (mkHealth size count page free (nodeRows ms) (Stats_all (stats ms))).

(** [NewMetricsStore], once the file is open and [initDB] has succeeded. *)
Definition NewMetricsStore (d now : Z) (opened : DB) : outcome unit * MetricsStore :=
  let ms := mkStore opened (mkStats opStats_zero opStats_zero opStats_zero opStats_zero opStats_zero opStats_zero opStats_zero) 0 in
  let (res, ms) := MetricsStore_cleanOldData d now ms in
  match res with
  | Ret _ => MetricsStore_recountRows ms
  | e => (e, ms)
  end.
End store.
Arguments MetricsStore DB : clear implicits.
Arguments mkStore {DB} _ _ _.

(** ** The row-count cache *)

Section cache.
Context {DB Row : Type} `{HN : NodeTable DB Row} `{HL : !NodeTableLaws DB Row}.
Context (days_before : Z → Z → Z).

Definition row_count (ms : MetricsStore DB) : Z := Z.of_nat (size (db_rows (db ms))).

(** The operations of a store in use; an insert only while the counter has room. *)
Inductive store_step : MetricsStore DB → MetricsStore DB → Prop :=
  | st_add d ts row ms :
      nodeRows ms < max_int64 → store_step ms (snd (MetricsStore_AddNodeMetric d ts row ms))
  | st_cleanup p now days ms : store_step ms (snd (MetricsStore_CleanupOlderThan days_before p now days ms))
  | st_vacuum p ms : store_step ms (snd (MetricsStore_Vacuum p ms))
  | st_truncate p confirm ms : store_step ms (snd (MetricsStore_Truncate p confirm ms))
  | st_reset ms : store_step ms (MetricsStore_ResetStats ms).

Definition store_init (ms : MetricsStore DB) : Prop :=
  ∃ d now opened, NewMetricsStore days_before d now opened = (Ret tt, ms).

(** The cache never undercounts. *)
Definition cache_ok (ms : MetricsStore DB) : Prop := row_count ms ≤ nodeRows ms ≤ max_int64.

Lemma size_split (m : gmap Z Row) (c : Z) :
  Z.of_nat (size m) = Z.of_nat (size (filter (λ kv, fst kv < c) m)) + Z.of_nat (size (filter (λ kv, c ≤ fst kv) m)).
Proof.
  rewrite <- (map_filter_union_complement (λ kv, fst kv < c) m) at 1.
  rewrite map_size_disj_union by apply map_disjoint_filter_complement.
  assert (filter (λ kv : Z * Row, ¬ fst kv < c) m = filter (λ kv, c ≤ fst kv) m) as ->; [|lia].
  apply map_filter_ext. intros k x _. cbn. lia.
Qed.

Lemma recount_spec (ms ms' : MetricsStore DB) res :
  MetricsStore_recountRows ms = (res, ms') →
  db ms' = db ms ∧ (res = Ret tt → nodeRows ms' = row_count ms ∧ nodeRows ms' ≤ max_int64) ∧
  (res ≠ Ret tt → nodeRows ms' = nodeRows ms) ∧ (∀ p, res ≠ Panic p).
Proof.
  unfold MetricsStore_recountRows. destruct (db_count (db ms)) as [n|e] eqn:Hn; intros [= <- <-]; [|done].
  apply db_count_spec in Hn as [-> ?]. done.
Qed.

Lemma delete_spec cutoff (ms ms' : MetricsStore DB) res :
  MetricsStore_deleteOlderThan cutoff ms = (res, ms') → 0 ≤ row_count ms ≤ nodeRows ms → nodeRows ms ≤ max_int64 →
  cache_ok ms' ∧ (∀ n, res = Ret n → db_rows (db ms') = filter (λ kv, cutoff ≤ fst kv) (db_rows (db ms)) ∧
    row_count ms' = row_count ms - n) ∧ ((∀ n, res ≠ Ret n) → db_rows (db ms') = db_rows (db ms)).
Proof.
  unfold MetricsStore_deleteOlderThan, cache_ok, row_count. intros Hrun Hc Hmax.
  pose proof (db_delete_before_spec cutoff (db ms)) as Hd.
  destruct (db_delete_before cutoff (db ms)) as [[n|e] d']; simplify_eq; cbn [db nodeRows with_db].
  - destruct Hd as [-> ->]. pose proof (size_split (db_rows (db ms)) cutoff) as Hs.
    rewrite wrap64_id by (unfold in_int64, min_int64; lia). split; [lia|]. split; [|naive_solver].
    intros n [= <-]. split; [done|]. lia.
  - rewrite Hd. split; [lia|]. split; [done|done].
Qed.

Lemma row_count_nonneg (ms : MetricsStore DB) : 0 ≤ row_count ms.
Proof. unfold row_count. lia. Qed.

Lemma cache_ok_recount (ms ms' : MetricsStore DB) res :
  MetricsStore_recountRows ms = (res, ms') → cache_ok ms → cache_ok ms'.
Proof.
  intros Hr [??]. destruct (recount_spec _ _ _ Hr) as (Hdb & Hok & Herr & Hp).
  assert (row_count ms' = row_count ms) as Hrc by (unfold row_count; by rewrite Hdb).
  destruct res as [[]|e|p]; [|rewrite <- Herr in * by done; unfold cache_ok; lia|by destruct (Hp p)].
  destruct (Hok eq_refl). unfold cache_ok. lia.
Qed.

Lemma cache_ok_vacuum d (ms ms' : MetricsStore DB) res :
  MetricsStore_Vacuum d ms = (res, ms') → cache_ok ms →
  cache_ok ms' ∧ db_rows (db ms') = db_rows (db ms) ∧ (∀ r, res = Ret r → nodeRows ms' = row_count ms').
Proof.
  unfold MetricsStore_Vacuum. pose proof (db_vacuum_spec (db ms)) as Hv.
  destruct (db_vacuum (db ms)) as [[e|] d']; cbn [snd] in Hv.
  - intros [= <- <-] ?. split; [|done]. unfold cache_ok, row_count. cbn. by rewrite Hv.
  - destruct (MetricsStore_recountRows (with_db d' ms)) as [r m] eqn:Hr. intros [= <- <-] Hc.
    assert (cache_ok (with_db d' ms)) as Hc' by (unfold cache_ok, row_count; cbn; by rewrite Hv).
    pose proof (cache_ok_recount _ _ _ Hr Hc') as Hm.
    destruct (recount_spec _ _ _ Hr) as (Hdb & Hok & _). split; [exact Hm|]. cbn in Hdb.
    split; [cbn; by rewrite Hdb|]. intros mr Hres. destruct r as [[]| |]; [|discriminate Hres..].
    destruct (Hok eq_refl) as [Hk _]. cbn. rewrite Hk.
    unfold row_count. cbn. by rewrite Hdb.
Qed.

(** The row deletion that [Truncate] performs before it vacuums, whether or not that works. *)
Lemma cache_ok_truncate d confirm (ms ms' : MetricsStore DB) res :
  MetricsStore_Truncate d confirm ms = (res, ms') → cache_ok ms →
  cache_ok ms' ∧ (∀ mr, res = Ret mr → db_rows (db ms') = ∅ ∧ nodeRows ms' = 0 ∧ NodeDeleted mr = nodeRows ms).
Proof.
  unfold MetricsStore_Truncate. case_decide; [by intros [= <- <-]|].
  pose proof (db_delete_all_spec (db ms)) as Hd. destruct (db_delete_all (db ms)) as [[e|] d1].
  - intros [= <- <-] ?. split; [|done]. unfold cache_ok, row_count. cbn. by rewrite Hd.
  - cbn [with_db db]. pose proof (db_vacuum_spec d1) as Hv. destruct (db_vacuum d1) as [[e|] d2]; cbn [snd] in Hv.
    + intros [= <- <-] [??]. split; [|done]. unfold cache_ok, row_count in *. cbn. rewrite Hv, Hd, map_size_empty. lia.
    + destruct (MetricsStore_recountRows _) as [r m] eqn:Hr. intros [= <- <-] [Hc1 Hc2].
      pose proof (row_count_nonneg ms).
      assert (cache_ok (with_db d2 (with_db d1 ms))) as Hc'
        by (unfold cache_ok, row_count; cbn; rewrite Hv, Hd, map_size_empty; lia).
      pose proof (cache_ok_recount _ _ _ Hr Hc') as Hm. split; [exact Hm|]. intros mr Hn. destruct r as [[]| |]; [|discriminate Hn..]. injection Hn as <-.
      destruct (recount_spec _ _ _ Hr) as (Hdb & Hok & _). cbn in Hdb. cbn [db nodeRows track_Truncate with_stats]. destruct (Hok eq_refl) as [Hk _].
      rewrite Hdb, Hv, Hd. split; [done|]. split; [|done]. rewrite Hk. unfold row_count. cbn.
      by rewrite Hv, Hd, map_size_empty.
Qed.

Lemma cache_ok_step (ms ms' : MetricsStore DB) : store_step ms ms' → cache_ok ms → cache_ok ms'.
Proof.
  intros Hs [Hc1 Hc2]. destruct Hs as [d ts row ms Hroom|d now days ms|d ms|d confirm ms|ms].
  - unfold MetricsStore_AddNodeMetric, cache_ok, row_count in *. pose proof (db_insert_spec ts row (db ms)) as Hi.
    destruct (db_insert ts row (db ms)) as [[e|] d']; cbn; rewrite Hi; [lia|].
    rewrite wrap64_id by (unfold in_int64, min_int64; lia). pose proof (map_size_insert ts row (db_rows (db ms))) as Hsz.
    rewrite Hsz. destruct (db_rows (db ms) !! ts); unfold id; lia.
  - unfold MetricsStore_CleanupOlderThan. pose proof (row_count_nonneg ms).
    destruct (MetricsStore_deleteOlderThan _ ms) as [r m] eqn:Hr.
    apply delete_spec in Hr as [Hm _]; [|lia..]. exact Hm.
  - destruct (MetricsStore_Vacuum d ms) as [r m] eqn:Hr. by apply cache_ok_vacuum in Hr as [? _].
  - destruct (MetricsStore_Truncate d confirm ms) as [r m] eqn:Hr. by apply cache_ok_truncate in Hr as [? _].
  - done.
Qed.

Lemma cache_ok_reachable (ms : MetricsStore DB) : reachable store_init store_step ms → cache_ok ms.
Proof.
  apply reachable_invariant; [|intros; by eapply cache_ok_step].
  intros s (d & now & opened & Hn). unfold NewMetricsStore in Hn.
  destruct (MetricsStore_cleanOldData _ _ _ _) as [[[]|e|p] m]; [|done..].
  destruct (recount_spec _ _ _ Hn) as (Hdb & Hok & _). destruct (Hok eq_refl).
  assert (row_count s = row_count m) by (unfold row_count; by rewrite Hdb). unfold cache_ok. lia.
Qed.

End cache.

(** A table that satisfies the interface: a map, and whether its disk is full. *)
Record map_table := mkTable { t_rows : gmap Z Z; t_full : bool }.

Definition disk_full : error := Errorf "database or disk is full".

#[global] Instance map_node_table : NodeTable map_table Z := {
  db_insert ts row t := if t_full t then (Some disk_full, t) else (None, mkTable (<[ts := row]> (t_rows t)) (t_full t));
  db_delete_before cutoff t :=
    (inl (Z.of_nat (size (filter (λ kv, fst kv < cutoff) (t_rows t)))),
     mkTable (filter (λ kv, cutoff ≤ fst kv) (t_rows t)) (t_full t));
  db_delete_all t := (None, mkTable ∅ (t_full t));
  db_vacuum t := if t_full t then (Some disk_full, t) else (None, t);
  db_count t := let n := Z.of_nat (size (t_rows t)) in if decide (n ≤ max_int64) then inl n else inr disk_full;
  db_pragma _ t := inl 0 }.

#[global] Instance map_node_table_laws : NodeTableLaws map_table Z.
Proof.
  refine {| db_rows := t_rows |}.
  - intros ts row db. cbn. by destruct (t_full db).
  - done.
  - done.
  - intros db. cbn. by destruct (t_full db).
  - intros db n. cbn. case_decide; naive_solver.
Defined.

Definition utc_days_before (now days : Z) : Z := now - days * 86400.

Definition sample_store : MetricsStore map_table :=
  snd (NewMetricsStore utc_days_before 1 2592010 (mkTable (<[5 := 1]> (<[20 := 1]> ∅)) false)).

Definition sample_probe : probe := mkProbe 4096 4096 Millisecond Millisecond.


(** ** Concurrent recording

    [record] by several goroutines: each atomic operation is one step, and [RCas m] is a
    goroutine that has loaded [m] and is about to compare and swap. *)
Inductive rec_pc := RCount | RTotal | RLast | RLoad | RCas (m : Z) | RDone.

#[global] Instance rec_pc_eq_dec : EqDecision rec_pc.
Proof. solve_decision. Defined.

Record recorder := mkRecorder { rd_ns : Z; rd_pc : rec_pc }.

Definition recorder_step (r : recorder) (s : opStats) : option (recorder * opStats) :=
  let ns := rd_ns r in
  match rd_pc r with
  | RCount => Some (mkRecorder ns RTotal, mkOpStats (wrap64 (op_count s + 1)) (op_totalNs s) (op_maxNs s) (op_lastNs s))
  | RTotal => Some (mkRecorder ns RLast, mkOpStats (op_count s) (wrap64 (op_totalNs s + ns)) (op_maxNs s) (op_lastNs s))
  | RLast => Some (mkRecorder ns RLoad, mkOpStats (op_count s) (op_totalNs s) (op_maxNs s) ns)
  | RLoad => Some (mkRecorder ns (if decide (ns ≤ op_maxNs s) then RDone else RCas (op_maxNs s)), s)
  | RCas m =>
      if decide (op_maxNs s = m)
      then Some (mkRecorder ns RDone, mkOpStats (op_count s) (op_totalNs s) ns (op_lastNs s))
      else Some (mkRecorder ns RLoad, s)
  | RDone => None
  end.

Definition recording : Type := opStats * list recorder.

Inductive record_step : recording → recording → Prop :=
  | rec_step i r r' s s' l :
      l !! i = Some r → recorder_step r s = Some (r', s') → record_step (s, l) (s', <[i := r']> l).

Definition record_start (s : opStats) (nss : list Z) : recording :=
  (s, (λ ns, mkRecorder ns RCount) <$> nss).

Definition all_done (st : recording) : Prop := Forall (λ r, rd_pc r = RDone) (snd st).

(** What each goroutine has contributed so far. *)
Definition counted (r : recorder) : Z := match rd_pc r with RCount => 0 | _ => 1 end.
Definition totalled (r : recorder) : Z := match rd_pc r with RCount | RTotal => 0 | _ => rd_ns r end.
Definition maxed (r : recorder) (m : Z) : Z := match rd_pc r with RDone => Z.max (rd_ns r) m | _ => m end.
Definition lasted (r : recorder) : bool := match rd_pc r with RCount | RTotal | RLast => false | _ => true end.

Lemma sum_Z_fmap_insert {A} (f : A → Z) (l : list A) i x y :
  l !! i = Some x → sum_Z (f <$> <[i := y]> l) = sum_Z (f <$> l) - f x + f y.
Proof.
  revert i. induction l as [|z l IH]; intros [|i]; csimpl; [done|done|intros [= ->]; lia|].
  intros Hi. rewrite (IH i Hi). lia.
Qed.

Lemma foldr_maxed_insert l i r r' m :
  l !! i = Some r → rd_pc r ≠ RDone →
  foldr maxed m (<[i := r']> l) = maxed r' (foldr maxed m l).
Proof.
  intros Hi Hr. revert i Hi. induction l as [|x l IH]; intros [|i]; csimpl; [done|done|intros [= ->]|intros Hi].
  - f_equal. unfold maxed. by destruct (rd_pc r).
  - rewrite (IH i Hi). unfold maxed. do 2 case_match; lia.
Qed.

Record record_inv (s0 : opStats) (nss : list Z) (st : recording) : Prop := {
  ri_ns : rd_ns <$> snd st = nss;
  ri_count : op_count (fst st) = wrap64 (op_count s0 + sum_Z (counted <$> snd st));
  ri_total : op_totalNs (fst st) = wrap64 (op_totalNs s0 + sum_Z (totalled <$> snd st));
  ri_max : op_maxNs (fst st) = foldr maxed (op_maxNs s0) (snd st);
  ri_cas : Forall (λ r, ∀ m, rd_pc r = RCas m → m < rd_ns r) (snd st);
  ri_last : existsb lasted (snd st) = true → op_lastNs (fst st) ∈ nss }.

Lemma recorder_step_inv s0 nss s l i r r' s' :
  record_inv s0 nss (s, l) → l !! i = Some r → recorder_step r s = Some (r', s') → record_inv s0 nss (s', <[i := r']> l).
Proof.
  intros [Hns Hcount Htotal Hmax Hcas Hlast] Hi Hstep. cbn [fst snd] in *.
  assert (Hrns : rd_ns r' = rd_ns r).
  { unfold recorder_step in Hstep. repeat case_match; by simplify_eq/=. }
  assert (Hin : rd_ns r ∈ nss) by (rewrite <- Hns; apply list_elem_of_fmap; exists r; split; [done|by eapply list_elem_of_lookup_2]).
  assert (Hnd : rd_pc r ≠ RDone) by (intros Hd; unfold recorder_step in Hstep; by rewrite Hd in Hstep).
  assert (Hrcas : ∀ m, rd_pc r = RCas m → m < rd_ns r) by (by apply (Forall_lookup_1 _ _ _ _ Hcas Hi)).
  split; cbn [fst snd].
  - rewrite list_fmap_insert, Hrns, Hns. apply list_insert_id. rewrite <- Hns, list_lookup_fmap, Hi. done.
  - rewrite (sum_Z_fmap_insert _ _ _ _ _ Hi). unfold recorder_step, counted in *.
    destruct (rd_pc r) eqn:Hpc; repeat case_match; simplify_eq/=; rewrite Hcount, ?wrap64_wrap64_add; f_equal; lia.
  - rewrite (sum_Z_fmap_insert _ _ _ _ _ Hi). unfold recorder_step, totalled in *.
    destruct (rd_pc r) eqn:Hpc; repeat case_match; simplify_eq/=; rewrite Htotal, ?wrap64_wrap64_add; f_equal; lia.
  - rewrite (foldr_maxed_insert _ _ _ _ _ Hi Hnd), <- Hmax. unfold recorder_step, maxed in *.
    destruct (rd_pc r) eqn:Hpc; repeat case_match; simplify_eq/=; try lia. specialize (Hrcas _ eq_refl). lia.
  - apply Forall_insert; [done|]. unfold recorder_step in Hstep. intros m Hm.
    destruct (rd_pc r) eqn:Hpc; repeat case_match; simplify_eq/=. lia.
  - intros Hex. destruct (decide (rd_pc r = RLast)) as [Hpc|Hpc].
    + unfold recorder_step in Hstep. rewrite Hpc in Hstep. by simplify_eq/=.
    + assert (op_lastNs s' = op_lastNs s) as ->
        by (unfold recorder_step in Hstep; destruct (rd_pc r); repeat case_match; simplify_eq/=; congruence).
      apply Hlast. apply existsb_exists in Hex as (x & Hx & Hl). apply existsb_exists.
      apply list_elem_of_In, list_elem_of_lookup in Hx as (j & Hj).
      apply list_lookup_insert_Some in Hj as [(-> & -> & _)|[_ Hj]].
      * exists r. split; [by eapply list_elem_of_In, list_elem_of_lookup_2|].
        unfold recorder_step, lasted in *. by destruct (rd_pc r); simplify_eq/=.
      * exists x. split; [by eapply list_elem_of_In, list_elem_of_lookup_2|done].
Qed.

Lemma record_inv_start s0 nss : op_count s0 = wrap64 (op_count s0) → op_totalNs s0 = wrap64 (op_totalNs s0) →
  record_inv s0 nss (record_start s0 nss).
Proof.
  intros Hc Ht. unfold record_start. split; cbn [fst snd].
  - rewrite <- list_fmap_compose. apply list_fmap_id.
  - assert (sum_Z (counted <$> ((λ ns, mkRecorder ns RCount) <$> nss)) = 0) as -> by (clear; induction nss; done).
    by rewrite Z.add_0_r.
  - assert (sum_Z (totalled <$> ((λ ns, mkRecorder ns RCount) <$> nss)) = 0) as -> by (clear; induction nss; done).
    by rewrite Z.add_0_r.
  - induction nss; [done|]. cbn. done.
  - apply Forall_fmap, Forall_true. done.
  - induction nss as [|n nss IH]; [done|]. cbn. intros H. apply list_elem_of_further. by apply IH.
Qed.

(** A bound on the work left: a goroutine that has to retry can only blame a swap that
    succeeded, and every goroutine swaps at most once. *)
Definition weight (max : Z) (r : recorder) : Z :=
  match rd_pc r with
  | RCount => 5 | RTotal => 4 | RLast => 3 | RLoad => 2
  | RCas m => if decide (max = m) then 1 else 3
  | RDone => 0
  end.

Definition unfinished (r : recorder) : Z := match rd_pc r with RDone => 0 | _ => 1 end.

Definition work (st : recording) : Z :=
  (2 * Z.of_nat (length (snd st)) + 1) * sum_Z (unfinished <$> snd st)
  + sum_Z (weight (op_maxNs (fst st)) <$> snd st).

Lemma weight_bounds max r : 0 ≤ weight max r ≤ 5.
Proof. unfold weight. repeat case_match; lia. Qed.

Lemma sum_weight_nonneg max l : 0 ≤ sum_Z (weight max <$> l) ∧ 0 ≤ sum_Z (unfinished <$> l).
Proof.
  induction l as [|r l IH]; csimpl; [done|]. pose proof (weight_bounds max r).
  assert (0 ≤ unfinished r) by (unfold unfinished; case_match; lia). lia.
Qed.

Lemma sum_weight_change max max' l :
  sum_Z (weight max' <$> l) ≤ sum_Z (weight max <$> l) + 2 * Z.of_nat (length l).
Proof.
  induction l as [|r l IH]; csimpl; [lia|].
  assert (weight max' r ≤ weight max r + 2) by (unfold weight; repeat case_match; lia). lia.
Qed.

Lemma record_step_work st st' : record_step st st' → work st' < work st ∧ length (snd st') = length (snd st).
Proof.
  intros [i r r' s s' l Hi Hstep]. unfold work. cbn [fst snd]. rewrite length_insert. split; [|done].
  rewrite (sum_Z_fmap_insert unfinished _ _ _ _ Hi).
  pose proof (sum_weight_change (op_maxNs s) (op_maxNs s') l) as Hch.
  rewrite (sum_Z_fmap_insert _ _ _ _ _ Hi).
  unfold recorder_step in Hstep. unfold unfinished at 2 3, weight at 2 3.
  destruct (rd_pc r) as [| | | |m|] eqn:Hpc; simplify_eq/=; try nia.
  - case_decide; cbn [rd_pc]; [nia|]. rewrite decide_True by done. nia.
  - case_decide; simplify_eq/=; case_decide; first [done|nia].
Qed.

Lemma record_steps_work k st st' :
  nsteps record_step k st st' → Z.of_nat k + work st' ≤ work st.
Proof.
  induction 1 as [|k st st1 st' Hs _ IH]; [lia|]. apply record_step_work in Hs as [? _]. lia.
Qed.

Lemma work_start s nss :
  work (record_start s nss) = 2 * Z.of_nat (length nss) * Z.of_nat (length nss) + 6 * Z.of_nat (length nss).
Proof.
  unfold work, record_start. cbn [fst snd]. rewrite length_fmap.
  assert (sum_Z (unfinished <$> ((λ ns, mkRecorder ns RCount) <$> nss)) = Z.of_nat (length nss)) as ->
    by (induction nss as [|n nss IH]; [done|]; csimpl; rewrite IH; unfold unfinished; cbn [rd_pc]; lia).
  assert (sum_Z (weight (op_maxNs s) <$> ((λ ns, mkRecorder ns RCount) <$> nss)) = 5 * Z.of_nat (length nss)) as ->
    by (induction nss as [|n nss IH]; [done|]; csimpl; rewrite IH; unfold weight; cbn [rd_pc]; lia).
  lia.
Qed.

Lemma record_not_done st : Exists (λ r, rd_pc r ≠ RDone) (snd st) → ∃ st', record_step st st'.
Proof.
  destruct st as [s l]. cbn. intros He. apply Exists_exists in He as (r & Hr & Hpc).
  apply list_elem_of_lookup in Hr as [i Hi].
  destruct (recorder_step r s) as [[r' s']|] eqn:Hs; [by eexists; eapply rec_step|].
  unfold recorder_step in Hs. by repeat case_match.
Qed.

Lemma sum_all_done (f : recorder → Z) (g : Z → Z) l :
  Forall (λ r, rd_pc r = RDone) l → (∀ r, rd_pc r = RDone → f r = g (rd_ns r)) → sum_Z (f <$> l) = sum_Z (g <$> (rd_ns <$> l)).
Proof. intros Hd Hf. induction Hd as [|r l Hr _ IH]; csimpl; [done|]. by rewrite IH, Hf. Qed.

(** [C27] Concurrent recording is exact: however the atomic steps of any number of [record]
    calls interleave, none is ever stuck, all are done after at most 2n² + 6n steps, and
    then the count has grown by n, the total by the sum of the durations, the maximum is
    the maximum, and the last duration is one of them. *)
Theorem opStats_concurrent (s0 : opStats) (nss : list Z) (k : nat) (st : recording)
    (Hc : in_int64 (op_count s0)) (Ht : in_int64 (op_totalNs s0))
    (Hr : nsteps record_step k (record_start s0 nss) st) :
  let n := Z.of_nat (length nss) in
  Z.of_nat k ≤ 2 * n * n + 6 * n ∧
  (all_done st ∨ ∃ st', record_step st st') ∧
  (all_done st →
     op_count (fst st) = wrap64 (op_count s0 + n) ∧ op_totalNs (fst st) = wrap64 (op_totalNs s0 + sum_Z nss) ∧
     op_maxNs (fst st) = foldr Z.max (op_maxNs s0) nss ∧ (nss ≠ [] → op_lastNs (fst st) ∈ nss)).
Proof.
  split; [|split].
  - pose proof (record_steps_work _ _ _ Hr) as Hw. rewrite work_start in Hw.
    destruct (sum_weight_nonneg (op_maxNs (fst st)) (snd st)). unfold work in Hw. nia.
  - unfold all_done. destruct (decide (Forall (λ r, rd_pc r = RDone) (snd st))) as [Hd|Hd]; [by left|right].
    apply record_not_done. by apply not_Forall_Exists in Hd; [|intros r; apply _].
  - intros Hd. assert (record_inv s0 nss st) as [Hns Hcount Htotal Hmax _ Hlast].
    { apply rtc_nsteps_2 in Hr. revert Hr. generalize (record_inv_start s0 nss ltac:(by rewrite wrap64_id) ltac:(by rewrite wrap64_id)).
      generalize (record_start s0 nss). clear -nss. intros st0 Hi Hs.
      induction Hs as [|st0 st1 st' [i r r' s s' l Hl Hstep] _ IH]; [done|]. apply IH. by eapply recorder_step_inv. }
    rewrite Hcount, Htotal, Hmax. rewrite (sum_all_done counted (λ _, 1)), (sum_all_done totalled id), Hns;
      [|done|by intros r Hp; unfold totalled; rewrite Hp|done|by intros r Hp; unfold counted; rewrite Hp].
    rewrite list_fmap_id. split_and!; [| |clear Hmax Hcount Htotal Hlast Hr|].
    + f_equal. f_equal. clear. induction nss; csimpl; lia.
    + done.
    + rewrite <- Hns. unfold all_done in Hd. clear -Hd. induction Hd as [|r l Hp _ IH]; [done|]. csimpl. rewrite IH. unfold maxed. by rewrite Hp.
    + intros Hne. apply Hlast. rewrite <- Hns in Hne. unfold all_done in Hd. destruct (snd st) as [|r l]; [done|].
      inversion Hd as [|?? Hp _]. cbn. unfold lasted. by rewrite Hp.
Qed.

(** Two goroutines, the smaller duration swapped in between the other's load and its swap. *)
Definition contended : list nat := [0; 1; 0; 1; 0; 1; 0; 1; 1; 0; 0; 0]%nat.

Fixpoint record_schedule (sched : list nat) (st : recording) : option recording :=
  match sched with
  | [] => Some st
  | i :: sched =>
      r ← snd st !! i; '(r', s') ← recorder_step r (fst st); record_schedule sched (s', <[i := r']> (snd st))
  end.

Lemma record_schedule_nsteps sched st st' :
  record_schedule sched st = Some st' → nsteps record_step (length sched) st st'.
Proof.
  revert st. induction sched as [|i sched IH]; intros [s l] Hrun; cbn in *; [simplify_eq; constructor|].
  destruct (l !! i) as [r|] eqn:Hi; [|done]. cbn in Hrun.
  destruct (recorder_step r s) as [[r' s']|] eqn:Hs; [|done]. econstructor; [by eapply rec_step|by apply IH].
Qed.

Lemma opStats_concurrent_witness : ∃ st,
  nsteps record_step 12 (record_start opStats_zero [9; 4]) st ∧ op_maxNs (fst st) = 9 ∧ op_count (fst st) = 2.
Proof.
  destruct (record_schedule contended (record_start opStats_zero [9; 4])) as [st|] eqn:E; [|vm_compute in E; discriminate E].
  assert (Hn : nsteps record_step 12 (record_start opStats_zero [9; 4]) st)
    by exact (record_schedule_nsteps contended _ _ E).
  exists st. split; [exact Hn|].
  destruct (opStats_concurrent opStats_zero [9; 4] 12 st in_int64_0 in_int64_0 Hn) as (_ & _ & H).
  destruct H as (Hc & _ & Hm & _).
  - vm_compute in E. injection E as <-. repeat constructor.
  - rewrite Hc, Hm. split; vm_compute; reflexivity.
Defined.
