(* ===== verification/MetricsOpen.v ===== *)
(** * internal/cmgr/ms/ms.go: opening the metrics store

    [MetricsStore] begins with an open database.  Here is the way there: directory, file,
    [sql.Open] and the two statements of [initDB], with the files of the machine as a map from
    paths to databases; and what a restart of the program keeps. *)

From S2P Require Import Prelude GoStd MetricsStore.

(** The statements of [initDB] on a database (an empty file is an empty database). *)
Class NodeSchema (DB : Type) := {
  db_empty : DB;
  db_create_node_metrics : DB → option error * DB;
  db_drop_rule_metrics : DB → option error * DB }.

(** [CREATE TABLE IF NOT EXISTS] and dropping another table leave the rows alone. *)
Class NodeSchemaLaws (DB Row : Type) `{NodeTableLaws DB Row, NodeSchema DB} : Prop := {
  db_empty_rows : db_rows db_empty = ∅;
  db_create_rows d : db_rows (snd (db_create_node_metrics d)) = db_rows d;
  db_drop_rows d : db_rows (snd (db_drop_rule_metrics d)) = db_rows d }.

(** What the calls of the operating system and of database/sql return.  [oe_stat]: an error of
    [os.Stat] other than that the file does not exist. *)
Record open_env := mkOpenEnv {
  oe_mkdir : option error; oe_stat : option error; oe_create : option error; oe_close : option error;
  oe_sql_open : option error }.

Section Open.
Context {DB Row : Type} `{HN : NodeTable DB Row} `{HS : NodeSchema DB}.
Context (days_before : Z → Z → Z).

Notation disk := (gmap string DB).

Definition MetricsStore_initDB (d : DB) : option error * DB :=
  let '(err, d) := db_create_node_metrics d in
  match err with Some err => (Some err, d) | None => db_drop_rule_metrics d end.

(** [if _, err := os.Stat(dbPath); os.IsNotExist(err) { ... }] *)
Definition create_if_missing (env : open_env) (path : string) (fs : disk) : option error * disk :=
  match fs !! path, oe_stat env with
  | None, None =>
      match oe_create env with
      | Some err => (Some err, fs)
      | None => (oe_close env, <[path := db_empty]> fs)
      end
  | _, _ => (None, fs)
  end.

(** The whole of [NewMetricsStore]: the store, or the error, and the files afterwards. *)
Definition NewMetricsStore_at (env : open_env) (d now : Z) (path : string) (fs : disk) :
    outcome (MetricsStore DB) * disk :=
  match oe_mkdir env with
  | Some err => (Err err, fs)
  | None =>
      let '(err, fs) := create_if_missing env path fs in
      match err with
      | Some err => (Err err, fs)
      | None =>
          match oe_sql_open env with
          | Some err => (Err err, fs)
          | None =>
              let '(err, db1) := MetricsStore_initDB (default db_empty (fs !! path)) in
              match err with
              | Some err => (Err err, <[path := db1]> fs)
              | None =>
                  let '(res, ms) := NewMetricsStore days_before d now db1 in
                  (_ ← res; Ret ms, <[path := db ms]> fs)
              end
          end
      end
  end.

(** [Close] gives up the handle; the file stays as the last statement left it. *)
Definition MetricsStore_Close (close_err : option error) (path : string) (ms : MetricsStore DB) (fs : disk) :
    outcome unit * disk :=
  (check_err close_err, <[path := db ms]> fs).

Context `{HL : !NodeTableLaws DB Row} `{HSL : !NodeSchemaLaws DB Row}.

(** ** Lemmas *)

Lemma initDB_rows (d : DB) : db_rows (snd (MetricsStore_initDB d)) = db_rows d.
Proof.
  unfold MetricsStore_initDB. pose proof (db_create_rows d) as Hc. destruct (db_create_node_metrics d) as [[e|] d1].
  - exact Hc.
  - cbn in Hc. by rewrite db_drop_rows.
Qed.

Lemma create_if_missing_spec env path (fs fs' : disk) err :
  create_if_missing env path fs = (err, fs') →
  db_rows (default db_empty (fs' !! path)) = db_rows (default db_empty (fs !! path)) ∧
  ∀ p, p ≠ path → fs' !! p = fs !! p.
Proof.
  unfold create_if_missing. intros H. destruct (fs !! path) eqn:Hf; [injection H as _ <-; by rewrite Hf|].
  destruct (oe_stat env); [injection H as _ <-; by rewrite Hf|]. destruct (oe_create env); injection H as _ <-; [by rewrite Hf|].
  split; [by rewrite lookup_insert_eq|]. intros p Hp. by rewrite lookup_insert_ne.
Qed.

Lemma NewMetricsStore_rows d now (d0 : DB) ms res :
  NewMetricsStore days_before d now d0 = (res, ms) → res = Ret tt →
  db_rows (db ms) = filter (λ kv, days_before now defaultRetentionDays ≤ fst kv) (db_rows d0) ∧
  nodeRows ms = row_count ms.
Proof.
  unfold NewMetricsStore, MetricsStore_cleanOldData, MetricsStore_deleteOlderThan. cbn [db].
  pose proof (db_delete_before_spec (days_before now defaultRetentionDays) d0) as Hd.
  destruct (db_delete_before _ d0) as [[n|e] d1]; [|intros [= <- <-]; done].
  cbn [mbind outcome_bind]. intros Hr ->. apply recount_spec in Hr as (Hdb & Hok & _).
  destruct (Hok eq_refl) as [-> _]. split; [|unfold row_count; by rewrite Hdb].
  rewrite Hdb. cbn. apply Hd.
Qed.

(** ** Theorem *)

(** [C29] A restart keeps exactly the recent history: opening the store, on whatever was left
    at its path by an earlier run, gives a store with precisely the rows of the last 30 days
    and an exact row count, and touches no other file; with a missing file it is empty; and
    if the earlier run closed its store there, those are the rows that store had. *)
Theorem reopen_keeps_recent (env : open_env) (d now : Z) (path : string) (fs fs' : disk) (ms : MetricsStore DB)
    (Hopen : NewMetricsStore_at env d now path fs = (Ret ms, fs')) :
  db_rows (db ms) = filter (λ kv, days_before now defaultRetentionDays ≤ fst kv) (db_rows (default db_empty (fs !! path))) ∧
  nodeRows ms = row_count ms ∧ store_init days_before ms ∧
  fs' !! path = Some (db ms) ∧ (∀ p, p ≠ path → fs' !! p = fs !! p) ∧
  (∀ close_err ms0 fs0, fs = snd (MetricsStore_Close close_err path ms0 fs0) →
     db_rows (db ms) = filter (λ kv, days_before now defaultRetentionDays ≤ fst kv) (db_rows (db ms0))).
Proof.
  unfold NewMetricsStore_at in Hopen. destruct (oe_mkdir env); [done|].
  destruct (create_if_missing env path fs) as [[e|] fs1] eqn:Hc; [done|].
  apply create_if_missing_spec in Hc as [Hrows Hoth]. destruct (oe_sql_open env); [done|].
  pose proof (initDB_rows (default db_empty (fs1 !! path))) as Hi.
  destruct (MetricsStore_initDB _) as [[e|] d1]; [done|]. cbn [snd] in Hi.
  destruct (NewMetricsStore days_before d now d1) as [res m] eqn:Hn. injection Hopen as Hres <-.
  apply outcome_bind_Ret in Hres as ([] & -> & [= ->]).
  destruct (NewMetricsStore_rows _ _ _ _ _ Hn eq_refl) as [Hr Hcount]. rewrite Hi, Hrows in Hr.
  split_and!; [done|done|by exists d, now, d1|by rewrite lookup_insert_eq|..].
  - intros p Hp. rewrite lookup_insert_ne by done. by apply Hoth.
  - intros ce ms0 fs0 ->. by rewrite Hr; unfold MetricsStore_Close; cbn [snd]; rewrite lookup_insert_eq.
Qed.
End Open.

(** ** A table in memory *)

#[global] Instance map_schema : NodeSchema map_table := {
  db_empty := mkTable ∅ false;
  db_create_node_metrics t := if t_full t then (Some disk_full, t) else (None, t);
  db_drop_rule_metrics t := (None, t) }.

#[global] Instance map_schema_laws : NodeSchemaLaws map_table Z.
Proof. split; [done| |done]. intros d. cbn. by destruct (t_full d). Qed.

Definition no_errors : open_env := mkOpenEnv None None None None None.

(** A store with the rows of second 20 and of a later one is closed, and opened again 30 days
    after second 21. *)
Definition kept_store : MetricsStore map_table := snd (MetricsStore_AddNodeMetric 1 2592000 7 sample_store).

Lemma reopen_keeps_recent_witness :
  ∃ ms fs', NewMetricsStore_at utc_days_before no_errors 1 2592021 "/var/db"
    (snd (MetricsStore_Close None "/var/db" kept_store ∅)) = (Ret ms, fs') ∧
  size (db_rows (db kept_store)) = 2%nat ∧ db_rows (db ms) = {[2592000 := 7]}.
Proof.
  destruct (NewMetricsStore_at utc_days_before no_errors 1 2592021 "/var/db"
    (snd (MetricsStore_Close None "/var/db" kept_store ∅))) as [[ms|e|p] fs'] eqn:E;
    [|vm_compute in E; discriminate E..].
  exists ms, fs'. split; [reflexivity|]. split; [vm_compute; reflexivity|].
  destruct (reopen_keeps_recent utc_days_before no_errors 1 2592021 "/var/db" _ _ ms E) as (_ & _ & _ & _ & _ & H).
  rewrite (H None kept_store ∅ eq_refl). vm_compute. reflexivity.
Defined.
