(* ===== verification/MetricsQuery.v ===== *)
(** * internal/cmgr/ms/handler.go: querying the node metrics

    The two SELECT statements of [QueryNodeMetric] over the rows of the table (a map from
    its primary key, the timestamp), and the loop that reads their result; [snapshot] of
    [stats.go].  The order in which SQLite adds up an average is not fixed: [avg] is an
    argument.  SQLite divides integers towards zero, and a negative LIMIT is none. *)

From S2P Require Import Prelude GoStd Float MetricsStore.

(** ** Rows and requests *)

Record gauges := mkGauges {
  CPUUsage : float64; MemoryUsage : float64; DiskUsage : float64; NetworkIn : float64; NetworkOut : float64 }.

Record NodeMetrics := mkNodeMetrics { Timestamp : Z; nm_gauges : gauges }.

Record QueryNodeMetricsReq := mkQueryReq { StartTimestamp : Z; EndTimestamp : Z; Num : Z; Step : Z }.

Record QueryNodeMetricsResp := mkQueryResp { TOTAL : Z; Data : list NodeMetrics }.

(** ** SQL *)

Definition later (a b : NodeMetrics) : Prop := Timestamp b ≤ Timestamp a.
#[global] Instance later_dec : RelDecision later := λ a b, decide (Timestamp b ≤ Timestamp a).
#[global] Instance later_total : Total later.
Proof. intros a b. unfold later. lia. Qed.
#[global] Instance later_trans : Transitive later.
Proof. intros a b c. unfold later. lia. Qed.

Definition limit {A} (n : Z) (l : list A) : list A := if decide (n < 0) then l else take (Z.to_nat n) l.

(** [WHERE timestamp >= ? AND timestamp <= ?] *)
Definition in_range (req : QueryNodeMetricsReq) (rows : gmap Z gauges) : list (Z * gauges) :=
  filter (λ r, StartTimestamp req ≤ r.1 ≤ EndTimestamp req) (map_to_list rows).

Definition select_points (req : QueryNodeMetricsReq) (rows : gmap Z gauges) : list NodeMetrics :=
  limit (Num req) (merge_sort later ((λ r, mkNodeMetrics r.1 r.2) <$> in_range req rows)).

(** [(timestamp/?)*?] *)
Definition bucket_ts (step ts : Z) : Z := Z.quot ts step * step.

Definition bucket_rows (step b : Z) (rs : list (Z * gauges)) : list gauges :=
  (filter (λ r, bucket_ts step r.1 = b) rs).*2.

Definition average (avg : list float64 → float64) (gs : list gauges) : gauges :=
  mkGauges (avg (CPUUsage <$> gs)) (avg (MemoryUsage <$> gs)) (avg (DiskUsage <$> gs))
           (avg (NetworkIn <$> gs)) (avg (NetworkOut <$> gs)).

(** [GROUP BY bucket_ts ORDER BY bucket_ts DESC LIMIT ?] *)
Definition select_buckets (avg : list float64 → float64) (req : QueryNodeMetricsReq) (rows : gmap Z gauges) :
    list NodeMetrics :=
  let rs := in_range req rows in
  let buckets := remove_dups (bucket_ts (Step req) ∘ fst <$> rs) in
  limit (Num req) (merge_sort later
    ((λ b, mkNodeMetrics b (average avg (bucket_rows (Step req) b rs))) <$> buckets)).

(** ** QueryNodeMetric *)

(** [query]: the error of the statement; [stop]: after how many rows [rows.Next] says no
    although there are more, because of an error that only [rows.Err] would tell; [scan]:
    the first row that cannot be scanned. *)
Definition QueryNodeMetric (avg : list float64 → float64) (query : option error) (stop : option nat)
    (scan : option (nat * error)) (req : QueryNodeMetricsReq) (rows : gmap Z gauges) : outcome QueryNodeMetricsResp :=
  let res := if decide (1 < Step req) then select_buckets avg req rows else select_points req rows in
  _ ← check_err query;
  let seen := match stop with Some n => take n res | None => res end in
  match scan with
  | Some (k, err) => if decide (k < length seen)%nat then Err err
                     else Ret (mkQueryResp (Z.of_nat (length seen)) seen)
  | None => Ret (mkQueryResp (Z.of_nat (length seen)) seen)
  end.

(** ** stats.go: [snapshot] *)

Record OpStatsSnapshot := mkSnapshot { Count : Z; AvgMs : float64; MaxMs : float64; LastMs : float64 }.

Definition opStats_snapshot (s : opStats) : OpStatsSnapshot :=
  let ms ns := f_div (f_of_Z ns) (f_of_Z 1000000) in
  {| Count := op_count s;
     AvgMs := if decide (0 < op_count s)
              then f_div (f_div (f_of_Z (op_totalNs s)) (f_of_Z (op_count s))) (f_of_Z 1000000)
              else S754_zero false;
     MaxMs := ms (op_maxNs s); LastMs := ms (op_lastNs s) |}.

(** The map as a list without duplicate names. *)
Definition Stats_Snapshot (s : Stats) : list (string * OpStatsSnapshot) :=
  (λ p, (p.1, opStats_snapshot p.2)) <$> Stats_all s.

(** ** Lemmas *)

Lemma limit_prefix {A} n (l : list A) : ∃ rest, l = limit n l ++ rest.
Proof.
  unfold limit. case_decide; [exists []; by rewrite app_nil_r|]. exists (drop (Z.to_nat n) l). by rewrite take_drop.
Qed.

Lemma limit_none {A} n (l : list A) : n < 0 → limit n l = l.
Proof. intros. unfold limit. by rewrite decide_True. Qed.

(** Sorting points with different timestamps puts them in strictly decreasing order. *)
Lemma sort_strict (l : list NodeMetrics) :
  NoDup (Timestamp <$> l) →
  merge_sort later l ≡ₚ l ∧ StronglySorted (λ a b, Timestamp b < Timestamp a) (merge_sort later l).
Proof.
  intros Hnd. pose proof (merge_sort_Permutation later l) as Hp. split; [done|].
  pose proof (StronglySorted_merge_sort later l) as Hs.
  assert (Hnd' : NoDup (Timestamp <$> merge_sort later l)) by by rewrite Hp.
  clear -Hs Hnd'. induction Hs as [|a l' Hs IH Hall]; constructor.
  - apply IH. by apply NoDup_cons in Hnd' as [_ ?].
  - csimpl in Hnd'. apply NoDup_cons in Hnd' as [Hn _]. rewrite Forall_forall in *. intros b Hb.
    specialize (Hall b Hb). unfold later in Hall. enough (Timestamp b ≠ Timestamp a) by lia.
    intros He. apply Hn. rewrite <- He. by apply list_elem_of_fmap_2.
Qed.

Lemma StronglySorted_prefix {A} (R : A → A → Prop) l1 l2 :
  StronglySorted R (l1 ++ l2) → StronglySorted R l1 ∧ ∀ a b, a ∈ l1 → b ∈ l2 → R a b.
Proof.
  induction l1 as [|x l1 IH]; cbn; intros H; [split; [constructor|by intros a b ?%elem_of_nil]|].
  inversion H as [|? ? Hs Hf]; subst. destruct (IH Hs) as [H1 H2]. rewrite Forall_app in Hf. destruct Hf as [Hf1 Hf2].
  split; [by constructor|]. intros a b [->|Ha]%elem_of_cons Hb; [|by apply H2]. rewrite Forall_forall in Hf2. by apply Hf2.
Qed.

Lemma elem_of_in_range req rows ts g :
  (ts, g) ∈ in_range req rows ↔ rows !! ts = Some g ∧ StartTimestamp req ≤ ts ≤ EndTimestamp req.
Proof. unfold in_range. rewrite list_elem_of_filter, elem_of_map_to_list. cbn. tauto. Qed.

Lemma in_range_nodup req rows : NoDup (in_range req rows).*1.
Proof.
  unfold in_range. eapply sublist_NoDup; [apply (NoDup_fst_map_to_list rows)|]. apply fmap_sublist, sublist_filter.
Qed.

(** ** Theorems *)

(** The plain query returns the newest samples of the range, newest first: every point
    is a stored sample of the range, timestamps strictly decrease, a sample of the range
    that is missing is older than every point returned, none is missing without a limit,
    and the total is the number of points.  With [Num] = 1 this is the latest sample. *)
Theorem QueryNodeMetric_points (avg : list float64 → float64) (req : QueryNodeMetricsReq) (rows : gmap Z gauges)
    (Hstep : Step req ≤ 1) :
  ∃ data, QueryNodeMetric avg None None None req rows = Ret (mkQueryResp (Z.of_nat (length data)) data) ∧
    StronglySorted (λ a b, Timestamp b < Timestamp a) data ∧
    (∀ p, p ∈ data → rows !! Timestamp p = Some (nm_gauges p) ∧ StartTimestamp req ≤ Timestamp p ≤ EndTimestamp req) ∧
    (∀ ts g, rows !! ts = Some g → StartTimestamp req ≤ ts ≤ EndTimestamp req →
       mkNodeMetrics ts g ∈ data ∨ 0 ≤ Num req ∧ ∀ p, p ∈ data → ts < Timestamp p) ∧
    (0 ≤ Num req → length data = (Z.to_nat (Num req) `min` length (in_range req rows))%nat).
Proof.
  unfold QueryNodeMetric. rewrite decide_False by lia. cbn. eexists. split; [reflexivity|].
  unfold select_points. set (pts := (λ r, mkNodeMetrics r.1 r.2) <$> in_range req rows).
  assert (Hnd : NoDup (Timestamp <$> pts)).
  { unfold pts. rewrite <- list_fmap_compose. apply in_range_nodup. }
  destruct (sort_strict pts Hnd) as [Hp Hs]. destruct (limit_prefix (Num req) (merge_sort later pts)) as [rest Hrest].
  rewrite Hrest in Hs at 1. apply StronglySorted_prefix in Hs as [Hs Hlt].
  assert (Hpts : ∀ p, p ∈ merge_sort later pts ↔
    rows !! Timestamp p = Some (nm_gauges p) ∧ StartTimestamp req ≤ Timestamp p ≤ EndTimestamp req).
  { intros [ts g]. rewrite Hp. unfold pts. rewrite list_elem_of_fmap. cbn. rewrite <- elem_of_in_range.
    split; [intros ([ts' g'] & [= -> ->] & Hin); exact Hin|]. intros Hin. by exists (ts, g). }
  split_and!; [done| | |].
  - intros p Hin. apply Hpts. rewrite Hrest. apply elem_of_app. by left.
  - intros ts g Hts Hr. assert (mkNodeMetrics ts g ∈ merge_sort later pts) as Hin by by apply Hpts.
    rewrite Hrest in Hin. apply elem_of_app in Hin as [Hin|Hin]; [by left|]. right. split.
    + destruct (Z.lt_ge_cases (Num req) 0) as [Hn|]; [|done]. rewrite limit_none in Hrest by done.
      rewrite <- (app_nil_r (merge_sort later pts)) in Hrest at 1. apply app_inv_head in Hrest as <-.
      by apply elem_of_nil in Hin.
    + intros p Hpin. by apply (Hlt p (mkNodeMetrics ts g)).
  - intros Hn. unfold limit. rewrite decide_False by lia. rewrite length_take, Hp. unfold pts. by rewrite length_fmap.
Qed.

(** [C30] The bucketed query without a limit partitions the range: the points are one per
    bucket that has a sample, in strictly decreasing order of their multiple of the step,
    each is the average of exactly the samples of the range whose timestamp falls into that
    bucket, and every sample of the range is in the average of exactly one point, namely
    that of its own bucket. *)
Theorem QueryNodeMetric_buckets (avg : list float64 → float64) (req : QueryNodeMetricsReq) (rows : gmap Z gauges)
    (Hstep : 1 < Step req) (Hnum : Num req < 0) :
  ∃ data, QueryNodeMetric avg None None None req rows = Ret (mkQueryResp (Z.of_nat (length data)) data) ∧
    StronglySorted (λ a b, Timestamp b < Timestamp a) data ∧
    (∀ p, p ∈ data → ∃ gs, gs ≠ [] ∧ nm_gauges p = average avg gs ∧
       gs = bucket_rows (Step req) (Timestamp p) (in_range req rows)) ∧
    (∀ ts g, rows !! ts = Some g → StartTimestamp req ≤ ts ≤ EndTimestamp req →
       ∃ p, p ∈ data ∧ Timestamp p = bucket_ts (Step req) ts ∧
         (0 ≤ ts → Timestamp p ≤ ts < Timestamp p + Step req) ∧
         ∀ p', p' ∈ data → g ∈ bucket_rows (Step req) (Timestamp p') (filter (λ r, r.1 = ts) (in_range req rows)) → p' = p).
Proof.
  unfold QueryNodeMetric. rewrite decide_True by lia. cbn. eexists. split; [reflexivity|].
  unfold select_buckets. rewrite limit_none by done. set (rs := in_range req rows).
  set (bs := remove_dups _). set (pts := _ <$> bs).
  assert (Hts : Timestamp <$> pts = bs).
  { unfold pts. rewrite <- list_fmap_compose. apply list_fmap_id. }
  destruct (sort_strict pts) as [Hp Hs]; [rewrite Hts; apply NoDup_remove_dups|].
  assert (Hin : ∀ p, p ∈ merge_sort later pts ↔ Timestamp p ∈ bs ∧ nm_gauges p = average avg (bucket_rows (Step req) (Timestamp p) rs)).
  { intros [b g]. rewrite Hp. unfold pts. rewrite list_elem_of_fmap. cbn. split.
    - intros (b' & [= -> ->] & Hb). done.
    - intros [Hb ->]. by exists b. }
  split_and!; [done| |].
  - intros p [Hb Hg]%Hin. eexists. split_and!; [|exact Hg|done].
    unfold bs in Hb. apply elem_of_remove_dups, list_elem_of_fmap in Hb as ([ts g] & He & Hr). cbn in He.
    intros Hnil. assert (g ∈ bucket_rows (Step req) (Timestamp p) rs) as Hc; [|rewrite Hnil in Hc; by apply elem_of_nil in Hc].
    unfold bucket_rows. apply list_elem_of_fmap. exists (ts, g). split; [done|]. by apply list_elem_of_filter.
  - intros ts g Hrow Hr. set (b := bucket_ts (Step req) ts).
    exists (mkNodeMetrics b (average avg (bucket_rows (Step req) b rs))). cbn. split_and!; [|done| |].
    + apply Hin. cbn. split; [|done]. unfold bs. apply elem_of_remove_dups, list_elem_of_fmap.
      exists (ts, g). split; [done|]. by apply elem_of_in_range.
    + intros Hpos. unfold b, bucket_ts. rewrite Z.quot_div_nonneg by lia.
      pose proof (Z.div_mod ts (Step req) ltac:(lia)). pose proof (Z.mod_pos_bound ts (Step req) ltac:(lia)). lia.
    + intros [b' g'] [Hb' Hg']%Hin Hmem. cbn in *.
      apply list_elem_of_fmap in Hmem as ([ts' g0] & -> & [Heq [Hts' _]%list_elem_of_filter]%list_elem_of_filter).
      cbn in *. subst ts'. assert (b' = b) as -> by done. by rewrite Hg'.
Qed.

(** [rows.Err] is never asked: a result set that breaks off is returned as if it were
    complete, a shorter list with its own total and no error. *)
Theorem QueryNodeMetric_truncated (avg : list float64 → float64) (n : nat) (req : QueryNodeMetricsReq)
    (rows : gmap Z gauges) :
  ∃ data, QueryNodeMetric avg None None None req rows = Ret (mkQueryResp (Z.of_nat (length data)) data) ∧
    QueryNodeMetric avg None (Some n) None req rows =
      Ret (mkQueryResp (Z.of_nat (n `min` length data)) (take n data)).
Proof. unfold QueryNodeMetric. cbn. eexists. split; [reflexivity|]. by rewrite length_take. Qed.

Definition sample_gauges (n : Z) : gauges := mkGauges (f_of_Z n) (f_of_Z n) (f_of_Z n) (f_of_Z n) (f_of_Z n).
Definition sample_rows : gmap Z gauges := {[100 := sample_gauges 1; 105 := sample_gauges 3; 131 := sample_gauges 5]}.
(** An average that keeps the first sample. *)
Definition first_of (l : list float64) : float64 := hd (S754_zero false) l.

Lemma QueryNodeMetric_points_witness :
  ∃ data, QueryNodeMetric first_of None None None (mkQueryReq 0 120 1 0) sample_rows = Ret (mkQueryResp (Z.of_nat (length data)) data) ∧
    length data = 1%nat.
Proof.
  destruct (QueryNodeMetric_points first_of (mkQueryReq 0 120 1 0) sample_rows ltac:(vm_compute; congruence))
    as (data & H1 & _ & _ & _ & H2). exists data. split; [exact H1|].
  rewrite (H2 ltac:(vm_compute; congruence)). vm_compute. reflexivity.
Defined.

Lemma QueryNodeMetric_buckets_witness :
  ∃ data p, QueryNodeMetric first_of None None None (mkQueryReq 0 200 (-1) 60) sample_rows = Ret (mkQueryResp (Z.of_nat (length data)) data) ∧
    p ∈ data ∧ Timestamp p = 120.
Proof.
  destruct (QueryNodeMetric_buckets first_of (mkQueryReq 0 200 (-1) 60) sample_rows eq_refl eq_refl)
    as (data & H1 & _ & _ & H2).
  destruct (H2 131 (sample_gauges 5) ltac:(vm_compute; reflexivity) ltac:(vm_compute; split; congruence)) as (p & Hp & Ht & _).
  exists data, p. split; [exact H1|]. split; [exact Hp|exact Ht].
Defined.

Example snapshot_1 :
  opStats_snapshot (opStats_record 3000000 (opStats_record 1000000 opStats_zero)) =
  {| Count := 2; AvgMs := f_of_Z 2; MaxMs := f_of_Z 3; LastMs := f_of_Z 3 |}.
Proof. vm_compute. reflexivity. Qed.
