(* ===== verification/CmgrLoop.v ===== *)
(** * internal/cmgr: the ticker loop with what it samples, stores and pushes

    [Start] of cmgr.go with [sampleMetrics] and the whole of [pushStats] of syncer.go, over
    the parts they call: the connection maps of [Cmgr], the node sampler of [Sampler] (which
    remembers its last sample, whoever asked for it) and [AddNodeMetric] of [MetricsStore].
    One tick samples and stores, and every [syncEvery]-th tick pushes as well. *)

From S2P Require Import Prelude GoStd Float RelayConn Cmgr MetricsStore.
From S2P Require MetricsQuery.
From S2P Require Import Sampler.

(** ** syncer.go *)

Record VersionInfo := mkVersionInfo { Version : string; ShortCommit : string }.

(** [constant.GitRevision[:7]] where it is longer. *)
Definition shortCommit (GitRevision : string) : string :=
  if decide (7 < String.length GitRevision)%nat then String.substring 0 7 GitRevision else GitRevision.

Record syncReq := mkSyncReq { req_Version : VersionInfo; req_Node : NodeMetrics; req_Stats : list StatsPerRule }.

(** The zero value of [req.Node]; the zero time is before every clock reading. *)
Definition NodeMetrics_zero (zero_time : Z) : NodeMetrics :=
  mkNodeMetrics 0 "" f_zero 0 0 f_zero 0 0 f_zero 0 0 f_zero f_zero zero_time.

(** [t.Unix()] *)
Definition time_Unix (t : Z) : Z := t / Second.

(** The columns of one row. *)
Definition node_row (nm : NodeMetrics) : MetricsQuery.gauges :=
  MetricsQuery.mkGauges (CpuUsagePercent nm) (MemoryUsagePercent nm) (DiskUsagePercent nm)
    (NetworkReceiveBytesRate nm) (NetworkTransmitBytesRate nm).

Section Loop.
Context {DB : Type} `{HN : NodeTable DB MetricsQuery.gauges}.

(** [constant.Version], [constant.GitRevision] and the zero [time.Time]. *)
Context (version revision : string) (zero_time : Z).

Record loop_state := mkLoop {
  ls_cm : cmgrImpl; ls_ns : NodeSampler; ls_ms : MetricsStore DB; ls_tick : Z }.

(** What one tick meets: the readings of its sample, how long its insert takes, the readings
    of the push's own sample, the counters of the connections, the order in which the map
    of closed connections is iterated and the result of the POST. *)
Record tick_env := mkTick {
  te_sample : readings; te_insert : Z; te_push : readings;
  te_heap : nat → RelayConn.Stats; te_order : list (string * list rconn); te_post : option error }.

(** [Sample] never fails; an error of the insert is only logged. *)
Definition cmgrImpl_sampleMetrics (te : tick_env) (s : loop_state) : loop_state :=
  if negb (CmgrConfig_NeedMetrics (cm_cfg (ls_cm s))) then s
  else
    let (nm, ns) := NodeSampler_Sample (te_sample te) (ls_ns s) in
    let (_, ms) := MetricsStore_AddNodeMetric (te_insert te) (time_Unix (SyncTime nm)) (node_row nm) (ls_ms s) in
    mkLoop (ls_cm s) ns ms (ls_tick s).

(** The request is [None] when none is sent. *)
Definition cmgrImpl_pushStats_req (te : tick_env) (s : loop_state) : loop_state * option syncReq * option error :=
  let (node, ns) := if CmgrConfig_NeedMetrics (cm_cfg (ls_cm s))
                    then NodeSampler_Sample (te_push te) (ls_ns s)
                    else (NodeMetrics_zero zero_time, ls_ns s) in
  let '(cm, stats, err) := cmgrImpl_pushStats (ls_cm s) (te_heap te) (te_order te) (te_post te) in
  (mkLoop cm ns (ls_ms s) (ls_tick s),
   mkSyncReq (mkVersionInfo version (shortCommit revision)) node <$> stats, err).

(** One [ticker.C] of [Start]; the error of the push is only logged. *)
Definition cmgrImpl_Start_tick (te : tick_env) (s : loop_state) : loop_state * option syncReq :=
  let s := cmgrImpl_sampleMetrics te s in
  let (tick, push) := Start_tick (cm_cfg (ls_cm s)) (ls_tick s) in
  let s := mkLoop (ls_cm s) (ls_ns s) (ls_ms s) tick in
  if push then let '(s, req, _) := cmgrImpl_pushStats_req te s in (s, req) else (s, None).

(** The loop until the context is done, with the requests it sent. *)
Fixpoint cmgrImpl_Start (tes : list tick_env) (s : loop_state) : loop_state * list syncReq :=
  match tes with
  | [] => (s, [])
  | te :: tes =>
      let (s, req) := cmgrImpl_Start_tick te s in
      let (s, reqs) := cmgrImpl_Start tes s in
      (s, match req with Some r => r :: reqs | None => reqs end)
  end.

(** ** Lemmas *)

Lemma Start_tick_cfg te s : cm_cfg (ls_cm (cmgrImpl_Start_tick te s).1) = cm_cfg (ls_cm s).
Proof.
  unfold cmgrImpl_Start_tick, cmgrImpl_sampleMetrics, cmgrImpl_pushStats_req.
  set (s1 := if negb _ then s else _).
  assert (ls_cm s1 = ls_cm s) as Hs1.
  { subst s1. destruct (negb _); [done|]. destruct (NodeSampler_Sample _ _) as [nm ns].
    by destruct (MetricsStore_AddNodeMetric _ _ _ _). }
  rewrite Hs1. destruct (Start_tick _ _) as [tick push]. destruct push; [|done]. cbn [ls_cm ls_ns].
  destruct (if CmgrConfig_NeedMetrics _ then _ else _) as [node ns]. unfold cmgrImpl_pushStats.
  by destruct (CmgrConfig_NeedSync _).
Qed.

(** The sampler after a tick that sampled. *)
Lemma sampleMetrics_last te s :
  CmgrConfig_NeedMetrics (cm_cfg (ls_cm s)) = true →
  ls_ns (cmgrImpl_sampleMetrics te s) = (NodeSampler_Sample (te_sample te) (ls_ns s)).2 ∧
  ls_cm (cmgrImpl_sampleMetrics te s) = ls_cm s ∧ ls_tick (cmgrImpl_sampleMetrics te s) = ls_tick s.
Proof.
  intros Hm. unfold cmgrImpl_sampleMetrics. rewrite Hm. cbn [negb].
  destruct (NodeSampler_Sample _ _) as [nm ns]. by destruct (MetricsStore_AddNodeMetric _ _ _ _).
Qed.

(** A push that comes soon after the tick's own sample. *)
Definition soon (te : tick_env) : Prop :=
  f_lt (f_lit 1 10) (Duration_Seconds (time_Sub (rd_now (te_push te)) (rd_now (te_sample te)))) = false.

Lemma tick_request te s s' req :
  CmgrConfig_NeedMetrics (cm_cfg (ls_cm s)) = true → soon te →
  cmgrImpl_Start_tick te s = (s', Some req) →
  NetworkReceiveBytesRate (req_Node req) = f_zero ∧ NetworkTransmitBytesRate (req_Node req) = f_zero.
Proof.
  intros Hm Hsoon. unfold cmgrImpl_Start_tick.
  destruct (sampleMetrics_last te s Hm) as (Hns & Hcm & Ht). rewrite Hcm, Ht.
  destruct (Start_tick _ _) as [tick []]; [|done]. unfold cmgrImpl_pushStats_req. cbn [ls_cm ls_ns]. rewrite Hm, Hns.
  pose proof (Sample_last (te_sample te) (ls_ns s)) as Hsl.
  destruct (NodeSampler_Sample (te_sample te) (ls_ns s)) as [nm1 ns1]. destruct Hsl as [Hl Hst]. cbn [snd].
  pose proof (Sample_zero (te_push te) ns1 nm1 Hl) as Hz. rewrite Hst in Hz. specialize (Hz Hsoon).
  destruct (NodeSampler_Sample (te_push te) ns1) as [nm2 ns2]. cbn [fst] in Hz.
  destruct (cmgrImpl_pushStats _ _ _ _) as [[cm stats] err]. intros [= <- Hreq].
  apply fmap_Some in Hreq as (st & _ & ->). exact Hz.
Qed.
End Loop.

Section Rows.
Context {DB : Type} `{HN : NodeTable DB MetricsQuery.gauges} `{HL : !NodeTableLaws DB MetricsQuery.gauges}.
Context (version revision : string) (zero_time : Z).

Definition rows_of (s : loop_state) : gmap Z MetricsQuery.gauges := db_rows (db (ls_ms s)).

Definition tick_second (te : tick_env) : Z := time_Unix (rd_now (te_sample te)).

(** A row the sampler can have made. *)
Definition sound_row (g : MetricsQuery.gauges) : Prop :=
  f_nonneg (MetricsQuery.NetworkIn g) ∧ f_nonneg (MetricsQuery.NetworkOut g).

Lemma tick_rows te s :
  CmgrConfig_NeedMetrics (cm_cfg (ls_cm s)) = true →
  let s' := (cmgrImpl_Start_tick version revision zero_time te s).1 in
  ∃ row, sound_row row ∧
    rows_of s' = match (db_insert (tick_second te) row (db (ls_ms s))).1 with
                 | None => <[tick_second te := row]> (rows_of s)
                 | Some _ => rows_of s
                 end.
Proof.
  intros Hm. cbv zeta. set (nm := (NodeSampler_Sample (te_sample te) (ls_ns s)).1). exists (node_row nm). split.
  { pose proof (Sample_nonneg (te_sample te) (ls_ns s)) as [? ?]. by split. }
  assert (rows_of (cmgrImpl_Start_tick version revision zero_time te s).1 = rows_of (cmgrImpl_sampleMetrics te s)) as ->.
  { unfold cmgrImpl_Start_tick. destruct (Start_tick _ _) as [tick []]; [|done]. unfold cmgrImpl_pushStats_req.
    destruct (if CmgrConfig_NeedMetrics _ then _ else _) as [node ns].
    by destruct (cmgrImpl_pushStats _ _ _ _) as [[cm stats] err]. }
  unfold cmgrImpl_sampleMetrics. rewrite Hm. cbn [negb].
  pose proof (Sample_last (te_sample te) (ls_ns s)) as Hl. subst nm.
  destruct (NodeSampler_Sample (te_sample te) (ls_ns s)) as [nm ns]. destruct Hl as [_ Ht]. cbn [fst].
  unfold tick_second, MetricsStore_AddNodeMetric, rows_of. rewrite Ht.
  pose proof (db_insert_spec (time_Unix (rd_now (te_sample te))) (node_row nm) (db (ls_ms s))) as Hi.
  by destruct (db_insert _ _ _) as [[e|] d'].
Qed.

Lemma Start_rows tes s :
  CmgrConfig_NeedMetrics (cm_cfg (ls_cm s)) = true →
  let s' := (cmgrImpl_Start version revision zero_time tes s).1 in
  (∀ ts g, rows_of s' !! ts = Some g → rows_of s !! ts = Some g ∨ sound_row g ∧ ts ∈ tick_second <$> tes) ∧
  ((∀ ts g d, (db_insert ts g d).1 = None) →
     ∀ ts, is_Some (rows_of s' !! ts) ↔ is_Some (rows_of s !! ts) ∨ ts ∈ tick_second <$> tes).
Proof.
  revert s. induction tes as [|te tes IH]; intros s Hm.
  { cbn. split; [by auto|]. intros _ ts. split; [by auto|]. intros [?|?%not_elem_of_nil]; done. }
  destruct (tick_rows te s Hm) as (row & Hrow & Hr).
  pose proof (Start_tick_cfg version revision zero_time te s) as Hc.
  cbn [cmgrImpl_Start]. destruct (cmgrImpl_Start_tick _ _ _ te s) as [s1 req]. cbn [fst] in Hr, Hc.
  destruct (IH s1 ltac:(by rewrite Hc)) as [IH1 IH2].
  destruct (cmgrImpl_Start _ _ _ tes s1) as [s2 reqs]. cbn [fst] in *. rewrite fmap_cons. split.
  - intros ts g Hg. destruct (IH1 ts g Hg) as [Hg1|[? ?]]; [|right; split; [done|by right]].
    rewrite Hr in Hg1. destruct (db_insert _ _ _).1; [by left|].
    apply lookup_insert_Some in Hg1 as [[<- <-]|[_ ?]]; [right; split; [done|by left]|by left].
  - intros Hok ts. rewrite (IH2 Hok), Hr, Hok, lookup_insert_is_Some', elem_of_cons.
    split; [intros [[->|?]|?]|intros [?|[->|?]]]; auto.
Qed.

(** ** Theorems *)

(** [C23] Sampling.  With metrics enabled, each tick of the loop stores one row under the
    second it began in, whether or not it also pushes: after any run of the loop every row
    was there before or belongs to one of its ticks and has finite, non-negative rates;
    and when no insert fails, the seconds stored are exactly those and no others.
    (Starting the loop at all is another matter: [System.no_sync_never_drains].) *)
Theorem loop_stores_every_tick (tes : list tick_env) (s s' : loop_state (DB := DB)) (reqs : list syncReq)
    (Hm : CmgrConfig_NeedMetrics (cm_cfg (ls_cm s)) = true)
    (Hrun : cmgrImpl_Start version revision zero_time tes s = (s', reqs)) :
  (∀ ts g, rows_of s' !! ts = Some g → rows_of s !! ts = Some g ∨ sound_row g ∧ ts ∈ tick_second <$> tes) ∧
  ((∀ ts g d, (db_insert ts g d).1 = None) →
     ∀ ts, is_Some (rows_of s' !! ts) ↔ is_Some (rows_of s !! ts) ∨ ts ∈ tick_second <$> tes).
Proof. pose proof (Start_rows tes s Hm) as H. by rewrite Hrun in H. Qed.

(** The push takes a sample of its own, and the sampler measures rates against the last
    sample it took, which is the one the same tick has just stored.  When the two are less
    than a tenth of a second apart, as they are unless the insert blocks, the request tells
    the control plane that the network is idle: both rates are zero in every request of
    every run, whatever the interfaces carried. *)
Theorem push_rates_zero (tes : list tick_env) (s s' : loop_state (DB := DB)) (reqs : list syncReq)
    (Hm : CmgrConfig_NeedMetrics (cm_cfg (ls_cm s)) = true) (Hsoon : Forall soon tes)
    (Hrun : cmgrImpl_Start version revision zero_time tes s = (s', reqs)) :
  Forall (λ r, NetworkReceiveBytesRate (req_Node r) = f_zero ∧ NetworkTransmitBytesRate (req_Node r) = f_zero) reqs.
Proof.
  revert s s' reqs Hm Hrun. induction Hsoon as [|te tes Hte _ IH]; intros s s' reqs Hm; cbn [cmgrImpl_Start].
  { intros [= _ <-]. done. }
  pose proof (Start_tick_cfg version revision zero_time te s) as Hc.
  destruct (cmgrImpl_Start_tick _ _ _ te s) as [s1 req] eqn:Ht. cbn [fst] in Hc.
  destruct (cmgrImpl_Start _ _ _ tes s1) as [s2 reqs'] eqn:Hrun. intros [= _ <-].
  specialize (IH s1 s2 reqs' ltac:(by rewrite Hc) Hrun). destruct req as [r|]; [|done].
  constructor; [|done]. by eapply tick_request.
Qed.
End Rows.

(** ** A table that takes every row, and a loop over two ticks *)

Definition gauge_table : Type := gmap Z MetricsQuery.gauges.

#[global] Instance gauge_node_table : NodeTable gauge_table MetricsQuery.gauges := {
  db_insert ts row t := (None, <[ts := row]> t);
  db_delete_before cutoff t :=
    (inl (Z.of_nat (size (filter (λ kv, kv.1 < cutoff) t))), filter (λ kv, cutoff ≤ kv.1) t);
  db_delete_all _ := (None, ∅);
  db_vacuum t := (None, t);
  db_count t := let n := Z.of_nat (size t) in if decide (n ≤ max_int64) then inl n else inr disk_full;
  db_pragma _ _ := inl 0 }.

#[global] Instance gauge_node_table_laws : NodeTableLaws gauge_table MetricsQuery.gauges.
Proof.
  refine {| db_rows := id |}; [done..|].
  intros db n. cbn. case_decide; naive_solver.
Defined.

Definition loop_start : loop_state (DB := gauge_table) :=
  mkLoop (mkCmgr (mkCmgrConfig "http://panel" 10 true) ∅ ∅ true) NewNodeSampler
    (mkStore ∅ (mkStats opStats_zero opStats_zero opStats_zero opStats_zero opStats_zero opStats_zero opStats_zero) 0) 0.

(** A megabyte arrives between the ticks; the push of a tick samples a millisecond after it. *)
Definition loop_tick (at_ recv : Z) : tick_env :=
  mkTick (sample_readings at_ (inl [mkIOCountersStat 0 recv])) Millisecond
    (sample_readings (at_ + Millisecond) (inl [mkIOCountersStat 0 recv]))
    (λ _, RelayConn.mkStats 0 0 0) [] None.

Definition two_ticks : list tick_env := [loop_tick (5 * Second) 0; loop_tick (10 * Second) 1000000].

Lemma loop_stores_every_tick_witness :
  is_Some (rows_of (cmgrImpl_Start "1.1.7" "abcdef0123" (-1) two_ticks loop_start).1 !! 10) ∧
  ¬ is_Some (rows_of (cmgrImpl_Start "1.1.7" "abcdef0123" (-1) two_ticks loop_start).1 !! 7).
Proof.
  destruct (cmgrImpl_Start "1.1.7" "abcdef0123" (-1) two_ticks loop_start) as [s' reqs] eqn:E. cbn [fst].
  destruct (loop_stores_every_tick "1.1.7" "abcdef0123" (-1) two_ticks loop_start s' reqs eq_refl E) as [_ H].
  specialize (H (λ _ _ _, eq_refl)). split; rewrite H.
  - right. vm_compute. right. left.
  - change (tick_second <$> two_ticks) with [5; 10].
    intros [Hs|Hs%list_elem_of_In]; [vm_compute in Hs; destruct Hs; discriminate|].
    destruct Hs as [Hs|[Hs|[]]]; discriminate.
Defined.

(** The stored row shows the traffic, the pushed node does not. *)
Lemma push_rates_zero_witness :
  let (s', reqs) := cmgrImpl_Start "1.1.7" "abcdef0123" (-1) two_ticks loop_start in
  (f_lt (f_of_Z 200000) ∘ MetricsQuery.NetworkIn <$> rows_of s' !! 10) = Some true ∧ length reqs = 2%nat ∧
  Forall (λ r, NetworkReceiveBytesRate (req_Node r) = f_zero ∧ NetworkTransmitBytesRate (req_Node r) = f_zero) reqs.
Proof.
  destruct (cmgrImpl_Start "1.1.7" "abcdef0123" (-1) two_ticks loop_start) as [s' reqs] eqn:E.
  split; [|split].
  - assert (s' = (cmgrImpl_Start "1.1.7" "abcdef0123" (-1) two_ticks loop_start).1) as -> by (rewrite E; reflexivity).
    vm_compute. reflexivity.
  - assert (reqs = (cmgrImpl_Start "1.1.7" "abcdef0123" (-1) two_ticks loop_start).2) as -> by (rewrite E; reflexivity).
    vm_compute. reflexivity.
  - apply (push_rates_zero "1.1.7" "abcdef0123" (-1) two_ticks loop_start s' reqs eq_refl); [|exact E].
    repeat constructor; vm_compute; reflexivity.
Defined.
