(* ===== verification/Updater.v ===== *)
(** * internal/updater/updater.go: the self-update from GitHub releases

    The choice of channel, release and asset, the decision whether to install, and the
    installation itself over a small file system.  GitHub's answers, the outcomes of the
    system calls and [golang.org/x/mod/semver] are arguments. *)

From S2P Require Import Prelude GoStd.

Definition ChannelAuto : string := "auto".
Definition ChannelStable : string := "stable".
Definition ChannelNightly : string := "nightly".

Record ghAsset := mkAsset { as_Name : string; BrowserDownloadURL : string }.

Record ghRelease := mkRelease {
  TagName : string; rel_Name : string; Body : string; Prerelease : bool; Draft : bool;
  PublishedAt : Z; HTMLURL : string; Assets : list ghAsset }.

(** The zero value a response is decoded into. *)
Definition ghRelease_zero : ghRelease := mkRelease "" "" "" false false 0 "" [].

Record ApplyOptions := mkApplyOptions { opt_Channel : string; Force : bool; Restart : bool }.

Record CheckResult := mkCheckResult {
  res_Channel : string; CurrentVersion : string; LatestVersion : string; LatestTag : string;
  ReleaseName : string; ReleaseBody : string; ReleaseURL : string; res_PublishedAt : Z;
  UpdateAvailable : bool; AssetName : string; AssetURL : string }.

(** What GitHub answers: the latest release, the list of releases, the commit of a tag. *)
Record github := mkGithub {
  gh_latest : ghRelease + error; gh_list : list ghRelease + error; gh_commit : string → string + error }.

(** ** The file system: contents and permission bits, and what the calls of [Apply] meet *)

Notation files := (gmap string (string * Z)).

Inductive download_result :=
  | DlFailed (err : error)                       (* before the file is opened *)
  | DlPartial (written : string) (err : error)   (* after it was truncated *)
  | DlDone (content : string).

Record host := mkHost {
  GOOS : string; GOARCH : string;
  h_executable : string + error; h_symlinks : string → string + error;
  h_download : string → download_result; h_chmod : option error; h_rename : option error;
  h_remove_ok : bool; h_systemctl : bool; h_restart : option error }.

Section updater.

(** [semver.Prerelease], [semver.IsValid] and [semver.Compare]. *)
Context (semver_Prerelease : string → string) (semver_IsValid : string → bool)
        (semver_Compare : string → string → Z).

(** [strings.Compare] *)
Definition strings_Compare (a b : string) : Z :=
  match String.compare a b with Lt => -1 | Eq => 0 | Gt => 1 end.

Definition resolveChannel (flag currentVersion : string) : outcome string :=
  if decide (flag ∈ [ChannelStable; ChannelNightly]) then Ret flag
  else if decide (flag ∈ [ChannelAuto; ""]) then
    if decide (semver_Prerelease ("v" +:+ currentVersion) ≠ "") then Ret ChannelNightly else Ret ChannelStable
  else Err (Errorf ("invalid channel " +:+ flag +:+ " (auto|stable|nightly)")).

(** The loop over the releases; [best] is the pointer to the best one so far. *)
Fixpoint freshest (best : option ghRelease) (l : list ghRelease) : option ghRelease :=
  match l with
  | [] => best
  | r :: l =>
      if Draft r || negb (Prerelease r) then freshest best l
      else match best with
           | None => freshest (Some r) l
           | Some b => if decide (PublishedAt b < PublishedAt r) then freshest (Some r) l else freshest best l
           end
  end.

Definition fetchLatest (gh : github) (channel : string) : outcome ghRelease :=
  if decide (channel = ChannelStable) then
    match gh_latest gh with
    | inr err => Err err
    | inl rel => if decide (TagName rel = "") then Err (Errorf "empty tag in github response") else Ret rel
    end
  else
    match gh_list gh with
    | inr err => Err err
    | inl l => match freshest None l with
               | None => Err (Errorf "no nightly release found")
               | Some best => Ret best
               end
    end.

Definition pickRelease (gh : github) (channel currentVersion : string) : outcome (string * ghRelease) :=
  resolved ← resolveChannel channel currentVersion;
  match fetchLatest gh resolved with
  | Ret rel => Ret (resolved, rel)
  | Err err => Err (Wrapf ("fetch " +:+ resolved +:+ ": ") err)
  | Panic p => Panic p
  end.

(** Slicing cannot panic: the length is checked. *)
Definition shaMatchesRevision (fullSHA currentRevision : string) : bool :=
  let n := String.length currentRevision in
  if decide (n = 0 ∨ String.length fullSHA < n)%nat then false
  else EqualFold (String.substring 0 n fullSHA) currentRevision.

Definition nightlyRepublished (gh : github) (rel : ghRelease) (currentRevision : string) : bool :=
  if decide (Prerelease rel = false ∨ currentRevision = "") then false
  else match gh_commit gh (TagName rel) with
       | inr _ => false
       | inl sha => if decide (sha = "") then false else negb (shaMatchesRevision sha currentRevision)
       end.

Definition compareVersions (a b : string) : Z :=
  let va := "v" +:+ TrimPrefix a "v" in
  let vb := "v" +:+ TrimPrefix b "v" in
  if semver_IsValid va && semver_IsValid vb then semver_Compare va vb else strings_Compare a b.

Definition pickAsset (h : host) (assets : list ghAsset) : option ghAsset :=
  if decide (GOOS h ≠ "linux") then None
  else let want := "ehco_linux_" +:+ GOARCH h in
       List.find (λ a, bool_decide (as_Name a = want)) assets.

Definition updater_Check (gh : github) (h : host) (channel currentVersion currentRevision : string) :
    outcome CheckResult :=
  '(resolved, rel) ← pickRelease gh channel currentVersion;
  let latest := TrimPrefix (TagName rel) "v" in
  let available := if decide (latest = currentVersion) then nightlyRepublished gh rel currentRevision
                   else bool_decide (0 < compareVersions latest currentVersion) in
  let asset := pickAsset h (Assets rel) in
  Ret {| res_Channel := resolved; CurrentVersion := currentVersion; LatestVersion := latest;
         LatestTag := TagName rel; ReleaseName := rel_Name rel; ReleaseBody := Body rel;
         ReleaseURL := HTMLURL rel; res_PublishedAt := PublishedAt rel; UpdateAvailable := available;
         AssetName := default "" (as_Name <$> asset); AssetURL := default "" (BrowserDownloadURL <$> asset) |}.

(** [os.Remove], its result ignored. *)
Definition os_Remove (h : host) (path : string) (fs : files) : files :=
  if h_remove_ok h then delete path fs else fs.

(** [O_CREATE] gives a new file mode 0755 and leaves the mode of an existing one. *)
Definition download (h : host) (url dst : string) (fs : files) : option error * files :=
  let mode := default 493 (snd <$> fs !! dst) in
  match h_download h url with
  | DlFailed err => (Some err, fs)
  | DlPartial written err => (Some err, <[dst := (written, mode)]> fs)
  | DlDone content => (None, <[dst := (content, mode)]> fs)
  end.

Definition os_Chmod (h : host) (path : string) (mode : Z) (fs : files) : option error * files :=
  match h_chmod h with
  | Some err => (Some err, fs)
  | None => (None, alter (λ f, (fst f, mode)) path fs)
  end.

Definition os_Rename (h : host) (old new : string) (fs : files) : option error * files :=
  match h_rename h with
  | Some err => (Some err, fs)
  | None => match fs !! old with
            | None => (Some (Sentinel "file does not exist"), fs)
            | Some f => (None, <[new := f]> (delete old fs))
            end
  end.

Definition restartSystemd (h : host) : option error := if h_systemctl h then h_restart h else None.

(** Whether a release that is not forced goes on to be installed. *)
Definition should_install (gh : github) (rel : ghRelease) (currentVersion currentRevision : string) : outcome bool :=
  let latest := TrimPrefix (TagName rel) "v" in
  if decide (latest = currentVersion) then Ret (nightlyRepublished gh rel currentRevision)
  else if decide (compareVersions latest currentVersion < 0) then
    Err (Errorf ("refusing to downgrade " +:+ currentVersion +:+ " -> " +:+ latest +:+ "; use force"))
  else Ret true.

(** From the choice of the asset on. *)
Definition install (h : host) (restart : bool) (rel : ghRelease) (fs : files) : outcome unit * files :=
  match pickAsset h (Assets rel) with
  | None => (Err (Errorf ("no release asset for " +:+ GOOS h +:+ "/" +:+ GOARCH h)), fs)
  | Some asset =>
      match h_executable h with
      | inr err => (Err (Wrapf "locate binary: " err), fs)
      | inl exe =>
          match h_symlinks h exe with
          | inr err => (Err (Wrapf "resolve binary symlink: " err), fs)
          | inl binPath =>
              let tmpPath := binPath +:+ ".new" in
              let '(err, fs) := download h (BrowserDownloadURL asset) tmpPath fs in
              match err with
              | Some err => (Err (Wrapf "download: " err), os_Remove h tmpPath fs)
              | None =>
                  let '(err, fs) := os_Chmod h tmpPath 493 fs in
                  match err with
                  | Some err => (Err (Wrapf "chmod: " err), os_Remove h tmpPath fs)
                  | None =>
                      let '(err, fs) := os_Rename h tmpPath binPath fs in
                      match err with
                      | Some err => (Err (Wrapf ("replace " +:+ binPath +:+ ": ") err), os_Remove h tmpPath fs)
                      | None => if negb restart then (Ret tt, fs) else (check_err (restartSystemd h), fs)
                      end
                  end
              end
          end
      end
  end.

Definition Apply (gh : github) (h : host) (opts : ApplyOptions) (currentVersion currentRevision : string)
    (fs : files) : outcome unit * files :=
  match pickRelease gh (opt_Channel opts) currentVersion with
  | Err err => (Err err, fs)
  | Panic p => (Panic p, fs)
  | Ret (_, rel) =>
      match (if Force opts then Ret true else should_install gh rel currentVersion currentRevision) with
      | Err err => (Err err, fs)
      | Panic p => (Panic p, fs)
      | Ret false => (Ret tt, fs)
      | Ret true => install h (Restart opts) rel fs
      end
  end.

(** ** Lemmas *)

Lemma app_suffix_ne (s : string) c t : s +:+ String c t ≠ s.
Proof. intros H. apply (f_equal String.length) in H. rewrite string_length_app in H. cbn in H. lia. Qed.

Lemma pickAsset_spec h assets a :
  pickAsset h assets = Some a → GOOS h = "linux" ∧ a ∈ assets ∧ as_Name a = "ehco_linux_" +:+ GOARCH h.
Proof.
  unfold pickAsset. case_decide as Hos; [done|]. intros Hf. apply List.find_some in Hf as [Hin Hn].
  apply bool_decide_eq_true in Hn. split; [destruct (decide (GOOS h = "linux")); tauto|]. split; [by apply list_elem_of_In|done].
Qed.

(** A release that [fetchLatest] may choose for the nightly channel. *)
Definition nightly (r : ghRelease) : Prop := Prerelease r = true ∧ Draft r = false.

Lemma freshest_spec best l :
  match freshest best l with
  | None => best = None ∧ Forall (λ r, ¬ nightly r) l
  | Some b =>
      (Some b = best ∨ b ∈ l ∧ nightly b) ∧ (∀ b0, best = Some b0 → PublishedAt b0 ≤ PublishedAt b) ∧
      Forall (λ r, nightly r → PublishedAt r ≤ PublishedAt b) l
  end.
Proof.
  unfold nightly. revert best. induction l as [|r l IH]; intros best; cbn [freshest];
    [destruct best; [split; [by left|]; split; [intros ? [= ->]; lia|constructor]|split; [done|constructor]]|].
  destruct (Draft r || negb (Prerelease r)) eqn:Hskip.
  - assert (¬ (Prerelease r = true ∧ Draft r = false)) as Hn by (intros [Hp Hd]; by rewrite Hp, Hd in Hskip).
    specialize (IH best). destruct (freshest best l) as [b|].
    + destruct IH as ([?|[??]] & ? & ?); (split; [|split; [done|by constructor]]); [by left|right]. split; [by right|done].
    + destruct IH. split; [done|by constructor].
  - apply orb_false_iff in Hskip as [Hd Hp%negb_false_iff].
    assert (∀ b, freshest (Some r) l = Some b → (best = None ∨ ∃ b0, best = Some b0 ∧ PublishedAt b0 < PublishedAt r) →
      (Some b = best ∨ b ∈ r :: l ∧ Prerelease b = true ∧ Draft b = false) ∧
      (∀ b0, best = Some b0 → PublishedAt b0 ≤ PublishedAt b) ∧
      Forall (λ r0, Prerelease r0 = true ∧ Draft r0 = false → PublishedAt r0 ≤ PublishedAt b) (r :: l)) as Hstep.
    { intros b Hb Hbest. specialize (IH (Some r)). rewrite Hb in IH. destruct IH as (Hin & Hle & Hall).
      specialize (Hle r eq_refl). split; [|split; [|by constructor]].
      - right. destruct Hin as [[= ->]|[??]]; [split; [by left|done]|]. split; [by right|done].
      - intros b0 ->. destruct Hbest as [|(? & [= <-] & ?)]; [done|lia]. }
    assert (∀ b0, ∃ b, freshest (Some b0) l = Some b) as Hsome.
    { intros b0. specialize (IH (Some b0)). destruct (freshest (Some b0) l); [by eexists|by destruct IH]. }
    destruct best as [b0|].
    + case_decide as Hlt.
      * destruct (Hsome r) as [b Hb]. rewrite Hb. apply Hstep; [done|]. right. by exists b0.
      * specialize (IH (Some b0)). destruct (freshest (Some b0) l) as [b|]; [|by destruct IH].
        destruct IH as (Hin & Hle & Hall). specialize (Hle b0 eq_refl).
        split; [|split; [by intros ? [= <-]|constructor; [intros _; lia|done]]].
        destruct Hin as [?|[??]]; [by left|right]. split; [by right|done].
    + destruct (Hsome r) as [b Hb]. rewrite Hb. apply Hstep; [done|by left].
Qed.

(** The effect of the installation on the file system. *)
Lemma install_effect h restart rel fs res fs' :
  install h restart rel fs = (res, fs') →
  (fs' = fs ∧ ∃ e, res = Err e) ∨
  ∃ asset exe bin, pickAsset h (Assets rel) = Some asset ∧ h_executable h = inl exe ∧ h_symlinks h exe = inl bin ∧
    (∀ p, p ≠ bin → p ≠ bin +:+ ".new" → fs' !! p = fs !! p) ∧
    (fs' !! bin = fs !! bin ∧ (∃ e, res = Err e) ∨
     (∃ content, h_download h (BrowserDownloadURL asset) = DlDone content ∧ fs' !! bin = Some (content, 493)) ∧
     fs' !! (bin +:+ ".new") = None ∧ res = (if restart then check_err (restartSystemd h) else Ret tt)) ∧
    (h_remove_ok h = true → fs' !! (bin +:+ ".new") = None).
Proof.
  unfold install. destruct (pickAsset h (Assets rel)) as [asset|]; [|intros [= <- <-]; left; eauto].
  destruct (h_executable h) as [exe|e]; [|intros [= <- <-]; left; eauto].
  destruct (h_symlinks h exe) as [bin|e] eqn:Hsym; [|intros [= <- <-]; left; eauto].
  set (tmp := bin +:+ ".new"). assert (Hne : bin ≠ tmp) by (intros Heq; by apply (app_suffix_ne bin "."%char "new")).
  intros Hrun. right. exists asset, exe, bin. split; [done|]. split; [done|]. split; [done|]. fold tmp.
  assert (Hfail : ∀ e fs1, (∀ p, p ≠ tmp → fs1 !! p = fs !! p) →
    (∀ p, p ≠ bin → p ≠ tmp → os_Remove h tmp fs1 !! p = fs !! p) ∧
    (os_Remove h tmp fs1 !! bin = fs !! bin ∧ (∃ e', (Err e : outcome unit) = Err e') ∨
     (∃ content, h_download h (BrowserDownloadURL asset) = DlDone content ∧ os_Remove h tmp fs1 !! bin = Some (content, 493)) ∧
     os_Remove h tmp fs1 !! tmp = None ∧ (Err e : outcome unit) = (if restart then check_err (restartSystemd h) else Ret tt)) ∧
    (h_remove_ok h = true → os_Remove h tmp fs1 !! tmp = None)).
  { intros e fs1 Hfs1. unfold os_Remove. split_and!.
    - intros p ??. destruct (h_remove_ok h); [rewrite lookup_delete_ne by done|]; by apply Hfs1.
    - left. split; [|eauto]. destruct (h_remove_ok h); [rewrite lookup_delete_ne by done|]; by apply Hfs1.
    - intros ->. by rewrite lookup_delete_eq. }
  unfold download in Hrun.
  destruct (h_download h (BrowserDownloadURL asset)) as [err|w err|content] eqn:Hdl.
  - injection Hrun as <- <-. by apply Hfail.
  - injection Hrun as <- <-. apply Hfail. intros p Hp. by rewrite lookup_insert_ne.
  - unfold os_Chmod in Hrun. set (fs1 := <[tmp := _]> fs) in Hrun.
    assert (Hfs1 : ∀ p, p ≠ tmp → fs1 !! p = fs !! p) by (intros p Hp; unfold fs1; by rewrite lookup_insert_ne).
    assert (Htmp1 : fst <$> fs1 !! tmp = Some content) by (unfold fs1; by rewrite lookup_insert_eq).
    destruct (h_chmod h) as [err|]; [injection Hrun as <- <-; by apply Hfail|].
    set (fs2 := alter _ tmp fs1) in Hrun.
    assert (Hfs2 : ∀ p, p ≠ tmp → fs2 !! p = fs !! p) by (intros p Hp; unfold fs2; rewrite lookup_alter_ne by done; by apply Hfs1).
    assert (Htmp2 : fs2 !! tmp = Some (content, 493)).
    { unfold fs2. rewrite lookup_alter_eq. destruct (fs1 !! tmp) as [[c m]|]; [|done]. cbn in Htmp1 |- *. congruence. }
    clearbody fs1 fs2. unfold os_Rename in Hrun.
    destruct (h_rename h) as [err|]; [injection Hrun as <- <-; by apply Hfail|].
    rewrite Htmp2 in Hrun.
    assert (fs' = <[bin := (content, 493)]> (delete tmp fs2) ∧ res = (if restart then check_err (restartSystemd h) else Ret tt))
      as [-> ->] by (destruct restart; cbn [negb] in Hrun; by injection Hrun as <- <-).
    split_and!.
    + intros p Hp1 Hp2. rewrite lookup_insert_ne, lookup_delete_ne by done. by apply Hfs2.
    + right. split; [exists content; split; [done|by rewrite lookup_insert_eq]|].
      split; [by rewrite lookup_insert_ne, lookup_delete_eq|done].
    + intros _. by rewrite lookup_insert_ne, lookup_delete_eq.
Qed.

(** The release the decision is about, and what it decides. *)
Lemma Apply_unfold gh h opts cur rev fs resolved rel :
  pickRelease gh (opt_Channel opts) cur = Ret (resolved, rel) →
  Apply gh h opts cur rev fs =
    match (if Force opts then Ret true else should_install gh rel cur rev) with
    | Err err => (Err err, fs) | Panic p => (Panic p, fs) | Ret false => (Ret tt, fs)
    | Ret true => install h (Restart opts) rel fs
    end.
Proof. unfold Apply. by intros ->. Qed.

Lemma pickRelease_Ret gh channel cur resolved rel :
  pickRelease gh channel cur = Ret (resolved, rel) →
  resolveChannel channel cur = Ret resolved ∧ fetchLatest gh resolved = Ret rel.
Proof.
  unfold pickRelease. intros H. apply outcome_bind_Ret in H as (r & -> & H).
  destruct (fetchLatest gh r) eqn:Hf; by simplify_eq.
Qed.

(** Neither the decision nor the choice of the release can panic. *)
Lemma should_install_cases gh rel cur rev :
  let latest := TrimPrefix (TagName rel) "v" in
  should_install gh rel cur rev =
    if decide (latest = cur) then Ret (nightlyRepublished gh rel rev)
    else if decide (compareVersions latest cur < 0) then
      Err (Errorf ("refusing to downgrade " +:+ cur +:+ " -> " +:+ latest +:+ "; use force"))
    else Ret true.
Proof. done. Qed.

(** ** Theorems *)

(** [C17] Self-update is all or nothing: whatever call fails, no file but the running binary and
    its [.new] sibling is touched, and the binary is either what it was, or complete: the
    whole download of this platform's asset, executable; it is replaced exactly when only
    the restart can still fail, and no [.new] file is left over if removing works. *)
Theorem Apply_atomic (gh : github) (h : host) (opts : ApplyOptions) (cur rev exe bin : string) (fs fs' : files)
    (res : outcome unit) (Hexe : h_executable h = inl exe) (Hsym : h_symlinks h exe = inl bin)
    (Hrun : Apply gh h opts cur rev fs = (res, fs')) :
  (∀ p, p ≠ bin → p ≠ bin +:+ ".new" → fs' !! p = fs !! p) ∧
  (fs' !! bin = fs !! bin ∨
   ∃ resolved rel asset content, pickRelease gh (opt_Channel opts) cur = Ret (resolved, rel) ∧
     asset ∈ Assets rel ∧ GOOS h = "linux" ∧ as_Name asset = "ehco_linux_" +:+ GOARCH h ∧
     h_download h (BrowserDownloadURL asset) = DlDone content ∧ fs' !! bin = Some (content, 493) ∧
     res = (if Restart opts then check_err (restartSystemd h) else Ret tt)) ∧
  (h_remove_ok h = true → fs !! (bin +:+ ".new") = None → fs' !! (bin +:+ ".new") = None).
Proof.
  destruct (pickRelease gh (opt_Channel opts) cur) as [[resolved rel]|e|p] eqn:Hp;
    [|unfold Apply in Hrun; rewrite Hp in Hrun; injection Hrun as _ <-; auto..].
  rewrite (Apply_unfold _ _ _ _ _ _ _ _ Hp) in Hrun.
  destruct (if Force opts then Ret true else should_install gh rel cur rev) as [[]|e|p];
    [|injection Hrun as _ <-; auto..].
  destruct (install_effect _ _ _ _ _ _ Hrun) as [[-> _]|(asset & exe' & bin' & Ha & He & Hs & Hother & Hbin & Htmp)];
    [auto|]. assert (exe' = exe) as -> by congruence. assert (bin' = bin) as -> by congruence.
  split; [done|]. split; [|auto]. destruct Hbin as [[? _]|((content & Hdl & Hbin) & _ & Hres)]; [by left|right].
  apply pickAsset_spec in Ha as (? & ? & ?). by exists resolved, rel, asset, content.
Qed.

(** [C31] What is offered is what would be installed: the release [Check] reports is the one
    [Apply] works on; when [Check] says there is an update, an unforced [Apply] installs it;
    when it says there is none, [Apply] leaves the machine alone or refuses to downgrade,
    except when the versions differ as strings but compare equal: then it reinstalls a
    release that [Check] does not offer. *)
Theorem Check_Apply_agree (gh : github) (h : host) (opts : ApplyOptions) (cur rev : string) (fs : files)
    (c : CheckResult) (Hforce : Force opts = false)
    (Hcheck : updater_Check gh h (opt_Channel opts) cur rev = Ret c) :
  ∃ rel, pickRelease gh (opt_Channel opts) cur = Ret (res_Channel c, rel) ∧ TagName rel = LatestTag c ∧
    LatestVersion c = TrimPrefix (LatestTag c) "v" ∧
    (UpdateAvailable c = true → Apply gh h opts cur rev fs = install h (Restart opts) rel fs) ∧
    (UpdateAvailable c = false →
       Apply gh h opts cur rev fs = (Ret tt, fs) ∨
       compareVersions (LatestVersion c) cur < 0 ∧ (∃ e, Apply gh h opts cur rev fs = (Err e, fs)) ∨
       LatestVersion c ≠ cur ∧ compareVersions (LatestVersion c) cur = 0 ∧
       Apply gh h opts cur rev fs = install h (Restart opts) rel fs).
Proof.
  unfold updater_Check in Hcheck. apply outcome_bind_Ret in Hcheck as ([resolved rel] & Hp & Hc).
  injection Hc as <-. cbn [res_Channel LatestTag LatestVersion UpdateAvailable].
  exists rel. split; [done|]. split; [done|]. split; [done|].
  rewrite (Apply_unfold _ _ _ _ _ _ _ _ Hp), Hforce, should_install_cases. cbv zeta.
  case_decide as Heq.
  - split; [by intros ->|]. intros ->. by left.
  - rewrite bool_decide_eq_true, bool_decide_eq_false. case_decide as Hlt.
    + split; [lia|]. intros _. right. left. split; [done|]. by eexists.
    + split; [done|]. intros Hle. right. right. split; [done|]. split; [lia|done].
Qed.

(** Which release is chosen: stable takes the latest release GitHub names, with a tag; nightly
    takes a published prerelease that no other published prerelease of the list is newer
    than, and fails exactly when there is none; an unforced install never goes to a version
    that compares lower, and to the same version only if the tag moved to another commit. *)
Theorem release_policy (gh : github) (h : host) (opts : ApplyOptions) (cur rev : string) (fs fs' : files)
    (res : outcome unit) (Hforce : Force opts = false)
    (Hrun : Apply gh h opts cur rev fs = (res, fs')) (Hchanged : fs' ≠ fs) :
  ∃ resolved rel, resolveChannel (opt_Channel opts) cur = Ret resolved ∧
    (resolved = ChannelStable ∧ gh_latest gh = inl rel ∧ TagName rel ≠ "" ∨
     resolved = ChannelNightly ∧ ∃ l, gh_list gh = inl l ∧ rel ∈ l ∧ nightly rel ∧
       Forall (λ r, nightly r → PublishedAt r ≤ PublishedAt rel) l) ∧
    let latest := TrimPrefix (TagName rel) "v" in
    (latest ≠ cur ∧ 0 ≤ compareVersions latest cur ∨
     latest = cur ∧ Prerelease rel = true ∧ rev ≠ "" ∧
       ∃ sha, gh_commit gh (TagName rel) = inl sha ∧ shaMatchesRevision sha rev = false).
Proof.
  destruct (pickRelease gh (opt_Channel opts) cur) as [[resolved rel]|e|p] eqn:Hp;
    [|unfold Apply in Hrun; rewrite Hp in Hrun; by injection Hrun as _ <-..].
  rewrite (Apply_unfold _ _ _ _ _ _ _ _ Hp), Hforce, should_install_cases in Hrun. cbv zeta in Hrun.
  apply pickRelease_Ret in Hp as [Hch Hf]. exists resolved, rel. split; [done|]. split.
  - unfold fetchLatest in Hf. case_decide as Hst.
    + left. split; [done|]. destruct (gh_latest gh); [|done]. case_decide; by simplify_eq.
    + right. unfold resolveChannel in Hch.
      assert (resolved = ChannelNightly) as ->.
      { case_decide as Hin; [injection Hch as <-; set_solver|]. case_decide; [|done]. case_decide; congruence. }
      split; [done|]. destruct (gh_list gh) as [l|]; [|done]. exists l. split; [done|].
      pose proof (freshest_spec None l) as Hs. destruct (freshest None l); [|done]. simplify_eq.
      destruct Hs as ([?|[??]] & _ & ?); [done|]. done.
  - case_decide as Heq.
    + right. split; [done|]. destruct (nightlyRepublished gh rel rev) eqn:Hn; [|by injection Hrun as _ <-].
      unfold nightlyRepublished in Hn. case_decide as Hor; [done|].
      destruct (gh_commit gh (TagName rel)) as [sha|]; [|done]. case_decide; [done|].
      apply negb_true_iff in Hn. split_and!; [by destruct (Prerelease rel); tauto|tauto|by exists sha].
    + left. split; [done|]. case_decide; [by injection Hrun as _ <-|lia].
Qed.
End updater.

(** ** A release and a machine *)

Definition sample_semver_Prerelease (v : string) : string := if Contains v "-" then "-next" else "".

Definition sample_release (tag : string) (pre : bool) (at_ : Z) : ghRelease :=
  mkRelease tag tag "" pre false at_ "" [mkAsset "ehco_linux_arm64" "u1"; mkAsset "ehco_linux_amd64" "u2"].

Definition sample_github : github :=
  mkGithub (inl (sample_release "v1.1.8" false 5))
    (inl [sample_release "v1.1.8-next" true 7; sample_release "v1.1.7-next" true 3])
    (λ _, inl "aaaaaaa").

Definition sample_host (dl : download_result) : host :=
  mkHost "linux" "amd64" (inl "/bin/ehco") (λ _, inl "/opt/ehco") (λ _, dl) None None true true None.

Definition sample_files : files := {["/opt/ehco" := ("old", 493)]}.

Notation sample_Apply dl rev :=
  (Apply sample_semver_Prerelease (λ _, true) strings_Compare sample_github (sample_host dl)
     (mkApplyOptions ChannelAuto false true) "1.1.7" rev sample_files).

Lemma Apply_atomic_witness :
  snd (sample_Apply (DlDone "new") "") !! "/opt/ehco" = Some ("new", 493) ∧
  snd (sample_Apply (DlPartial "ne" io_EOF) "") !! "/opt/ehco" = Some ("old", 493).
Proof.
  split; [vm_compute; reflexivity|].
  destruct (sample_Apply (DlPartial "ne" io_EOF) "") as [res fs'] eqn:E.
  destruct (Apply_atomic _ _ _ _ (sample_host (DlPartial "ne" io_EOF)) _ _ _ "/bin/ehco" "/opt/ehco" _ _ _
    eq_refl eq_refl E) as (_ & [H|H] & _);
    [cbn [snd]; rewrite H; reflexivity|].
  destruct H as (? & ? & ? & ? & _ & _ & _ & _ & Hdl & _). discriminate Hdl.
Defined.

Lemma Check_Apply_agree_witness : ∃ rel,
  sample_Apply (DlDone "new") "" = install (sample_host (DlDone "new")) true rel sample_files.
Proof.
  destruct (updater_Check sample_semver_Prerelease (λ _, true) strings_Compare sample_github
    (sample_host (DlDone "new")) ChannelAuto "1.1.7" "") as [c| |] eqn:E; [|vm_compute in E; discriminate E..].
  destruct (Check_Apply_agree sample_semver_Prerelease (λ _, true) strings_Compare sample_github
    (sample_host (DlDone "new")) (mkApplyOptions ChannelAuto false true) "1.1.7" "" sample_files c eq_refl E)
    as (rel & _ & _ & _ & H & _).
  exists rel. apply H. vm_compute in E. injection E as <-. reflexivity.
Defined.

Lemma release_policy_witness : ∃ resolved rel,
  resolveChannel sample_semver_Prerelease ChannelAuto "1.1.7" = Ret resolved ∧ TagName rel = "v1.1.8".
Proof.
  destruct (sample_Apply (DlDone "new") "") as [res fs'] eqn:E.
  assert (fs' ≠ sample_files) as Hne by (vm_compute in E; injection E as _ <-; discriminate).
  destruct (release_policy _ _ _ _ _ (mkApplyOptions ChannelAuto false true) _ _ _ _ _ eq_refl E Hne) as (resolved & rel & Hch & Hrel & _).
  exists resolved, rel. split; [exact Hch|]. destruct Hrel as [(_ & Hl & _)|(Hn & _)].
  - injection Hl as <-. reflexivity.
  - exfalso. vm_compute in Hch. rewrite Hn in Hch. discriminate Hch.
Defined.
