(* ===== verification/GitHub.v ===== *)
(** * internal/updater/updater.go over HTTP: getJSON, fetchTagCommitSHA, download

    [Updater] takes GitHub's answers as given.  Here they come from HTTP replies: the status
    is checked before a body is decoded or written to disk, and what that means for a whole
    update.  The network is a function from URLs to replies; [encoding/json] is the three
    decoders. *)

From S2P Require Import Prelude GoStd Updater.

Definition releasesAPI : string := "https://api.github.com/repos/Ehco1996/ehco/releases".
Definition commitsAPI : string := "https://api.github.com/repos/Ehco1996/ehco/commits/".

(** What a GET ends with: the request cannot be built, there is no response, or a response
    with its code, status line and body; the body may break off with an error. *)
Inductive http_exchange :=
  | NoRequest (err : error)
  | NoResponse (err : error)
  | Response (code : Z) (status : string) (body : string) (cut : option error).

(** [strings.TrimSpace] on ASCII. *)
Definition is_space (c : Ascii.ascii) : bool :=
  let n := Ascii.N_of_ascii c in bool_decide (9 ≤ n ≤ 13 ∨ n = 32)%N.

Fixpoint trim_left (s : string) : string :=
  match s with
  | String c rest => if is_space c then trim_left rest else s
  | EmptyString => s
  end.

Definition TrimSpace (s : string) : string := String.rev (trim_left (String.rev (trim_left s))).

(** The error text quotes at most 512 bytes of the body. *)
Definition getJSON {A} (decode : string → option error → A + error) (x : http_exchange) : A + error :=
  match x with
  | NoRequest err | NoResponse err => inr err
  | Response code status body cut =>
      if decide (code ≠ 200) then
        inr (Errorf ("github " +:+ status +:+ ": " +:+ TrimSpace (String.substring 0 512 body)))
      else decode body cut
  end.

(** The calls on the destination file: opening it, a write that fails after some bytes, closing. *)
Record dl_env := mkDl { dl_open : option error; dl_write : option (nat * error); dl_close : option error }.

Definition http_download (env : dl_env) (x : http_exchange) : download_result :=
  match x with
  | NoRequest err | NoResponse err => DlFailed err
  | Response code status body cut =>
      if decide (code ≠ 200) then DlFailed (Errorf ("download " +:+ status))
      else match dl_open env with
           | Some err => DlFailed err
           | None =>
               match dl_write env with
               | Some (n, err) => DlPartial (String.substring 0 n body) err
               | None =>
                   match cut with
                   | Some err => DlPartial body err
                   | None => match dl_close env with Some err => DlPartial body err | None => DlDone body end
                   end
               end
           end
  end.

Section Http.
Context (dec_release : string → option error → ghRelease + error)
        (dec_list : string → option error → list ghRelease + error)
        (dec_commit : string → option error → string + error).
Context (net : string → http_exchange).

Definition fetchTagCommitSHA (tag : string) : string + error := getJSON dec_commit (net (commitsAPI +:+ tag)).

(** What [fetchLatest] and [nightlyRepublished] ask for. *)
Definition github_over : github :=
  {| gh_latest := getJSON dec_release (net (releasesAPI +:+ "/latest"));
     gh_list := getJSON dec_list (net (releasesAPI +:+ "?per_page=30"));
     gh_commit := fetchTagCommitSHA |}.

Context (semver_Prerelease : string → string) (semver_IsValid : string → bool)
        (semver_Compare : string → string → Z).
Notation Apply := (Apply semver_Prerelease semver_IsValid semver_Compare).
Notation pickRelease := (pickRelease semver_Prerelease).
Notation resolveChannel := (resolveChannel semver_Prerelease).

(** ** Lemmas *)

Lemma getJSON_inl {A} (decode : string → option error → A + error) x v :
  getJSON decode x = inl v → ∃ status body cut, x = Response 200 status body cut ∧ decode body cut = inl v.
Proof.
  destruct x as [e|e|code status body cut]; cbn; [done..|]. case_decide as Hc; [done|].
  subst code. intros H. by exists status, body, cut.
Qed.

Lemma http_download_done env x content :
  http_download env x = DlDone content → ∃ status, x = Response 200 status content None.
Proof.
  destruct x as [e|e|code status body cut]; cbn; [done..|]. case_decide as Hc; [done|].
  subst code. intros Hd. repeat case_match; simplify_eq. by exists status.
Qed.

Lemma pickRelease_over opt cur resolved rel :
  pickRelease github_over opt cur = Ret (resolved, rel) →
  resolveChannel opt cur = Ret resolved ∧
  ((∃ st b e, net (releasesAPI +:+ "/latest") = Response 200 st b e ∧ dec_release b e = inl rel ∧ TagName rel ≠ "") ∨
   (∃ st b e l, net (releasesAPI +:+ "?per_page=30") = Response 200 st b e ∧ dec_list b e = inl l ∧ rel ∈ l ∧ nightly rel)).
Proof.
  intros [Hr Hf]%pickRelease_Ret. split; [done|]. unfold fetchLatest in Hf. case_decide as Hst.
  - left. destruct (gh_latest github_over) as [r|e] eqn:Hg; [|done].
    apply getJSON_inl in Hg as (st & b & e & Hn & Hd). case_decide; [done|]. injection Hf as ->. by exists st, b, e.
  - right. destruct (gh_list github_over) as [l|e] eqn:Hg; [|done].
    apply getJSON_inl in Hg as (st & b & e & Hn & Hd).
    pose proof (freshest_spec None l) as Hs. destruct (freshest None l) as [r|]; [|done]. injection Hf as ->.
    destruct Hs as ([?|[? ?]] & _ & _); [done|]. by exists st, b, e, l.
Qed.

(** ** Theorems *)

(** A binary is only ever replaced by what GitHub served with status 200: when an update
    changes the running binary, the release comes from a decoded 200 reply of the channel's
    URL, the asset is that release's for this platform, and the new file is the complete body
    of a 200 reply at the asset's URL. *)
Theorem Apply_over_http (h : host) (env : dl_env) (opts : ApplyOptions) (cur rev exe bin : string) (fs fs' : files)
    (res : outcome unit)
    (Hexe : h_executable h = inl exe) (Hsym : h_symlinks h exe = inl bin)
    (Hnet : ∀ url, h_download h url = http_download env (net url))
    (Hrun : Apply github_over h opts cur rev fs = (res, fs')) (Hchanged : fs' !! bin ≠ fs !! bin) :
  ∃ rel asset status body,
    ((∃ st b e, net (releasesAPI +:+ "/latest") = Response 200 st b e ∧ dec_release b e = inl rel ∧ TagName rel ≠ "") ∨
     (∃ st b e l, net (releasesAPI +:+ "?per_page=30") = Response 200 st b e ∧ dec_list b e = inl l ∧ rel ∈ l ∧ nightly rel)) ∧
    asset ∈ Assets rel ∧ as_Name asset = "ehco_linux_" +:+ GOARCH h ∧
    net (BrowserDownloadURL asset) = Response 200 status body None ∧ fs' !! bin = Some (body, 493).
Proof.
  destruct (pickRelease github_over (opt_Channel opts) cur) as [[resolved rel]|e|p] eqn:Hp;
    [|unfold Updater.Apply in Hrun; rewrite Hp in Hrun; by injection Hrun as _ <-..].
  rewrite (Apply_unfold _ _ _ _ _ _ _ _ _ _ _ Hp) in Hrun.
  destruct (if Force opts then Ret true else _) as [[]|e|p]; [|by injection Hrun as _ <-..].
  destruct (install_effect _ _ _ _ _ _ Hrun) as [[-> _]|(asset & exe' & bin' & Ha & He & Hs & _ & Hbin & _)]; [done|].
  assert (exe' = exe) as -> by congruence. assert (bin' = bin) as -> by congruence.
  destruct Hbin as [[? _]|((body & Hdl & Hb) & _)]; [done|].
  rewrite Hnet in Hdl. apply http_download_done in Hdl as [status Hdl].
  apply pickAsset_spec in Ha as (_ & Hin & Hname). apply pickRelease_over in Hp as [_ Hrel].
  by exists rel, asset, status, body.
Qed.

(** A refused request stops an update before anything is touched, and says why; but when it is
    the query for the commit of a tag that equals the running version, an update that is not
    forced reports success and does nothing. *)
Theorem refused_requests (h : host) (opts : ApplyOptions) (cur rev : string) (fs : files) (resolved : string)
    (code : Z) (status body : string) (cut : option error)
    (Hch : resolveChannel (opt_Channel opts) cur = Ret resolved) (Hcode : code ≠ 200) :
  (net (releasesAPI +:+ (if decide (resolved = ChannelStable) then "/latest" else "?per_page=30")) = Response code status body cut →
   Apply github_over h opts cur rev fs =
     (Err (Wrapf ("fetch " +:+ resolved +:+ ": ")
        (Errorf ("github " +:+ status +:+ ": " +:+ TrimSpace (String.substring 0 512 body)))), fs)) ∧
  (∀ rel, pickRelease github_over (opt_Channel opts) cur = Ret (resolved, rel) →
     Force opts = false → TrimPrefix (TagName rel) "v" = cur →
     net (commitsAPI +:+ TagName rel) = Response code status body cut →
     Apply github_over h opts cur rev fs = (Ret tt, fs)).
Proof.
  split.
  - intros Hn. assert (pickRelease github_over (opt_Channel opts) cur =
      Err (Wrapf ("fetch " +:+ resolved +:+ ": ")
        (Errorf ("github " +:+ status +:+ ": " +:+ TrimSpace (String.substring 0 512 body))))) as Hp.
    { unfold Updater.pickRelease. rewrite Hch. cbn [mbind outcome_bind]. unfold fetchLatest, github_over, getJSON.
      cbn [gh_latest gh_list].
      case_decide; rewrite Hn; by rewrite decide_True by done. }
    unfold Updater.Apply. by rewrite Hp.
  - intros rel Hp Hf Hcur Hn. rewrite (Apply_unfold _ _ _ _ _ _ _ _ _ _ _ Hp), Hf. unfold should_install.
    rewrite decide_True by done. unfold nightlyRepublished. case_decide; [done|].
    cbn [gh_commit github_over]. unfold fetchTagCommitSHA. rewrite Hn. cbn. by rewrite decide_True by done.
Qed.
End Http.

(** ** Witnesses *)

Definition sample_net (url : string) : http_exchange :=
  if decide (url = releasesAPI +:+ "/latest") then Response 200 "200 OK" "release" None
  else if decide (url = "u2") then Response 200 "200 OK" "new binary" None
  else Response 403 "403 Forbidden" " rate limit
" None.

Definition sample_dec (b : string) (e : option error) : ghRelease + error := inl (sample_release "v1.1.8" false 5).

Definition sample_http_host : host :=
  mkHost "linux" "amd64" (inl "/bin/ehco") (λ _, inl "/opt/ehco")
    (λ url, http_download (mkDl None None None) (sample_net url)) None None true true None.

Notation sample_http_Apply ch cur :=
  (Apply sample_semver_Prerelease (λ _, true) strings_Compare
     (github_over sample_dec (λ _ _, inl []) (λ _ _, inl "abc") sample_net) sample_http_host
     (mkApplyOptions ch false true) cur "" sample_files).

Lemma Apply_over_http_witness : ∃ rel asset status body,
  rel = sample_release "v1.1.8" false 5 ∧ asset ∈ Assets rel ∧
  sample_net (BrowserDownloadURL asset) = Response 200 status body None ∧
  snd (sample_http_Apply ChannelStable "1.1.7") !! "/opt/ehco" = Some (body, 493).
Proof.
  destruct (sample_http_Apply ChannelStable "1.1.7") as [res fs'] eqn:E.
  assert (fs' !! "/opt/ehco" ≠ sample_files !! "/opt/ehco") as Hne
    by (vm_compute in E; injection E as _ <-; vm_compute; discriminate).
  destruct (Apply_over_http sample_dec (λ _ _, inl []) (λ _ _, inl "abc") sample_net sample_semver_Prerelease
    (λ _, true) strings_Compare sample_http_host (mkDl None None None) (mkApplyOptions ChannelStable false true)
    "1.1.7" "" "/bin/ehco" "/opt/ehco" sample_files fs' res eq_refl eq_refl (λ _, eq_refl) E Hne)
    as (rel & asset & status & body & Hrel & Ha & _ & Hn & Hb).
  exists rel, asset, status, body. split; [|by split_and!].
  destruct Hrel as [(st & b & e & _ & Hd & _)|(st & b & e & l & _ & Hd & Hl & _)].
  - injection Hd as <-. reflexivity.
  - injection Hd as <-. by apply elem_of_nil in Hl.
Defined.

Lemma refused_requests_witness :
  sample_http_Apply ChannelNightly "1.1.7" =
  (Err (Wrapf "fetch nightly: " (Errorf "github 403 Forbidden: rate limit")), sample_files).
Proof.
  apply (refused_requests sample_dec (λ _ _, inl []) (λ _ _, inl "abc") sample_net sample_semver_Prerelease
    (λ _, true) strings_Compare sample_http_host (mkApplyOptions ChannelNightly false true) "1.1.7" "" sample_files
    ChannelNightly 403 "403 Forbidden" " rate limit
" None); [reflexivity|done|reflexivity].
Defined.
