(* ===== verification/UpdateRace.v ===== *)
(** * internal/updater: installations as steps on inodes

    [Updater] treats an installation as one function on paths.  Here the same calls (open
    the temporary file, copy the body chunk by chunk, close, chmod, rename, and the clean-up
    of a failure) are steps on a directory of inodes, as POSIX has them: truncation keeps
    the inode, a descriptor writes at its own offset, a rename moves the directory entry.  So
    every intermediate state is visible, which is what a kill of the process, a start of the
    service, or a second update at the same time meets (a power failure is not covered: the
    code never syncs, and the page cache is not modelled).  [UpdateApply] of the dashboard
    starts one installation per request, without asking whether one is running. *)

From S2P Require Import Prelude GoStd.

Record disk := mkDisk { entries : gmap string nat; inodes : list (list Z) }.

Definition content (d : disk) (path : string) : option (list Z) := i ← entries d !! path; inodes d !! i.

(** A write of [bs] at offset [off]: a gap is filled with zeros. *)
Definition write_at (off : nat) (bs c : list Z) : list Z :=
  take off (c ++ replicate (off - length c) 0) ++ bs ++ drop (off + length bs) c.

(** [os.OpenFile(tmp, O_CREATE|O_WRONLY|O_TRUNC)]: the inode that the descriptor refers to. *)
Definition open_trunc (path : string) (d : disk) : nat * disk :=
  match entries d !! path with
  | Some i => (i, {| entries := entries d; inodes := <[i := []]> (inodes d) |})
  | None => let i := length (inodes d) in
            (i, {| entries := <[path := i]> (entries d); inodes := inodes d ++ [[]] |})
  end.

Definition write_inode (i off : nat) (bs : list Z) (d : disk) : disk :=
  {| entries := entries d; inodes := alter (write_at off bs) i (inodes d) |}.

Definition remove_entry (path : string) (d : disk) : disk :=
  {| entries := delete path (entries d); inodes := inodes d |}.

(** [os.Rename]; [None]: there is no such file. *)
Definition rename_entry (old new : string) (d : disk) : option disk :=
  i ← entries d !! old; Some {| entries := <[new := i]> (delete old (entries d)); inodes := inodes d |}.

(** One installation; the chunks are the body that [io.Copy] still has to copy. *)
Inductive install_pc :=
  | Opening (chunks : list (list Z))
  | Copying (fd off : nat) (chunks : list (list Z))
  | Chmoding
  | Renaming
  | Installed
  | InstallFailed.

Section Race.
Variables tmp bin : string.

(** [fail]: the call of this step returns an error; the temporary file is then removed. *)
Definition install_step (fail : bool) (pc : install_pc) (d : disk) : install_pc * disk :=
  let failed := (InstallFailed, remove_entry tmp d) in
  match pc with
  | Opening chunks => if fail then failed else let (i, d) := open_trunc tmp d in (Copying i 0 chunks, d)
  | Copying i off [] => if fail then failed else (Chmoding, d)
  | Copying i off (bs :: chunks) =>
      if fail then failed else (Copying i (off + length bs) chunks, write_inode i off bs d)
  | Chmoding => if fail || bool_decide (entries d !! tmp = None) then failed else (Renaming, d)
  | Renaming => if fail then failed
                else match rename_entry tmp bin d with Some d => (Installed, d) | None => failed end
  | Installed | InstallFailed => (pc, d)
  end.

Definition race_state : Type := disk * list install_pc.

Definition race_step (st st' : race_state) : Prop :=
  ∃ k fail pc pc' d', st.2 !! k = Some pc ∧ install_step fail pc st.1 = (pc', d') ∧ st' = (d', <[k := pc']> st.2).

Fixpoint race_run (sched : list nat) (st : race_state) : race_state :=
  match sched with
  | [] => st
  | k :: sched =>
      match st.2 !! k with
      | Some pc => let (pc', d') := install_step false pc st.1 in race_run sched (d', <[k := pc']> st.2)
      | None => race_run sched st
      end
  end.

Lemma race_run_rtc sched st : rtc race_step st (race_run sched st).
Proof.
  revert st. induction sched as [|k sched IH]; intros st; cbn; [done|].
  destruct (st.2 !! k) as [pc|] eqn:Hk; [|apply IH]. destruct (install_step false pc st.1) as [pc' d'] eqn:Hs.
  eapply rtc_l; [|apply IH]. by exists k, false, pc, pc', d'.
Qed.

Hypothesis tmp_bin : tmp ≠ bin.

(** The binary has an inode that the temporary file, when one was left over, does not share. *)
Definition bin_alone (d : disk) (b : nat) : Prop :=
  entries d !! bin = Some b ∧ (b < length (inodes d))%nat ∧ entries d !! tmp ≠ Some b ∧
  (∀ i, entries d !! tmp = Some i → (i < length (inodes d))%nat).

(** What one installation keeps: the binary is untouched until it is replaced at once. *)
Inductive whole (old : list Z) (release : list Z) (d : disk) : install_pc → Prop :=
  | whole_open b chunks : bin_alone d b → inodes d !! b = Some old → concat chunks = release → whole old release d (Opening chunks)
  | whole_copy b i off chunks c : bin_alone d b → inodes d !! b = Some old → i ≠ b → entries d !! tmp = Some i →
      inodes d !! i = Some c → off = length c → c ++ concat chunks = release → whole old release d (Copying i off chunks)
  | whole_chmod b i : bin_alone d b → inodes d !! b = Some old → entries d !! tmp = Some i → inodes d !! i = Some release →
      whole old release d Chmoding
  | whole_rename b i : bin_alone d b → inodes d !! b = Some old → entries d !! tmp = Some i → inodes d !! i = Some release →
      whole old release d Renaming
  | whole_done : content d bin = Some release → whole old release d Installed
  | whole_failed : content d bin = Some old → whole old release d InstallFailed.

Lemma write_at_end c bs : write_at (length c) bs c = c ++ bs.
Proof.
  unfold write_at. rewrite Nat.sub_diag, app_nil_r, firstn_all.
  rewrite drop_ge by lia. by rewrite app_nil_r.
Qed.

Lemma whole_content old release d pc : whole old release d pc → content d bin = Some old ∨ content d bin = Some release.
Proof.
  unfold content. intros H. destruct H as [b ? (Hb & _) Ho|b ? ? ? ? (Hb & _) Ho|b ? (Hb & _) Ho|b ? (Hb & _) Ho|H|H];
    [left; by rewrite Hb..|by right|by left].
Qed.

Lemma whole_fail old release d pc :
  whole old release d pc → content d bin = Some old → whole old release (remove_entry tmp d) InstallFailed.
Proof. intros _ H. apply whole_failed. unfold content, remove_entry in *. cbn. by rewrite lookup_delete_ne. Qed.

Lemma open_trunc_whole old release d b chunks i d' :
  bin_alone d b → inodes d !! b = Some old → concat chunks = release → open_trunc tmp d = (i, d') →
  whole old release d' (Copying i 0 chunks).
Proof.
  intros (Hb & Hlt & Hne & Hwf) Ho Hr Hs. unfold open_trunc in Hs.
  destruct (entries d !! tmp) as [j|] eqn:Ht; injection Hs as <- <-.
  - assert (j ≠ b) by congruence. specialize (Hwf j eq_refl).
    apply (whole_copy _ _ _ b j 0 chunks []); cbn; try done.
    + unfold bin_alone. cbn. rewrite length_insert, Ht. split_and!; [done..|congruence].
    + by rewrite list_lookup_insert_ne.
    + by apply list_lookup_insert_eq.
  - apply (whole_copy _ _ _ b (length (inodes d)) 0 chunks []); cbn; try done.
    + unfold bin_alone. cbn. rewrite lookup_insert_ne, lookup_insert_eq, length_app by done.
      split_and!; [done|lia|congruence || (intros [=]; lia)|intros ? [= <-]; cbn; lia].
    + by rewrite lookup_app_l.
    + lia.
    + by rewrite lookup_insert_eq.
    + by rewrite lookup_app_r, Nat.sub_diag by lia.
Qed.

Lemma install_step_whole old release fail pc d pc' d' :
  install_step fail pc d = (pc', d') → whole old release d pc → whole old release d' pc'.
Proof.
  intros Hs Hw. pose proof (whole_content _ _ _ _ Hw) as Hc.
  assert (Hfail : (∀ b, bin_alone d b → inodes d !! b = Some old → whole old release (remove_entry tmp d) InstallFailed)).
  { intros b (Hb & _) Ho. apply (whole_fail _ _ _ pc Hw). unfold content. by rewrite Hb. }
  destruct Hw as [b chunks Ha Ho Hr|b i off chunks c Ha Ho Hi Ht Hc' Hoff Hr|b i Ha Ho Ht Hr|b i Ha Ho Ht Hr|H|H];
    cbn [install_step] in Hs.
  - destruct fail; [injection Hs as <- <-; by eapply Hfail|].
    destruct (open_trunc tmp d) as [i d1] eqn:Ho'. injection Hs as <- <-. by eapply open_trunc_whole.
  - destruct chunks as [|bs chunks]; (destruct fail; [injection Hs as <- <-; by eapply Hfail|]); injection Hs as <- <-.
    + apply (whole_chmod _ _ _ b i); try done. cbn in Hr. by rewrite app_nil_r in Hr; subst.
    + destruct Ha as (Hb & Hlt & Hne & Hwf). apply (whole_copy _ _ _ b i _ chunks (c ++ bs)); cbn; try done.
      * unfold bin_alone. cbn. by rewrite length_alter.
      * by rewrite list_lookup_alter_ne.
      * subst off. by rewrite list_lookup_alter_eq, Hc'; cbn; rewrite write_at_end.
      * rewrite length_app. lia.
      * by rewrite <- app_assoc.
  - destruct (fail || _) eqn:Hf; injection Hs as <- <-; [by eapply Hfail|]. by eapply whole_rename.
  - destruct fail; [injection Hs as <- <-; by eapply Hfail|]. unfold rename_entry in Hs. rewrite Ht in Hs.
    cbn in Hs. injection Hs as <- <-. apply whole_done. unfold content. cbn. by rewrite lookup_insert_eq.
  - injection Hs as <- <-. by apply whole_done.
  - injection Hs as <- <-. by apply whole_failed.
Qed.

Lemma race_step_whole old release st st' pc :
  race_step st st' → st.2 = [pc] → whole old release st.1 pc → ∃ pc', st'.2 = [pc'] ∧ whole old release st'.1 pc'.
Proof.
  intros (k & fail & pc0 & pc' & d' & Hk & Hs & ->) Hpc Hw. rewrite Hpc in *.
  apply list_lookup_singleton_Some in Hk as [-> <-]. exists pc'. split; [done|].
  by eapply install_step_whole.
Qed.

(** [C21] An installation that runs alone never exposes a torn binary: in every state it reaches
    (whatever call fails, wherever it is killed) the path of the binary holds the old
    program or the complete release, and it is the release once the installation succeeded
    and the old program once it failed. *)
Theorem install_always_whole old b chunks d d' pc :
  bin_alone d b → inodes d !! b = Some old →
  rtc race_step (d, [Opening chunks]) (d', [pc]) →
  (content d' bin = Some old ∨ content d' bin = Some (concat chunks)) ∧
  (pc = Installed → content d' bin = Some (concat chunks)) ∧
  (pc = InstallFailed → content d' bin = Some old).
Proof.
  intros Ha Ho Hr.
  assert (H : ∃ pc', [pc] = [pc'] ∧ whole old (concat chunks) d' pc').
  { apply (rtc_ind_r (λ st : race_state, ∃ pc', st.2 = [pc'] ∧ whole old (concat chunks) st.1 pc')
      (d, [Opening chunks])) in Hr; [done| |].
    - eexists. split; [done|]. by eapply whole_open.
    - intros st st' _ Hs (pc' & Hpc & Hw). by eapply race_step_whole. }
  destruct H as (pc' & [= <-] & H). split_and!; [by eapply whole_content| |]; intros ->; by inversion H.
Qed.
End Race.


(** A disk with the running program alone, and with a temporary file that a killed update left. *)
Definition sample_disk (old : list Z) : disk := {| entries := {["ehco" := 0%nat]}; inodes := [old] |}.

Definition stale_disk : disk :=
  {| entries := <["ehco.new" := 1%nat]> {["ehco" := 0%nat]}; inodes := [[1; 2]; [9; 9; 9; 9]] |}.

Lemma install_always_whole_witness :
  let st := race_run "ehco.new" "ehco" [0; 0; 0; 0; 0; 0]%nat (stale_disk, [Opening [[5]; [6]]]) in
  content st.1 "ehco" = Some [5; 6].
Proof.
  pose proof (race_run_rtc "ehco.new" "ehco" [0; 0; 0; 0; 0; 0]%nat (stale_disk, [Opening [[5]; [6]]])) as Hr.
  pose proof (install_always_whole "ehco.new" "ehco" ltac:(done) [1; 2] 0 [[5]; [6]] stale_disk) as H.
  specialize (H (race_run "ehco.new" "ehco" [0; 0; 0; 0; 0; 0]%nat (stale_disk, [Opening [[5]; [6]]])).1 Installed).
  apply H; [|done|exact Hr|done].
  unfold bin_alone. split_and!; [done|cbn; lia|done|]. intros i Hi. vm_compute in Hi. injection Hi as <-. cbn. lia.
Defined.

(** Two updates at the same time share the temporary file, so the one that wins can publish an
    empty binary: the second download truncates the file after the first has copied all of it
    and before its rename.  The first then reports success (and restarts the service, which kills
    the second in mid-copy).  If the second does go on, the binary is completed but the second
    fails, for its temporary file is gone. *)
Theorem concurrent_updates_truncate old release :
  let start := (sample_disk old, [Opening [release]; Opening [release]]) in
  let published := race_run "ehco.new" "ehco" [0; 0; 0; 0; 1; 0]%nat start in
  let finished := race_run "ehco.new" "ehco" [1; 1; 1]%nat published in
  rtc (race_step "ehco.new" "ehco") start published ∧
  content published.1 "ehco" = Some [] ∧ published.2 = [Installed; Copying 1 0 [release]] ∧
  content finished.1 "ehco" = Some release ∧ finished.2 = [Installed; InstallFailed].
Proof.
  split; [apply race_run_rtc|]. split_and!; [done|done| |done].
  change (Some (write_at 0 release []) = Some release). f_equal. apply (write_at_end []).
Qed.
