(* ===== verification/Limiter.v ===== *)
(** * pkg/limiter: rate limiters per client address

    An [IPRateLimiter] keeps two generations of limiters, so that addresses that stay away
    are forgotten by [gc] without a scan.  The token bucket itself is the package
    golang.org/x/time/rate, a parameter: [new_bucket] is [rate.NewLimiter(limit, burst)] and
    [Allow] is one [Allow()] at a time, on that bucket.  Buckets are shared pointers, so the
    maps hold indices into [buckets].  [CanServe] is first one step; then its accesses to
    the maps, the read lock and the unlocked test of [lastGcTime] are steps of their own. *)

From S2P Require Import Prelude GoStd.

Definition GCInterval : Z := Minute.

Section Limiter.
Context {Bucket : Type}.
Variable new_bucket : Bucket.
Variable Allow : Z → Bucket → bool * Bucket.

Record IPRateLimiter := mkLimiter {
  previousRateM : gmap string nat; currentRateM : gmap string nat;
  lastGcTime : Z; buckets : list Bucket }.

Definition NewIPRateLimiter (now : Z) : IPRateLimiter :=
  {| previousRateM := ∅; currentRateM := ∅; lastGcTime := now; buckets := [] |}.

(** The part of [GetOreCreateLimiter] under the write lock. *)
Definition get_locked (ip : string) (i : IPRateLimiter) : nat * IPRateLimiter :=
  match currentRateM i !! ip with
  | Some l => (l, i)
  | None =>
      match previousRateM i !! ip with
      | Some l =>
          (l, {| previousRateM := delete ip (previousRateM i); currentRateM := <[ip := l]> (currentRateM i);
                 lastGcTime := lastGcTime i; buckets := buckets i |})
      | None =>
          let l := length (buckets i) in
          (l, {| previousRateM := previousRateM i; currentRateM := <[ip := l]> (currentRateM i);
                 lastGcTime := lastGcTime i; buckets := buckets i ++ [new_bucket] |})
      end
  end.

Definition IPRateLimiter_GetOreCreateLimiter (ip : string) (i : IPRateLimiter) : nat * IPRateLimiter :=
  match currentRateM i !! ip with
  | Some l => (l, i)
  | None => get_locked ip i
  end.

Definition IPRateLimiter_gc (now : Z) (i : IPRateLimiter) : IPRateLimiter :=
  {| previousRateM := currentRateM i; currentRateM := ∅; lastGcTime := now; buckets := buckets i |}.

(** [ipl.Allow()] through the pointer [l]. *)
Definition allow (now : Z) (l : nat) (i : IPRateLimiter) : bool * IPRateLimiter :=
  match buckets i !! l with
  | Some b => let (ok, b) := Allow now b in
              (ok, {| previousRateM := previousRateM i; currentRateM := currentRateM i;
                      lastGcTime := lastGcTime i; buckets := <[l := b]> (buckets i) |})
  | None => (false, i)
  end.

Definition gc_due (now : Z) (i : IPRateLimiter) : bool := bool_decide (GCInterval < time_Sub now (lastGcTime i)).

(** The limiter that was asked is returned beside the answer. *)
Definition IPRateLimiter_CanServe (ip : string) (now : Z) (i : IPRateLimiter) : nat * bool * IPRateLimiter :=
  let (l, i) := IPRateLimiter_GetOreCreateLimiter ip i in
  let i := if gc_due now i then IPRateLimiter_gc now i else i in
  let (ok, i) := allow now l i in (l, ok, i).

(** Requests in sequence, with the limiter each of them used. *)
Fixpoint serve_all (reqs : list (string * Z)) (i : IPRateLimiter) : list (string * nat) * IPRateLimiter :=
  match reqs with
  | [] => ([], i)
  | (ip, now) :: reqs =>
      let '(l, _, i) := IPRateLimiter_CanServe ip now i in
      let (ls, i) := serve_all reqs i in ((ip, l) :: ls, i)
  end.

(** *** Calls that overlap *)

Inductive serve_pc :=
  | AtRead (ip : string)            (* before the look-up under the read lock *)
  | AtLock (ip : string)            (* it missed; before the write lock *)
  | AtTest (ip : string) (l : nat)  (* before the test of [lastGcTime] *)
  | AtGc (ip : string) (l : nat)    (* the test said yes *)
  | AtAllow (ip : string) (l : nat)
  | Served (ip : string) (l : nat) (ok : bool).

Definition serve_step (now : Z) (pc : serve_pc) (i : IPRateLimiter) : serve_pc * IPRateLimiter :=
  match pc with
  | AtRead ip => (match currentRateM i !! ip with Some l => AtTest ip l | None => AtLock ip end, i)
  | AtLock ip => let (l, i) := get_locked ip i in (AtTest ip l, i)
  | AtTest ip l => (if gc_due now i then AtGc ip l else AtAllow ip l, i)
  | AtGc ip l => (AtAllow ip l, IPRateLimiter_gc now i)
  | AtAllow ip l => let (ok, i) := allow now l i in (Served ip l ok, i)
  | Served ip l ok => (Served ip l ok, i)
  end.

(** A step of the [k]-th call at time [now]. *)
Definition limiter_step (st st' : IPRateLimiter * list serve_pc) : Prop :=
  ∃ k now pc pc' i', st.2 !! k = Some pc ∧ serve_step now pc st.1 = (pc', i') ∧ st' = (i', <[k := pc']> st.2).

Fixpoint limiter_run (sched : list (nat * Z)) (st : IPRateLimiter * list serve_pc) : IPRateLimiter * list serve_pc :=
  match sched with
  | [] => st
  | (k, now) :: sched =>
      match st.2 !! k with
      | Some pc => let (pc', i') := serve_step now pc st.1 in limiter_run sched (i', <[k := pc']> st.2)
      | None => limiter_run sched st
      end
  end.

(** ** Lemmas *)

(** The limiter of [ip], in either generation. *)
Definition limiter_of (ip : string) (i : IPRateLimiter) : option nat :=
  match currentRateM i !! ip with Some l => Some l | None => previousRateM i !! ip end.

(** An address has one limiter, no two addresses share one, and every limiter exists. *)
Record limiter_inv (i : IPRateLimiter) : Prop := {
  li_disjoint : currentRateM i ##ₘ previousRateM i;
  li_inj : ∀ ip ip' l, limiter_of ip i = Some l → limiter_of ip' i = Some l → ip = ip';
  li_bound : ∀ ip l, limiter_of ip i = Some l → (l < length (buckets i))%nat }.

Lemma get_locked_spec ip i l i' :
  get_locked ip i = (l, i') →
  currentRateM i' !! ip = Some l ∧ lastGcTime i' = lastGcTime i ∧
  (∀ ip', ip' ≠ ip → currentRateM i' !! ip' = currentRateM i !! ip' ∧ previousRateM i' !! ip' = previousRateM i !! ip') ∧
  (∀ l', limiter_of ip i = Some l' → l = l').
Proof.
  unfold get_locked, limiter_of. destruct (currentRateM i !! ip) as [l0|] eqn:Hc.
  - intros [= <- <-]. split_and!; [done..|congruence].
  - destruct (previousRateM i !! ip) as [l0|] eqn:Hp; intros [= <- <-]; cbn.
    + split_and!; [apply lookup_insert_eq|done| |congruence].
      intros ip' Hne. by rewrite lookup_insert_ne, lookup_delete_ne.
    + split_and!; [apply lookup_insert_eq|done| |done]. intros ip' Hne. by rewrite lookup_insert_ne.
Qed.

Lemma get_locked_inv ip i : limiter_inv i → limiter_inv (get_locked ip i).2.
Proof.
  intros [Hd Hi Hb]. unfold get_locked. destruct (currentRateM i !! ip) as [l0|] eqn:Hc; [done|].
  destruct (previousRateM i !! ip) as [l0|] eqn:Hp; cbn.
  - assert (Hsame : ∀ ip', limiter_of ip' (mkLimiter (delete ip (previousRateM i)) (<[ip := l0]> (currentRateM i))
      (lastGcTime i) (buckets i)) = limiter_of ip' i).
    { intros ip'. unfold limiter_of. cbn. destruct (decide (ip' = ip)) as [->|Hne].
      - by rewrite lookup_insert_eq, Hc, Hp.
      - by rewrite lookup_insert_ne, lookup_delete_ne. }
    split; cbn.
    + apply map_disjoint_insert_l. split; [by rewrite lookup_delete_eq|]. by apply map_disjoint_delete_r.
    + intros ip1 ip2 l. rewrite !Hsame. apply Hi.
    + intros ip' l. rewrite Hsame. apply Hb.
  - set (i' := mkLimiter _ _ _ _).
    assert (Hcase : ∀ ip' l, limiter_of ip' i' = Some l →
      ip' = ip ∧ l = length (buckets i) ∨ ip' ≠ ip ∧ limiter_of ip' i = Some l).
    { intros ip' l. unfold limiter_of, i'. cbn. destruct (decide (ip' = ip)) as [->|Hne].
      - rewrite lookup_insert_eq. intros [= <-]. by left.
      - rewrite lookup_insert_ne by done. by right. }
    split; cbn.
    + by apply map_disjoint_insert_l.
    + intros ip1 ip2 l [[-> ->]|[_ H1]]%Hcase [[-> H2]|[_ H2]]%Hcase; [done| | |by eapply Hi].
      * apply Hb in H2. lia.
      * subst l. apply Hb in H1. lia.
    + intros ip' l [[-> ->]|[_ H1%Hb]]%Hcase; rewrite length_app; cbn; lia.
Qed.

Lemma gc_inv now i : limiter_inv i → limiter_inv (IPRateLimiter_gc now i).
Proof.
  intros [Hd Hi Hb]. assert (Hof : ∀ ip l, limiter_of ip (IPRateLimiter_gc now i) = Some l → limiter_of ip i = Some l).
  { intros ip l. unfold limiter_of. cbn. rewrite lookup_empty. by intros ->. }
  split; cbn; [apply map_disjoint_empty_l|eauto..].
Qed.

Lemma allow_maps now l i :
  currentRateM (allow now l i).2 = currentRateM i ∧ previousRateM (allow now l i).2 = previousRateM i ∧
  lastGcTime (allow now l i).2 = lastGcTime i ∧ length (buckets (allow now l i).2) = length (buckets i).
Proof.
  unfold allow. destruct (buckets i !! l); [|done]. destruct (Allow now b). cbn. by rewrite length_insert.
Qed.

Lemma allow_inv now l i : limiter_inv i → limiter_inv (allow now l i).2.
Proof.
  intros [Hd Hi Hb]. destruct (allow_maps now l i) as (Hc & Hp & _ & Hl).
  split; unfold limiter_of in *; rewrite ?Hc, ?Hp, ?Hl; done.
Qed.

Lemma serve_step_inv now pc i : limiter_inv i → limiter_inv (serve_step now pc i).2.
Proof.
  intros Hi. destruct pc; cbn; [done| |done|by apply gc_inv| |done].
  - pose proof (get_locked_inv ip i Hi). by destruct (get_locked ip i).
  - pose proof (allow_inv now l i Hi). by destruct (allow now l i).
Qed.

(** In every interleaving of calls of [CanServe], each address has at most one limiter
    (the second look-up under the write lock closes the window between the locks), no two
    addresses share one, and every limiter of the maps exists. *)
Theorem one_limiter_per_ip (now0 : Z) (ips : list string) (st : IPRateLimiter * list serve_pc)
    (Hreach : rtc limiter_step (NewIPRateLimiter now0, AtRead <$> ips) st) :
  limiter_inv st.1 ∧ length st.2 = length ips ∧
  ∀ ip l, currentRateM st.1 !! ip = Some l → previousRateM st.1 !! ip = None.
Proof.
  assert (H : limiter_inv st.1 ∧ length st.2 = length ips).
  { assert (H0 : limiter_inv (NewIPRateLimiter now0) ∧ length (AtRead <$> ips) = length ips).
    { split; [|by rewrite length_fmap]. by split; [apply map_disjoint_empty_l|..]. }
    revert H0. change (NewIPRateLimiter now0) with (NewIPRateLimiter now0, AtRead <$> ips).1 at 1.
    change (AtRead <$> ips) with (NewIPRateLimiter now0, AtRead <$> ips).2 at 2.
    induction Hreach as [|st1 st2 st3 (k & now & pc & pc' & i' & _ & Hs & ->) _ IH]; [done|].
    intros [Hi Hl]. apply IH. cbn. rewrite length_insert. split; [|done].
    pose proof (serve_step_inv now pc st1.1 Hi) as Hi'. by rewrite Hs in Hi'. }
  destruct H as [Hi Hl]. split_and!; [done..|]. intros ip l Hc.
  destruct (previousRateM st.1 !! ip) eqn:Hp; [|done]. exfalso. by apply (map_disjoint_spec (currentRateM st.1) (previousRateM st.1)) with ip l n; [apply Hi|..].
Qed.

(** What holds for [ip] after a request at time [t] that used [l], for a minute. *)
Definition remembered (ip : string) (l : nat) (t : Z) (i : IPRateLimiter) : Prop :=
  currentRateM i !! ip = Some l ∨
  currentRateM i !! ip = None ∧ previousRateM i !! ip = Some l ∧ t ≤ lastGcTime i.

Lemma Get_spec ip i l i' :
  IPRateLimiter_GetOreCreateLimiter ip i = (l, i') →
  currentRateM i' !! ip = Some l ∧ lastGcTime i' = lastGcTime i ∧
  (∀ ip', ip' ≠ ip → currentRateM i' !! ip' = currentRateM i !! ip' ∧ previousRateM i' !! ip' = previousRateM i !! ip') ∧
  (∀ l', limiter_of ip i = Some l' → l = l').
Proof.
  unfold IPRateLimiter_GetOreCreateLimiter. destruct (currentRateM i !! ip) as [l0|] eqn:Hc; [|apply get_locked_spec].
  intros [= <- <-]. split_and!; [done..|]. unfold limiter_of. rewrite Hc. congruence.
Qed.

Lemma gc_due_time now i : gc_due now i = true → GCInterval < now - lastGcTime i.
Proof. unfold gc_due, time_Sub, GCInterval, min_int64, max_int64, Minute, Second. intros H%bool_decide_eq_true. lia. Qed.

Lemma CanServe_remembers ip now i l ok i' :
  IPRateLimiter_CanServe ip now i = (l, ok, i') → remembered ip l now i'.
Proof.
  unfold IPRateLimiter_CanServe. destruct (IPRateLimiter_GetOreCreateLimiter ip i) as [l0 i0] eqn:Hg.
  apply Get_spec in Hg as (Hc & _). destruct (allow now l0 _) as [ok0 i1] eqn:Ha. intros [= <- <- <-].
  destruct (allow_maps now l0 (if gc_due now i0 then IPRateLimiter_gc now i0 else i0)) as (Hc' & Hp' & Hl' & _).
  rewrite Ha in Hc', Hp', Hl'. cbn in *. unfold remembered. rewrite Hc', Hp', Hl'.
  destruct (gc_due now i0); cbn; [right|by left]. rewrite lookup_empty. split_and!; [done..|lia].
Qed.

Lemma CanServe_keeps ip l t ip' now i l' ok i' :
  IPRateLimiter_CanServe ip' now i = (l', ok, i') → remembered ip l t i → t ≤ now ≤ t + GCInterval → ip' ≠ ip →
  remembered ip l t i'.
Proof.
  unfold IPRateLimiter_CanServe. destruct (IPRateLimiter_GetOreCreateLimiter ip' i) as [l0 i0] eqn:Hg.
  apply Get_spec in Hg as (_ & Hgc & Hoth & _). destruct (allow now l0 _) as [ok0 i1] eqn:Ha. intros [= <- <- <-] Hr Ht Hne.
  destruct (Hoth ip ltac:(congruence)) as [Hco Hpo].
  destruct (allow_maps now l0 (if gc_due now i0 then IPRateLimiter_gc now i0 else i0)) as (Hc' & Hp' & Hl' & _).
  rewrite Ha in Hc', Hp', Hl'. cbn in *. unfold remembered in *. rewrite Hc', Hp', Hl'.
  destruct (gc_due now i0) eqn:Hd; cbn; rewrite ?Hco, ?Hpo, ?Hgc, ?lookup_empty; [|done].
  apply gc_due_time in Hd. rewrite Hgc in Hd. destruct Hr as [Hr|(_ & _ & Hr)]; [right|lia]. split_and!; [done..|lia].
Qed.

Lemma serve_all_keeps ip l t reqs i ls i' :
  serve_all reqs i = (ls, i') → remembered ip l t i →
  Forall (λ q, q.1 ≠ ip ∧ t ≤ q.2 ≤ t + GCInterval) reqs → remembered ip l t i'.
Proof.
  revert i ls. induction reqs as [|[ip' now] reqs IH]; intros i ls; cbn; [by intros [= <- <-]|].
  destruct (IPRateLimiter_CanServe ip' now i) as [[l0 ok] i0] eqn:Hs. destruct (serve_all reqs i0) as [ls0 i1] eqn:Hrest.
  intros [= <- <-] Hr [[Hne Ht] Hall]%Forall_cons. eapply IH; [done| |done]. by eapply CanServe_keeps.
Qed.

(** One call at a time, a client that comes back within a minute meets the bucket it
    used before, whatever other clients did and however often the generations turned over
    in between; so it cannot refill its allowance by provoking a collection. *)
Theorem bucket_survives_a_minute (ip : string) (t t' : Z) (reqs : list (string * Z)) (i i1 i2 : IPRateLimiter)
    (l : nat) (ok : bool) (ls : list (string * nat))
    (Hfirst : IPRateLimiter_CanServe ip t i = (l, ok, i1))
    (Hothers : serve_all reqs i1 = (ls, i2))
    (Hreqs : Forall (λ q, q.1 ≠ ip ∧ t ≤ q.2 ≤ t + GCInterval) reqs)
    (Hback : t ≤ t' ≤ t + GCInterval) :
  ∃ ok' i3, IPRateLimiter_CanServe ip t' i2 = (l, ok', i3).
Proof.
  pose proof (serve_all_keeps ip l t reqs i1 ls i2 Hothers (CanServe_remembers _ _ _ _ _ _ Hfirst) Hreqs) as Hr.
  unfold IPRateLimiter_CanServe. destruct (IPRateLimiter_GetOreCreateLimiter ip i2) as [l0 i0] eqn:Hg.
  apply Get_spec in Hg as (_ & _ & _ & Heq).
  assert (l0 = l) as -> by (apply Heq; unfold limiter_of; destruct Hr as [->|(-> & -> & _)]; done).
  destruct (allow t' l _) as [ok' i3]. eauto.
Qed.

Lemma limiter_run_rtc sched st : rtc limiter_step st (limiter_run sched st).
Proof.
  revert st. induction sched as [|[k now] sched IH]; intros st; cbn; [done|].
  destruct (st.2 !! k) as [pc|] eqn:Hk; [|apply IH]. destruct (serve_step now pc st.1) as [pc' i'] eqn:Hs.
  eapply rtc_l; [|apply IH]. by exists k, now, pc, pc', i'.
Qed.

(** Overlapping calls break that promise, because [lastGcTime] is tested outside the
    lock: when a minute has passed, two requests that arrive together both see a
    collection due and both collect, the second one throwing away the generation the first
    has just set aside.  The same client's next request, at the same instant, is answered
    from a full bucket, whatever the first two took out of theirs. *)
Theorem gc_race_refills :
  let T := 2 * Minute in
  let '(ok1, b1) := Allow T new_bucket in
  let '(ok2, _) := Allow T b1 in
  ∃ i, rtc limiter_step (NewIPRateLimiter 0, AtRead <$> ["a"; "a"; "a"])
         (i, [Served "a" 0 ok1; Served "a" 0 ok2; Served "a" 1 ok1]).
Proof.
  cbn zeta. destruct (Allow (2 * Minute) new_bucket) as [ok1 b1] eqn:H1.
  destruct (Allow (2 * Minute) b1) as [ok2 b2] eqn:H2.
  set (T := 2 * Minute) in *.
  set (i0 := mkLimiter ∅ ∅ T [new_bucket]). set (i2 := mkLimiter ∅ ∅ T [b2]).
  set (i3 := mkLimiter ∅ {["a" := 1%nat]} T [b2; new_bucket]).
  set (i4 := mkLimiter ∅ {["a" := 1%nat]} T [b2; b1]).
  assert (Hto : ∀ sched st st', limiter_run sched st = st' → rtc limiter_step st st').
  { intros sched st st' <-. apply limiter_run_rtc. }
  exists i4. etrans; [|etrans; [|etrans]].
  - apply (Hto ((λ k, (k, T)) <$> [0; 1; 0; 1; 0; 1; 0; 1]%nat) _ (i0, [AtAllow "a" 0; AtAllow "a" 0; AtRead "a"])).
    vm_compute. reflexivity.
  - apply (Hto [(0%nat, T); (1%nat, T)] _ (i2, [Served "a" 0 ok1; Served "a" 0 ok2; AtRead "a"])).
    cbn. unfold allow. cbn. rewrite H1. cbn. rewrite H2. reflexivity.
  - apply (Hto [(2%nat, T); (2%nat, T); (2%nat, T)] _ (i3, [Served "a" 0 ok1; Served "a" 0 ok2; AtAllow "a" 1])).
    vm_compute. reflexivity.
  - apply (Hto [(2%nat, T)]). cbn. unfold allow. cbn. rewrite H1. reflexivity.
Qed.
End Limiter.
Arguments IPRateLimiter : clear implicits.

(** A bucket of [n] tokens that is never refilled. *)
Definition countdown (now : Z) (n : nat) : bool * nat := (bool_decide (0 < n)%nat, pred n).

Lemma one_limiter_per_ip_witness :
  let st := limiter_run 5%nat countdown [(0%nat, 0); (1%nat, 0); (0%nat, 0); (1%nat, 0)]
    (NewIPRateLimiter 0, AtRead <$> ["a"; "a"]) in
  limiter_inv st.1 ∧ currentRateM st.1 = {["a" := 0%nat]}.
Proof.
  cbn zeta. split; [|vm_compute; reflexivity].
  apply (one_limiter_per_ip 5%nat countdown 0 ["a"; "a"]). apply limiter_run_rtc.
Defined.

Definition limiter_after_a : IPRateLimiter nat :=
  (IPRateLimiter_CanServe 5%nat countdown "a" (100 * Second) (NewIPRateLimiter 0)).2.
Definition limiter_after_b : IPRateLimiter nat :=
  (serve_all 5%nat countdown [("b", 110 * Second)] limiter_after_a).2.

Lemma bucket_survives_a_minute_witness :
  ∃ ok' i3, IPRateLimiter_CanServe 5%nat countdown "a" (160 * Second) limiter_after_b = (0%nat, ok', i3).
Proof.
  apply (bucket_survives_a_minute 5%nat countdown "a" (100 * Second) (160 * Second) [("b", 110 * Second)]
    (NewIPRateLimiter 0) limiter_after_a limiter_after_b 0%nat true [("b", 1%nat)]).
  - vm_compute. reflexivity.
  - vm_compute. reflexivity.
  - repeat constructor; vm_compute; congruence.
  - vm_compute. split; congruence.
Defined.
