(* ===== verification/Web.v ===== *)
(** * internal/web: the dashboard's API handlers ([handler_api.go], [server.go],
    [handler_update.go], [webui_embed.go])

    Each handler with its status codes and error paths; what it calls in other components
    is an argument or the component's own definition, the decoded request an argument.
    The gate in front of them is [Auth.v].  Rendering to JSON is left out. *)

From S2P Require Import Prelude GoStd Config MetricsStore Cmgr Xray.

Inductive web_reply (A : Type) :=
  | WJSON (status : Z) (body : A)
  | WError (status : Z) (message : string)
  | WNoContent (status : Z).
Arguments WJSON {A} status body.
Arguments WError {A} status message.
Arguments WNoContent {A} status.

Definition web_status {A} (r : web_reply A) : Z :=
  match r with WJSON s _ | WError s _ | WNoContent s => s end.

(** ** server.go *)

Definition validateConfig (cfg : AppConfig) : option error :=
  if decide (WebPort cfg ≤ 0 ∨ 65535 < WebPort cfg)
  then Some (Errorf ("invalid web port: " +:+ fmt_d (WebPort cfg))) else None.

(** [net.JoinHostPort]: brackets around a host with a colon. *)
Definition JoinHostPort (host port : string) : string :=
  if Contains host ":" then "[" +:+ host +:+ "]:" +:+ port else host +:+ ":" +:+ port.

(** [metrics_err] is what [metrics.RegisterEhcoMetrics] returns; the value is the address. *)
Definition web_NewServer (cfg : AppConfig) (metrics_err : option error) : outcome string :=
  match validateConfig cfg with
  | Some err => Err (Wrapf "invalid configuration: " err)
  | None =>
      match metrics_err with
      | Some err => Err (Wrapf "failed to setup metrics: " (Wrapf "failed to register Ehco metrics: " err))
      | None => Ret (JoinHostPort (WebHost cfg) (fmt_d (WebPort cfg)))
      end
  end.

(** The server: its address, the xray server once one was set, and whether it is closed. *)
Record WebServer (X : Type) := mkWebServer { ws_addr : string; xrayStatus : option X; ws_closed : bool }.
Arguments mkWebServer {X} _ _ _.
Arguments ws_addr {X} _.
Arguments xrayStatus {X} _.
Arguments ws_closed {X} _.

(** [SetXrayStatus]; a nil interface changes nothing. *)
Definition Server_SetXrayStatus {X} (p : option X) (s : WebServer X) : WebServer X :=
  match p with None => s | Some x => mkWebServer (ws_addr s) (Some x) (ws_closed s) end.

Definition http_closed : error := Sentinel "http: Server closed".

(** [Start]: [serve] is how echo's server on the address ends, [None] while it runs. *)
Definition web_Start {X} (serve : string → option error) (s : WebServer X) : option error :=
  if ws_closed s then Some http_closed else serve (ws_addr s).

Definition web_Stop {X} (s : WebServer X) : WebServer X := mkWebServer (ws_addr s) (xrayStatus s) true.

(** ** handler_api.go *)

Definition defaultTimeRange : Z := 60.

Record queryParams := mkParams { startTS : Z; endTS : Z; latest : bool; step : Z }.

(** [None] stands for the non-nil error, whose text nobody looks at. *)
Definition parseTimestamp (s : string) : option Z :=
  if decide (s = "") then None else ParseInt64 s.

(** [now]: Unix seconds; [q]: [c.QueryParam], empty for an absent parameter. *)
Definition parseQueryParams (now : Z) (q : string → string) : outcome queryParams :=
  let start := default (wrap64 (now - defaultTimeRange)) (parseTimestamp (q "start_ts")) in
  let end_ := default now (parseTimestamp (q "end_ts")) in
  let lt := default false (ParseBool (q "latest")) in
  let st := match ParseInt64 (q "step") with Some n => if decide (0 < n) then n else 0 | None => 0 end in
  if decide (end_ ≤ start) then Err (Errorf "invalid parameter: time range")
  else Ret (mkParams start end_ lt st).

Record QueryNodeMetricsReq := mkReq { StartTimestamp : Z; EndTimestamp : Z; Num : Z; Step : Z }.

(** [query]: the manager's [QueryNodeMetrics]. *)
Definition Server_GetNodeMetrics {A} (now : Z) (q : string → string) (query : QueryNodeMetricsReq → outcome A) :
    outcome (web_reply A) :=
  match parseQueryParams now q with
  | Err err => Ret (WError 400 (error_text err))
  | Panic p => Panic p
  | Ret params =>
      let req := mkReq (startTS params) (endTS params) (if latest params then 1 else -1) (step params) in
      match query req with
      | Ret metrics => Ret (WJSON 200 metrics)
      | Err err => Ret (WError 500 (error_text err))
      | Panic p => Panic p
      end
  end.

(** [reload]: the reloader's answer to [Reload(true)], if there is a reloader; [write_err]:
    the result of writing the response. *)
Definition Server_HandleReload (reload : option (outcome unit)) (write_err : option error) : outcome (web_reply string) :=
  match reload with
  | None => Ret (WError 400 "reload not support")
  | Some (Err err) => Ret (WError 400 (error_text err))
  | Some (Panic p) => Panic p
  | Some (Ret _) =>
      match write_err with
      | Some err => Ret (WError 400 (error_text err))
      | None => Ret (WJSON 200 "reload success")
      end
  end.

Record OverviewResp (M : Type) := mkOverview {
  ov_Xray : option XraySnapshot; ov_Host : option M; ov_Rules : Z; ov_LastReloadAt : Z }.
Arguments mkOverview {M} _ _ _ _.

(** [snapshot]: the xray server's, if one was set; [query]: the manager's, if there is one;
    [now] in Unix seconds. *)
Definition Server_Overview {M} (cfg : AppConfig) (snapshot : option XraySnapshot) (now : Z)
    (query : option (QueryNodeMetricsReq → outcome (list M))) : outcome (web_reply (OverviewResp M)) :=
  match query with
  | None => Ret (WJSON 200 (mkOverview snapshot None (Z.of_nat (length (RelayConfigs cfg))) (lastLoadTime cfg)))
  | Some query =>
      match query (mkReq (now - 5 * 60) now 1 0) with
      | Panic p => Panic p
      | Ret (h :: _) => Ret (WJSON 200 (mkOverview snapshot (Some h) (Z.of_nat (length (RelayConfigs cfg))) (lastLoadTime cfg)))
      | _ => Ret (WJSON 200 (mkOverview snapshot None (Z.of_nat (length (RelayConfigs cfg))) (lastLoadTime cfg)))
      end
  end.

(** [Overview] of a server: the snapshot is taken of the xray server that was set. *)
Definition web_Overview {X M} (Snapshot : X → XraySnapshot) (s : WebServer X) (cfg : AppConfig) (now : Z)
    (query : option (QueryNodeMetricsReq → outcome (list M))) : outcome (web_reply (OverviewResp M)) :=
  Server_Overview cfg (Snapshot <$> xrayStatus s) now query.

(** [CurrentConfig]: [marshal] is [json.Marshal]. *)
Definition Server_CurrentConfig (marshal : AppConfig → string + error) (cfg : AppConfig) : web_reply string :=
  match marshal cfg with inl ret => WJSON 200 ret | inr err => WError 400 (error_text err) end.

Definition dbMaintenanceErr {A} (err : error) : web_reply A :=
  if errors_Is err ErrMetricsDisabled then WError 503 (error_text err)
  else if errors_Is err ErrTruncateNotConfirmed then WError 400 (error_text err)
  else WError 500 (error_text err).

(** The common shape of the maintenance handlers. *)
Definition maintenance {A} (res : outcome A) : outcome (web_reply A) :=
  match res with
  | Ret a => Ret (WJSON 200 a)
  | Err err => Ret (dbMaintenanceErr err)
  | Panic p => Panic p
  end.

Section db.
Context {DB Row : Type} `{HN : NodeTable DB Row} (days_before : Z → Z → Z).

(** A manager and its store: the store exists only when the manager opened one. *)
Definition Server_GetDBHealth (cm : cmgrImpl) (size : Z) (ms : MetricsStore DB) : outcome (web_reply DBHealth) :=
  maintenance (cmgrImpl_DBHealth cm (MetricsStore_Health size ms)).

(** [bind]: the decoded body, or [c.Bind]'s error; [p]: what the operation measures. *)
Definition Server_PostDBCleanup (cm : cmgrImpl) (p : probe) (now : Z) (bind : Z + error) (ms : MetricsStore DB) :
    outcome (web_reply MaintenanceResult) * MetricsStore DB :=
  match bind with
  | inr err => (Ret (WError 400 (error_text err)), ms)
  | inl older_than_days =>
      let (res, ms') := MetricsStore_CleanupOlderThan days_before p now older_than_days ms in
      (maintenance (cmgrImpl_DBCleanup cm res), if cm_ms cm then ms' else ms)
  end.

Definition Server_PostDBVacuum (cm : cmgrImpl) (p : probe) (ms : MetricsStore DB) :
    outcome (web_reply MaintenanceResult) * MetricsStore DB :=
  let (res, ms') := MetricsStore_Vacuum p ms in
  (maintenance (cmgrImpl_DBVacuum cm res), if cm_ms cm then ms' else ms).

Definition Server_PostDBTruncate (cm : cmgrImpl) (p : probe) (bind : string + error) (ms : MetricsStore DB) :
    outcome (web_reply MaintenanceResult) * MetricsStore DB :=
  match bind with
  | inr err => (Ret (WError 400 (error_text err)), ms)
  | inl confirm =>
      let (res, ms') := MetricsStore_Truncate p confirm ms in
      (maintenance (cmgrImpl_DBTruncate cm res), if cm_ms cm then ms' else ms)
  end.

Definition Server_PostDBResetStats (cm : cmgrImpl) (ms : MetricsStore DB) :
    outcome (web_reply unit) * MetricsStore DB :=
  match cmgrImpl_DBResetStats cm with
  | Err err => (Ret (dbMaintenanceErr err), ms)
  | Panic p => (Panic p, ms)
  | Ret _ => (Ret (WNoContent 204), MetricsStore_ResetStats ms)
  end.
End db.

Record HealthCheckResp := mkHealthResp { ErrorCode : Z; Message : string; Latency : Z }.

(** [check]: the relay server's [HealthCheck] for a label. *)
Definition Server_HandleHealthCheck (relayLabel : string) (check : string → outcome (Z * option error)) :
    outcome (web_reply HealthCheckResp) :=
  if decide (relayLabel = "") then Ret (WError 400 "relay_label is required")
  else match check relayLabel with
       | Ret (latency, None) => Ret (WJSON 200 (mkHealthResp 0 "connect success" latency))
       | Ret (_, Some err) | Err err => Ret (WJSON 400 (mkHealthResp (-1) (error_text err) 0))
       | Panic p => Panic p
       end.

(** ** webui_embed.go *)

Inductive page := NotFound | File (path : string) | Shell.

(** [exists_]: whether the embedded tree has a file. *)
Definition spaHandler (exists_ : string → bool) (p : string) : page :=
  if existsb (HasPrefix p) ["/api/"; "/ws/"; "/metrics/"; "/debug/"] then NotFound
  else
    let clean := TrimPrefix p "/" in
    if bool_decide (clean ≠ "") && bool_decide (clean ≠ "index.html") && exists_ clean then File clean else Shell.

Definition assetHandler (exists_ : string → bool) (path : string) : page :=
  let p := TrimPrefix path "/" in
  if exists_ p then File p else NotFound.

(** ** Theorems *)

(** The overview is always answered with 200: it counts the configured relays, shows xray
    once (and only if) a server was set, with that server's snapshot, and has no host section
    when the query fails or finds nothing. *)
Theorem Overview_spec {X M} (Snapshot : X → XraySnapshot) (p : option X) (addr : string) (cfg : AppConfig) (now : Z)
    (query : QueryNodeMetricsReq → outcome (list M)) (Hq : ∀ req x, query req ≠ Panic x) :
  ∃ resp, web_Overview Snapshot (Server_SetXrayStatus p (mkWebServer addr None false)) cfg now (Some query) =
      Ret (WJSON 200 resp) ∧
    ov_Xray M resp = Snapshot <$> p ∧ ov_Rules M resp = Z.of_nat (length (RelayConfigs cfg)) ∧
    (ov_Host M resp = match query (mkReq (now - 5 * 60) now 1 0) with Ret (h :: _) => Some h | _ => None end).
Proof.
  unfold web_Overview, Server_Overview. destruct (query _) as [[|h t]|e|x] eqn:E; [..|by destruct (Hq _ _ E)];
    (eexists; split; [reflexivity|by destruct p]).
Qed.

(** A query that is accepted asks for a non-empty time range and a step that is not
    negative; parameters that are absent or malformed fall back, never fail, so the only
    error is an empty range. *)
Theorem parseQueryParams_spec (now : Z) (q : string → string) :
  let start := default (wrap64 (now - 60)) (parseTimestamp (q "start_ts")) in
  let end_ := default now (parseTimestamp (q "end_ts")) in
  match parseQueryParams now q with
  | Ret p => startTS p = start ∧ endTS p = end_ ∧ startTS p < endTS p ∧ 0 ≤ step p ∧
      (step p ≠ 0 → ParseInt64 (q "step") = Some (step p)) ∧
      (latest p = true ↔ ParseBool (q "latest") = Some true)
  | Err e => end_ ≤ start ∧ e = Errorf "invalid parameter: time range"
  | Panic _ => False
  end.
Proof.
  unfold parseQueryParams, defaultTimeRange. cbv zeta. case_decide as Hle; [done|]. cbn [startTS endTS step latest].
  split; [done|]. split; [done|]. split; [lia|]. split; [|split].
  - destruct (ParseInt64 (q "step")); [case_decide; lia|done].
  - destruct (ParseInt64 (q "step")); [by case_decide|done].
  - destruct (ParseBool (q "latest")) as [[]|]; naive_solver.
Qed.

(** The data can only be wiped on purpose: through the truncation endpoint, whatever the
    body, the store changes only if the body decodes to the exact confirmation phrase and
    the manager has a store; without the phrase the answer is 400, without a store 503, and
    the request never panics. *)
Theorem truncate_guarded {DB Row : Type} `{HN : NodeTable DB Row} (cm : cmgrImpl) (p : probe) (bind : string + error)
    (ms : MetricsStore DB) :
  let (res, ms') := Server_PostDBTruncate cm p bind ms in
  ¬ is_Panic res ∧
  (ms' ≠ ms → bind = inl truncateConfirm ∧ cm_ms cm = true) ∧
  (cm_ms cm = true → bind ≠ inl truncateConfirm → ∃ msg, res = Ret (WError 400 msg)) ∧
  (cm_ms cm = false → ∀ confirm, bind = inl confirm → ∃ msg, res = Ret (WError 503 msg)).
Proof.
  unfold Server_PostDBTruncate. destruct bind as [confirm|err].
  2: { split; [by intros [? ?]|]. split; [done|]. split; [by eauto|done]. }
  destruct (MetricsStore_Truncate p confirm ms) as [res ms'] eqn:Ht.
  unfold cmgrImpl_DBTruncate, with_store.
  assert (Hnp : ∀ q, res ≠ Panic q).
  { intros q ->. unfold MetricsStore_Truncate, MetricsStore_recountRows in Ht. repeat case_match; simplify_eq/=. }
  destruct (cm_ms cm).
  - split; [intros [q Hq]; destruct res as [?|?|q0]; cbn in Hq; [done|done|by destruct (Hnp q0)]|]. split; [|split; [|done]].
    + intros Hne. split; [|done]. unfold MetricsStore_Truncate in Ht. case_decide as Hc; [by simplify_eq|].
      f_equal. destruct (decide (confirm = truncateConfirm)); tauto.
    + intros _ Hne. unfold MetricsStore_Truncate in Ht. rewrite decide_True in Ht by congruence. simplify_eq.
      cbn. by eexists.
  - split; [by intros [? ?]|]. split; [done|]. split; [done|]. intros _ ? _. cbn. by eexists.
Qed.
