(* ===== verification/Routes.v ===== *)
(** * internal/web/server.go: the routes of the dashboard and the gate before them

    The route table of [setupRoutes] with the routes xray adds ([RegisterRoutes] of
    pkg/xray/admin_api.go), and a request's way through it.  echo chooses the handler by the
    escaped path of the URL where net/url has kept one, the authentication middleware decides
    by the unescaped one ([URL.Path]); the theorem is that this difference lets nobody in.
    Which of several matching routes echo takes is the parameter [router]. *)

From S2P Require Import Prelude GoStd Url Config Auth Web.

(** ** The table *)

Inductive route :=
  | Metrics | Pprof
  | AuthInfo | Login | Logout
  | ConfigGet | ConfigReload | HealthCheck | NodeMetrics | OverviewGet | VersionGet | UpdateCheckGet | UpdateApplyPost
  | DbHealth | DbCleanup | DbVacuum | DbTruncate | DbResetStats
  | WsLogs
  | Asset | Spa
  | XrayListConns | XrayKillConn | XrayKillUserConns | XrayListUsers.

#[global] Instance route_eq_dec : EqDecision route.
Proof. solve_decision. Defined.

Definition metricsPath : string := "/metrics/".
Definition apiPrefix : string := "/api/v1".

(** Method, pattern, handler. *)
Definition route_table : list (string * string * route) :=
  [("GET", metricsPath, Metrics); ("GET", "/debug/pprof/*", Pprof);
   ("GET", apiPrefix +:+ "/auth/info", AuthInfo); ("POST", apiPrefix +:+ "/auth/login", Login);
   ("POST", apiPrefix +:+ "/auth/logout", Logout); ("GET", apiPrefix +:+ "/config/", ConfigGet);
   ("POST", apiPrefix +:+ "/config/reload/", ConfigReload); ("GET", apiPrefix +:+ "/health_check/", HealthCheck);
   ("GET", apiPrefix +:+ "/node_metrics/", NodeMetrics); ("GET", apiPrefix +:+ "/overview", OverviewGet);
   ("GET", apiPrefix +:+ "/version", VersionGet); ("GET", apiPrefix +:+ "/update/check", UpdateCheckGet);
   ("POST", apiPrefix +:+ "/update/apply", UpdateApplyPost); ("GET", apiPrefix +:+ "/db/health", DbHealth);
   ("POST", apiPrefix +:+ "/db/cleanup", DbCleanup); ("POST", apiPrefix +:+ "/db/vacuum", DbVacuum);
   ("POST", apiPrefix +:+ "/db/truncate", DbTruncate); ("POST", apiPrefix +:+ "/db/reset_stats", DbResetStats);
   ("GET", "/ws/logs", WsLogs); ("GET", "/assets/*", Asset); ("GET", "/favicon.ico", Asset);
   ("GET", "/", Spa); ("GET", "/*", Spa)].

(** [RegisterRoutes] on [APIGroup()]. *)
Definition xray_routes : list (string * string * route) :=
  [("GET", apiPrefix +:+ "/xray/conns", XrayListConns); ("DELETE", apiPrefix +:+ "/xray/conns/:id", XrayKillConn);
   ("DELETE", apiPrefix +:+ "/xray/conns", XrayKillUserConns); ("GET", apiPrefix +:+ "/xray/users", XrayListUsers)].

(** ** Paths *)

(** [unescape(s, encodePath)]: as [QueryUnescape], but a plus sign stays. *)
Fixpoint PathUnescape (s : string) : option string :=
  match s with
  | EmptyString => Some EmptyString
  | String c rest =>
      if (c =? "%")%char then
        match rest with
        | String a (String b s) =>
            x ← unhex a; y ← unhex b; String (Ascii.ascii_of_N (16 * x + y)) <$> PathUnescape s
        | _ => None
        end
      else String c <$> PathUnescape rest
  end.

Fixpoint has_slash (s : string) : bool :=
  match s with EmptyString => false | String c s => (c =? "/")%char || has_slash s end.

(** The rest of a path behind its first segment. *)
Fixpoint drop_segment (s : string) : string :=
  match s with EmptyString => EmptyString | String c rest => if (c =? "/")%char then s else drop_segment rest end.

(** What an echo pattern matches: literals, [:name] for a segment, a final [*] for anything. *)
Fixpoint matches (in_name : bool) (pat path : string) : bool :=
  match pat with
  | EmptyString => if in_name then negb (has_slash path) else bool_decide (path = "")
  | String c pat' =>
      if in_name then (if (c =? "/")%char then match drop_segment path with
                                              | String d rest => (d =? "/")%char && matches false pat' rest
                                              | EmptyString => false end
                       else matches true pat' path)
      else if (c =? "*")%char then bool_decide (pat' = "")
      else if (c =? ":")%char then matches true pat' path
      else match path with
           | String d rest => (c =? d)%char && matches false pat' rest
           | EmptyString => false
           end
  end.

(** The part of a pattern before its first variable. *)
Fixpoint literal (pat : string) : string :=
  match pat with
  | EmptyString => EmptyString
  | String c pat => if ((c =? "*") || (c =? ":"))%char then EmptyString else String c (literal pat)
  end.

(** echo only finds handlers that were registered for the method, under a pattern that matches. *)
Definition router_sound {H} (router : string → string → option H) (table : list (string * string * H)) : Prop :=
  ∀ m raw h, router m raw = Some h → ∃ pat, (m, pat, h) ∈ table ∧ matches false pat raw = true.

(** ** A request *)

Section Serve.
(** The default encoding of a path in net/url. *)
Variable escape : string → string.

(** [URL.setPath]: [Path], and [RawPath] only when the default encoding of [Path] is another. *)
Definition URL_setPath (p : string) : option (string * string) :=
  path ← PathUnescape p; Some (path, if decide (p = escape path) then "" else p).

(** The path echo routes by. *)
Definition echo_GetPath (path rawPath : string) : string := if decide (rawPath = "") then path else rawPath.

(** The handler echo finds for a method and an escaped path. *)
Variable router : string → string → option route.

(** The three handlers of [Auth]; of the others only that they run.  No route: 404 (or 405). *)
Definition route_handler (rnd : list Z + error) (h : option route) : handler :=
  match h with
  | Some AuthInfo => Server_AuthInfo
  | Some Login => Server_HandleLogin rnd
  | Some Logout => Server_HandleLogout
  | Some _ => λ _ _ a, ((Handled, []), a)
  | None => λ _ _ a, ((HTTPError 404 "Not Found", []), a)
  end.

(** net/http refuses a target it cannot unescape; otherwise the middleware of
    [setupMiddleware] stands before the route that was found.  [target]: the path of the
    request as it was sent; [r]: the request but for its path. *)
Definition web_serve (rnd : list Z + error) (now : Z) (target : string) (r : request) (a : authenticator) :
    (reply * list cookie) * authenticator :=
  match URL_setPath target with
  | None => ((HTTPError 400 "Bad Request", []), a)
  | Some (path, rawPath) =>
      authenticator_authMiddleware (route_handler rnd (router (r_method r) (echo_GetPath path rawPath))) now
        {| r_method := r_method r; r_path := path; r_cookie := r_cookie r; r_bearer := r_bearer r;
           r_token := r_token r; r_password := r_password r |} a
  end.

(** The handlers that need no credentials: the login page's own and the embedded files. *)
Definition open_route (h : route) : bool :=
  match h with AuthInfo | Login | Logout | Asset | Spa => true | _ => false end.
End Serve.

(** ** Lemmas *)

Lemma String_app c (s t : string) : String c s +:+ t = String c (s +:+ t).
Proof. done. Qed.

(** A path that matches begins with the literal part. *)
Lemma matches_literal pat path : matches false pat path = true → ∃ rest, path = literal pat +:+ rest.
Proof.
  revert path. induction pat as [|c pat IH]; intros path H; [by exists path|]. cbn in H |- *.
  destruct (c =? "*")%char; [by exists path|]. destruct (c =? ":")%char; [by exists path|]. cbn [orb].
  destruct path as [|d path]; [done|]. apply andb_true_iff in H as [Hcd H].
  apply Ascii.eqb_eq in Hcd as ->. destruct (IH _ H) as [rest ->]. by exists rest.
Qed.

Definition no_percent (s : string) : bool := all_chars (λ c, negb (c =? "%")%char) s.

Lemma PathUnescape_literal l rest p :
  no_percent l = true → PathUnescape (l +:+ rest) = Some p → HasPrefix p l = true.
Proof.
  revert p. induction l as [|c l IH]; intros p Hl H; [by destruct p|].
  cbn in Hl. apply andb_true_iff in Hl as [Hc Hl]. rewrite String_app in H. cbn in H.
  apply negb_true_iff in Hc. rewrite Hc in H. destruct (PathUnescape (l +:+ rest)) as [q|]; [|done].
  injection H as <-. unfold HasPrefix. cbn. destruct (Ascii.ascii_dec c c); [|done]. by apply IH.
Qed.

(** Both paths of a URL begin with a literal that one of them begins with. *)
Lemma echo_path_literal escape target path rawPath l rest :
  no_percent l = true → URL_setPath escape target = Some (path, rawPath) →
  echo_GetPath path rawPath = l +:+ rest → HasPrefix path l = true.
Proof.
  unfold URL_setPath, echo_GetPath. intros Hl H He. apply bind_Some in H as (q & Hq & [= <- <-]).
  case_decide as Hraw.
  - rewrite He. apply HasPrefix_app.
  - case_decide; [done|]. rewrite He in Hq. by eapply PathUnescape_literal.
Qed.

Lemma HasPrefix_comparable p l m :
  HasPrefix p l = true → HasPrefix p m = true → HasPrefix l m = true ∨ HasPrefix m l = true.
Proof.
  unfold HasPrefix. revert l m. induction p as [|c p IH]; intros [|a l] [|b m] Hl Hm; cbn in *; try (by auto).
  destruct (Ascii.ascii_dec a c) as [->|]; [|done]. destruct (Ascii.ascii_dec b c) as [->|]; [|done].
  destruct (Ascii.ascii_dec c c); [|done]. by apply IH.
Qed.

(** No public path begins with [l]. *)
Definition clear_of_public (l : string) : bool :=
  negb (existsb (λ s, HasPrefix s l)
    ["/"; "/index.html"; "/favicon.ico"; "/favicon.svg"; "/robots.txt"; "/api/v1/auth/info"; "/api/v1/auth/login";
     "/api/v1/auth/logout"; "/assets/"]) && negb (HasPrefix l "/assets/").

Lemma clear_not_public l p : clear_of_public l = true → HasPrefix p l = true → isPublicPath p = false.
Proof.
  unfold clear_of_public. rewrite andb_true_iff, !negb_true_iff, <- not_true_iff_false, existsb_exists.
  intros [Hno Hass] Hp. apply not_true_iff_false. intros Hpub. apply Hno. unfold isPublicPath in Hpub.
  case_decide as H1; [exists p; split; [|done]; apply list_elem_of_In; set_solver|].
  case_decide as H2; [exists p; split; [|done]; apply list_elem_of_In; set_solver|].
  case_decide as H3; [exists p; split; [|done]; apply list_elem_of_In; set_solver|].
  destruct (HasPrefix_comparable _ _ _ Hp Hpub) as [Hc|Hc]; [by rewrite Hc in Hass|].
  exists "/assets/". split; [|done]. apply list_elem_of_In. set_solver.
Qed.

(** Every route that is not open has a literal part of its own. *)
Lemma table_clear m pat h :
  (m, pat, h) ∈ route_table ++ xray_routes → open_route h = false →
  no_percent (literal pat) = true ∧ clear_of_public (literal pat) = true.
Proof.
  intros Hin Ho.
  assert (forallb (λ e, open_route (snd e) || no_percent (literal (snd (fst e))) && clear_of_public (literal (snd (fst e))))
    (route_table ++ xray_routes) = true) as Hall by (vm_compute; reflexivity).
  rewrite forallb_forall in Hall. specialize (Hall (m, pat, h) (proj1 (list_elem_of_In _ _) Hin)). cbn in Hall.
  rewrite Ho in Hall. cbn in Hall. by apply andb_true_iff in Hall.
Qed.

(** ** Theorem *)

(** [C14] No way around the gate: with authentication configured, a request without a valid
    session, bearer or token never runs a handler other than the three of the login and the
    embedded files, however its path is escaped; if the router found a protected handler the
    reply is 401.  With credentials, the handler that was found runs. *)
Theorem routes_protected (escape : string → string) (router : string → string → option route) (rnd : list Z + error)
    (now : Z) (target path rawPath : string) (r : request) (a : authenticator) (h : route)
    (Hsound : router_sound router (route_table ++ xray_routes))
    (Hurl : URL_setPath escape target = Some (path, rawPath))
    (Hroute : router (r_method r) (echo_GetPath path rawPath) = Some h) (Hprot : open_route h = false) :
  (fst (fst (fst (authenticator_checkRequest now r a))) = false →
     fst (web_serve escape router rnd now target r a) = (HTTPError 401 "authentication required", [])) ∧
  (fst (fst (fst (authenticator_checkRequest now r a))) = true →
     fst (fst (web_serve escape router rnd now target r a)) = Handled).
Proof.
  destruct (Hsound _ _ _ Hroute) as (pat & Hin & Hm). destruct (table_clear _ _ _ Hin Hprot) as [Hnp Hclear].
  apply matches_literal in Hm as [rest Hraw].
  assert (isPublicPath path = false) as Hpub.
  { eapply clear_not_public; [exact Hclear|]. eapply echo_path_literal; [exact Hnp|exact Hurl|exact Hraw]. }
  unfold web_serve. rewrite Hurl, Hroute. unfold authenticator_authMiddleware. cbn [r_path]. rewrite Hpub.
  set (r' := mkRequest _ _ _ _ _ _).
  assert (authenticator_checkRequest now r' a = authenticator_checkRequest now r a) as -> by done.
  destruct (authenticator_checkRequest now r a) as [[[ok sid] exp] a']. cbn [fst]. split; intros ->; [done|].
  cbn [negb]. by destruct h.
Qed.

(** ** A router *)

(** The first route of the table that matches. *)
Definition first_match {H} (table : list (string * string * H)) (m raw : string) : option H :=
  snd <$> List.find (λ e, bool_decide (fst (fst e) = m) && matches false (snd (fst e)) raw) table.

Lemma first_match_sound {H} (table : list (string * string * H)) : router_sound (first_match table) table.
Proof.
  intros m raw h Hm. unfold first_match in Hm. destruct (List.find _ table) as [[[m' pat] h']|] eqn:Hf; [|done].
  injection Hm as <-. apply List.find_some in Hf as [Hin Hm]. cbn in Hm. apply andb_true_iff in Hm as [Hm1 Hm2].
  apply bool_decide_eq_true in Hm1 as ->. exists pat. split; [by apply list_elem_of_In|done].
Qed.

(** An escaped slash in the identifier of a connection does not help. *)
Lemma routes_protected_witness :
  let a := mkAuth (fst (AppConfig_LoadConfig 0 true
    (SrcDoc (mkDocument None None None (Some "secret") None None None None None None None None None) None) None
    (NewConfig "/etc/ehco.json"))) newSessionStore in
  let r := mkRequest "DELETE" "" None "" "" (inr io_EOF) in
  let router := first_match (route_table ++ xray_routes) in
  router "DELETE" "/api/v1/xray/conns/..%2f7" = Some XrayKillConn ∧
  fst (web_serve (λ p, p) router (inr io_EOF) 0 "/api/v1/xray/conns/..%2f7" r a) =
    (HTTPError 401 "authentication required", []).
Proof.
  intros a r router. split; [vm_compute; reflexivity|].
  apply (routes_protected (λ p, p) router (inr io_EOF) 0 "/api/v1/xray/conns/..%2f7"
    "/api/v1/xray/conns/../7" "/api/v1/xray/conns/..%2f7" r a XrayKillConn);
    [apply first_match_sound|vm_compute; reflexivity..].
Defined.
