(* ===== verification/WsRoutes.v ===== *)
(** * internal/transporter/ws.go: the paths a WebSocket relay answers

    [newWsServer] registers an index page and the handshake path; everything else that is
    sent to the port of the relay is not relayed.  What [handleRequest] does is in
    [Transporter] and [WsUrl]; echo's choice of a route is the parameter of [Routes]. *)

From S2P Require Import Prelude GoStd Url Lb Conf Buffer Net RelayConn Cmgr Transporter WsUrl Routes.

Inductive ws_handler := WsIndex | WsHandleRequest.

(** The routes of [newWsServer], which are those of [newWssServer] too. *)
Definition newWsServer (cfg : Config) : list (string * string * ws_handler) :=
  [("GET", "/", WsIndex); ("GET", Config_GetWSHandShakePath cfg, WsHandleRequest)].

(** A request that arrives at the relay; the index page and 404 leave it as it is. *)
Definition WsServer_ServeHTTP (router : string → string → option ws_handler) (bs : BaseRelayServer) (env : conn_env)
    (upgrade : nat + error) (method raw query : string) (sv : server) : option (outcome unit * server) :=
  match router method raw with
  | Some WsHandleRequest => WsServer_handleRequest bs env upgrade (ParseQuery query) sv
  | _ => Some (Ret tt, sv)
  end.

(** A pattern without variables. *)
Definition plain_pattern (pat : string) : Prop := literal pat = pat.

Lemma matches_plain pat path : plain_pattern pat → matches false pat path = true → path = pat.
Proof.
  unfold plain_pattern. revert path. induction pat as [|c pat IH]; intros path Hl Hm; cbn in Hl, Hm.
  - by apply bool_decide_eq_true in Hm.
  - destruct (c =? "*")%char; [done|]. destruct (c =? ":")%char; [done|]. cbn [orb] in Hl. injection Hl as Hl.
    destruct path as [|d path]; [done|]. apply andb_true_iff in Hm as [Hcd Hm]. apply Ascii.eqb_eq in Hcd as ->.
    by rewrite (IH path).
Qed.

(** The path is all that guards a WebSocket relay.  A request with another method or path has no
    effect; one for the handshake path that names a remote is relayed to that remote, whatever
    the relay's own remotes are. *)
Theorem handshake_path_guards (router : string → string → option ws_handler) (bs : BaseRelayServer) (env : conn_env)
    (upgrade : nat + error) (method raw query : string) (sv : server)
    (Hsound : router_sound router (newWsServer (bs_cfg bs)))
    (Hplain : plain_pattern (Config_GetWSHandShakePath (bs_cfg bs))) :
  (method ≠ "GET" ∨ raw ≠ Config_GetWSHandShakePath (bs_cfg bs) →
     WsServer_ServeHTTP router bs env upgrade method raw query sv = Some (Ret tt, sv)) ∧
  (∀ fd ra, router method raw = Some WsHandleRequest → upgrade = inl fd →
     Values_Get (ParseQuery query) WS_QUERY_REMOTE_ADDR = ra → ra ≠ "" → Values_Get (ParseQuery query) "type" = "" →
     relayed_as true bs env fd {| Address := ra; HandShakeDuration := 0 |} sv
       (WsServer_ServeHTTP router bs env upgrade method raw query sv)).
Proof.
  unfold WsServer_ServeHTTP. split.
  - intros Hne. destruct (router method raw) as [[]|] eqn:Hr; [done| |done]. exfalso.
    destruct (Hsound _ _ _ Hr) as (pat & Hin & Hm). unfold newWsServer in Hin.
    apply elem_of_cons in Hin as [[=]|Hin]. apply list_elem_of_singleton in Hin as [= -> ->].
    apply matches_plain in Hm; [|done]. by destruct Hne.
  - intros fd ra -> -> Hra Hne Ht. by apply (handleRequest_remote true).
Qed.

Lemma handshake_path_guards_witness :
  WsServer_ServeHTTP (first_match (newWsServer (bs_cfg (sample_bs RawClient "b")))) (sample_bs RawClient "b") (sample_env []) (inl 7%nat) "GET" "/admin" "" sample_sv =
  Some (Ret tt, sample_sv).
Proof.
  apply (handshake_path_guards (first_match (newWsServer (bs_cfg (sample_bs RawClient "b")))) (sample_bs RawClient "b") (sample_env []) (inl 7%nat) "GET" "/admin" ""
    sample_sv (first_match_sound _)); [done|]. right. vm_compute. congruence.
Defined.
