(* ===== verification/System.v ===== *)
(** * internal/cli/config.go: how the program is put together

    The configuration from a file or from the command line, the components that are
    started, and what that means for the connection manager shared by the relay server and
    the dashboard. *)

From S2P Require Import Prelude GoStd Conf Config MetricsStore Cmgr Relay Xray Web.

(** The command-line flags [loadConfig] reads. *)
Record cli_flags := mkFlags {
  ConfigPath : string; f_WebPort : Z; f_DashboardPass : string; f_ApiToken : string; f_EnablePing : bool;
  f_LogLevel : string; ConfigReloadInterval : Z; LocalAddr : string; f_ListenType : string;
  f_TransportType : string; RemoteAddr : string }.

(** Without a file: one relay from the flags. *)
Definition flags_config (f : cli_flags) : AppConfig :=
  {| PATH := ConfigPath f; NodeLabel := ""; WebHost := ""; WebPort := f_WebPort f;
     DashboardPass := f_DashboardPass f; ApiToken := f_ApiToken f; LogLeveL := f_LogLevel f;
     EnablePing := f_EnablePing f; ReloadInterval := ConfigReloadInterval f;
     RelayConfigs := [{| Label := ""; Listen := LocalAddr f; ListenType := f_ListenType f;
                         TransportType := f_TransportType f;
                         Remotes := if decide (RemoteAddr f ≠ "") then [RemoteAddr f] else [];
                         Config_Options := None |}];
     RelaySyncURL := ""; RelaySyncInterval := 0; XRayConfig := None; SyncTrafficEndPoint := "";
     lastLoadTime := zero_time |}.

Definition loadConfig (f : cli_flags) (now : Z) (src : source) (tls : option error) : outcome AppConfig :=
  let (cfg, res) :=
    if decide (ConfigPath f ≠ "") then AppConfig_LoadConfig now true src tls (NewConfig (ConfigPath f))
    else AppConfig_Adjust tls (flags_config f) in
  _ ← res; Ret cfg.

(** The components that run: the relay server with its manager, the dashboard's address,
    xray, and the manager's own loop (sampling and pushing). *)
Record system := mkSystem {
  sys_relay : Server; sys_cm : cmgrImpl; sys_web : option string; sys_xray : bool; sys_loop : bool }.

(** A [Fatalf] ends the process: an error.  [xray_res] is the result of setting up and starting
    xray, [open_err] that of opening the metrics store. *)
Definition MustStartComponents (cfg : AppConfig) (open_err metrics_err : option error) (xray_res : outcome unit) :
    outcome system :=
  '(rs, cm) ← NewServer cfg open_err;
  webS ← (if AppConfig_NeedStartWebServer cfg then Some <$> web_NewServer cfg metrics_err else Ret None);
  _ ← (if AppConfig_NeedStartXrayServer cfg then xray_res else Ret tt);
  Ret (mkSystem rs cm webS (AppConfig_NeedStartXrayServer cfg) (Start_runs_cmgr rs)).

(** The manager at work: connections come and go; pushes happen only if the loop runs. *)
Inductive sys_step (loop : bool) : cm_state → cm_state → Prop :=
  | sys_add cm cr dr rep c :
      rc_ptr c ∉ rc_ptr <$> cr →
      sys_step loop (mkCmState cm cr dr rep) (mkCmState (cmgrImpl_AddConnection cm c) (c :: cr) dr rep)
  | sys_remove cm cr dr rep c :
      c ∈ conns_of (activeConnectionsMap cm) →
      sys_step loop (mkCmState cm cr dr rep) (mkCmState (cmgrImpl_RemoveConnection cm c) cr dr rep)
  | sys_push cm cr dr rep heap order post :
      loop = true → order ≡ₚ map_to_list (closedConnectionsMap cm) →
      sys_step loop (mkCmState cm cr dr rep)
        (mkCmState (fst (fst (cmgrImpl_pushStats cm heap order post))) cr
           (dr ++ (order ≫= snd)) (rep ++ (stats_of_label heap <$> order))).

Definition sys_start (sys : system) : cm_state := mkCmState (sys_cm sys) [] [] [].

(** ** Lemmas *)

Lemma sys_step_cm_step loop s s' : sys_step loop s s' → cm_step s s'.
Proof. intros [| |]; by econstructor. Qed.

Lemma NewServer_cm cfg open_err s cm :
  NewServer cfg open_err = Ret (s, cm) →
  s_cfg s = cfg ∧ activeConnectionsMap cm = ∅ ∧ closedConnectionsMap cm = ∅ ∧
  cm_ms cm = AppConfig_NeedStartWebServer cfg ∧
  CmgrConfig_NeedMetrics (cm_cfg cm) = AppConfig_NeedStartWebServer cfg.
Proof.
  unfold NewServer, NewCmgr. set (c := CmgrConfig_Adjust _).
  assert (CmgrConfig_NeedMetrics c = AppConfig_NeedStartWebServer cfg) as Hm.
  { unfold c, CmgrConfig_Adjust, CmgrConfig_NeedMetrics. cbn [SyncInterval]. case_decide; cbn;
      rewrite ?bool_decide_eq_true_2 by lia; by rewrite ?andb_true_r. }
  destruct (CmgrConfig_NeedMetrics c) eqn:Hc; intros Hrun.
  - destruct open_err; [done|]. cbn in Hrun. injection Hrun as <- <-. cbn. by rewrite Hc.
  - cbn in Hrun. injection Hrun as <- <-. cbn. by rewrite Hc.
Qed.

Lemma MustStart_inv cfg open_err metrics_err xray_res sys :
  MustStartComponents cfg open_err metrics_err xray_res = Ret sys →
  NewServer cfg open_err = Ret (sys_relay sys, sys_cm sys) ∧ sys_loop sys = AppConfig_NeedStartCmgr cfg ∧
  (∀ addr, sys_web sys = Some addr → AppConfig_NeedStartWebServer cfg = true ∧ 1 ≤ WebPort cfg ≤ 65535).
Proof.
  unfold MustStartComponents. intros H. apply outcome_bind_Ret in H as ([rs cm] & Hn & H).
  apply outcome_bind_Ret in H as (webS & Hw & H). apply outcome_bind_Ret in H as (u & _ & H). injection H as <-.
  cbn [sys_relay sys_cm sys_loop sys_web]. split; [done|]. unfold Start_runs_cmgr.
  destruct (NewServer_cm _ _ _ _ Hn) as [-> _]. split; [done|]. intros addr ->.
  destruct (AppConfig_NeedStartWebServer cfg); [|done]. split; [done|].
  unfold web_NewServer, validateConfig in Hw. case_decide; [done|lia].
Qed.

Lemma sys_reachable sys loop st :
  activeConnectionsMap (sys_cm sys) = ∅ → closedConnectionsMap (sys_cm sys) = ∅ →
  reachable (λ s, s = sys_start sys) (sys_step loop) st →
  cm_inv st ∧ (loop = false → drained st = []).
Proof.
  intros Ha Hc Hr. revert st Hr.
  apply (reachable_invariant _ _ (λ st, cm_inv st ∧ (loop = false → drained st = []))).
  - intros ? ->. split; [|done]. apply cm_inv_init. unfold sys_start. destruct (sys_cm sys) as [c a cl m].
    cbn in Ha, Hc. subst. by exists c, m.
  - intros s s' [Hinv Hd] Hs. split; [eapply cm_inv_step; [done|by eapply sys_step_cm_step]|].
    intros Hl. specialize (Hd Hl). destruct Hs; cbn [drained] in *; [done|done|congruence].
Qed.

(** ** Theorems *)

(** Without a control plane to sync with, the manager's loop never runs, although two
    other parts count on it: every connection ever relayed stays in the manager's memory
    for good, and a dashboard that opened the metrics store, with sampling switched on, never
    gets a sample. *)
Theorem no_sync_never_drains (cfg : AppConfig) (open_err metrics_err : option error) (xray_res : outcome unit)
    (sys : system) (st : cm_state)
    (Hrun : MustStartComponents cfg open_err metrics_err xray_res = Ret sys)
    (Hsync : RelaySyncURL cfg = "" ∨ RelaySyncInterval cfg ≤ 0)
    (Hr : reachable (λ s, s = sys_start sys) (sys_step (sys_loop sys)) st) :
  sys_loop sys = false ∧
  conns_of (activeConnectionsMap (cs_cm st)) ++ conns_of (closedConnectionsMap (cs_cm st)) ≡ₚ created st ∧
  (is_Some (sys_web sys) → cm_ms (sys_cm sys) = true ∧ CmgrConfig_NeedMetrics (cm_cfg (sys_cm sys)) = true).
Proof.
  destruct (MustStart_inv _ _ _ _ _ Hrun) as (Hn & Hloop & Hweb).
  destruct (NewServer_cm _ _ _ _ Hn) as (_ & Ha & Hc & Hms & Hnm).
  assert (sys_loop sys = false) as Hl.
  { rewrite Hloop. unfold AppConfig_NeedStartCmgr. apply andb_false_iff. rewrite !bool_decide_eq_false.
    destruct Hsync; [left; tauto|right; lia]. }
  split; [done|]. destruct (sys_reachable _ _ _ Ha Hc Hr) as [Hinv Hd]. split.
  - rewrite <- (cmi_all _ Hinv), (Hd Hl). by rewrite app_nil_r.
  - intros [addr Haddr]. destruct (Hweb _ Haddr) as [Hw _]. by rewrite Hms, Hnm.
Qed.

Definition sample_dashboard_cfg : AppConfig :=
  fst (AppConfig_LoadConfig 0 true
    (SrcDoc (mkDocument None None (Some 9000) (Some "secret") None None None None None None None None None) None)
    None (NewConfig "/etc/ehco.json")).

Definition sample_system : system :=
  mkSystem (mkServerState sample_dashboard_cfg ∅ [] [] 0)
    (mkCmgr (mkCmgrConfig "" 60 true) ∅ ∅ true) (Some "0.0.0.0:9000") false false.

Lemma sample_system_started :
  MustStartComponents sample_dashboard_cfg None None (Ret tt) = Ret sample_system.
Proof. vm_compute. reflexivity. Qed.

Definition sample_rconn : rconn := mkRconn 1 "a".

(** One connection relayed and closed: it is still there, and will stay. *)
Definition sample_leak : cm_state :=
  mkCmState (cmgrImpl_RemoveConnection (cmgrImpl_AddConnection (sys_cm sample_system) sample_rconn) sample_rconn)
    [sample_rconn] [] [].

Lemma no_sync_never_drains_witness :
  conns_of (activeConnectionsMap (cs_cm sample_leak)) ++ conns_of (closedConnectionsMap (cs_cm sample_leak))
  ≡ₚ [sample_rconn].
Proof.
  apply (no_sync_never_drains sample_dashboard_cfg None None (Ret tt) sample_system sample_leak
    sample_system_started (or_introl eq_refl)).
  eapply reach_step; [eapply reach_step; [by apply reach_init|apply (sys_add _ _ _ _ _ sample_rconn)]|].
  - vm_compute. intros H. by apply not_elem_of_nil in H.
  - apply sys_remove. vm_compute. by left.
Defined.

(** A dashboard never runs without the metrics store: whatever the configuration, if the
    program started a dashboard, the manager has a store, so the metrics handlers, which do
    not check for one, cannot dereference a nil store, and maintenance always reaches it; with a manager that has none, the overview would panic. *)
Theorem dashboard_has_store (cfg : AppConfig) (open_err metrics_err : option error) (xray_res : outcome unit)
    (sys : system) (addr : string)
    (Hrun : MustStartComponents cfg open_err metrics_err xray_res = Ret sys) (Hweb : sys_web sys = Some addr) :
  1 ≤ WebPort cfg ≤ 65535 ∧
  (∀ (A : Type) now q (answer : QueryNodeMetricsReq → outcome A), (∀ r, ¬ is_Panic (answer r)) →
     ¬ is_Panic (Server_GetNodeMetrics now q (λ r, cmgrImpl_QueryNodeMetrics (sys_cm sys) (answer r)))) ∧
  (∀ (A : Type) c snap now (answer : QueryNodeMetricsReq → outcome (list A)),
     ((∀ r, ¬ is_Panic (answer r)) →
      ¬ is_Panic (Server_Overview c snap now (Some (λ r, cmgrImpl_QueryNodeMetrics (sys_cm sys) (answer r))))) ∧
     ∀ cm, cm_ms cm = false →
      Server_Overview c snap now (Some (λ r, cmgrImpl_QueryNodeMetrics cm (answer r))) = Panic NilDereference) ∧
  (∀ (A : Type) (res : outcome A), cmgrImpl_DBHealth (sys_cm sys) res = res ∧ cmgrImpl_DBCleanup (sys_cm sys) res = res ∧
     cmgrImpl_DBVacuum (sys_cm sys) res = res ∧ cmgrImpl_DBTruncate (sys_cm sys) res = res).
Proof.
  destruct (MustStart_inv _ _ _ _ _ Hrun) as (Hn & _ & Hw). destruct (Hw _ Hweb) as [Hneed Hport].
  destruct (NewServer_cm _ _ _ _ Hn) as (_ & _ & _ & Hms & _). rewrite Hneed in Hms.
  split; [done|]. split; [|split].
  - intros A now q answer Hans [p Hp]. unfold Server_GetNodeMetrics, cmgrImpl_QueryNodeMetrics in Hp. rewrite Hms in Hp.
    unfold parseQueryParams in Hp. case_decide; [done|].
    destruct (answer _) as [| |p'] eqn:Ha in Hp; [done|done|]. eapply Hans. by eexists.
  - intros A c snap now answer. unfold Server_Overview, cmgrImpl_QueryNodeMetrics. rewrite Hms. split.
    + intros Hans [p Hp]. destruct (answer _) as [[|]| |p'] eqn:Ha in Hp; [done..|]. eapply Hans. by eexists.
    + by intros cm ->.
  - intros A res. unfold cmgrImpl_DBHealth, cmgrImpl_DBCleanup, cmgrImpl_DBVacuum, cmgrImpl_DBTruncate, with_store.
    by rewrite Hms.
Qed.

Lemma dashboard_has_store_witness :
  ¬ is_Panic (Server_GetNodeMetrics 100 (λ _, "")
    (λ r, cmgrImpl_QueryNodeMetrics (sys_cm sample_system) (Ret (StartTimestamp r)))).
Proof.
  apply (dashboard_has_store sample_dashboard_cfg None None (Ret tt) sample_system "0.0.0.0:9000"
    sample_system_started eq_refl).
  by intros r [p ?].
Defined.
