(* ===== verification/Entry.v ===== *)
(** * cmd/ehco, internal/cli and the update endpoints of internal/web: the entry points

    What a command line does ([RootFlags], [startAction], the install and update commands,
    [main] with its exit status), the initialisation in front of the components, the
    version and update handlers of the dashboard, and the alive gauge that two goroutines
    write during the start.  Parsing of arguments and environment (urfave/cli), the zap level,
    Sentry, and the system calls of the installer are arguments. *)

From S2P Require Import Prelude GoStd Log Conf Buffer Config Metrics Cmgr Relay Updater Web System.

(** ** internal/cli/flags.go *)

Inductive flag_value := VString (s : string) | VInt (z : Z) | VBool (b : bool).

Record flag := mkFlag { fl_Name : string; fl_EnvVar : string; fl_Value : flag_value }.

Definition SystemFilePath : string := "/etc/systemd/system/ehco.service".

(** Name, environment variable and default value; the usage texts are left out. *)
Definition RootFlags : list flag :=
  [ mkFlag "l,local" "EHCO_LOCAL_ADDR" (VString "");
    mkFlag "lt,listen_type" "EHCO_LISTEN_TYPE" (VString "raw");
    mkFlag "r,remote" "EHCO_REMOTE_ADDR" (VString "");
    mkFlag "tt,transport_type" "EHCO_TRANSPORT_TYPE" (VString "raw");
    mkFlag "c,config" "EHCO_CONFIG_FILE" (VString "");
    mkFlag "web_port" "EHCO_WEB_PORT" (VInt 0);
    mkFlag "enable_ping" "EHCO_ENABLE_PING" (VBool true);
    mkFlag "dashboard_pass" "EHCO_DASHBOARD_PASS" (VString "");
    mkFlag "api_token" "EHCO_API_TOKEN" (VString "");
    mkFlag "log_level" "EHCO_LOG_LEVEL" (VString "");
    mkFlag "config_reload_interval" "EHCO_CONFIG_RELOAD_INTERVAL" (VInt 0);
    mkFlag "buffer_size" "EHCO_BUFFER_SIZE" (VInt 0) ].

(** What a flag's destination holds; [given]: what the command line or the environment said. *)
Definition flag_get (given : string → option flag_value) (name : string) : option flag_value :=
  match given name with
  | Some v => Some v
  | None => fl_Value <$> List.find (λ f, bool_decide (fl_Name f = name)) RootFlags
  end.

Definition get_string (given : string → option flag_value) (name : string) : string :=
  match flag_get given name with Some (VString s) => s | _ => "" end.
Definition get_int (given : string → option flag_value) (name : string) : Z :=
  match flag_get given name with Some (VInt z) => z | _ => 0 end.
Definition get_bool (given : string → option flag_value) (name : string) : bool :=
  match flag_get given name with Some (VBool b) => b | _ => false end.

Definition destinations (given : string → option flag_value) : cli_flags :=
  {| LocalAddr := get_string given "l,local"; f_ListenType := get_string given "lt,listen_type";
     RemoteAddr := get_string given "r,remote"; f_TransportType := get_string given "tt,transport_type";
     ConfigPath := get_string given "c,config"; f_WebPort := get_int given "web_port";
     f_EnablePing := get_bool given "enable_ping"; f_DashboardPass := get_string given "dashboard_pass";
     f_ApiToken := get_string given "api_token"; f_LogLevel := get_string given "log_level";
     ConfigReloadInterval := get_int given "config_reload_interval" |}.

Definition BufferSize (given : string → option flag_value) : Z := get_int given "buffer_size".

(** ** internal/cli/config.go: in front of the components *)

(** What start-up meets outside the program. *)
Record start_env := mkStartEnv {
  se_now : Z; se_src : source; se_tls : option error;
  se_level : string → option error;      (* parsing the log level *)
  se_sentry : option error;              (* [initSentry] *)
  se_open : option error; se_metrics : option error; se_xray : outcome unit }.

(** The process: its loggers and its TCP buffer pool. *)
Record process := mkProcess { pr_log : log_state; pr_pool : BytePool }.

Definition cli_initLogger (env : start_env) (cfg : AppConfig) (p : process) : option error * process :=
  let (err, st) := InitGlobalLogger (se_level env (LogLeveL cfg)) (pr_log p) in (err, mkProcess st (pr_pool p)).

Definition initGlobalBufferPool (given : string → option flag_value) (p : process) : process :=
  if decide (0 < BufferSize given) then mkProcess (pr_log p) (ReplaceBufferPool (pr_pool p) (BufferSize given)) else p.

Definition InitConfigAndComponents (env : start_env) (given : string → option flag_value) (p : process) :
    outcome AppConfig * process :=
  match loadConfig (destinations given) (se_now env) (se_src env) (se_tls env) with
  | Err e => (Err e, p)
  | Panic x => (Panic x, p)
  | Ret cfg =>
      let (err, p) := cli_initLogger env cfg p in
      match err with
      | Some e => (Err e, p)
      | None =>
          match se_sentry env with
          | Some e => (Err e, p)
          | None => (Ret cfg, initGlobalBufferPool given p)
          end
      end
  end.

(** ** internal/cli/app.go, cmd.go, update.go *)

(** How an action ends: it returns, [Fatalf] reports an error (its prefix is left out) and exits
    with status 1, it panics, or the components run until a signal arrives. *)
Inductive action_end :=
  | Returns (err : option error)
  | Fatal (err : error)
  | Panics (p : panic)
  | Runs (sys : system).

(** [help]: the result of [cli.ShowAppHelp]. *)
Definition startAction (help : option error) (env : start_env) (given : string → option flag_value) (p : process) :
    action_end * process :=
  let f := destinations given in
  if decide (ConfigPath f = "" ∧ LocalAddr f = "") then (Returns help, p)
  else
    let (res, p) := InitConfigAndComponents env given p in
    match res with
    | Err e => (Fatal e, p)
    | Panic x => (Panics x, p)
    | Ret cfg =>
        match MustStartComponents cfg (se_open env) (se_metrics env) (se_xray env) with
        | Err e => (Fatal e, p)
        | Panic x => (Panics x, p)
        | Ret sys => (Runs sys, p)
        end
    end.

(** [stat]: none when the unit file exists, else the error and whether it says "not exist".
    A failing [OpenFile] leaves a nil file, whose [WriteString] fails. *)
Definition InstallCMD_Action (stat : option (error * bool)) (open write close edit : option error) : action_end :=
  match stat with
  | Some (_, true) =>
      match open with
      | Some _ => Fatal (Sentinel "invalid argument")
      | None => match write with Some e => Fatal e | None => Returns close end
      end
  | _ => Returns edit
  end.

(** The unit that is written starts [ehco -c ""]. *)
Definition SystemDTMPL_args : string → option flag_value :=
  λ name, if decide (name = "c,config") then Some (VString "") else None.

(** cmd/ehco/main.go: the exit status; [None] while the program runs.  A panic of the main
    goroutine is recovered and reported to Sentry. *)
Definition main_status (a : action_end) : option Z :=
  match a with
  | Returns _ | Panics _ => Some 0
  | Fatal _ => Some 1
  | Runs _ => None
  end.

Section updates.
Context (semver_Prerelease : string → string) (semver_IsValid : string → bool)
        (semver_Compare : string → string → Z).
Context (Version GitRevision : string).

Definition UpdateCMD_Action (gh : github) (h : host) (channel : string) (force no_restart : bool) (fs : files) :
    action_end * files :=
  match Apply semver_Prerelease semver_IsValid semver_Compare gh h (mkApplyOptions channel force (negb no_restart))
          Version GitRevision fs with
  | (Ret _, fs) => (Returns None, fs)
  | (Err e, fs) => (Returns (Some e), fs)
  | (Panic x, fs) => (Panics x, fs)
  end.

(** ** internal/web/handler_update.go *)

Definition Server_UpdateCheck (gh : github) (h : host) (channel : string) : outcome (web_reply CheckResult) :=
  let channel := if decide (channel = "") then ChannelAuto else channel in
  match updater_Check semver_Prerelease semver_IsValid semver_Compare gh h channel Version GitRevision with
  | Err e => Ret (WError 502 (error_text e))
  | Panic x => Panic x
  | Ret res => Ret (WJSON 200 res)
  end.

(** The reply, and the options of the update that a new goroutine applies, if one is started. *)
Definition Server_UpdateApply (h : host) (body : ApplyOptions + error) : web_reply unit * option ApplyOptions :=
  if decide (GOOS h ≠ "linux") then
    (WError 400 ("self-update only supported on linux; current platform is " +:+ GOOS h), None)
  else
    match body with
    | inr e => (WError 400 (error_text e), None)
    | inl opts =>
        let opts := if decide (opt_Channel opts = "") then mkApplyOptions ChannelAuto (Force opts) (Restart opts)
                    else opts in
        (WNoContent 202, Some opts)
    end.

(** The goroutine: the error goes to the log only. *)
Definition UpdateApply_goroutine (gh : github) (h : host) (opts : ApplyOptions) (fs : files) : option error * files :=
  match Apply semver_Prerelease semver_IsValid semver_Compare gh h opts Version GitRevision fs with
  | (Err e, fs) => (Some e, fs)
  | (_, fs) => (None, fs)
  end.
End updates.

(** ** The alive gauge during the start

    [MustStartComponents] spawns the goroutine of the relay server, which sets the gauge to
    running, and then builds the web server, whose metrics registration sets it back to
    init. *)
Record alive := mkAlive { gauge : Z; main_done : bool; goroutine_done : bool }.

Definition alive_start : alive := mkAlive 0 false false.

Inductive alive_step (cfg : AppConfig) (hosts : string → string + error) (resolve : string → option error) :
    alive → alive → Prop :=
  | alive_goroutine g m : alive_step cfg hosts resolve (mkAlive g m false) (mkAlive EhcoAliveStateRunning m true)
  | alive_web g d reg v pg :
      AppConfig_NeedStartWebServer cfg = true → validateConfig cfg = None → RegisterEhcoMetrics hosts resolve cfg [] = Ret (reg, v, pg) →
      alive_step cfg hosts resolve (mkAlive g false d) (mkAlive v true d)
  | alive_no_web g d :
      AppConfig_NeedStartWebServer cfg = false → alive_step cfg hosts resolve (mkAlive g false d) (mkAlive g true d).

(** ** Lemmas *)

Lemma initLogger_ok env cfg p p' :
  cli_initLogger env cfg p = (None, p') → doOnce (pr_log p) = false →
  se_level env (LogLeveL cfg) = None ∧ pr_pool p' = pr_pool p ∧ is_Some (zap_global (pr_log p')) ∧
  global (pr_log p') = zap_global (pr_log p').
Proof.
  unfold cli_initLogger, InitGlobalLogger, initLogger. intros H Ho. rewrite Ho in H.
  destruct (se_level env (LogLeveL cfg)); [done|]. injection H as <-. cbn. eauto.
Qed.

Lemma InitConfig_Ret env given p cfg p' :
  InitConfigAndComponents env given p = (Ret cfg, p') → doOnce (pr_log p) = false →
  loadConfig (destinations given) (se_now env) (se_src env) (se_tls env) = Ret cfg ∧
  se_level env (LogLeveL cfg) = None ∧ se_sentry env = None ∧
  pool_size (pr_pool p') = (if decide (0 < BufferSize given) then BufferSize given else pool_size (pr_pool p)) ∧
  is_Some (zap_global (pr_log p')) ∧ global (pr_log p') = zap_global (pr_log p').
Proof.
  unfold InitConfigAndComponents, initGlobalBufferPool. intros H Ho. destruct (loadConfig _ _ _ _) as [c| |] eqn:Hl; [|done..].
  destruct (cli_initLogger env c p) as [err p1] eqn:Hi. destruct err; [done|]. destruct (se_sentry env); [done|].
  injection H as -> <-. destruct (initLogger_ok _ _ _ _ Hi Ho) as (? & Hp & ? & ?). by case_decide; rewrite ?Hp.
Qed.

Lemma RegisterEhcoMetrics_first hosts resolve cfg :
  ∃ reg pg, RegisterEhcoMetrics hosts resolve cfg [] = Ret (reg, EhcoAliveStateInit, pg).
Proof. unfold RegisterEhcoMetrics, MustRegister. cbn. destruct (EnablePing cfg); cbn; eauto. Qed.

(** ** Theorems *)

(** What a start comes to.  Without a configuration file and a local address it only prints
    the help; that is also all the service does that [ehco install] writes, whatever the
    machine is like, and it exits with success.  When the components run, the configuration was
    loaded or built without error, its log level is valid, the dashboard's log stream is the
    global logger's, and the TCP buffers have the size asked for. *)
Theorem startAction_spec help env given p :
  doOnce (pr_log p) = false →
  (ConfigPath (destinations given) = "" → LocalAddr (destinations given) = "" →
   startAction help env given p = (Returns help, p)) ∧
  (startAction help env SystemDTMPL_args p = (Returns help, p) ∧ main_status (Returns help) = Some 0) ∧
  (∀ sys p', startAction help env given p = (Runs sys, p') →
   (ConfigPath (destinations given) ≠ "" ∨ LocalAddr (destinations given) ≠ "") ∧
   ∃ cfg, loadConfig (destinations given) (se_now env) (se_src env) (se_tls env) = Ret cfg ∧
     MustStartComponents cfg (se_open env) (se_metrics env) (se_xray env) = Ret sys ∧
     se_level env (LogLeveL cfg) = None ∧ se_sentry env = None ∧
     is_Some (zap_global (pr_log p')) ∧ global (pr_log p') = zap_global (pr_log p') ∧
     pool_size (pr_pool p') = (if decide (0 < BufferSize given) then BufferSize given else pool_size (pr_pool p))).
Proof.
  intros Ho. split; [|split; [done|]].
  - intros Hc Hl. unfold startAction. by rewrite decide_True.
  - intros sys p' H. unfold startAction in H. case_decide as Hd; [done|].
    split; [destruct (decide (ConfigPath (destinations given) = "")); [right|left]; tauto|].
    destruct (InitConfigAndComponents env given p) as [[cfg| |] p1] eqn:Hi; [|done..].
    destruct (MustStartComponents cfg _ _ _) as [sys'| |] eqn:Hm; [|done..]. injection H as <- <-.
    destruct (InitConfig_Ret _ _ _ _ _ Hi Ho) as (? & ? & ? & ? & ? & ?). by exists cfg.
Qed.

Definition sample_env : start_env := mkStartEnv 0 (SrcErr (Sentinel "unused")) None (λ _, None) None None None (Ret tt).

Definition sample_process : process := mkProcess log_start init_BufferPool.

(** [ehco -l :1080 -r :9090 --buffer_size 65536]. *)
Definition sample_args : string → option flag_value := λ name,
  if decide (name = "l,local") then Some (VString "0.0.0.0:1080")
  else if decide (name = "r,remote") then Some (VString "0.0.0.0:9090")
  else if decide (name = "buffer_size") then Some (VInt 65536) else None.

Lemma startAction_spec_witness :
  pool_size (pr_pool (startAction None sample_env sample_args sample_process).2) = 65536.
Proof.
  destruct (startAction_spec None sample_env sample_args sample_process eq_refl) as (_ & _ & H).
  destruct (startAction None sample_env sample_args sample_process) as [a p'] eqn:E.
  vm_compute in E. injection E as <- <-. destruct (H _ _ eq_refl) as (_ & cfg & _ & _ & _ & _ & _ & _ & Hp). exact Hp.
Defined.

(** The exit status says nothing about an update: [ehco update] ends with status 0 whatever
    happened, a failed download or a refused downgrade included; the error is only printed. *)
Theorem update_status semver_Prerelease semver_IsValid semver_Compare Version GitRevision gh h channel force no_restart fs :
  let r := UpdateCMD_Action semver_Prerelease semver_IsValid semver_Compare Version GitRevision gh h channel force no_restart fs in
  main_status r.1 = Some 0 ∧
  (∀ e, gh_latest gh = inr e → channel = ChannelStable →
   r = (Returns (Some (Wrapf "fetch stable: " e)), fs)).
Proof.
  cbn zeta. unfold UpdateCMD_Action. split; [by destruct (Apply _ _ _ _ _ _ _ _ _) as [[| |] ?]|].
  intros e He ->. unfold Apply, pickRelease, resolveChannel, fetchLatest. cbn. by rewrite He.
Qed.

(** The alive gauge can stay at "init" for good.  Without a dashboard it is "running" once the
    relay server's goroutine ran.  With one, the registration of the metrics may come after
    that goroutine: then the start is over, nothing sets the gauge any more, and it says "init". *)
Theorem alive_gauge_lost cfg hosts resolve :
  (AppConfig_NeedStartWebServer cfg = false → ∀ st,
   rtc (alive_step cfg hosts resolve) alive_start st → goroutine_done st = true → gauge st = EhcoAliveStateRunning) ∧
  (AppConfig_NeedStartWebServer cfg = true → validateConfig cfg = None → ∃ st,
   rtc (alive_step cfg hosts resolve) alive_start st ∧ nf (alive_step cfg hosts resolve) st ∧
   main_done st = true ∧ goroutine_done st = true ∧ gauge st = EhcoAliveStateInit).
Proof.
  split.
  - intros Hw st Hr. pattern st. revert Hr. apply rtc_ind_r; [done|].
    intros s s' _ Hs IH Hd. destruct Hs; cbn in *; [done|congruence|by apply IH].
  - intros Hw Hv. destruct (RegisterEhcoMetrics_first hosts resolve cfg) as (reg & pg & Hr).
    exists (mkAlive EhcoAliveStateInit true true). split_and!; [|intros [s Hs]; inversion Hs|done..].
    eapply rtc_l; [apply alive_goroutine|]. eapply rtc_l; [by eapply alive_web|done].
Qed.

(** An update from the dashboard is accepted exactly on linux with a readable body; an absent
    channel means "auto", and what becomes of the update is not told. *)
Lemma UpdateApply_accepts h body :
  (web_status (Server_UpdateApply h body).1 = 202 ↔ GOOS h = "linux" ∧ ∃ o, body = inl o) ∧
  (web_status (Server_UpdateApply h body).1 = 400 ↔ (Server_UpdateApply h body).2 = None) ∧
  (∀ o o', body = inl o → (Server_UpdateApply h body).2 = Some o' →
   opt_Channel o' ≠ "" ∧ Force o' = Force o ∧ Restart o' = Restart o).
Proof.
  unfold Server_UpdateApply. case_decide as Hos; [|destruct body as [o|e]]; cbn; (split; [|split]).
  - split; [done|]. by intros [? _].
  - done.
  - done.
  - split; [|done]. intros _. split; [|by eexists]. by destruct (decide (GOOS h = "linux")).
  - done.
  - intros ? ? [= <-] [= <-]. by case_decide.
  - split; [done|]. by intros [_ [? ?]].
  - done.
  - done.
Qed.
