(* ===== verification/Process.v ===== *)
(** * The whole program as threads (internal/cli/app.go, internal/cli/config.go)

    After [InitConfigAndComponents] the program is a handful of goroutines: the main one
    ([startAction] with [MustStartComponents], then the wait for a signal), that of the relay
    server ([rs.Start], with [Server.Stop] at its end), that of the dashboard
    ([webS.Start()]), and those of the relays and of the reloads, which are the threads of
    [Lifecycle].  Here they interleave, with the signals of the operating system between
    them, and the process ends as one of them makes it end.  What the relay server, the
    dashboard and xray do when they start is in [Relay], [Web] and [Xray]; the sequential
    composition [System.MustStartComponents] is what the main goroutine refines. *)

From S2P Require Import Prelude GoStd Lb Conf Cmgr Transporter Config Relay Lifecycle Web System Entry.

(** ** State *)

Inductive signal := SIGINT | SIGTERM | SIGHUP.

#[global] Instance signal_eq_dec : EqDecision signal.
Proof. solve_decision. Defined.

Inductive goroutine := GMain | GRelay | GWeb.

(** How a process ends: main returns; main panics, which its deferred function recovers;
    somebody calls [Fatalf]; another goroutine panics; a signal has its default effect. *)
Inductive process_end :=
  | Returned
  | Recovered (p : panic)
  | Fatalf (who : goroutine) (err : error)
  | Dies (p : panic)
  | KilledBy (s : signal).

(** The exit status; a killed process has none. *)
Definition exit_status (e : process_end) : option Z :=
  match e with
  | Returned | Recovered _ => Some 0
  | Fatalf _ _ => Some 1
  | Dies _ => Some 2
  | KilledBy _ => None
  end.

(** The statements of [startAction] and [MustStartComponents], in order. *)
Inductive main_pc :=
  | MNotify | MNewServer | MGoRelay | MNewWeb | MGoWeb (webS : option string)
  | MXraySetup | MXrayStart | MWait | MStopNotify | MReturn.

(** The goroutine of the relay server: before [rs.Start], in it, in its [select], in
    [Stop] with the keys still to visit and the error so far, returned. *)
Inductive relay_pc := RNone | RStart | RSelect | RStopping (keys : list string) (err : option error) | RDone.

(** [p_web]: the address the dashboard serves; [p_notify]: SIGINT and SIGTERM cancel the
    context instead of killing; [p_watch], [p_hup]: the reload goroutines run, and SIGHUP is
    theirs; [p_errs]: what was sent on [errCH]. *)
Record proc := mkProc {
  p_main : main_pc; p_relay : relay_pc; p_web : option string;
  p_notify : bool; p_ctx : bool; p_watch : bool; p_hup : bool;
  p_errs : list error; p_life : life; p_end : option process_end }.

Definition set_main (pc : main_pc) (p : proc) : proc :=
  mkProc pc (p_relay p) (p_web p) (p_notify p) (p_ctx p) (p_watch p) (p_hup p) (p_errs p) (p_life p) (p_end p).
Definition set_relay (pc : relay_pc) (p : proc) : proc :=
  mkProc (p_main p) pc (p_web p) (p_notify p) (p_ctx p) (p_watch p) (p_hup p) (p_errs p) (p_life p) (p_end p).
Definition set_web (a : option string) (p : proc) : proc :=
  mkProc (p_main p) (p_relay p) a (p_notify p) (p_ctx p) (p_watch p) (p_hup p) (p_errs p) (p_life p) (p_end p).
Definition set_notify (b : bool) (p : proc) : proc :=
  mkProc (p_main p) (p_relay p) (p_web p) b (p_ctx p) (p_watch p) (p_hup p) (p_errs p) (p_life p) (p_end p).
Definition set_ctx (p : proc) : proc :=
  mkProc (p_main p) (p_relay p) (p_web p) (p_notify p) true (p_watch p) (p_hup p) (p_errs p) (p_life p) (p_end p).
Definition set_watch (w h : bool) (p : proc) : proc :=
  mkProc (p_main p) (p_relay p) (p_web p) (p_notify p) (p_ctx p) w h (p_errs p) (p_life p) (p_end p).
Definition send_err (e : option error) (p : proc) : proc :=
  mkProc (p_main p) (p_relay p) (p_web p) (p_notify p) (p_ctx p) (p_watch p) (p_hup p)
    (p_errs p ++ option_list e) (p_life p) (p_end p).
Definition set_life (l : life) (p : proc) : proc :=
  mkProc (p_main p) (p_relay p) (p_web p) (p_notify p) (p_ctx p) (p_watch p) (p_hup p) (p_errs p) l (p_end p).
Definition finish (e : process_end) (p : proc) : proc :=
  mkProc (p_main p) (p_relay p) (p_web p) (p_notify p) (p_ctx p) (p_watch p) (p_hup p) (p_errs p) (p_life p) (Some e).

(** The configuration object, which the relay server reloads into and everybody reads. *)
Definition p_cfg (p : proc) : AppConfig := s_cfg (lf_srv (p_life p)).

Definition proc_start (cfg : AppConfig) : proc :=
  mkProc MNotify RNone None false false false false []
    (mkLife (mkServerState cfg ∅ [] [] 0) [] [] [] None) None.

(** The keys [relayM.Range] visits, in its order. *)
Definition range_keys (keys : list string) (p : proc) : Prop :=
  keys ≡ₚ (map_to_list (relayM (lf_srv (p_life p)))).*1.

Definition is_Ret {A} (r : outcome A) : Prop := match r with Ret _ => True | _ => False end.

#[global] Instance range_keys_dec keys p : Decision (range_keys keys p).
Proof. unfold range_keys. apply _. Defined.

Section Process.
Variable clash : string → string → bool.
(** What start-up meets: the metrics store, the metrics registry, xray's [Setup] and
    [Start]; and what closing a relay's listeners returns. *)
Variables (open_err metrics_err : option error) (xray_setup xray_start : outcome unit).
Variable stop_err : Relay → option error.

(** A call of the main goroutine that may fail: [Fatalf] on an error. *)
Definition must {A} (p : proc) (r : outcome A) (k : A → proc) : proc :=
  match r with
  | Ret a => k a
  | Err e => finish (Fatalf GMain e) p
  | Panic x => finish (Recovered x) p
  end.

(** ** internal/cli: startAction and MustStartComponents *)

(** One statement of the main goroutine; [None]: it waits for the context. *)
Definition main_step (p : proc) : option proc :=
  match p_main p with
  | MNotify => Some (set_main MNewServer (set_notify true p))
  | MNewServer => Some (must p (NewServer (p_cfg p) open_err) (λ _, set_main MGoRelay p))
  | MGoRelay => Some (set_main MNewWeb (set_relay RStart p))
  | MNewWeb =>
      Some (if AppConfig_NeedStartWebServer (p_cfg p)
            then must p (web_NewServer (p_cfg p) metrics_err) (λ a, set_main (MGoWeb (Some a)) p)
            else set_main (MGoWeb None) p)
  | MGoWeb webS => Some (set_main MXraySetup (set_web webS p))
  | MXraySetup =>
      Some (if AppConfig_NeedStartXrayServer (p_cfg p)
            then must p xray_setup (λ _, set_main MXrayStart p) else set_main MWait p)
  | MXrayStart => Some (must p xray_start (λ _, set_main MWait p))
  | MWait => if p_ctx p then Some (set_main MStopNotify p) else None
  | MStopNotify => Some (set_main MReturn (set_notify false p))
  | MReturn => Some (finish Returned p)
  end.

(** ** internal/relay/server.go: the goroutine of rs.Start *)

(** [r.Stop()] in [Server.Stop]: as [stop_relay], but the map keeps the relay. *)
Definition close_relay (r : Relay) (st : life) : outcome life :=
  st' ← stop_relay r st; Ret (set_srv (set_relayM (lf_srv st') (relayM (lf_srv st))) st').

(** One step of [Start] and [Stop]; [keys]: the order of [Range] if it begins now.  A panic
    or a [Fatalf] here ends the process. *)
Definition server_step (keys : list string) (p : proc) : option proc :=
  match p_relay p with
  | RNone | RDone => None
  | RStart =>
      Some match Server_Start (lf_srv (p_life p)) with
           | Ret s => set_relay RSelect (set_watch (Start_watches s) (p_hup p) (set_life (set_srv s (p_life p)) p))
           | Err e => finish (Fatalf GRelay e) p
           | Panic x => finish (Dies x) p
           end
  | RSelect => if p_ctx p then Some (set_relay (RStopping keys None) p) else None
  | RStopping [] None => Some (set_relay RDone p)
  | RStopping [] (Some e) => Some (finish (Fatalf GRelay e) p)
  | RStopping (k :: ks) err =>
      match relayM (lf_srv (p_life p)) !! k with
      | None => Some (set_relay (RStopping ks err) p)
      | Some r =>
          match close_relay r (p_life p) with
          | Ret l =>
              let err := match stop_err r with Some e => errors_Join err (Some e) | None => err end in
              Some (set_relay (RStopping ks err) (set_life l p))
          | Err _ => None
          | Panic x => Some (finish (Dies x) p)
          end
      end
  end.

(** The other branch of the [select]. *)
Definition server_err (p : proc) : option proc :=
  match p_relay p, p_errs p with
  | RSelect, e :: _ => Some (finish (Fatalf GRelay e) p)
  | _, _ => None
  end.

(** ** The other goroutines *)

(** A thread of [Lifecycle] after its step: an error that would end the server is on its
    way to [errCH]; a panic outside the web handlers ends the process. *)
Definition absorb (st : life) (p : proc) : proc :=
  match lf_end st with
  | None => set_life st p
  | Some (Exited e) =>
      send_err (Some e) (set_life (mkLife (lf_srv st) (lf_starting st) (lf_bound st) (lf_threads st) None) p)
  | Some (Crashed x) => finish (Dies x) (set_life st p)
  end.

(** Who can call [Reload]. *)
Definition may_call (m : move) (p : proc) : bool :=
  match m with
  | MCall FromWatcher _ _ _ _ _ => p_watch p
  | MCall FromWeb _ _ _ _ _ => bool_decide (is_Some (p_web p))
  | _ => true
  end.

(** ** Steps *)

Inductive pmove :=
  | PMain | PServer (keys : list string) | PErr | PHupNotify | PLife (m : move)
  | PSignal (s : signal)               (* from the operating system *)
  | PServeErr (r : Relay) (e : error)  (* the serving loop of a relay ends *)
  | PWebErr (e : error).               (* [webS.Start()] returns *)

Definition proc_exec (m : pmove) (p : proc) : option proc :=
  match p_end p with
  | Some _ => None
  | None =>
      match m with
      | PMain => main_step p
      | PServer keys => if decide (range_keys keys p) then server_step keys p else None
      | PErr => server_err p
      | PHupNotify => if p_watch p && negb (p_hup p) then Some (set_watch true true p) else None
      | PLife m => if may_call m p then (λ l, absorb l p) <$> exec clash m (p_life p) else None
      | PSignal SIGHUP => Some (if p_hup p then p else finish (KilledBy SIGHUP) p)
      | PSignal s => Some (if p_notify p then set_ctx p else finish (KilledBy s) p)
      | PServeErr r e =>
          if existsb (same_relay r) (lf_bound (p_life p)) then Some (send_err (startOneRelay_error (Some e)) p) else None
      | PWebErr e => if p_web p then Some (finish (Fatalf GWeb e) p) else None
      end
  end.

(** The program's own steps: no signal, no failure from outside, no further call of
    [Reload]. *)
Definition own_move (m : pmove) : bool :=
  match m with
  | PMain | PServer _ | PErr | PHupNotify => true
  | PLife m => negb (is_call m)
  | _ => false
  end.

Definition own_step (p p' : proc) : Prop := ∃ m, own_move m = true ∧ proc_exec m p = Some p'.
Definition proc_step (p p' : proc) : Prop := ∃ m, proc_exec m p = Some p'.

(** Everything but calls of [Reload]. *)
Definition calm_step (p p' : proc) : Prop :=
  ∃ m, match m with PLife m => is_call m = false | _ => True end ∧ proc_exec m p = Some p'.

Fixpoint proc_run (ms : list pmove) (p : proc) : option proc :=
  match ms with [] => Some p | m :: ms => p ← proc_exec m p; proc_run ms p end.


(** ** Lemmas on the threads of the relays *)

Lemma spawn_relayM s c s' : spawn_or_continue s c = Ret s' → relayM s' = relayM s.
Proof. unfold spawn_or_continue, spawn. destruct (NewRelay c (next_id s)); cbn; naive_solver. Qed.

Lemma stop_relay_size r st st' :
  stop_relay r st = Ret st' → (size (relayM (lf_srv st')) ≤ size (relayM (lf_srv st)))%nat.
Proof.
  unfold stop_relay. destruct (_ && _); intros [= <-]. cbn. rewrite map_size_delete.
  destruct (relayM (lf_srv st) !! _); unfold id; lia.
Qed.

Lemma reload_step_size pc st st' opc :
  reload_step pc st = Ret (st', opc) → (size (relayM (lf_srv st')) ≤ size (relayM (lf_srv st)))%nat.
Proof.
  destruct pc as [old labels [|k keys]|old labels k keys|old [|c cfgs]|old c cfgs]; cbn [reload_step];
    repeat case_match; try (intros [= <- <-]; done);
    try (intros (st1 & Hst%stop_relay_size & [= <- <-])%outcome_bind_Ret; exact Hst);
    try (intros (s1 & Hst%spawn_relayM & [= <- <-])%outcome_bind_Ret; cbn; by rewrite Hst).
Qed.

(** A step without a call of [Reload] keeps the configuration and stores at most one relay. *)
Lemma progress_frame st st' :
  progress clash st st' →
  s_cfg (lf_srv st') = s_cfg (lf_srv st) ∧ (size (relayM (lf_srv st')) ≤ S (size (relayM (lf_srv st))))%nat.
Proof.
  intros (m & Hm & He). unfold exec in He. destruct (lf_end st); [done|]. destruct m as [i|i|i|]; [| | |done].
  - unfold store_relay in He. destruct (pending (lf_srv st) !! i) as [r|]; [|done]. injection He as <-. cbn.
    split; [done|]. rewrite map_size_insert. destruct (relayM (lf_srv st) !! _); unfold id; lia.
  - unfold bind_relay in He. destruct (lf_starting st !! i); [|done]. cbn in He.
    destruct (existsb _ (lf_bound st)); [|destruct (existsb _ _)]; injection He as <-; cbn; auto with lia.
  - unfold run_thread in He. destruct (lf_threads st !! i) as [th|]; [|done]. cbn in He.
    destruct (reload_step (th_pc th) st) as [[st1 [pc'|]]|e|x] eqn:Hs.
    + pose proof (reload_step_size _ _ _ _ Hs). apply reload_step_weight in Hs as (Hc & _). injection He as <-. cbn. auto with lia.
    + pose proof (reload_step_size _ _ _ _ Hs). apply reload_step_weight in Hs as (Hc & _). injection He as <-. cbn. auto with lia.
    + injection He as <-. cbn. auto with lia.
    + injection He as <-. destruct (th_origin th); cbn; auto with lia.
Qed.

Lemma start_relays_frame s cfgs s' :
  start_relays s cfgs = Ret s' →
  s_cfg s' = s_cfg s ∧ relayM s' = relayM s ∧ (length (pending s') = length (pending s) + length cfgs)%nat.
Proof.
  revert s. induction cfgs as [|c cfgs IH]; intros s; cbn [start_relays].
  - intros [= <-]. cbn. split_and!; [done..|lia].
  - intros (s1 & Hsp & H)%outcome_bind_Ret. apply IH in H as (-> & -> & ->).
    unfold spawn in Hsp. apply outcome_bind_Ret in Hsp as (r & _ & [= <-]). cbn. rewrite length_app. cbn.
    split_and!; [done..|lia].
Qed.

Lemma close_relay_frame r st st' :
  close_relay r st = Ret st' →
  s_cfg (lf_srv st') = s_cfg (lf_srv st) ∧ relayM (lf_srv st') = relayM (lf_srv st) ∧ weight st' = weight st ∧
  lf_bound st' = filter (λ r', rl_id r' ≠ rl_id r) (lf_bound st) ∧ pending (lf_srv st') = pending (lf_srv st) ∧
  lf_starting st' = lf_starting st ∧ lf_threads st' = lf_threads st ∧ lf_end st' = lf_end st.
Proof.
  unfold close_relay, stop_relay. destruct (_ && _); [done|]. intros [= <-]. by cbn.
Qed.

(** ** Termination *)

Definition main_weight (pc : main_pc) : nat :=
  match pc with
  | MNotify => 10 | MNewServer => 9 | MGoRelay => 8 | MNewWeb => 7 | MGoWeb _ => 6
  | MXraySetup => 5 | MXrayStart => 4 | MWait => 3 | MStopNotify => 2 | MReturn => 1
  end.

Definition relay_weight (pc : relay_pc) (n stored : nat) : nat :=
  match pc with
  | RNone | RStart => 4 * n + 3 + stored
  | RSelect => 2 + stored
  | RStopping keys _ => 1 + length keys
  | RDone => 0
  end.

(** An upper bound on the program's own steps that are left. *)
Definition proc_weight (p : proc) : nat :=
  match p_end p with
  | Some _ => 0
  | None =>
      S (main_weight (p_main p) +
         relay_weight (p_relay p) (length (RelayConfigs (p_cfg p))) (size (relayM (lf_srv (p_life p)))) +
         Nat.b2n (negb (p_hup p)) + 2 * weight (p_life p))
  end.

Lemma proc_weight_ended e p : proc_weight (finish e p) = 0%nat.
Proof. done. Qed.

(** The goroutine of the relay server exists once main has started it. *)
Definition proc_ok (p : proc) : Prop :=
  match p_main p with MNotify | MNewServer | MGoRelay => p_relay p = RNone | _ => True end.

Lemma main_step_weight p p' :
  proc_ok p → p_end p = None → main_step p = Some p' → (proc_weight p' < proc_weight p)%nat.
Proof.
  intros Hok He H. unfold proc_weight at 2. rewrite He.
  destruct p as [pc rp web nt ctx wt hup errs l en]. cbn in He. subst en. unfold proc_ok in Hok. cbn in Hok.
  unfold main_step in H. cbn [p_main] in H.
  destruct pc; unfold must in H; repeat case_match; simplify_eq/=; rewrite ?proc_weight_ended; unfold proc_weight, p_cfg; cbn;
    lia.
Qed.

Lemma server_step_weight keys p p' :
  p_end p = None → range_keys keys p → server_step keys p = Some p' → (proc_weight p' < proc_weight p)%nat.
Proof.
  unfold range_keys. intros He Hk%Permutation_length H. rewrite length_fmap, length_map_to_list in Hk.
  unfold proc_weight at 2. rewrite He. destruct p as [pc rp web nt ctx wt hup errs l en]. cbn in He, Hk. subst en.
  unfold server_step in H. cbn [p_relay p_ctx p_life] in H.
  destruct rp as [| | |[|k ks] err|]; try done.
  - destruct (Server_Start (lf_srv l)) as [s'|e|x] eqn:Hs; injection H as <-; [|cbn; lia..].
    apply start_relays_frame in Hs as (Hc & Hm & Hp). unfold proc_weight, weight, p_cfg. cbn. rewrite Hc, Hm, Hp. lia.
  - destruct ctx; [|done]. injection H as <-. unfold proc_weight. cbn. lia.
  - destruct err; injection H as <-; unfold proc_weight; cbn; lia.
  - destruct (relayM (lf_srv l) !! k) as [r|]; [|injection H as <-; unfold proc_weight; cbn; lia].
    destruct (close_relay r l) as [l'|e|x] eqn:Hc; [|done|injection H as <-; cbn; lia]. injection H as <-.
    apply close_relay_frame in Hc as (Hc & Hm & Hw & _). unfold proc_weight, p_cfg. cbn [p_end p_main p_relay p_life p_hup set_relay set_life relay_weight length]. rewrite Hw. lia.
Qed.

Lemma absorb_spec l p :
  p_end p = None →
  (p_end (absorb l p) = None ∧ p_life (absorb l p) = mkLife (lf_srv l) (lf_starting l) (lf_bound l) (lf_threads l) None ∧
   (lf_end l = None ∧ p_errs (absorb l p) = p_errs p ∨ ∃ e, lf_end l = Some (Exited e) ∧ p_errs (absorb l p) = p_errs p ++ [e])) ∨
  (∃ x, lf_end l = Some (Crashed x) ∧ p_end (absorb l p) = Some (Dies x)).
Proof.
  intros He. unfold absorb. destruct l as [s st b th [[e|x]|]]; cbn; [left|by right; eauto|left]; split_and!; try done.
  - right. eauto.
  - left. done.
Qed.

Lemma absorb_same l p :
  p_main (absorb l p) = p_main p ∧ p_relay (absorb l p) = p_relay p ∧ p_web (absorb l p) = p_web p ∧
  p_notify (absorb l p) = p_notify p ∧ p_ctx (absorb l p) = p_ctx p ∧ p_watch (absorb l p) = p_watch p ∧
  p_hup (absorb l p) = p_hup p.
Proof. unfold absorb. by destruct (lf_end l) as [[e|x]|]. Qed.


Lemma proc_exec_ok m p p' : proc_exec m p = Some p' → proc_ok p → proc_ok p'.
Proof.
  unfold proc_exec. destruct (p_end p); [done|]. unfold proc_ok.
  destruct m as [|keys| | |m|s|r e|e]; intros H Hok.
  - unfold main_step in H. destruct p as [pc rp web nt ctx wt hup errs l en]. cbn [p_main p_ctx] in *.
    destruct pc; unfold must in H; repeat case_match; simplify_eq/=; done.
  - destruct (decide (range_keys keys p)); [|done]. unfold server_step in H.
    destruct p as [pc rp web nt ctx wt hup errs l en]. cbn in *.
    destruct pc; try (rewrite Hok in H; discriminate H); repeat case_match; simplify_eq/=; done.
  - unfold server_err in H. destruct p as [pc rp web nt ctx wt hup errs l en]. cbn in *.
    destruct pc; try (rewrite Hok in H; discriminate H); repeat case_match; simplify_eq/=; done.
  - destruct (_ && _); simplify_eq/=; done.
  - destruct (may_call m p); [|done]. destruct (exec clash m (p_life p)) as [l|]; [|done]. injection H as <-.
    destruct (absorb_same l p) as (-> & -> & _). done.
  - destruct s; [destruct (p_notify p)|destruct (p_notify p)|destruct (p_hup p)]; simplify_eq/=; done.
  - destruct (existsb _ _); simplify_eq/=; done.
  - destruct (p_web p); simplify_eq/=; done.
Qed.

Lemma own_step_weight p p' : proc_ok p → own_step p p' → (proc_weight p' < proc_weight p)%nat.
Proof.
  intros Hok (m & Hm & H). unfold proc_exec in H. destruct (p_end p) eqn:He; [done|].
  destruct m as [|keys| | |m| | |]; try discriminate Hm.
  - by apply main_step_weight.
  - destruct (decide (range_keys keys p)); [|done]. by eapply server_step_weight.
  - unfold server_err in H. unfold proc_weight at 2. rewrite He.
    destruct (p_relay p), (p_errs p); try done. injection H as <-. cbn. lia.
  - destruct (p_watch p); [|done]. destruct (p_hup p) eqn:Hh; [done|]. injection H as <-.
    unfold proc_weight, p_cfg. cbn [p_end set_watch p_main p_relay p_life p_hup]. rewrite He, Hh. cbn [negb Nat.b2n]. lia.
  - destruct (may_call m p); [|done]. destruct (exec clash m (p_life p)) as [l|] eqn:Hx; [|done]. injection H as <-.
    cbn in Hm. apply negb_true_iff in Hm.
    assert (Hp : progress clash (p_life p) l) by by exists m.
    pose proof (progress_weight _ _ _ Hp). destruct (progress_frame _ _ Hp) as [Hc Hs].
    destruct (absorb_same l p) as (Ha1 & Ha2 & _ & _ & _ & _ & Ha3).
    unfold proc_weight. rewrite He.
    destruct (absorb_spec l p He) as [(-> & Hl & _)|(x & _ & ->)]; [|lia].
    unfold p_cfg. rewrite Ha1, Ha2, Ha3, Hl. cbn [lf_srv]. rewrite Hc.
    change (weight (mkLife (lf_srv l) (lf_starting l) (lf_bound l) (lf_threads l) None)) with (weight l).
    destruct (p_relay p); cbn [relay_weight]; lia.
Qed.

Lemma own_bounded k p p' : proc_ok p → nsteps own_step k p p' → (k ≤ proc_weight p)%nat.
Proof.
  intros Hok Hn. induction Hn as [|k p p1 p2 H1 _ IH]; [lia|].
  pose proof (own_step_weight _ _ Hok H1). destruct H1 as (m & _ & H1%proc_exec_ok); [|done]. specialize (IH H1). lia.
Qed.

(** A process that can do nothing more by itself waits for a signal, or has ended. *)
Lemma own_stuck p : nf own_step p → p_end p = None → p_main p = MWait ∧ p_ctx p = false.
Proof.
  intros Hnf He. assert (proc_exec PMain p = None) as H.
  { destruct (proc_exec PMain p) as [p'|] eqn:E; [|done]. exfalso. apply Hnf. by exists p', PMain. }
  unfold proc_exec in H. rewrite He in H. unfold main_step in H. destruct (p_main p); try discriminate H. by destruct (p_ctx p).
Qed.

(** ** Invariants *)

(** The error of [startOneRelay] that an error of a serving relay becomes. *)
Definition reported (e : error) : Prop := ∃ le, startOneRelay_error (Some le) = Some e.

Lemma exec_exited m st st' e :
  lf_end st = None → exec clash m st = Some st' → lf_end st' = Some (Exited e) → reported e.
Proof.
  intros He Hx Hend. unfold exec in Hx. rewrite He in Hx. destruct m as [i|i|i|o now force src tls keys].
  - unfold store_relay in Hx. destruct (pending (lf_srv st) !! i); [|done]. injection Hx as <-. cbn in Hend. congruence.
  - unfold bind_relay in Hx. destruct (lf_starting st !! i) as [r|]; [|done]. cbn in Hx.
    destruct (existsb _ (lf_bound st)).
    + injection Hx as <-. injection Hend as <-. by exists (bind_error (addr r)).
    + destruct (existsb _ (stopped (lf_srv st))); injection Hx as <-; cbn in Hend; congruence.
  - unfold run_thread in Hx. destruct (lf_threads st !! i) as [th|]; [|done]. cbn in Hx.
    assert (Hkeep : ∀ st1 opc, reload_step (th_pc th) st = Ret (st1, opc) → lf_end st1 = lf_end st).
    { intros st1 opc Hs. destruct (th_pc th) as [? ? [|? ?]| |? [|? ?]|]; cbn [reload_step] in Hs;
        repeat case_match; simplify_eq/=; try done;
        apply outcome_bind_Ret in Hs as (x & Hx' & Hs); simplify_eq/=; try done;
        unfold stop_relay in Hx'; destruct (_ && _); simplify_eq/=; done. }
    destruct (reload_step (th_pc th) st) as [[st1 [pc'|]]|e'|x] eqn:Hs; injection Hx as <-; cbn in Hend;
      try (rewrite (Hkeep _ _ eq_refl) in Hend; congruence); [congruence|].
    destruct (th_origin th); cbn in Hend; congruence.
  - destruct (decide _); [|done]. unfold call_Reload in Hx. destruct (existsb _ _); [done|].
    destruct (clone_all _ _) as [old|e'|x]; [|injection Hx as <-; congruence|].
    + destruct (AppConfig_LoadConfig _ _ _ _ _) as [c [u|e'|x]]; injection Hx as <-; cbn in Hend; try congruence.
      destruct o; cbn in Hend; congruence.
    + injection Hx as <-. destruct o; cbn in Hend; congruence.
Qed.

(** What led to the end of the process. *)
Definition explained (p : proc) (e : process_end) : Prop :=
  match e with
  | Returned => p_ctx p = true
  | Recovered x =>
      (∃ c, NewServer c open_err = Panic x) ∨ (∃ c, web_NewServer c metrics_err = Panic x) ∨
      xray_setup = Panic x ∨ xray_start = Panic x
  | Fatalf GMain err =>
      (∃ c, NewServer c open_err = Err err) ∨
      (∃ c, AppConfig_NeedStartWebServer c = true ∧ web_NewServer c metrics_err = Err err) ∨
      xray_setup = Err err ∨ xray_start = Err err
  | Fatalf GRelay err =>
      (∃ s, Server_Start s = Err err) ∨ reported err ∨
      p_ctx p = true ∧ ∃ s order, Server_Stop s order stop_err = Some err
  | Fatalf GWeb _ => is_Some (p_web p)
  | Dies x =>
      (∃ s, Server_Start s = Panic x) ∨ (∃ r l, p_ctx p = true ∧ close_relay r l = Panic x) ∨
      (∃ l l', lf_end l = None ∧ life_step clash l l' ∧ lf_end l' = Some (Crashed x))
  | KilledBy SIGHUP => p_hup p = false
  | KilledBy _ => p_main p = MNotify ∨ p_main p = MReturn
  end.

Record proc_inv (p : proc) : Prop := {
  pi_ok : proc_ok p;
  pi_life : p_end p = None → lf_end (p_life p) = None;
  pi_notify : p_notify p = true ∨ p_main p = MNotify ∨ p_main p = MReturn;
  pi_ctx : p_main p = MStopNotify ∨ p_main p = MReturn → p_ctx p = true;
  pi_errs : ∀ e, e ∈ p_errs p → reported e;
  pi_stop : ∀ ks err, p_relay p = RStopping ks err →
    p_ctx p = true ∧ ∃ s order, Server_Stop s order stop_err = err;
  pi_end : ∀ e, p_end p = Some e → explained p e }.

Lemma proc_start_inv cfg : proc_inv (proc_start cfg).
Proof. split; cbn; auto; try done; [naive_solver|by intros e ?%elem_of_nil]. Qed.

Lemma finish_inv e p : proc_inv p → explained p e → proc_inv (finish e p).
Proof. intros [] He. split; try done. by intros e' [= <-]. Qed.

Lemma must_inv {A} p (r : outcome A) k :
  proc_inv p → (∀ a, r = Ret a → proc_inv (k a)) → (∀ e, r = Err e → explained p (Fatalf GMain e)) →
  (∀ x, r = Panic x → explained p (Recovered x)) → proc_inv (must p r k).
Proof. intros Hi Hk He Hx. destruct r; cbn; [by apply Hk|apply finish_inv; auto..]. Qed.

(** Moving main on from one statement to the next. *)
Lemma main_inv pc p :
  proc_inv p → p_end p = None → p_main p ≠ MNotify → p_main p ≠ MReturn →
  match pc with
  | MNotify | MReturn | MNewServer => False
  | MStopNotify => p_ctx p = true
  | MGoRelay => p_relay p = RNone
  | _ => True
  end → proc_inv (set_main pc p).
Proof.
  intros [] He Hn Hr Hpc. split; try done.
  - unfold proc_ok. cbn. by destruct pc.
  - left. cbn. naive_solver.
  - cbn. destruct pc; naive_solver.
  - cbn. intros e H. congruence.
Qed.

(** The fields a step leaves alone, and an end that has not come. *)
Ltac keep_inv :=
  split; try done; cbn; auto; try (by intros [|]); try (intros ? ?; congruence).

Lemma main_step_inv p p' : proc_inv p → p_end p = None → main_step p = Some p' → proc_inv p'.
Proof.
  intros Hi He H. unfold main_step in H. destruct (p_main p) as [| | | |a| | | | |] eqn:Hpc.
  - injection H as <-. destruct Hi as [Hok ? ? ? ? ? ?]. unfold proc_ok in Hok. rewrite Hpc in Hok. keep_inv.
  - injection H as <-. apply must_inv; [done|..].
    + intros u _. apply main_inv; try done; try congruence. destruct Hi as [Hok ? ? ? ? ? ?]. unfold proc_ok in Hok.
      by rewrite Hpc in Hok.
    + intros e Hn. left. eauto.
    + intros x Hn. left. eauto.
  - injection H as <-. destruct Hi as [Hok ? Hn ? ? ? ?]. keep_inv. left. rewrite Hpc in Hn. naive_solver.
  - injection H as <-. destruct (AppConfig_NeedStartWebServer (p_cfg p)) eqn:Hw.
    + apply must_inv; [done|..].
      * intros u _. apply main_inv; try done; congruence.
      * intros e Hn. right. left. eauto.
      * intros x Hn. right. left. eauto.
    + apply main_inv; try done; congruence.
  - injection H as <-. apply main_inv; try done; try (cbn; congruence).
    destruct Hi as [Hok ? ? ? ? ? Hend]. keep_inv.
  - injection H as <-. destruct (AppConfig_NeedStartXrayServer (p_cfg p)); [|apply main_inv; try done; congruence].
    apply must_inv; [done|..].
    + intros u _. apply main_inv; try done; congruence.
    + intros e Hn. right. right. by left.
    + intros x Hn. right. right. by left.
  - injection H as <-. apply must_inv; [done|..].
    + intros u _. apply main_inv; try done; congruence.
    + intros e Hn. right. right. by right.
    + intros x Hn. right. right. by right.
  - destruct (p_ctx p) eqn:Hc; [|done]. injection H as <-. apply main_inv; try done; congruence.
  - injection H as <-. destruct Hi as [Hok ? ? Hcx ? ? ?]. keep_inv.
  - injection H as <-. apply finish_inv; [done|]. cbn. apply Hi. auto.
Qed.

Lemma server_step_inv keys p p' :
  proc_inv p → p_end p = None → server_step keys p = Some p' → proc_inv p'.
Proof.
  intros Hi He H. unfold server_step in H. pose proof (pi_ok _ Hi) as Hok. unfold proc_ok in Hok.
  destruct (p_relay p) as [| | |ks err|] eqn:Hrp; try done.
  - destruct (Server_Start (lf_srv (p_life p))) as [s|e|x] eqn:Hs; injection H as <-.
    + destruct Hi as [? Hl ? ? ? ? ?]. keep_inv. unfold proc_ok. cbn. by destruct (p_main p).
    + apply finish_inv; [done|]. left. eauto.
    + apply finish_inv; [done|]. left. eauto.
  - destruct (p_ctx p) eqn:Hc; [|done]. injection H as <-. destruct Hi. keep_inv.
    + unfold proc_ok. cbn. by destruct (p_main p).
    + intros ks err [= <- <-]. split; [done|]. by exists (lf_srv (p_life p)), [].
  - destruct (pi_stop _ Hi _ _ Hrp) as (Hc & s & order & Hst). destruct ks as [|k ks].
    + destruct err as [e|]; injection H as <-.
      * apply finish_inv; [done|]. right. right. split; [done|]. eauto.
      * destruct Hi. keep_inv. unfold proc_ok. cbn. by destruct (p_main p).
    + destruct (relayM (lf_srv (p_life p)) !! k) as [r|].
      * destruct (close_relay r (p_life p)) as [l|e|x] eqn:Hcl; [|done|].
        -- injection H as <-. apply close_relay_frame in Hcl as (_ & _ & _ & _ & _ & _ & _ & Hle).
           destruct Hi as [? Hl ? ? ? ? ?]. keep_inv.
           ++ unfold proc_ok. cbn. by destruct (p_main p).
           ++ intros _. rewrite Hle. by apply Hl.
           ++ intros ks' err' [= <- <-]. split; [done|]. exists s, (order ++ [r]).
              unfold Server_Stop in *. rewrite foldl_app, Hst. done.
        -- injection H as <-. apply finish_inv; [done|]. right. left. eauto.
      * injection H as <-. destruct Hi. keep_inv.
        -- unfold proc_ok. cbn. by destruct (p_main p).
        -- intros ks' err' [= <- <-]. eauto.
Qed.

Lemma absorb_inv m l p :
  proc_inv p → p_end p = None → exec clash m (p_life p) = Some l → proc_inv (absorb l p).
Proof.
  intros Hi He Hx. pose proof (pi_life _ Hi He) as Hl. destruct Hi. unfold absorb.
  destruct (lf_end l) as [[e|x]|] eqn:Hend.
  - keep_inv. intros e' [?|Hin]%elem_of_app; [auto|]. apply list_elem_of_singleton in Hin as ->.
    by eapply exec_exited.
  - split; try done. intros e [= <-]. right. right. exists (p_life p), l. split_and!; [done|by exists m|done].
  - keep_inv.
Qed.

Lemma proc_exec_inv m p p' : proc_exec m p = Some p' → proc_inv p → proc_inv p'.
Proof.
  unfold proc_exec. destruct (p_end p) eqn:He; [done|]. intros H Hi.
  destruct m as [|keys| | |m|s|r e|e].
  - by eapply main_step_inv.
  - destruct (decide (range_keys keys p)); [|done]. by eapply server_step_inv.
  - unfold server_err in H. destruct (p_relay p); try done. destruct (p_errs p) as [|e es] eqn:Hes; [done|].
    injection H as <-. apply finish_inv; [done|]. right. left. apply (pi_errs _ Hi). rewrite Hes. by left.
  - destruct (_ && _); simplify_eq/=. destruct Hi. keep_inv.
  - destruct (may_call m p); [|done]. destruct (exec clash m (p_life p)) as [l|] eqn:Hx; [|done]. injection H as <-.
    by eapply absorb_inv.
  - assert (Hk : ∀ s, p_notify p = false → s ≠ SIGHUP → proc_inv (finish (KilledBy s) p)).
    { intros s' Hn Hs. apply finish_inv; [done|]. cbn. destruct (pi_notify _ Hi) as [?|?]; [congruence|]. by destruct s'. }
    assert (Hc : proc_inv (set_ctx p)).
    { destruct Hi. keep_inv. intros ks err Hr. destruct (pi_stop0 ks err Hr). auto. }
    destruct s.
    + destruct (p_notify p); injection H as <-; [done|by apply Hk].
    + destruct (p_notify p); injection H as <-; [done|by apply Hk].
    + destruct (p_hup p) eqn:Hh; injection H as <-; [done|]. by apply finish_inv.
  - destruct (existsb _ _); [|done]. injection H as <-. destruct Hi. keep_inv.
    intros e' [?|Hin]%elem_of_app; [auto|].
    destruct (errors_Is e _ || errors_Is e _) eqn:E; [by apply elem_of_nil in Hin|].
    apply list_elem_of_singleton in Hin as ->. exists e. cbn. by rewrite E.
  - destruct (p_web p) eqn:Hw; [|done]. injection H as <-. apply finish_inv; [done|]. cbn. by rewrite Hw.
Qed.

Lemma proc_reachable_inv cfg p : reachable (λ p, p = proc_start cfg) proc_step p → proc_inv p.
Proof.
  revert p. apply (reachable_invariant _ _ proc_inv).
  - intros ? ->. apply proc_start_inv.
  - intros p p' Hi (m & Hm). by eapply proc_exec_inv.
Qed.

Lemma own_step_ctx p p' : own_step p p' → p_ctx p = true → p_ctx p' = true.
Proof.
  intros (m & Hm & H) Hc. unfold proc_exec in H. destruct (p_end p); [done|]. destruct p as [pc rp web nt ctx wt hup errs l en].
  cbn in Hc. subst ctx.
  destruct m as [|keys| | |m| | |]; try done.
  - unfold main_step, must in H. repeat case_match; simplify_eq/=; done.
  - destruct (decide _); [|done]. unfold server_step in H. repeat case_match; simplify_eq/=; done.
  - unfold server_err in H. repeat case_match; simplify_eq/=; done.
  - destruct (_ && _); simplify_eq/=; done.
  - destruct (may_call _ _); [|done]. destruct (exec _ _ _) as [l'|]; [|done]. cbn in H. injection H as <-.
    match goal with |- p_ctx (absorb l' ?q) = _ => destruct (absorb_same l' q) as (_ & _ & _ & _ & -> & _) end. done.
Qed.

(** ** Without reloads, main does what MustStartComponents does *)

Definition boot_result (cfg : AppConfig) : outcome system :=
  MustStartComponents cfg open_err metrics_err (_ ← xray_setup; xray_start).

Definition web_part (cfg : AppConfig) : outcome (option string) :=
  if AppConfig_NeedStartWebServer cfg then Some <$> web_NewServer cfg metrics_err else Ret None.

(** How far [MustStartComponents] has come at each statement. *)
Definition main_at (cfg : AppConfig) (p : proc) : Prop :=
  match p_main p with
  | MNotify | MNewServer => True
  | MGoRelay | MNewWeb => is_Ret (NewServer cfg open_err)
  | MGoWeb a => is_Ret (NewServer cfg open_err) ∧ web_part cfg = Ret a
  | MXraySetup => is_Ret (NewServer cfg open_err) ∧ web_part cfg = Ret (p_web p)
  | MXrayStart => is_Ret (NewServer cfg open_err) ∧ web_part cfg = Ret (p_web p) ∧
      AppConfig_NeedStartXrayServer cfg = true ∧ is_Ret xray_setup
  | _ => ∃ sys, boot_result cfg = Ret sys ∧ sys_web sys = p_web p
  end.

Definition calm_inv (cfg : AppConfig) (p : proc) : Prop :=
  p_cfg p = cfg ∧ main_at cfg p ∧
  match p_end p with
  | Some (Fatalf GMain e) => boot_result cfg = Err e
  | Some (Recovered x) => boot_result cfg = Panic x
  | _ => True
  end.

Lemma boot_result_server cfg :
  match NewServer cfg open_err with
  | Ret (rs, cm) => boot_result cfg =
      (webS ← web_part cfg;
       _ ← (if AppConfig_NeedStartXrayServer cfg then (_ ← xray_setup; xray_start) else Ret tt);
       Ret (mkSystem rs cm webS (AppConfig_NeedStartXrayServer cfg) (Start_runs_cmgr rs)))
  | Err e => boot_result cfg = Err e
  | Panic x => boot_result cfg = Panic x
  end.
Proof. unfold boot_result, MustStartComponents. by destruct (NewServer cfg open_err) as [[rs cm]| |]. Qed.

Lemma main_step_calm cfg p p' : calm_inv cfg p → p_end p = None → main_step p = Some p' → calm_inv cfg p'.
Proof.
  intros (Hc & Hm & _) He H. unfold main_step in H. unfold main_at in Hm. unfold calm_inv.
  pose proof (boot_result_server cfg) as Hb. rewrite Hc in H.
  destruct (p_main p) as [| | | |a| | | | |] eqn:Hpc.
  - injection H as <-. cbn. by rewrite He.
  - injection H as <-. destruct (NewServer cfg open_err) as [[rs cm]|e|x] eqn:Hns; cbn; rewrite ?He; split_and!; try done.
    all: unfold main_at; cbn; by rewrite ?Hpc, ?Hns.
  - injection H as <-. cbn. by rewrite He.
  - injection H as <-. destruct (NewServer cfg open_err) as [[rs cm]|e|x] eqn:Hn; try by destruct Hm.
    unfold web_part in Hb. unfold main_at, web_part.
    destruct (AppConfig_NeedStartWebServer cfg) eqn:Hw.
    + destruct (web_NewServer cfg metrics_err) as [a|e|x] eqn:Hws; cbn in Hb |- *; rewrite ?He, ?Hpc, ?Hw, ?Hn, ?Hws; done.
    + cbn. rewrite ?He, ?Hw, ?Hn. done.
  - injection H as <-. cbn. rewrite He. destruct Hm. done.
  - injection H as <-. destruct Hm as [Hn Hw]. destruct (NewServer cfg open_err) as [[rs cm]|e|x] eqn:Hns; try by destruct Hn.
    rewrite Hw in Hb. cbn in Hb. destruct (AppConfig_NeedStartXrayServer cfg) eqn:Hx.
    + destruct xray_setup as [u|e|x] eqn:Hs; cbn in Hb |- *; unfold main_at; cbn; rewrite ?He, ?Hpc, ?Hw, ?Hx, ?Hns, ?Hs; done.
    + cbn in Hb |- *. unfold main_at. cbn. rewrite He. split_and!; [done| |done]. eexists. split; [exact Hb|done].
  - injection H as <-. destruct Hm as (Hn & Hw & Hx & Hs).
    destruct (NewServer cfg open_err) as [[rs cm]|e|x] eqn:Hns; try by destruct Hn.
    destruct xray_setup as [u|e|x] eqn:Hset; try by destruct Hs.
    rewrite Hw, Hx in Hb. cbn in Hb. destruct xray_start as [v|e|x]; cbn in Hb |- *; unfold main_at; cbn;
      rewrite ?He, ?Hpc, ?Hw, ?Hx, ?Hns, ?Hset; split_and!; try done.
    eexists. split; [exact Hb|done].
  - destruct (p_ctx p); [|done]. injection H as <-. cbn. rewrite He. done.
  - injection H as <-. cbn. rewrite He. done.
  - injection H as <-. cbn. unfold main_at. cbn. by rewrite Hpc.
Qed.

(** The other goroutines, and what comes from outside, leave main where it is. *)
Lemma other_step_same m p p' :
  proc_exec m p = Some p' → m ≠ PMain → match m with PLife m => is_call m = false | _ => True end →
  p_main p' = p_main p ∧ p_web p' = p_web p ∧ p_cfg p' = p_cfg p ∧
  match p_end p' with Some (Fatalf GMain _) | Some (Recovered _) => False | _ => True end.
Proof.
  unfold proc_exec. destruct (p_end p) eqn:He; [done|]. intros H Hm Hcalm.
  destruct m as [|keys| | |m|s|r e|e]; [done|..].
  - destruct (decide _) as [_|]; [|done]. unfold server_step in H.
    destruct (p_relay p) as [| | |[|k ks] err|]; try done.
    + destruct (Server_Start (lf_srv (p_life p))) as [s|e|x] eqn:Hs; injection H as <-; cbn; rewrite ?He; try done.
      apply start_relays_frame in Hs as (Hc & _). done.
    + destruct (p_ctx p); [|done]. injection H as <-. cbn. by rewrite He.
    + destruct err; injection H as <-; cbn; by rewrite ?He.
    + destruct (relayM (lf_srv (p_life p)) !! k) as [r|]; [|injection H as <-; cbn; by rewrite He].
      destruct (close_relay r (p_life p)) as [l|e|x] eqn:Hcl; [|done|by injection H as <-].
      injection H as <-. cbn. rewrite He. apply close_relay_frame in Hcl as (Hc & _). done.
  - unfold server_err in H. destruct (p_relay p), (p_errs p); try done. by injection H as <-.
  - destruct (_ && _); [|done]. injection H as <-. cbn. by rewrite He.
  - destruct (may_call m p); [|done]. destruct (exec clash m (p_life p)) as [l|] eqn:Hx; [|done]. injection H as <-.
    destruct (progress_frame (p_life p) l) as [Hc _]; [by exists m|].
    destruct (absorb_same l p) as (-> & _ & -> & _). unfold p_cfg, absorb. rewrite <- Hc.
    destruct (lf_end l) as [[e|x]|]; cbn; by rewrite ?He.
  - destruct s; [destruct (p_notify p)|destruct (p_notify p)|destruct (p_hup p)]; injection H as <-; cbn; by rewrite ?He.
  - destruct (existsb _ _); [|done]. injection H as <-. cbn. by rewrite He.
  - destruct (p_web p) eqn:Hw; [|done]. by injection H as <-.
Qed.

Lemma calm_step_inv cfg p p' : calm_inv cfg p → calm_step p p' → calm_inv cfg p'.
Proof.
  intros Hi (m & Hm & H). assert (m = PMain ∨ m ≠ PMain) as [->|Hne] by (destruct m; auto).
  - unfold proc_exec in H. destruct (p_end p) eqn:He; [done|]. by eapply main_step_calm.
  - destruct (other_step_same m p p' H Hne Hm) as (Hpc & Hw & Hc & Hend). destruct Hi as (Hcfg & Hat & _).
    unfold calm_inv, main_at. rewrite Hpc, Hw, Hc. split_and!; [done..|].
    destruct (p_end p') as [[|x|[] e|x|s]|]; done.
Qed.

(** ** Ending with nothing under way *)

(** Everything is as a signal finds it in a running process: no relay or reload is on its
    way, and each open listener belongs to a relay that [Stop] visits. *)
Record quiet (p : proc) : Prop := {
  qt_main : p_main p = MWait ∨ p_main p = MStopNotify ∨ p_main p = MReturn;
  qt_end : p_end p = None ∨ p_end p = Some Returned;
  qt_errs : p_errs p = [];
  qt_pending : pending (lf_srv (p_life p)) = [];
  qt_starting : lf_starting (p_life p) = [];
  qt_threads : lf_threads (p_life p) = [];
  qt_stored : ∀ r, r ∈ lf_bound (p_life p) → relayM (lf_srv (p_life p)) !! Relay_UniqueID r = Some r;
  qt_relay :
    match p_relay p with
    | RSelect => True
    | RStopping keys err => err = None ∧ ∀ r, r ∈ lf_bound (p_life p) → Relay_UniqueID r ∈ keys
    | RDone => lf_bound (p_life p) = []
    | _ => False
    end }.

Lemma quiet_own p p' : (∀ r, stop_err r = None) → quiet p → own_step p p' → quiet p'.
Proof.
  intros Hstop Hq (m & Hm & H). unfold proc_exec in H. destruct (p_end p) eqn:He; [done|].
  destruct Hq as [Hmain _ Herrs Hpend Hstart Hth Hst Hrel].
  destruct m as [|keys| | |m| | |]; try discriminate Hm.
  - unfold main_step in H. destruct Hmain as [Hpc|[Hpc|Hpc]]; rewrite Hpc in H.
    + destruct (p_ctx p); [|done]. injection H as <-. split; try done; cbn; auto.
    + injection H as <-. split; try done; cbn; auto.
    + injection H as <-. split; try done; cbn; auto.
  - destruct (decide (range_keys keys p)) as [Hk|]; [|done]. unfold server_step in H.
    destruct (p_relay p) as [| | |ks err|]; try done.
    + destruct (p_ctx p); [|done]. injection H as <-. split; try done; cbn; auto. split; [done|].
      intros r Hr. unfold range_keys in Hk. rewrite Hk. apply list_elem_of_fmap. exists (Relay_UniqueID r, r).
      split; [done|]. apply elem_of_map_to_list. by apply Hst.
    + destruct Hrel as [-> Hin]. destruct ks as [|k ks].
      * injection H as <-. split; try done; cbn; auto. destruct (lf_bound (p_life p)) as [|r b]; [done|].
        specialize (Hin r ltac:(by left)). by apply elem_of_nil in Hin.
      * destruct (relayM (lf_srv (p_life p)) !! k) as [r|] eqn:Hlk.
        -- destruct (close_relay r (p_life p)) as [l|e|x] eqn:Hcl; [|done|].
           ++ injection H as <-. rewrite Hstop. apply close_relay_frame in Hcl as (_ & HM & _ & Hb & Hp & Hs & Ht & _).
              split; try done; cbn; rewrite ?Hp, ?Hs, ?Ht, ?HM, ?Hb; auto.
              ** intros r' [_ Hr']%list_elem_of_filter. by apply Hst.
              ** split; [done|]. intros r' [Hne Hr']%list_elem_of_filter.
                 destruct (proj1 (elem_of_cons _ _ _) (Hin r' Hr')) as [Hk'|?]; [|done].
                 specialize (Hst r' Hr'). rewrite Hk', Hlk in Hst. congruence.
           ++ unfold close_relay, stop_relay in Hcl. rewrite Hstart in Hcl. done.
        -- injection H as <-. split; try done; cbn; auto. split; [done|]. intros r Hr.
           destruct (proj1 (elem_of_cons _ _ _) (Hin r Hr)) as [Hk'|?]; [|done]. specialize (Hst r Hr). congruence.
  - unfold server_err in H. rewrite Herrs in H. by destruct (p_relay p).
  - destruct (_ && _); [|done]. injection H as <-. split; try done; cbn; auto.
  - exfalso. destruct (may_call m p); [|done]. destruct (exec clash m (p_life p)) as [l|] eqn:Hx; [|done].
    unfold exec in Hx. destruct (lf_end (p_life p)); [done|]. destruct m as [i|i|i|]; try discriminate Hm.
    + unfold store_relay in Hx. by rewrite Hpend in Hx.
    + unfold bind_relay in Hx. by rewrite Hstart in Hx.
    + unfold run_thread in Hx. by rewrite Hth in Hx.
Qed.

Lemma quiet_rtc p p' : (∀ r, stop_err r = None) → quiet p → rtc own_step p p' → quiet p'.
Proof. intros Hs Hq Hr. induction Hr as [|p p1 p2 H1 _ IH]; [done|]. apply IH. by eapply quiet_own. Qed.

End Process.

(** ** Theorems *)

(** How the process ends, whatever the scheduling, the signals, the reloads and the failures
    from outside.  Status 0 means that the context was cancelled by a signal, or that the main
    goroutine panicked while it started the components.  Status 1 names what failed: a
    component that main was starting, the dashboard's listener, or the relay server, and then
    a constructor, an error of a relay that is not just its closed listener, or (only after
    a signal) an error of [Stop].  Status 2 is a panic of a reload, of a constructor or (only
    after a signal) of [Stop].  SIGINT and SIGTERM kill only before the handler is
    installed and while main returns; SIGHUP kills as long as no goroutine listens for it. *)
Theorem process_end_explained (clash : string → string → bool) (open_err metrics_err : option error)
    (xray_setup xray_start : outcome unit) (stop_err : Relay → option error) (cfg : AppConfig) (p : proc)
    (Hr : reachable (λ p, p = proc_start cfg)
            (proc_step clash open_err metrics_err xray_setup xray_start stop_err) p) (e : process_end)
    (He : p_end p = Some e) :
  match e with
  | Returned => p_ctx p = true
  | Recovered x =>
      (∃ c, NewServer c open_err = Panic x) ∨ (∃ c, web_NewServer c metrics_err = Panic x) ∨
      xray_setup = Panic x ∨ xray_start = Panic x
  | Fatalf GMain err =>
      (∃ c, NewServer c open_err = Err err) ∨
      (∃ c, AppConfig_NeedStartWebServer c = true ∧ web_NewServer c metrics_err = Err err) ∨
      xray_setup = Err err ∨ xray_start = Err err
  | Fatalf GRelay err =>
      (∃ s, Server_Start s = Err err) ∨ (∃ le, startOneRelay_error (Some le) = Some err) ∨
      p_ctx p = true ∧ ∃ s order, Server_Stop s order stop_err = Some err
  | Fatalf GWeb _ => is_Some (p_web p)
  | Dies x =>
      (∃ s, Server_Start s = Panic x) ∨ (∃ r l, p_ctx p = true ∧ close_relay r l = Panic x) ∨
      (∃ l l', lf_end l = None ∧ life_step clash l l' ∧ lf_end l' = Some (Crashed x))
  | KilledBy SIGHUP => p_hup p = false
  | KilledBy _ => p_main p = MNotify ∨ p_main p = MReturn
  end.
Proof. exact (pi_end _ _ _ _ _ _ _ (proc_reachable_inv _ _ _ _ _ _ cfg p Hr) e He). Qed.

(** [C5] After SIGINT or SIGTERM the process ends: from any reachable state with a cancelled
    context, however its goroutines interleave, they take at most [proc_weight] more steps, and
    when none of them can take another, the process has ended. *)
Theorem shutdown_terminates (clash : string → string → bool) (open_err metrics_err : option error)
    (xray_setup xray_start : outcome unit) (stop_err : Relay → option error) (cfg : AppConfig) (p : proc)
    (Hr : reachable (λ p, p = proc_start cfg)
            (proc_step clash open_err metrics_err xray_setup xray_start stop_err) p)
    (Hctx : p_ctx p = true) :
  let own := own_step clash open_err metrics_err xray_setup xray_start stop_err in
  (∀ k p', nsteps own k p p' → (k ≤ proc_weight p)%nat) ∧
  (∀ p', rtc own p p' → nf own p' → is_Some (p_end p')).
Proof.
  intros own. pose proof (proc_reachable_inv _ _ _ _ _ _ cfg p Hr) as Hi. split.
  - intros k p'. apply own_bounded, Hi.
  - intros p' Hrtc Hnf. assert (p_ctx p' = true) as Hc.
    { clear Hnf Hi Hr. induction Hrtc as [|p p1 p2 H1 _ IH]; [done|]. apply IH. by eapply own_step_ctx. }
    destruct (p_end p') eqn:He; [by eexists|]. exfalso.
    destruct (own_stuck _ _ _ _ _ _ p' Hnf He) as [_ Hno]. congruence.
Qed.


(** A running process: main waits, the relay server is in its [select], nothing is under
    way, and the open listeners are those of the relays it knows. *)
Definition running_process (p : proc) : Prop :=
  p_main p = MWait ∧ p_relay p = RSelect ∧ p_errs p = [] ∧ p_end p = None ∧ idle (p_life p).

Lemma running_quiet p : running_process p → p_ctx p = true → quiet p.
Proof.
  intros (Hm & Hrel & Herrs & He & [Hcon Hst Hth Hle Hb Hlab Hids Hstop Hfr]) _. split; auto.
  - apply Hcon.
  - intros r. apply Hb.
  - by rewrite Hrel.
Qed.

Lemma ended_stuck clash open_err metrics_err xray_setup xray_start stop_err p e :
  p_end p = Some e → nf (own_step clash open_err metrics_err xray_setup xray_start stop_err) p.
Proof. intros He (p' & m & _ & H). unfold proc_exec in H. by rewrite He in H. Qed.

(** Main alone brings a process whose context is cancelled to its end. *)
Lemma main_returns clash open_err metrics_err xray_setup xray_start stop_err p :
  p_main p = MWait → p_ctx p = true → p_end p = None →
  ∃ p', rtc (own_step clash open_err metrics_err xray_setup xray_start stop_err) p p' ∧
    p_end p' = Some Returned ∧ p_life p' = p_life p.
Proof.
  intros Hm Hc He. destruct p as [pc rp web nt ctx wt hup errs l en]. cbn in *. subst pc ctx en.
  exists (mkProc MReturn rp web false true wt hup errs l (Some Returned)). split; [|done].
  eapply rtc_l; [by exists PMain|]. eapply rtc_l; [by exists PMain|]. eapply rtc_l; [by exists PMain|]. apply rtc_refl.
Qed.

(** So can the relay server, to the end of [Stop]. *)
Lemma server_stops clash open_err metrics_err xray_setup xray_start stop_err ks p :
  (∀ r, stop_err r = None) → quiet p → p_relay p = RStopping ks None → p_end p = None →
  ∃ p', rtc (own_step clash open_err metrics_err xray_setup xray_start stop_err) p p' ∧
    p_relay p' = RDone ∧ p_end p' = None ∧ p_main p' = p_main p ∧ p_ctx p' = p_ctx p.
Proof.
  intros Hstop. set (own := own_step clash open_err metrics_err xray_setup xray_start stop_err).
  assert (Hstep : ∀ q q', p_end q = None →
    server_step stop_err (map_to_list (relayM (lf_srv (p_life q)))).*1 q = Some q' → own q q').
  { intros q q' He H. exists (PServer (map_to_list (relayM (lf_srv (p_life q)))).*1). split; [done|].
    unfold proc_exec. rewrite He, decide_True; [exact H|]. unfold range_keys. done. }
  revert p. induction ks as [|k ks IH]; intros p Hq Hp He.
  - exists (set_relay RDone p). split; [|done]. apply rtc_once, Hstep; [done|]. unfold server_step. by rewrite Hp.
  - assert (∃ q, own p q ∧ p_relay q = RStopping ks None ∧ p_end q = None ∧ p_main q = p_main p ∧ p_ctx q = p_ctx p)
      as (q & Hpq & Hrq & Heq & Hmq & Hcq).
    { destruct (relayM (lf_srv (p_life p)) !! k) as [r|] eqn:Hlk.
      - destruct (close_relay r (p_life p)) as [l|e|x] eqn:Hcl.
        2,3: exfalso; unfold close_relay, stop_relay in Hcl; by rewrite (qt_starting _ Hq) in Hcl.
        exists (set_relay (RStopping ks None) (set_life l p)). split; [|by cbn].
        apply Hstep; [done|]. unfold server_step. by rewrite Hp, Hlk, Hcl, Hstop.
      - exists (set_relay (RStopping ks None) p). split; [|by cbn]. apply Hstep; [done|]. unfold server_step.
        by rewrite Hp, Hlk. }
    destruct (IH q) as (p' & Hr & H1 & H2 & H3 & H4); [by eapply quiet_own|done..|].
    exists p'. split; [by eapply rtc_l|]. by rewrite H3, H4.
Qed.

(** [C4] A signal ends a running process properly, if no listener fails to close: whatever the
    scheduling, it ends with status 0, and the relay server, if it gets to the end of
    [Stop], has closed every listener.  But main does not wait for it: it can be the
    first, and then the process is gone with every relay still open. *)
Theorem orderly_shutdown (clash : string → string → bool) (open_err metrics_err : option error)
    (xray_setup xray_start : outcome unit) (stop_err : Relay → option error) (p : proc)
    (Hrun : running_process p) (Hctx : p_ctx p = true) (Hclose : ∀ r, stop_err r = None) :
  let own := own_step clash open_err metrics_err xray_setup xray_start stop_err in
  (∀ p', rtc own p p' →
     (p_end p' = None ∨ p_end p' = Some Returned) ∧ (p_relay p' = RDone → lf_bound (p_life p') = [])) ∧
  (∃ p', rtc own p p' ∧ p_end p' = Some Returned ∧ lf_bound (p_life p') = []) ∧
  (∃ p', rtc own p p' ∧ p_end p' = Some Returned ∧ lf_bound (p_life p') = lf_bound (p_life p)).
Proof.
  intros own. pose proof (running_quiet p Hrun Hctx) as Hq. destruct Hrun as (Hm & Hrel & _ & He & _).
  assert (Hall : ∀ p', rtc own p p' →
     (p_end p' = None ∨ p_end p' = Some Returned) ∧ (p_relay p' = RDone → lf_bound (p_life p') = [])).
  { intros p' Hr. destruct (quiet_rtc _ _ _ _ _ _ p p' Hclose Hq Hr) as [_ Hend _ _ _ _ _ Hdone]. split; [done|].
    intros H. by rewrite H in Hdone. }
  split_and!; [exact Hall| |].
  - set (keys := (map_to_list (relayM (lf_srv (p_life p)))).*1). set (q := set_relay (RStopping keys None) p).
    assert (own p q) as Hpq.
    { exists (PServer keys). split; [done|]. unfold proc_exec. rewrite He, decide_True by (unfold range_keys; done).
      unfold server_step. by rewrite Hrel, Hctx. }
    destruct (server_stops clash open_err metrics_err xray_setup xray_start stop_err keys q Hclose)
      as (p1 & Hr1 & Hd1 & He1 & Hm1 & Hc1); [by eapply quiet_own|done..|].
    destruct (main_returns clash open_err metrics_err xray_setup xray_start stop_err p1) as (p2 & Hr2 & He2 & Hl2);
      [by rewrite Hm1|by rewrite Hc1|done|].
    exists p2. split; [eapply rtc_l; [exact Hpq|]; by etransitivity|]. split; [done|]. rewrite Hl2.
    apply (proj2 (Hall p1 ltac:(eapply rtc_l; [exact Hpq|exact Hr1]))). done.
  - destruct (main_returns clash open_err metrics_err xray_setup xray_start stop_err p Hm Hctx He) as (p' & Hr & Hend & Hl).
    exists p'. by rewrite Hl.
Qed.

(** ** Concrete runs *)

Lemma proc_run_rtc clash open_err metrics_err xray_setup xray_start stop_err (ok : pmove → Prop) ms p p' :
  Forall ok ms → proc_run clash open_err metrics_err xray_setup xray_start stop_err ms p = Some p' →
  rtc (λ p p', ∃ m, ok m ∧ proc_exec clash open_err metrics_err xray_setup xray_start stop_err m p = Some p') p p'.
Proof.
  intros Hms. revert p. induction Hms as [|m ms Hm _ IH]; intros p; cbn; [by intros [= ->]|].
  destruct (proc_exec _ _ _ _ _ _ m p) as [p1|] eqn:E; [|done]. intros H. eapply rtc_l; [by exists m|by apply IH].
Qed.

Lemma proc_run_own clash open_err metrics_err xray_setup xray_start stop_err ms p p' :
  Forall (λ m, own_move m = true) ms →
  proc_run clash open_err metrics_err xray_setup xray_start stop_err ms p = Some p' →
  rtc (own_step clash open_err metrics_err xray_setup xray_start stop_err) p p'.
Proof. apply proc_run_rtc. Qed.

Definition calm_move (m : pmove) : Prop := match m with PLife m => is_call m = false | _ => True end.

Lemma proc_run_calm clash open_err metrics_err xray_setup xray_start stop_err ms cfg p :
  Forall calm_move ms →
  proc_run clash open_err metrics_err xray_setup xray_start stop_err ms (proc_start cfg) = Some p →
  reachable (λ p, p = proc_start cfg) (calm_step clash open_err metrics_err xray_setup xray_start stop_err) p.
Proof. intros Hms H. eapply reachable_rtc; [by apply reach_init|]. by eapply proc_run_rtc. Qed.

Lemma proc_run_reachable clash open_err metrics_err xray_setup xray_start stop_err ms cfg p :
  proc_run clash open_err metrics_err xray_setup xray_start stop_err ms (proc_start cfg) = Some p →
  reachable (λ p, p = proc_start cfg) (proc_step clash open_err metrics_err xray_setup xray_start stop_err) p.
Proof.
  intros H. eapply reachable_rtc; [by apply reach_init|].
  eapply (proc_run_rtc _ _ _ _ _ _ (λ _, True)) in H; [|by apply Forall_true].
  eapply rtc_subrel; [|exact H]. by intros p1 p2 (m & _ & Hm); exists m.
Qed.

(** [ehco -l :1 -r 127.0.0.1:9] *)
Definition relay_flags : cli_flags :=
  mkFlags "" 0 "" "" true "info" 0 ":1" "raw" "raw" "127.0.0.1:9".
Definition relay_cfg : AppConfig := fst (AppConfig_Adjust None (flags_config relay_flags)).

(** Main up to its wait, and the relay server up to its [select]; then the relay stores and
    binds. *)
Definition boot_moves : list pmove := [PMain; PMain; PMain; PMain; PMain; PMain; PServer []].
Definition bind_moves : list pmove := [PLife (MStore 0); PLife (MBind 0)].
Definition main_exit : list pmove := [PMain; PMain; PMain].
Definition label_1 : string := "<At=:1 To=[127.0.0.1:9] By=raw>".

Definition run_with (stop_err : Relay → option error) : list pmove → proc → option proc :=
  proc_run eq_clash None None (Ret tt) (Ret tt) stop_err.

Definition close_error : error := Errorf "close tcp [::]:1: input/output error".

(** What a signal does depends on when it comes and who is scheduled.  SIGTERM while the only
    relay has been stored but has not bound yet: if main is first the process ends with
    status 0, if [Stop] is first it dies of the relay's nil listener.  SIGTERM to a running
    process whose listener reports an error on closing: status 0 or 1.  SIGHUP, which is to reload the
    relays, kills a process that was started without a reload interval. *)
Theorem shutdown_depends_on_schedule :
  (∃ p, run_with (λ _, None) (boot_moves ++ [PLife (MStore 0); PSignal SIGTERM]) (proc_start relay_cfg) = Some p ∧
     (∃ p', rtc (own_step eq_clash None None (Ret tt) (Ret tt) (λ _, None)) p p' ∧ p_end p' = Some Returned) ∧
     (∃ p', rtc (own_step eq_clash None None (Ret tt) (Ret tt) (λ _, None)) p p' ∧ p_end p' = Some (Dies NilDereference))) ∧
  (∃ p, run_with (λ _, Some close_error) (boot_moves ++ bind_moves ++ [PSignal SIGTERM]) (proc_start relay_cfg) = Some p ∧
     (∃ p', rtc (own_step eq_clash None None (Ret tt) (Ret tt) (λ _, Some close_error)) p p' ∧
        exit_status <$> p_end p' = Some (Some 0)) ∧
     (∃ p', rtc (own_step eq_clash None None (Ret tt) (Ret tt) (λ _, Some close_error)) p p' ∧
        exit_status <$> p_end p' = Some (Some 1))) ∧
  (∃ p, run_with (λ _, None) (boot_moves ++ bind_moves ++ [PSignal SIGHUP]) (proc_start relay_cfg) = Some p ∧
     p_end p = Some (KilledBy SIGHUP)).
Proof.
  split_and!; eexists; (split; [vm_compute; reflexivity|]).
  - split; eexists; split;
      [eapply (proc_run_own _ _ _ _ _ _ main_exit); [by repeat constructor|vm_compute; reflexivity]|by vm_compute
      |eapply (proc_run_own _ _ _ _ _ _ [PServer [label_1]; PServer [label_1]]);
         [by repeat constructor|vm_compute; reflexivity]|by vm_compute].
  - split; eexists; split;
      [eapply (proc_run_own _ _ _ _ _ _ main_exit); [by repeat constructor|vm_compute; reflexivity]|by vm_compute
      |eapply (proc_run_own _ _ _ _ _ _ [PServer [label_1]; PServer [label_1]; PServer [label_1]]);
         [by repeat constructor|vm_compute; reflexivity]|by vm_compute].
  - by vm_compute.
Qed.

(** The process after a SIGTERM, and at its end. *)
Definition signalled : proc :=
  default (proc_start relay_cfg) (run_with (λ _, None) (boot_moves ++ bind_moves ++ [PSignal SIGTERM]) (proc_start relay_cfg)).
Definition gone : proc := default signalled (run_with (λ _, None) main_exit signalled).

Lemma signalled_reachable :
  reachable (λ p, p = proc_start relay_cfg)
    (proc_step eq_clash None None (Ret tt) (Ret tt) (λ _, None)) signalled.
Proof.
  eapply (proc_run_reachable _ _ _ _ _ _ (boot_moves ++ bind_moves ++ [PSignal SIGTERM])). vm_compute. reflexivity.
Qed.

Lemma gone_reachable :
  reachable (λ p, p = proc_start relay_cfg)
    (proc_step eq_clash None None (Ret tt) (Ret tt) (λ _, None)) gone.
Proof.
  eapply (proc_run_reachable _ _ _ _ _ _ ((boot_moves ++ bind_moves ++ [PSignal SIGTERM]) ++ main_exit)).
  vm_compute. reflexivity.
Qed.

Lemma process_end_explained_witness : p_end gone = Some Returned ∧ p_ctx gone = true.
Proof.
  split; [by vm_compute|].
  exact (process_end_explained eq_clash None None (Ret tt) (Ret tt) (λ _, None) relay_cfg gone gone_reachable Returned
    ltac:(vm_compute; reflexivity)).
Defined.

Lemma gone_stuck : nf (own_step eq_clash None None (Ret tt) (Ret tt) (λ _, None)) gone.
Proof. apply (ended_stuck _ _ _ _ _ _ gone Returned). vm_compute. reflexivity. Qed.

Lemma signalled_gone : rtc (own_step eq_clash None None (Ret tt) (Ret tt) (λ _, None)) signalled gone.
Proof. apply (proc_run_own _ _ _ _ _ _ main_exit); [by repeat constructor|vm_compute; reflexivity]. Qed.

Lemma shutdown_terminates_witness : is_Some (p_end gone).
Proof.
  exact (proj2 (shutdown_terminates eq_clash None None (Ret tt) (Ret tt) (λ _, None) relay_cfg signalled
    signalled_reachable ltac:(vm_compute; reflexivity)) gone signalled_gone gone_stuck).
Defined.

Definition waiting : proc := default signalled (run_with (λ _, None) boot_moves (proc_start relay_cfg)).

Lemma waiting_reachable :
  reachable (λ p, p = proc_start relay_cfg) (calm_step eq_clash None None (Ret tt) (Ret tt) (λ _, None)) waiting.
Proof. eapply (proc_run_calm _ _ _ _ _ _ boot_moves); [by repeat constructor|]. vm_compute. reflexivity. Qed.


(** [serving] of [Lifecycle] as the relays of a process that has been sent SIGTERM. *)
Definition serving_process : proc := mkProc MWait RSelect None true true true true [] serving None.

Lemma orderly_shutdown_witness :
  ∃ p', rtc (own_step eq_clash None None (Ret tt) (Ret tt) (λ _, None)) serving_process p' ∧
    p_end p' = Some Returned ∧ addr <$> lf_bound (p_life p') = [":1"; ":2"].
Proof.
  destruct (orderly_shutdown eq_clash None None (Ret tt) (Ret tt) (λ _, None) serving_process
    ltac:(split_and!; [reflexivity..|exact serving_idle]) eq_refl (λ _, eq_refl)) as (_ & _ & p' & H1 & H2 & H3).
  exists p'. split; [exact H1|]. split; [exact H2|]. rewrite H3. vm_compute. reflexivity.
Defined.
