(* ===== verification/Tunnel.v ===== *)
(** * Two relays in a row (internal/conn, internal/transporter)

    The usual deployment is a chain: a client talks to a relay A that transports over
    WebSocket to a relay B, which talks to the target.  What reaches the target is then the
    work of two copy loops with the frames between them: each write of A's loop is one
    frame, and each read of B's loop is one frame.  Here the two loops of [RelayConn] are put
    together over the byte stream of [WsStream]; the same holds for the answers on their way
    back, with the roles of A and B exchanged. *)

From S2P Require Import Prelude GoStd Lb Conf Buffer Net RelayConn Cmgr Transporter Accounting CopyPar WsStream.

(** ** What a copy loop writes *)

(** The data one round wrote, as far as the destination took it. *)
Definition written (d d' : direction) : list bytes :=
  let out := drop (length (d_delivered d)) (d_delivered d') in
  if decide (out = []) then [] else [out].

(** The successive writes of a loop: over a [wsConn], its frames. *)
Fixpoint writes_of (fuel : nat) (I : Z) (d : direction) (m : meter) : list bytes :=
  match fuel with
  | O => []
  | S fuel =>
      match copy_round I d m with
      | None => []
      | Some (inl d', m') => written d d' ++ writes_of fuel I d' m'
      | Some (inr (_, d'), _) => written d d'
      end
  end.

(** Every read brings at most the [n] bytes of the loop's buffer. *)
Definition reads_within (n : Z) (d : direction) : Prop :=
  Forall (λ e, Z.of_nat (length (rd_data e)) ≤ n) (d_reads d).

(** B's loop over the frames that A wrote with the mask keys [keys]; the target takes what
    it gets. *)
Definition next_hop `{WsLib} (isServer : bool) (keys : list Z) (frames : list bytes) (buf : slice) (lenb : Z)
    (ts : list Z) (t_eof last : Z) : direction :=
  {| d_reads := ws_reads buf lenb (ts ++ [t_eof]) (arrive (wire isServer (zip keys frames)) ++ [inr io_EOF]);
     d_writes := clean_writes (zip frames ts); d_lastActive := last; d_delivered := [] |}.

(** ** Lemmas *)

Lemma innerConn_Read_within n I script last data er last' rest :
  0 ≤ n → Forall (λ e, Z.of_nat (length (rd_data e)) ≤ n) script →
  innerConn_Read I script last = Some ((data, er), last', rest) →
  Z.of_nat (length data) ≤ n ∧ Forall (λ e, Z.of_nat (length (rd_data e)) ≤ n) rest.
Proof.
  intros Hn Hs. revert last. induction Hs as [|e script He Hs IH]; intros last; simpl; [done|].
  destruct (rd_deadline_err e); [intros [= <- <- <- <-]; simpl; split; [lia|done]|].
  destruct (rd_err e) as [err|]; [|by intros [= <- <- <- <-]].
  case_match; [case_decide|]; try (intros [= <- <- <- <-]; simpl; split; [lia|done]). apply IH.
Qed.

Definition round_result (r : direction + option error * direction) : direction :=
  match r with inl d => d | inr (_, d) => d end.

(** A round appends what it wrote, a piece of one read. *)
Lemma copy_round_written n I d m r m' :
  0 ≤ n → reads_within n d → copy_round I d m = Some (r, m') →
  d_delivered (round_result r) = d_delivered d ++ concat (written d (round_result r)) ∧
  Forall (λ b, Z.of_nat (length b) ≤ n) (written d (round_result r)) ∧ reads_within n (round_result r).
Proof.
  intros Hn Hd H. unfold copy_round in H.
  destruct (innerConn_Read I (d_reads d) (d_lastActive d)) as [[[[data er] last] rest]|] eqn:Hr; [|done].
  apply (innerConn_Read_within n) in Hr as [Hdata Hrest]; [|done..]. cbv zeta in H.
  assert (Hout : ∀ d' k, d_reads d' = rest → d_delivered d' = d_delivered d ++ take k data →
    d_delivered d' = d_delivered d ++ concat (written d d') ∧
    Forall (λ b, Z.of_nat (length b) ≤ n) (written d d') ∧ reads_within n d').
  { intros d' k Hrd Hdl. unfold written, reads_within. rewrite Hrd, Hdl, drop_app_length. split_and!; [| |done].
    - destruct (decide (take k data = [])) as [->|]; simpl; by rewrite ?app_nil_r.
    - destruct (decide (take k data = [])); [constructor|]. constructor; [|constructor]. rewrite length_take. lia. }
  cbn [d_writes d_reads d_delivered d_lastActive] in H.
  assert (Hend : ∀ d' x k, Some (x, m') = Some (r, m') → round_result x = d' → d_reads d' = rest →
    d_delivered d' = d_delivered d ++ take k data →
    d_delivered (round_result r) = d_delivered d ++ concat (written d (round_result r)) ∧
    Forall (λ b, Z.of_nat (length b) ≤ n) (written d (round_result r)) ∧ reads_within n (round_result r)).
  { intros d' x k [= <-] -> Hrd Hdl. by apply (Hout d' k). }
  case_decide as Hnil.
  - destruct er; injection H as <- <-; eapply (Hend _ _ 0%nat); try reflexivity; by rewrite take_0, app_nil_r.
  - destruct (d_writes d) as [|w ws]; [done|]. destruct (innerConn_Write w _) as [[nw ew] m1].
    case_decide; [injection H as <- <-; by eapply Hend|].
    destruct ew; [injection H as <- <-; by eapply Hend|]. case_decide; [injection H as <- <-; by eapply Hend|].
    destruct er; injection H as <- <-; by eapply Hend.
Qed.

Lemma CopyBuffer_writes n fuel I d m err d' m' :
  0 ≤ n → reads_within n d → CopyBuffer fuel I d m = Some (err, d', m') →
  d_delivered d' = d_delivered d ++ concat (writes_of fuel I d m) ∧
  Forall (λ b, Z.of_nat (length b) ≤ n) (writes_of fuel I d m).
Proof.
  intros Hn. revert d m. induction fuel as [|fuel IH]; intros d m Hd; [done|].
  rewrite CopyBuffer_round. cbn [writes_of].
  destruct (copy_round I d m) as [[r m1]|] eqn:Hr; [|done]. cbn [mbind option_bind].
  destruct (copy_round_written n I d m r m1 Hn Hd Hr) as (Hdel & Hlen & Hd1).
  destruct r as [d1|[e d1]]; cbn [round_result] in *.
  - intros H. destruct (IH d1 m1 Hd1 H) as [IH1 IH2].
    rewrite concat_app, IH1, Hdel, <- List.app_assoc. split; [done|]. by apply Forall_app.
  - intros [= <- <- <-]. done.
Qed.

(** Over a clean run the writes are the chunks that are not empty. *)
Lemma writes_of_clean chunks rest I ws last pre m fuel :
  ∃ last' m',
    writes_of (length chunks + fuel) I
      {| d_reads := ((λ c, mkRead None (fst c) None (snd c) None) <$> chunks) ++ rest;
         d_writes := clean_writes chunks ++ ws; d_lastActive := last; d_delivered := pre |} m =
    filter (λ b, b ≠ []) (fst <$> chunks) ++
    writes_of fuel I {| d_reads := rest; d_writes := ws; d_lastActive := last';
                        d_delivered := pre ++ concat (fst <$> chunks) |} m'.
Proof.
  revert last pre m. induction chunks as [|[data t] chunks IH]; intros last pre m.
  { exists last, m. simpl. by rewrite app_nil_r. }
  cbn [length Nat.add writes_of fmap list_fmap app fst snd clean_writes concat]. unfold copy_round.
  cbn [innerConn_Read d_reads rd_deadline_err rd_err rd_data rd_now d_lastActive d_writes d_delivered]. cbv zeta.
  destruct (decide (data = [])) as [->|Hne].
  - rewrite filter_cons_False by naive_solver. unfold written. cbn [d_delivered]. rewrite drop_all. cbn [decide app].
    rewrite decide_True by done. apply IH.
  - rewrite filter_cons_True by done. cbn [app innerConn_Write wr_n wr_err]. rewrite decide_False by lia. cbn beta iota.
    rewrite decide_False by naive_solver. rewrite take_ge by lia. unfold written. cbn [d_delivered].
    rewrite drop_app_length, decide_False by done.
    destruct (IH t (pre ++ data) (innerConn_recordStats (Z.of_nat (length data)) false
      (innerConn_recordStats (Z.of_nat (length data)) true m))) as (l & m' & ->).
    exists l, m'. by rewrite <- List.app_assoc.
Qed.

Lemma writes_of_EOF I t ws last pre m :
  writes_of 1 I {| d_reads := [mkRead None [] (Some io_EOF) t None]; d_writes := ws; d_lastActive := last;
                   d_delivered := pre |} m = [].
Proof.
  cbn [writes_of]. unfold copy_round. cbn. rewrite decide_True by done. unfold written. cbn [d_delivered].
  by rewrite drop_all.
Qed.

Lemma frames_fit keys (frames : list bytes) n buf lenb :
  Forall (λ k, 0 ≤ k < 2 ^ 32) keys → Forall (λ b, Z.of_nat (length b) ≤ n) frames →
  n < 2 ^ 63 → n ≤ slice_cap buf → n ≤ lenb →
  Forall (λ f, 0 ≤ fst f < 2 ^ 32 ∧ Z.of_nat (length (snd f)) < 2 ^ 63 ∧ ws_fits buf lenb (snd f)) (zip keys frames).
Proof.
  intros Hk Hf Hn Hb Hl. pose proof (proj1 (Forall_forall _ _) Hk) as Hk'. pose proof (proj1 (Forall_forall _ _) Hf) as Hf'.
  apply Forall_forall. intros [k b] Hin.
  pose proof (elem_of_zip_l _ _ _ _ Hin) as H1. pose proof (elem_of_zip_r _ _ _ _ Hin) as H2.
  specialize (Hk' k H1). specialize (Hf' b H2).
  cbn beta in Hk', Hf'. unfold ws_fits. cbn [fst snd]. split; [done|]. lia.
Qed.

Lemma total_bytes_zip (frames : list bytes) ts :
  length ts = length frames → total_bytes (zip frames ts) = Z.of_nat (length (concat frames)).
Proof.
  unfold total_bytes. revert ts. induction frames as [|b frames IH]; intros [|t ts] Hl; try done.
  cbn [zip_with fmap list_fmap sum_Z fst concat]. rewrite length_app, Nat2Z.inj_add, <- (IH ts); [done|]. simpl in Hl. lia.
Qed.

Lemma concat_nonempty (l : list bytes) : concat (filter (λ b, b ≠ []) l) = concat l.
Proof.
  induction l as [|b l IH]; [done|]. rewrite filter_cons. case_decide as Hb; cbn [concat].
  - f_equal. exact IH.
  - rewrite Hb. exact IH.
Qed.

(** The frames of a client's chunks. *)
Definition sent (chunks : list (bytes * Z)) : list bytes := filter (λ b, b ≠ []) (fst <$> chunks).

Lemma hop_clean {L : WsLib} {LL : WsLibLaws L} n fuel I isServer keys chunks buf ts t_eof last m :
  Forall (λ k, 0 ≤ k < 2 ^ 32) keys → n < 2 ^ 63 → n ≤ slice_cap buf →
  Forall (λ c, Z.of_nat (length (fst c)) ≤ n) chunks → length keys = length (sent chunks) →
  length ts = length (sent chunks) → (length chunks < fuel)%nat → meter_ok m →
  ∃ d, CopyBuffer fuel I (next_hop isServer keys (sent chunks) buf n ts t_eof last) m =
    Some (None, d, meter_add m (total_bytes chunks)) ∧ d_delivered d = concat (fst <$> chunks).
Proof.
  intros Hk Hn Hb Hc Hlk Hlt Hf Hm.
  assert (length (sent chunks) ≤ length chunks)%nat as Hle.
  { unfold sent. etransitivity; [apply length_filter|]. by rewrite length_fmap. }
  destruct (ws_hop_delivers isServer buf n (zip keys (sent chunks)) ts t_eof I last [] m) as [l Hl].
  - rewrite length_zip_with. lia.
  - apply (frames_fit _ _ n); [done| |lia..]. apply Forall_forall.
    intros b [_ (c & -> & Hin)%list_elem_of_fmap]%list_elem_of_filter. by apply (proj1 (Forall_forall _ _) Hc).
  - done.
  - rewrite length_zip_with, snd_zip, Hlk, Nat.min_id, total_bytes_zip in Hl by lia.
    assert (concat (sent chunks) = concat (fst <$> chunks)) as Hcat by apply concat_nonempty.
    eexists. split.
    + eapply CopyBuffer_fuel; [|instantiate (1 := S (length (sent chunks))); lia]. etransitivity; [exact Hl|].
      do 2 f_equal. rewrite Hcat. f_equal. unfold total_bytes. clear. induction chunks as [|[b t] chunks IH]; [done|].
      cbn. rewrite length_app, Nat2Z.inj_add, IH. done.
    + cbn [d_delivered app]. exact Hcat.
Qed.

(** ** Theorems *)


(** [C35] And it is needed: when the client sends a chunk that fits A's buffer and not B's, A's loop takes
    it and everything behind it without an error, but B's loop ends at that chunk with an error,
    and the target gets what was sent before it and nothing else. *)
Theorem tunnel_needs_buffers {L : WsLib} {LL : WsLibLaws L} (chunks more : list (bytes * Z)) (big : bytes) (tb t_end I lastA : Z)
    (mA : meter) (isServer : bool) (keys keys' : list Z) (k : Z) (ts : list Z) (buf : slice)
    (lenb nB t_big IB lastB : Z) (mB : meter)
    (HmA : meter_ok mA) (HmB : meter_ok mB) (Hcap : slice_cap buf = nB) (Hlenb : lenb = nB)
    (Hfit : Forall (λ c, Z.of_nat (length (fst c)) ≤ nB) chunks)
    (HnB : 0 ≤ nB) (Hbig : nB < Z.of_nat (length big)) (Hmax : Z.of_nat (length big) < 2 ^ 63)
    (Hkeys : length keys = length (sent chunks))
    (Hts : length ts = length keys) (Hrange : Forall (λ k, 0 ≤ k < 2 ^ 32) (k :: keys)) :
  let all := chunks ++ (big, tb) :: more in
  let dA := {| d_reads := clean_reads all t_end; d_writes := clean_writes all; d_lastActive := lastA; d_delivered := [] |} in
  let frames := writes_of (S (length all)) I dA mA in
  (∃ dA' mA', CopyBuffer (S (length all)) I dA mA = Some (None, dA', mA') ∧
     d_delivered dA' = concat (fst <$> chunks) ++ big ++ concat (fst <$> more)) ∧
  (∃ dB mB', CopyBuffer (S (length keys)) IB (next_hop isServer (keys ++ k :: keys') frames buf lenb ts t_big lastB) mB =
     Some (Some (too_small nB (Z.of_nat (length big))), dB, mB') ∧
     d_delivered dB = concat (fst <$> chunks)).
Proof.
  intros all dA frames. apply Forall_cons in Hrange as [Hk Hrange]. split.
  - destruct (CopyBuffer_clean all t_end I [] lastA [] mA HmA) as [l Hl]. rewrite app_nil_r in Hl.
    eexists _, _. split; [exact Hl|]. cbn [d_delivered app]. unfold all. rewrite fmap_app, concat_app. done.
  - set (fs := sent chunks) in *.
    assert (frames = fs ++ big :: filter (λ b, b ≠ []) (fst <$> more)) as ->.
    { unfold frames. destruct (writes_of_clean all [mkRead None [] (Some io_EOF) t_end None] I [] lastA [] mA 1)
        as (l & m' & Hw). rewrite app_nil_r, Nat.add_1_r in Hw. etransitivity; [exact Hw|].
      rewrite writes_of_EOF, app_nil_r. unfold all. rewrite fmap_app, filter_app, fmap_cons, filter_cons_True; [done|].
      cbn. intros ->. cbn in Hbig. lia. }
    set (rest := filter (λ b, b ≠ []) (fst <$> more)).
    destruct (ws_oversized_frame isServer buf lenb (zip keys fs) (zip keys' rest) k big ts [] t_big IB lastB [] mB [inr io_EOF])
      as (dB & HB & Hdel).
    + rewrite length_zip_with. lia.
    + apply (frames_fit _ _ nB); [done| |lia..]. apply Forall_forall.
      intros b [_ (c & -> & Hc)%list_elem_of_fmap]%list_elem_of_filter. by apply (proj1 (Forall_forall _ _) Hfit).
    + done.
    + lia.
    + unfold ws_fits. lia.
    + done.
    + rewrite snd_zip, length_zip_with in HB by lia. rewrite <- Hkeys, Nat.min_id in HB.
      exists dB. eexists. split; [|rewrite Hdel, snd_zip by lia; cbn; apply concat_nonempty].
      unfold next_hop. rewrite zip_with_app by done. cbn [zip_with].
      assert (zip (fs ++ big :: rest) ts = zip fs ts) as ->.
      { rewrite <- (app_nil_r ts) at 1. rewrite zip_with_app by lia. cbn. by rewrite app_nil_r. }
      rewrite Hlenb in HB |- *. exact HB.
Qed.

(** Both relays report the same.  A client and a target that say what they have to say and close:
    each gets exactly what the other sent, both relays end without an error, and their
    statistics for the connection are the same number, although A and B see different
    sockets. *)
Theorem relays_report_alike {L : WsLib} {LL : WsLibLaws L} (ups downs : list (bytes * Z)) (keysU keysD tsU tsD : list Z)
    (client wsA wsB target : conn) (bufA bufB : slice) (n tU tD eA eB I lA1 lA2 lB1 lB2 : Z) (m : meter)
    (netA netB : netw) (fuel : nat)
    (Hconn : Forall (λ c, conn_pending c = []) [client; wsA; wsB; target])
    (Hn : n < 2 ^ 63) (HA : n ≤ slice_cap bufA) (HB : n ≤ slice_cap bufB)
    (Hups : Forall (λ c, Z.of_nat (length (fst c)) ≤ n) ups) (Hdowns : Forall (λ c, Z.of_nat (length (fst c)) ≤ n) downs)
    (HkU : Forall (λ k, 0 ≤ k < 2 ^ 32) keysU) (HkD : Forall (λ k, 0 ≤ k < 2 ^ 32) keysD)
    (HlU : length keysU = length (sent ups)) (HlD : length keysD = length (sent downs))
    (HtU : length tsU = length (sent ups)) (HtD : length tsD = length (sent downs))
    (Hfuel : (length ups + length downs < fuel)%nat) (Hm : meter_ok m) :
  let source chunks t last := {| d_reads := clean_reads chunks t; d_writes := clean_writes chunks; d_lastActive := last; d_delivered := [] |} in
  let total := total_bytes ups + total_bytes downs in
  ∃ dA1 dA2 netA' dB1 dB2 netB',
    copyConn fuel I client wsA (source ups tU lA1) (next_hop true keysD (sent downs) bufA n tsD eA lA2) m netA =
      Some (None, dA1, dA2, meter_add m total, netA') ∧
    copyConn fuel I wsB target (next_hop false keysU (sent ups) bufB n tsU eB lB1) (source downs tD lB2) m netB =
      Some (None, dB1, dB2, meter_add m total, netB') ∧
    d_delivered dB1 = concat (fst <$> ups) ∧ d_delivered dA2 = concat (fst <$> downs).
Proof.
  intros source total.
  assert (Hsrc : ∀ chunks t last m0, (length chunks < fuel)%nat → meter_ok m0 →
    ∃ d, CopyBuffer fuel I (source chunks t last) m0 = Some (None, d, meter_add m0 (total_bytes chunks))).
  { intros chunks t last m0 Hf Hm0. destruct (CopyBuffer_clean chunks t I [] last [] m0 Hm0) as [l Hl].
    rewrite app_nil_r in Hl. eexists. eapply CopyBuffer_fuel; [exact Hl|lia]. }
  assert (Hhop : ∀ s keys (chunks : list (bytes * Z)) buf ts e last m0, Forall (λ k, 0 ≤ k < 2 ^ 32) keys → n ≤ slice_cap buf →
    Forall (λ c, Z.of_nat (length (fst c)) ≤ n) chunks → length keys = length (sent chunks) →
    length ts = length (sent chunks) → (length chunks < fuel)%nat → meter_ok m0 →
    ∃ d, CopyBuffer fuel I (next_hop s keys (sent chunks) buf n ts e last) m0 =
      Some (None, d, meter_add m0 (total_bytes chunks)) ∧ d_delivered d = concat (fst <$> chunks)).
  { intros s keys chunks buf ts e last m0 Hk Hb Hc Hlk Hlt Hf Hm0. by apply hop_clean. }
  apply Forall_cons in Hconn as [Hc1 Hconn]. apply Forall_cons in Hconn as [Hc2 Hconn].
  apply Forall_cons in Hconn as [Hc3 Hconn]. apply Forall_cons in Hconn as [Hc4 _].
  destruct (Hsrc ups tU lA1 m) as [dA1 HA1]; [lia|done|].
  destruct (Hhop true keysD downs bufA tsD eA lA2 (meter_add m (total_bytes ups))) as (dA2 & HA2 & HdA);
    [done..|lia|apply meter_ok_add|].
  destruct (Hhop false keysU ups bufB tsU eB lB1 m) as (dB1 & HB1 & HdB); [done..|lia|done|].
  destruct (Hsrc downs tD lB2 (meter_add m (total_bytes ups))) as [dB2 HB2]; [lia|apply meter_ok_add|].
  rewrite meter_add_add in HA2, HB2. unfold copyConn.
  destruct (BytePool_Get (BufferPool netA)) as [b1 p1]. destruct (BytePool_Get p1) as [b2 p2].
  destruct (BytePool_Get (BufferPool netB)) as [b3 p3]. destruct (BytePool_Get p3) as [b4 p4].
  rewrite !served_none by done. rewrite HA1, HB1. cbn [mbind option_bind]. rewrite HA2, HB2. cbn [mbind option_bind].
  eexists _, _, _, _, _, _. split_and!; [reflexivity|reflexivity|exact HdB|exact HdA].
Qed.

(** ** Witnesses *)

(** A client that sends three bytes, is silent for a moment, sends five and breaks off. *)
Definition client_A : direction :=
  {| d_reads := [mkRead None [1; 2; 3] None 10 None; mkRead None [] (Some (NetError true "i/o timeout")) 20 None;
                 mkRead None [4; 5; 6; 7; 8] None 30 None; mkRead None [] (Some (Errorf "connection reset by peer")) 40 None];
     d_writes := [mkWrite 3 None; mkWrite 5 None]; d_lastActive := 0; d_delivered := [] |}.
Definition meter_0 : meter := mkMeter (mkStats 0 0 0) 0 0.

#[local] Existing Instance Rfc6455.lib.


(** A with buffers of 8 bytes or more, B with buffers of 4. *)
Lemma tunnel_needs_buffers_witness :
  ∃ dB mB', CopyBuffer 2 Second
    (next_hop false [77; 88] [[1; 2]; [3; 4; 5; 6; 7]] (mkSlice 0 4) 4 [50] 60 0) meter_0 =
    Some (Some (Errorf "buffer size:4 too small to transport ws payload size:5"), dB, mB') ∧ d_delivered dB = [1; 2].
Proof.
  destruct (tunnel_needs_buffers [([1; 2], 10)] [] [3; 4; 5; 6; 7] 20 30 Second 0 meter_0 false [77] [] 88 [50]
    (mkSlice 0 4) 4 4 60 Second 0 meter_0) as (_ & dB & mB' & H1 & H2);
    try done; try (repeat constructor; simpl; lia); try (simpl; lia).
  exists dB, mB'. split; [exact H1|exact H2].
Defined.

(** A client says hello and more, the target answers; the buffers have 8 bytes. *)
Lemma relays_report_alike_witness :
  ∃ dA1 dA2 netA' dB1 dB2 netB' ,
    copyConn 4 Second (SockConn 1 true) (WsConn (SockConn 2 true) false (mkSlice 0 8))
      {| d_reads := clean_reads [([1; 2], 10); ([3], 20)] 30; d_writes := clean_writes [([1; 2], 10); ([3], 20)];
         d_lastActive := 0; d_delivered := [] |}
      (next_hop true [0] [[9; 8; 7]] (mkSlice 0 8) 8 [40] 50 0) meter_0 sample_netw =
      Some (None, dA1, dA2, meter_add meter_0 6, netA') ∧
    copyConn 4 Second (WsConn (SockConn 3 false) true (mkSlice 1 8)) (SockConn 4 true)
      (next_hop false [5; 6] [[1; 2]; [3]] (mkSlice 1 8) 8 [15; 25] 60 0)
      {| d_reads := clean_reads [([9; 8; 7], 35)] 45; d_writes := clean_writes [([9; 8; 7], 35)];
         d_lastActive := 0; d_delivered := [] |} meter_0 sample_netw =
      Some (None, dB1, dB2, meter_add meter_0 6, netB') ∧
    d_delivered dB1 = [1; 2; 3] ∧ d_delivered dA2 = [9; 8; 7].
Proof.
  apply (relays_report_alike [([1; 2], 10); ([3], 20)] [([9; 8; 7], 35)] [5; 6] [0] [15; 25] [40] (SockConn 1 true)
    (WsConn (SockConn 2 true) false (mkSlice 0 8)) (WsConn (SockConn 3 false) true (mkSlice 1 8)) (SockConn 4 true)
    (mkSlice 0 8) (mkSlice 1 8) 8 30 45 50 60 Second 0 0 0 0 meter_0 sample_netw sample_netw 4);
    try (repeat constructor; simpl; lia); try (simpl; lia); done.
Defined.
